(* ===== verification/_CoqProject ===== *)
-Q . S2P
Prelude.v
Layout.v
Arena.v
Array.v
Growth.v
Table.v
Map.v
Iter.v
Msg.v
Presence.v
Record.v
Store.v
Amortised.v
Frame.v
Api.v
Typed.v
Model.v
Sim.v
Exec.v
Refine.v
Ndebug.v
