(* ===== verification/Prelude.v ===== *)
(** * Verification of upb's reflection layer (src/upb/reflection.c)

    ** The program

    [src/upb/reflection.c] is the dynamic message-access layer of upb, a small
    protobuf runtime written in C.  It has three parts that share one
    representation of values:

    - the record accessor ([upb_msg_new], [upb_msg_has], [upb_msg_get],
      [upb_msg_mutable], [upb_msg_set]) reads and writes the fields of a
      message, an untyped block of bytes, through a per-field layout entry
      (offset, presence, descriptor type);
    - the array container ([upb_array_size], [upb_array_get], [upb_array_set],
      [upb_array_append], [upb_array_resize]) is a growable vector whose
      element width [1 << lg2] is stored in the low three bits of its data
      pointer;
    - the map container ([upb_map_new], [upb_map_size], [upb_map_get],
      [upb_map_set], [upb_map_delete], [upb_mapiter_next], [upb_mapiter_key],
      [upb_mapiter_value]) stores fixed-width keys and values in a string
      table.

    The accessor creates arrays, maps and sub-messages lazily
    ([upb_msg_mutable]) and stores their addresses in the message, so the
    three parts meet in the arena that owns every object.

    ** Machine model

    The model fixes what the C code leaves to the platform: LP64, little
    endian, [sizeof(void* )] = [sizeof(size_t)] = 8, [sizeof(upb_strview)] =
    [sizeof(upb_msgval)] = 16, [int] of 32 bits.  Integers of the program are
    [Z] with the wrap-around written out ([wrap], [swrap]); bytes are
    coqutil's [byte] and multi-byte objects are little-endian byte lists
    ([le_split], [le_combine]).  Undefined behaviour and failed assertions
    are values: every operation returns a [res], either [Ok] or [Err] with
    the [fault] ([AssertFailed] for a [UPB_ASSERT] that does not hold in a
    debug build, [OutOfBounds] for an access outside its object,
    [BadPointer] for an address that is no object of the expected kind,
    [Indeterminate] for a read of bytes that were never written,
    [Diverges] for a loop that does not end).  [UPB_ASSERT] is defined
    outside reflection.c; every file but [Ndebug] models the build that
    checks it, and [Ndebug] the build that compiles it to nothing.

    Memory is a store of separate objects: a pointer is the base address
    of an object and an offset ([ptr]), [memcpy] from and into an object
    is [mem_load] and [mem_store], the members of an array or map header
    are read through [get_array] and [get_map], and an access that leaves
    its object is the fault [OutOfBounds], never an access to a
    neighbour.  These primitives give the C operations of reflection.c
    their meaning; they are the model of the memory, not translations of
    lines of the file.  A value ([upb_msgval]) is the list of its bytes,
    so a copy of [1 << lg2] bytes out of an array is that many bytes,
    whatever the tag of the data pointer says.  An index or a size is the
    value of a [size_t] argument, an integer from 0 to 2^64 - 1: the
    theorems bound it below by 0, and what the definitions answer on
    other integers describes no call.

    ** Files

    - [Prelude] (this file): the result monad and its notations (scope
      [upb_scope]), fixed-width integers, byte blocks with [load_bytes] and
      [store_bytes] (the model of [memcpy] from and into an object), the
      hint databases [upb] and [upb_rw], the tactics [res_inv], [case_res]
      and [bits], and the lemmas on tagged pointers, on little-endian
      encodings and on lists that the components share.
    - [Layout]: the data shared by the three parts.  The width tables
      [field_size] and [_upb_fieldtype_to_mapsize] (reflection.c 10-46) as
      the lists they are, indexed like the C arrays ([table_index]); the
      enumerations of field and descriptor types; the layout entry
      [upb_msglayout_field] and the field definition [upb_fielddef] as
      reflection.c reads them, with decidable equality
      ([fielddef_eq_dec]); the union [upb_msgval] as the list of its
      initialised bytes, with one writer ([msgval_int32], ...) and one
      reader ([int32_val], ...) per member.
    - [Arena]: the store.  An arena is a finite map from 16-aligned base
      addresses to objects (byte blocks, array headers, map headers) with a
      bump pointer and a limit; [upb_arena_malloc] returns NULL exactly
      when the limit would be passed or no byte is asked for, and
      [upb_arena_realloc] allocates a block and copies the old bytes
      into it.  Pointers into an object are pairs
      of a base and an offset.  [arena_wf] is the invariant of the
      allocator; [arena_ext] is the order "every block is still there with
      the same bytes", a preorder in which loads are monotone; [arena_le]
      is the order "every object is still there with its kind", the kind
      of an object being the size of a block, the element width of an
      array or the key and value widths of a map.
    - [Array]: the array container (reflection.c 164-197) over the arena,
      its invariant [array_wf], the abstraction [array_elems] to a list of
      elements and the refinement theorems ([upb_array_get] is list lookup,
      [upb_array_set] is list update, [upb_array_append] is snoc).
      [upb_array_new] and [_upb_array_realloc] belong to upb's message
      module and are modelled from their contract: the reallocation
      computes its byte counts as [size_t] products and leaves the copy
      to the arena, so a byte count that wrapped around below the bytes
      in use makes the copy leave the new block.
    - [Growth]: the capacity loop of [_upb_array_realloc] against its
      closed form [capacity_ref], and the requests the doubling cannot
      reach.
    - [Table]: the string table under a map, as an interface: the class
      [StrTable] of its operations with the laws [StrTableLaws].  The list
      of slots [strtable] that the arena stores is the instance
      [slots_table], and [slots_laws] discharges the laws.  [contents] is
      the finite map (stdpp's [gmap]) that a table stands for; on a lawful
      table insertion, removal, lookup and count are those of the map.
    - [Map]: the map container (reflection.c 201-243).  The functions
      forward to inline helpers of upb's message module ([_upb_map_get],
      [_upb_map_set], ...), modelled from their contract over [StrTable];
      the theorems on the map are proved against the interface.
      [map_contents] is the finite map a map of the arena stands for.
    - [Iter]: the walk a caller makes over a map with [upb_mapiter_next]
      ([upb_mapiter_advance]) and what it reaches.
    - [Msg]: the record accessor (reflection.c 53-158): presence by hasbit
      or oneof case, reads with defaults, writes, lazy creation of
      sub-objects; the invariants [msg_wf] (the message is a block of the
      layout's size) and [field_wf] (the field, its hasbit and its case
      word lie inside the block).
    - [Presence]: the accessor as the specification describes it: the
      presence of a field as one of three cases ([Presence],
      [presence_of]), the presence test that reads the bit ([has_ref]),
      the defaults of the schema ([default_ref]) and the read that
      returns them for a field that is not set ([get_ref]); a reference
      to compare [upb_msg_has] and [upb_msg_get] with, modelled from
      the specification.
    - [Record]: the abstraction of a message: [msg_record] is the finite
      map from the numbers of the fields that read as set to their bytes,
      [rec_get], [rec_set] and [rec_new] are the operations on records,
      and [layout_ok] (decided by [layout_ok_b]) is what a layout has to
      satisfy: fields inside the block, distinct numbers, and any two
      fields members of one oneof or apart with their case words.
    - [Store]: the invariant of the arena as a whole, [store_wf]: the
      allocator's invariant, every block inside the allocated part, every
      array header [array_wf], every map header [map_wf], and no two
      arrays with the same buffer ([unshared]); it is kept by the three
      ways the code changes the arena (allocation, [memcpy] into a
      block, writing a header back) and hence by every function.
    - [Amortised]: what a run of appends takes from the arena, counted
      on its bump pointer: the cost of one growth and of one append, and
      the invariant of a run ([growth_inv]).
    - [Frame]: who writes where.  [quiet W] relates the arena before
      and after an update that writes into array buffers and new blocks
      only and changes no container but those of [W]; it is a preorder,
      shown of the ways the code changes the arena and then of the
      constructors and of every array and map function.  [keeps W] is
      its part on the containers: an array outside [W] has its header
      and the bytes of its buffer, a map outside [W] its header.
      [private] is a block that no array uses as its buffer.
    - [Api]: the functions that change the arena as one type of calls
      ([call], [run]), the contract of each call ([call_valid]), the
      container a call is given ([call_target]) and the message it
      writes into ([call_writes]), and the states a program reaches from
      an empty arena ([reachable]), with what holds in all of them.
    - [Typed]: the store typed by the schema.  A typing maps the address
      of every message to its definition ([upb_msgdef]); [typed] says
      that each handle field of each message holds NULL or an object of
      the field's kind ([handle_ok]).  A schema is a set of definitions
      closed under sub-definitions, each [msgdef_ok] (a well-formed
      layout whose handle fields can be created and share no oneof,
      checked by [msgdef_ok_b]); [call_typed] is the contract of a call of a typed
      program and [type_step] the typing after it.
    - [Model]: what the interface promises, without the arena.  A store
      of abstract objects ([aobject]) under the handles the functions
      return: a message is its record, an array the list of its elements
      with the logarithm of their width, a map a finite map from key
      bytes to value bytes with its two widths, a string the bytes a
      caller has put into the arena.  The operations ([op]) are the
      calls of [Api], the six functions that only read ([query]) and
      the caller's allocation of a string ([op_string]); [astep] is the
      labelled transition system of the machine, one rule per function
      and outcome, whose premises are the contract of the function.  A
      string key is the bytes its view points to ([key_of]); a string
      value is the view itself, which is what the map copies.  The
      machine does not choose the address of a new object nor whether
      the arena has room: a constructor returns NULL or any handle that
      is not in the store, an append or an insertion may return false.
      Given the result, the next store is determined ([astep_det]).
    - [Sim]: the arena and the abstract store.  [exec] and [ask] are the
      functions with what they return, [perform] an operation on the
      arena and [trace] a program with its results; [sim] relates an
      arena to an abstract store: the arena is a well-formed store,
      every abstract object is there ([obj_sim]) and the blocks an
      object owns are no objects of the store.  A message is a block
      that is no buffer and stands for its record, an array has the
      width and the elements, a map has the widths and the bindings and
      owns the blocks of its entries ([entry_ok]): the copy of a string
      key ([key_block]) and the copy of the view of a string value
      ([val_block]); a string is a block that is no buffer with its
      bytes.  The frame
      [sim_update] puts a new object under one handle and keeps every
      other object of the store.
    - [Exec]: the machine as a function.  [astep_fun] is the store
      after an operation that returned a result, if the machine has
      such a step; it is the relation [astep]
      ([astep_fun_sound], [astep_fun_complete]).  [result_of] is a
      result the machine allows when it allows any, which makes
      [enabled] decidable ([enabled_b]), and [ops_enabled_b] decides
      the premise of the refinement of a program by running the
      program on the arena and the machine beside it.
    - [Refine]: reflection.c implements the machine: one lemma per
      function ([refine_*]), the diagram for an operation
      ([perform_refines]) and for a program ([trace_refines]), the
      converse for a step with the result that was returned
      ([sim_step]), the contracts of [Api] from the premises of the
      machine ([enabled_call_valid]), the reads of two arenas that
      stand for one store ([reads_agree]), and the loop over the
      iterator against the abstract map.
    - [Ndebug]: the build without assertions.  The functions of
      reflection.c that hold a [UPB_ASSERT] ([oneofcase], [upb_msg_has],
      [upb_msg_mutable], [upb_array_get], [upb_array_set]) and the
      functions that call them ([upb_msg_get], [upb_msg_set],
      [upb_array_append]) are translated once more without the
      assertion (suffix [_ndebug]), with the calls, reads and programs
      over them ([exec_ndebug], [ask_ndebug], [perform_ndebug],
      [trace_ndebug]).

    Each file has its definitions first (with the values of its examples
    and the boolean checks of its invariants, such as [array_wf_b], which
    the witnesses evaluate), then its lemmas, then its properties, each
    followed by a witness that applies it to a concrete state.

    ** What is proved

    - Tables: [field_size] is exactly the table of member widths of the
      eighteen descriptor types, every entry fits a [upb_msgval], and
      indexing outside the table is a fault; [_upb_fieldtype_to_mapsize]
      gives scalars their width and strings 0.
    - Accessor: [upb_msg_set] followed by [upb_msg_get] returns the written
      bytes for every kind of presence; a write leaves the fields that lie
      apart unchanged, and changes no array or map; writing a oneof member
      makes it the selected member and deselects every sibling, whose read
      yields its default; [upb_msg_has] on a field without presence fails
      its assertion; [upb_msg_has] on a hasbit field is [true] whatever
      the bit holds (the code combines with [|] where a test needs [&]),
      hence [upb_msg_get] never returns the default of a hasbit field;
      [upb_msg_set] never changes a hasbit; the default of a bool field is
      written through [double_val], so its [bool_val] reads false;
      a new message reads as zeros; [upb_msg_mutable] creates the object
      the field's kind asks for, stores its handle, is idempotent, and
      changes nothing when the arena is exhausted.
    - Accessor against the specification: [upb_msg_has] is the
      reference presence test or-ed with "the field has a hasbit";
      [upb_msg_get] is the reference wherever the field is always live
      or the reference test is true; on a member of a oneof that is not
      selected both return a default, which is the same unless the
      field is a bool of default true or a string of a default that is
      not empty; on a hasbit field whose bit is clear the reference
      returns the default and the code the bytes of the field
      ([upb_msg_get_reference], [example_scenario]).
    - Record: on a well-formed layout the accessor refines a record:
      get is lookup with the default, has is membership, set is insertion
      after the removal of the other members of the oneof, mutable is
      insertion of the handle it returns at a field that held this
      handle or NULL, and a new message is the record in which every
      field outside a oneof holds zeros (a hasbit field included: the
      default it declares is never returned).
    - Array: get, set and append refine list lookup, update and snoc and
      keep the invariant; any sequence of successful appends yields the
      appended values in order; append leaves the arena unchanged when it
      is exhausted; [upb_array_resize] forwards to the reallocation
      and, with the reallocation as modelled, reserves capacity only; a
      new array is empty.
    - Array growth: the capacity after a growth is [max(size, 4)] times
      the least power of two that suffices (the loop equals the closed
      form); a request above 2^63 elements makes the loop run for ever;
      a request between 2^58 and 2^63 elements is refused with nothing
      changed: its byte count is more than an arena holds, or wraps
      around to 0, for which the arena hands out no block
      ([upb_array_resize_large]).
      A run of [n] appends to an empty array takes at most
      [4 * (n + 1)] element widths and 16 bytes from the arena: the
      buffers that the growths leave behind add up to less than the
      last one.
    - Map: the map refines a finite map (size, get, set, delete are size,
      lookup, insert, delete of [map_contents]); get after set, get of
      another key after set, get after delete, the size after set and
      delete, a failed set changes nothing, a new map is empty, and the
      loop over the iterator ends and visits the entries in slot order,
      their number being the size; every entry that get finds is reached
      by the walk within fewer steps than the map has entries.

    - Reachable states: every function keeps the allocator's invariant
      [arena_wf] and every handle ([preserves], proved per function and
      composed through the preorder [arena_le]); hence the invariant holds
      in every state reachable from an empty arena.
    - The store: every function keeps [store_wf] on whatever address it
      is called (preservation), and a call that meets its contract
      returns without a fault (progress); hence a program whose calls
      meet their contracts never fails an assertion, never reads or
      writes out of bounds and never loops, and all its arrays and maps
      stay well formed.
    - Isolation: the array and map functions and the constructors write
      into array buffers and new blocks only, [upb_msg_set] and
      [upb_msg_mutable] besides that into the message they are given;
      hence a message or the bytes of a string keep their contents
      through every sequence of calls on other objects, and never become
      the buffer of an array.
    - Separation: a call changes the array or the map it is given and
      no other: every other array keeps its header and its elements,
      every other map its header and its contents, through every
      sequence of calls, as long as no call is given the buffer of an
      array as its message; the calls of a typed program never are.
    - Typing: a typed call returns (progress) in a typed store
      (preservation): [upb_msg_new] makes a message of its definition,
      [upb_msg_set] on a field that holds no handle leaves every handle
      as it is, [upb_msg_mutable] returns NULL or an object of the kind
      and widths the schema gives the field, and the array and map
      functions do not touch a message.  Hence a typed program run from
      an empty arena never goes wrong and every handle it reads from a
      message is what the schema says.  The containers behind the
      handles work as the schema says: the array of a repeated field
      takes by [upb_array_append] any value as wide as the field's type,
      the map of a map field takes by [upb_map_set] any key and value as
      wide as the key and the value of its entry type, and
      [upb_map_get] finds the value.
    - Simulation: in an arena that an abstract store stands for, every
      operation the machine has a step for returns without a fault, the
      machine has a step with the same result, and the store after the
      step stands for the arena after the operation (a forward
      simulation with progress, one lemma per function on top of the
      refinements of [Array], [Map] and [Record] and of the frame
      [keeps]: the objects the function is not given are as they were).
      Hence a program run from the empty arena whose operations are
      enabled runs to its end, and what it returns is a trace of the
      machine from the empty store; every read returns what the abstract
      store says.  Conversely a step of the machine with the result the
      function returned leads to a store that stands for the arena
      ([sim_step], by the determinism of the machine).  A map with
      string keys finds a binding through any view of the same bytes.
      The loop over the iterator of a map ends and returns each binding
      of the abstract map once; the key it returns for a string key is
      a view of the table's copy of the key, and resolves to the key of
      the binding ([entry_key_roundtrip]).  An operation the machine
      enables meets the contract of its function, and two arenas that
      stand for the same store answer every read alike.  The machine
      is executable: the function [astep_fun] is the relation, being
      enabled is decidable, and the examples are checked by running
      the program on the arena and the machine beside it.
    - The two builds: a program that the build with assertions runs to
      its end from any arena runs to its end without them, with the same
      results and the same final arena ([upb_trace_ndebug]); hence the
      unchecked build implements the abstract machine as well: a
      program whose operations are enabled runs to its end in it, and
      what it returns is a trace of the machine ([upb_program_ndebug]).  [upb_msg_get] and [upb_msg_set] are the
      same function in the two builds on every input and never fail an
      assertion: the calls they make are behind the test the assertion
      repeats ([upb_msg_accessor_ndebug]); so is [upb_array_append] on
      every header whose length is not the last [size_t]
      ([upb_array_append_ndebug_same]).  Where a contract is broken the
      unchecked build goes on: [upb_msg_has] of a field without
      presence answers true ([upb_msg_has_ndebug_untracked]), and a read
      past the length of an array returns the bytes of the spare
      capacity ([example_get_past_len]).

    ** Bounds and fuel

    - The capacity-doubling loop of [_upb_array_realloc]
      ([realloc_capacity]) has fuel 64: a 64-bit size doubles at most 64
      times before it passes any request below 2^63, and the lemma
      [realloc_capacity_enough] shows that the fuel suffices for requests
      of at most 2^58 elements, the bound the array theorems assume (with
      elements of at most 16 bytes the byte count then stays below 2^63).
      For requests above 2^63 no fuel suffices
      ([realloc_capacity_diverges]): the fault [Diverges] that the model
      returns there is the behaviour of the loop, not an artefact of the
      fuel.  In between the fuel suffices as well
      ([realloc_capacity_pow2]: from a power of two the loop ends within
      63 doublings).
    - The store is at most [arena_max] = 2^58 bytes ([store_wf]), more
      than any machine addresses; an array in it has fewer than 2^58
      elements, which is what keeps [arr->len + 1] and [size << lg2] from
      wrapping around.  The size asked of [upb_array_resize] is bounded by
      the same number in [call_bounded], and the index given to
      [upb_array_set], a [size_t] in the code, is not negative; nothing
      else is bounded.
    - The walk over the iterator ([upb_mapiter_advance]) takes the number
      of steps as an argument; [upb_mapiter_reaches] bounds the number
      needed by the size of the map.
    - The loop over the map iterator ([upb_map_entries]) takes its fuel as
      an argument; [upb_map_entries_all] shows that any fuel above the
      number of slots of the table is enough, and
      [upb_map_entries_refine] that any fuel above the number of
      bindings is, for tables of fewer than 2^64 - 1 slots (the cursor
      is a [size_t] and [UPB_MAP_BEGIN] is its largest value).
    - A program of the abstract machine is a list: [trace] recurses on
      it and needs no fuel.
    - No other definition uses fuel.

    ** Not modelled

    Schema compilation (how layouts and field definitions are produced),
    the wire format, the arena's block management and the hash table's
    buckets are outside reflection.c; they appear only through the
    interfaces above and are marked as modelled from the specification in
    the project's map.  The internal header that precedes a message and
    the growth of the string table are left out.  A string view used as a
    map key is resolved only when it points at the start of a block of the
    arena.  The typing of the store covers handle fields that share their
    bytes with no other field: a map, repeated or sub-message field that
    is a member of a oneof with other members is outside it, since
    [upb_msg_mutable] does not look at the case word
    ([example_oneof_handle]); what the elements of an array of messages
    or the values of a map of messages point to is not typed either.
    In the abstract machine a string key has to be empty or a view of
    the first bytes of a string that an operation of the machine put
    into the arena: a view into the middle of a block, or into a block
    the machine does not know, is not resolved.  The key the iterator
    returns for a map with string keys is a view of the table's own copy
    of the key, which the abstract store does not hold: the iteration
    is related to the abstract map through the arena, which resolves
    the view ([entry_keyed]), and the machine has no operation for it.
    A cursor is no value of the machine: its cursors are indices into
    the slots of the table ([Iter] treats them on the table).
    Floating-point values are carried as their bit patterns: the code
    only copies them.  Concurrency is out of scope: the code has no
    synchronisation and the specification rules concurrent mutation out. *)

From Stdlib Require Import ZArith Lia List.
From coqutil Require Import Byte Word.LittleEndianList Z.bitblast.
From stdpp Require Import base tactics list numbers countable.

#[local] Open Scope Z_scope.

(** ** Results and faults *)

Inductive fault : Set :=
| AssertFailed
| OutOfBounds
| BadPointer
| Indeterminate
| Diverges.

Inductive res (A : Type) : Type :=
| Ok (a : A)
| Err (e : fault).

Arguments Ok {A} a.
Arguments Err {A} e.

#[export] Instance byte_eq_dec : EqDecision byte := Byte.byte_eq_dec.

#[export] Instance byte_countable : Countable byte :=
  inj_countable Byte.to_N Byte.of_N Byte.of_to_N.

#[export] Instance fault_eq_dec : EqDecision fault.
Proof. solve_decision. Defined.

#[export] Instance res_eq_dec {A} `{EqDecision A} : EqDecision (res A).
Proof. solve_decision. Defined.

Definition bind {A B} (m : res A) (k : A -> res B) : res B :=
  match m with
  | Ok a => k a
  | Err e => Err e
  end.

Definition is_Ok {A} (m : res A) : Prop :=
  match m with Ok _ => True | Err _ => False end.

(** A fallible function over a list, stopping at the first fault. *)
Fixpoint res_mapM {A B} (f : A -> res B) (l : list A) : res (list B) :=
  match l with
  | [] => Ok []
  | x :: l' =>
      match f x with
      | Ok y => match res_mapM f l' with Ok ys => Ok (y :: ys) | Err e => Err e end
      | Err e => Err e
      end
  end.

Definition res_to_option {A} (m : res A) : option A :=
  match m with Ok a => Some a | Err _ => None end.

Declare Scope upb_scope.
Delimit Scope upb_scope with upb.

Notation "x <- e ;; k" := (bind e (fun x => k))
  (at level 100, e at next level, k at level 200, right associativity) : upb_scope.
Notation "'assert!' c ;; k" := (if c then k else Err AssertFailed)
  (at level 100, c at next level, k at level 200, right associativity) : upb_scope.
Notation "'valid!' c ;; k" := (if c then k else Err BadPointer)
  (at level 100, c at next level, k at level 200, right associativity) : upb_scope.

Notation "'fits!' c ;; k" := (if c then k else Err OutOfBounds)
  (at level 100, c at next level, k at level 200, right associativity) : upb_scope.

#[global] Open Scope upb_scope.

(** ** Fixed-width integers *)

(** The value of [z] as an unsigned [w]-bit integer. *)
Definition wrap (w z : Z) : Z := z mod 2 ^ w.

(** The value of [z] as a two's complement [w]-bit integer. *)
Definition swrap (w z : Z) : Z := (z + 2 ^ (w - 1)) mod 2 ^ w - 2 ^ (w - 1).

Definition in_unsigned (w z : Z) : Prop := 0 <= z < 2 ^ w.
Definition in_signed (w z : Z) : Prop := - 2 ^ (w - 1) <= z < 2 ^ (w - 1).

#[export] Instance in_unsigned_dec w z : Decision (in_unsigned w z).
Proof. unfold in_unsigned. apply _. Defined.

#[export] Instance in_signed_dec w z : Decision (in_signed w z).
Proof. unfold in_signed. apply _. Defined.

(** ** Byte blocks *)

Definition zeros (n : nat) : list byte := replicate n Byte.x00.

(** [ofs .. ofs + n) lies inside the block [m]. *)
Definition in_bounds (m : list byte) (ofs n : Z) : Prop :=
  0 <= ofs /\ 0 <= n /\ ofs + n <= Z.of_nat (length m).

(** A proposition with a boolean check is decidable. *)
Definition decision_of_bool (P : Prop) (b : bool) (H : b = true <-> P) : Decision P :=
  match b as c return (c = true <-> P) -> Decision P with
  | true => fun H => left (proj1 H eq_refl)
  | false => fun H => right (fun p => Bool.diff_false_true (proj2 H p))
  end H.

#[export] Instance in_bounds_dec m ofs n : Decision (in_bounds m ofs n).
Proof. unfold in_bounds. apply _. Defined.

(** [memcpy(dst, m + ofs, n)]: the [n] bytes of [m] from [ofs]. *)
Definition load_bytes (m : list byte) (ofs n : Z) : res (list byte) :=
  if decide (in_bounds m ofs n)
  then Ok (take (Z.to_nat n) (drop (Z.to_nat ofs) m))
  else Err OutOfBounds.

(** [memcpy(m + ofs, v, length v)]: [m] with [v] written at [ofs]. *)
Definition store_bytes (m : list byte) (ofs : Z) (v : list byte) : res (list byte) :=
  if decide (in_bounds m ofs (Z.of_nat (length v)))
  then Ok (take (Z.to_nat ofs) m ++ v ++ drop (Z.to_nat ofs + length v) m)
  else Err OutOfBounds.

(** The first [n] bytes of a source object [v] of which only [length v]
    bytes were ever written: reading past them reads indeterminate bytes. *)
Definition prefix_bytes (v : list byte) (n : Z) : res (list byte) :=
  if decide (0 <= n <= Z.of_nat (length v))
  then Ok (take (Z.to_nat n) v)
  else Err Indeterminate.

(** Little-endian decoding of a block as an unsigned and as a signed integer. *)
Definition dec_unsigned (bs : list byte) : Z := le_combine bs.
Definition dec_signed (bs : list byte) : Z :=
  swrap (8 * Z.of_nat (length bs)) (le_combine bs).

(** ** Tactics *)

(** Inverts hypotheses of the form [bind m k = Ok b] and [Ok a = Ok b]. *)
Ltac res_inv :=
  repeat match goal with
  | H : Ok _ = Ok _ |- _ => injection H as H; try subst
  | H : Err _ = Ok _ |- _ => discriminate H
  | H : Ok _ = Err _ |- _ => discriminate H
  | H : Err _ = Err _ |- _ => injection H as H; try subst
  | H : bind ?m _ = Ok _ |- _ =>
      let E := fresh "E" in destruct m eqn:E; cbn [bind] in H
  | H : (if ?c then _ else Err _) = Ok _ |- _ =>
      let E := fresh "E" in destruct c eqn:E; [|discriminate H]
  end.

(** Case analysis on the first [decide] or [bool_decide] of the goal, or of
    a hypothesis when the goal has none. *)
Ltac case_res :=
  match goal with
  | |- context [decide ?P] => destruct (decide P)
  | |- context [bool_decide ?P] => destruct (bool_decide_reflect P)
  | H : context [decide ?P] |- _ => destruct (decide P)
  | H : context [bool_decide ?P] |- _ => destruct (bool_decide_reflect P)
  end.

(** Equations between bit-level expressions, bit by bit. *)
Ltac bits :=
  Z.bitblast; subst; rewrite ?Z.testbit_neg_r by lia; Z.bitblast_core.

(** ** Lemmas on results *)

Lemma bind_Ok {A B} (m : res A) (k : A -> res B) b :
  bind m k = Ok b <-> exists a, m = Ok a /\ k a = Ok b.
Proof.
  destruct m as [a|e]; cbn; split.
  - eauto.
  - intros (a' & [= <-] & H). exact H.
  - discriminate.
  - intros (a' & [=] & _).
Qed.

Lemma bind_Err {A B} (m : res A) (k : A -> res B) e :
  m = Err e -> bind m k = Err e.
Proof. intros ->. reflexivity. Qed.

Lemma bind_assoc {A B C} (m : res A) (k : A -> res B) (h : B -> res C) :
  bind (bind m k) h = bind m (fun a => bind (k a) h).
Proof. destruct m; reflexivity. Qed.

Lemma is_Ok_iff {A} (m : res A) : is_Ok m <-> exists a, m = Ok a.
Proof.
  destruct m; cbn; split; eauto; try tauto.
  intros (a & [=]).
Qed.

(** ** Lemmas on fixed-width integers *)

Lemma pow2_pos w : 0 <= w -> 0 < 2 ^ w.
Proof. intros. apply Z.pow_pos_nonneg; lia. Qed.

Lemma wrap_range w z : 0 <= w -> in_unsigned w (wrap w z).
Proof. intros. apply Z.mod_pos_bound, pow2_pos; assumption. Qed.

Lemma wrap_small w z : in_unsigned w z -> wrap w z = z.
Proof. intros. apply Z.mod_small. assumption. Qed.

Lemma wrap_wrap w z : wrap w (wrap w z) = wrap w z.
Proof. unfold wrap. apply Zmod_mod. Qed.

Lemma swrap_range w z : 0 < w -> in_signed w (swrap w z).
Proof.
  intros Hw. unfold in_signed, swrap.
  assert (2 ^ w = 2 * 2 ^ (w - 1)) as E.
  { rewrite <- Z.pow_succ_r by lia. f_equal. lia. }
  pose proof (Z.mod_pos_bound (z + 2 ^ (w - 1)) (2 ^ w) (pow2_pos w ltac:(lia))).
  lia.
Qed.

Lemma swrap_small w z : 0 < w -> in_signed w z -> swrap w z = z.
Proof.
  intros Hw [Hlo Hhi]. unfold swrap.
  assert (2 ^ w = 2 * 2 ^ (w - 1)) as E.
  { rewrite <- Z.pow_succ_r by lia. f_equal. lia. }
  rewrite Z.mod_small by lia. lia.
Qed.

Lemma swrap_wrap w z : 0 < w -> swrap w (wrap w z) = swrap w z.
Proof.
  intros Hw. unfold swrap, wrap.
  rewrite Zplus_mod_idemp_l. reflexivity.
Qed.

Lemma wrap_swrap w z : 0 < w -> wrap w (swrap w z) = wrap w z.
Proof.
  intros Hw. unfold swrap, wrap.
  rewrite Zminus_mod_idemp_l.
  f_equal. lia.
Qed.

(** ** Tagged pointers and bit tests *)

Lemma aligned_shiftl p : p mod 8 = 0 -> exists q, p = Z.shiftl q 3.
Proof.
  intros H. exists (p / 8). rewrite Z.shiftl_mul_pow2 by lia.
  change (2 ^ 3) with 8. Z.div_mod_to_equations. lia.
Qed.

Lemma small_land t : 0 <= t < 8 -> exists u, t = Z.land u (Z.ones 3).
Proof.
  intros H. exists t. rewrite Z.land_ones by lia.
  symmetry. apply Z.mod_small. exact H.
Qed.

(** The tag of a tagged pointer: its three low bits. *)
Lemma tag_low p t : p mod 8 = 0 -> 0 <= t < 8 -> Z.land (Z.lor p t) 7 = t.
Proof.
  intros [q ->]%aligned_shiftl [u ->]%small_land. change 7 with (Z.ones 3). bits.
Qed.

(** The pointer of a tagged pointer: the rest. *)
Lemma tag_high p t : p mod 8 = 0 -> 0 <= t < 8 -> Z.land (Z.lor p t) (Z.lnot 7) = p.
Proof.
  intros [q ->]%aligned_shiftl [u ->]%small_land. change 7 with (Z.ones 3). bits.
Qed.

Lemma tag_plus p t : p mod 8 = 0 -> 0 <= t < 8 -> Z.lor p t = p + t.
Proof.
  intros [q ->]%aligned_shiftl [u ->]%small_land. apply Z.or_to_plus. bits.
Qed.

Lemma mod16_mod8 p : p mod 16 = 0 -> p mod 8 = 0.
Proof. intros H. Z.div_mod_to_equations. lia. Qed.

(** An integer with a bit or-ed in is not zero. *)
Lemma lor_bit_nonzero b k : 0 <= k -> Z.lor b (Z.shiftl 1 k) <> 0.
Proof.
  intros Hk H. apply Z.lor_eq_0_iff in H as [_ H].
  apply Z.shiftl_eq_0_iff in H; lia.
Qed.

Lemma shiftl_1_pos k : 0 <= k -> 0 < Z.shiftl 1 k.
Proof. intros. rewrite Z.shiftl_1_l. apply pow2_pos. assumption. Qed.

(** ** Lemmas on byte blocks *)

Lemma length_zeros n : length (zeros n) = n.
Proof. apply length_replicate. Qed.

Lemma le_combine_zeros n : le_combine (zeros n) = 0.
Proof.
  induction n as [|n IH]; [reflexivity|].
  change (Z.lor (byte.unsigned Byte.x00) (Z.shiftl (le_combine (zeros n)) 8) = 0).
  rewrite IH. reflexivity.
Qed.

Lemma load_bytes_Ok m ofs n :
  in_bounds m ofs n ->
  load_bytes m ofs n = Ok (take (Z.to_nat n) (drop (Z.to_nat ofs) m)).
Proof. intros H. unfold load_bytes. rewrite decide_True by assumption. reflexivity. Qed.

Lemma load_bytes_Err m ofs n :
  ~ in_bounds m ofs n -> load_bytes m ofs n = Err OutOfBounds.
Proof. intros H. unfold load_bytes. rewrite decide_False by assumption. reflexivity. Qed.

Lemma load_bytes_inv m ofs n v :
  load_bytes m ofs n = Ok v ->
  in_bounds m ofs n /\ v = take (Z.to_nat n) (drop (Z.to_nat ofs) m).
Proof. unfold load_bytes. case_res; intros [=]; auto. Qed.

Lemma load_bytes_length m ofs n v :
  load_bytes m ofs n = Ok v -> length v = Z.to_nat n.
Proof.
  intros [(? & ? & ?) ->]%load_bytes_inv.
  rewrite length_take, length_drop. lia.
Qed.

Lemma store_bytes_Ok m ofs v :
  in_bounds m ofs (Z.of_nat (length v)) ->
  store_bytes m ofs v =
    Ok (take (Z.to_nat ofs) m ++ v ++ drop (Z.to_nat ofs + length v) m).
Proof. intros H. unfold store_bytes. rewrite decide_True by assumption. reflexivity. Qed.

Lemma store_bytes_inv m ofs v m' :
  store_bytes m ofs v = Ok m' ->
  in_bounds m ofs (Z.of_nat (length v)) /\
  m' = take (Z.to_nat ofs) m ++ v ++ drop (Z.to_nat ofs + length v) m.
Proof. unfold store_bytes. case_res; intros [=]; auto. Qed.

Lemma store_bytes_length m ofs v m' :
  store_bytes m ofs v = Ok m' -> length m' = length m.
Proof.
  intros [(? & ? & ?) ->]%store_bytes_inv.
  rewrite !length_app, length_take, length_drop. lia.
Qed.

Lemma in_bounds_store m ofs v m' o n :
  store_bytes m ofs v = Ok m' -> in_bounds m' o n <-> in_bounds m o n.
Proof. intros H%store_bytes_length. unfold in_bounds. rewrite H. tauto. Qed.

(** A load of the region just written returns what was written. *)
Lemma load_store_same m ofs v m' :
  store_bytes m ofs v = Ok m' ->
  load_bytes m' ofs (Z.of_nat (length v)) = Ok v.
Proof.
  intros H. pose proof (store_bytes_length _ _ _ _ H) as Hlen.
  apply store_bytes_inv in H as [Hb ->].
  rewrite load_bytes_Ok by (unfold in_bounds in *; lia).
  destruct Hb as (? & ? & ?). f_equal.
  rewrite drop_app_length' by (rewrite length_take; lia).
  rewrite Nat2Z.id. apply take_app_length.
Qed.

(** A load of a region disjoint from the one written is unchanged. *)
Lemma load_store_disjoint m ofs v m' o n :
  store_bytes m ofs v = Ok m' ->
  o + n <= ofs \/ ofs + Z.of_nat (length v) <= o ->
  load_bytes m' o n = load_bytes m o n.
Proof.
  intros H Hd. unfold load_bytes.
  destruct (decide (in_bounds m o n)) as [Hb|Hb].
  - rewrite decide_True by (apply (in_bounds_store _ _ _ _ _ _ H); exact Hb).
    apply store_bytes_inv in H as [(? & ? & ?) ->].
    destruct Hb as (? & ? & ?). f_equal.
    apply list_eq. intros i.
    rewrite !lookup_take, !lookup_drop.
    destruct (decide (i < Z.to_nat n)%nat) as [Hi|Hi]; [|reflexivity].
    destruct Hd as [Hd|Hd].
    + rewrite lookup_app_l by (rewrite length_take; lia).
      rewrite lookup_take. rewrite decide_True by lia. reflexivity.
    + rewrite app_assoc, lookup_app_r by (rewrite length_app, length_take; lia).
      rewrite lookup_drop, length_app, length_take. f_equal. lia.
  - rewrite decide_False; [reflexivity|].
    intros Hb'. apply Hb. apply (in_bounds_store _ _ _ _ _ _ H). exact Hb'.
Qed.

Lemma load_bytes_all bs : load_bytes bs 0 (Z.of_nat (length bs)) = Ok bs.
Proof.
  rewrite load_bytes_Ok by (unfold in_bounds; lia).
  cbn. rewrite Nat2Z.id, firstn_all. reflexivity.
Qed.

(** Writing back what was read changes nothing. *)
Lemma store_load_id m ofs n v :
  load_bytes m ofs n = Ok v -> store_bytes m ofs v = Ok m.
Proof.
  intros [(H1 & H2 & H3) ->]%load_bytes_inv.
  assert (Hl : length (take (Z.to_nat n) (drop (Z.to_nat ofs) m)) = Z.to_nat n)
    by (rewrite length_take, length_drop; lia).
  rewrite store_bytes_Ok by (unfold in_bounds; lia). rewrite Hl. f_equal.
  rewrite <- drop_drop, (take_drop (Z.to_nat n)). apply take_drop.
Qed.

Lemma load_zeros n ofs k :
  0 <= ofs -> 0 <= k -> ofs + k <= Z.of_nat n ->
  load_bytes (zeros n) ofs k = Ok (zeros (Z.to_nat k)).
Proof.
  intros H1 H2 H3. rewrite load_bytes_Ok by (unfold in_bounds; rewrite length_zeros; lia).
  unfold zeros. rewrite drop_replicate, take_replicate. do 2 f_equal. lia.
Qed.

Lemma prefix_bytes_Ok v n :
  0 <= n <= Z.of_nat (length v) -> prefix_bytes v n = Ok (take (Z.to_nat n) v).
Proof. intros H. unfold prefix_bytes. rewrite decide_True by assumption. reflexivity. Qed.

Lemma prefix_bytes_all v : prefix_bytes v (Z.of_nat (length v)) = Ok v.
Proof. rewrite prefix_bytes_Ok by lia. rewrite Nat2Z.id, firstn_all. reflexivity. Qed.

Lemma prefix_bytes_length v n bs :
  prefix_bytes v n = Ok bs -> length bs = Z.to_nat n.
Proof.
  unfold prefix_bytes. case_res; intros [= <-]. rewrite length_take. lia.
Qed.

(** ** Lemmas on little-endian decoding *)

Lemma dec_unsigned_le_split n z :
  in_unsigned (8 * Z.of_nat n) z -> dec_unsigned (le_split n z) = z.
Proof.
  intros H. unfold dec_unsigned. rewrite le_combine_split.
  apply Z.mod_small. unfold in_unsigned in H.
  replace (Z.of_nat n * 8) with (8 * Z.of_nat n) by lia. exact H.
Qed.

Lemma dec_signed_le_split n z :
  (0 < n)%nat -> in_signed (8 * Z.of_nat n) z -> dec_signed (le_split n z) = z.
Proof.
  intros Hn H. unfold dec_signed. rewrite length_le_split, le_combine_split.
  replace (Z.of_nat n * 8) with (8 * Z.of_nat n) by lia.
  fold (wrap (8 * Z.of_nat n) z).
  rewrite swrap_wrap by lia. apply swrap_small; [lia|exact H].
Qed.

Lemma dec_unsigned_range bs : in_unsigned (8 * Z.of_nat (length bs)) (dec_unsigned bs).
Proof. apply le_combine_bound. Qed.

Lemma le_split_dec_unsigned bs : le_split (length bs) (dec_unsigned bs) = bs.
Proof. apply split_le_combine. Qed.

(** The low bytes of a value survive a round trip through a wider
    integer: [memcpy(&v, bs, n)] into a zeroed [v], then back. *)
Lemma le_split_pad bs n :
  (length bs <= n)%nat -> le_split n (dec_unsigned bs) = bs ++ zeros (n - length bs).
Proof.
  intros Hl. apply le_combine_inj.
  - rewrite length_le_split, length_app, length_zeros. lia.
  - unfold dec_unsigned.
    rewrite le_combine_split, le_combine_app, le_combine_zeros, Z.shiftl_0_l, Z.lor_0_r.
    apply Z.mod_small. pose proof (le_combine_bound bs) as Hb.
    split; [lia|]. eapply Z.lt_le_trans; [apply Hb|]. apply Z.pow_le_mono_r; lia.
Qed.

Lemma load_le_split_pad bs n :
  (length bs <= n)%nat ->
  load_bytes (le_split n (dec_unsigned bs)) 0 (Z.of_nat (length bs)) = Ok bs.
Proof.
  intros Hl. rewrite le_split_pad by exact Hl.
  rewrite load_bytes_Ok by (unfold in_bounds; rewrite length_app; lia).
  change (Z.to_nat 0) with 0%nat. rewrite drop_0, Nat2Z.id, take_app_length. reflexivity.
Qed.

Lemma res_mapM_length {A B} (f : A -> res B) l r :
  res_mapM f l = Ok r -> length r = length l.
Proof.
  revert r. induction l as [|x l IH]; intros r; cbn [res_mapM].
  - intros [= <-]. reflexivity.
  - destruct (f x); [|discriminate]. destruct (res_mapM f l); [|discriminate].
    intros [= <-]. cbn [length]. f_equal. apply IH. reflexivity.
Qed.

(** The first hit of a filter over a range, and what follows it. *)
Lemma filter_seqZ_head (P : Z -> Prop) `{!forall x, Decision (P x)} (n : nat) :
  forall s i rest,
    filter P (seqZ s (Z.of_nat n)) = i :: rest ->
    s <= i < s + Z.of_nat n /\
    rest = filter P (seqZ (i + 1) (s + Z.of_nat n - (i + 1))).
Proof.
  induction n as [|n IH]; intros s i rest; [discriminate|].
  rewrite seqZ_cons by lia. rewrite filter_cons.
  replace (Z.pred (Z.of_nat (S n))) with (Z.of_nat n) by lia.
  destruct (decide (P s)).
  - intros [= <- <-]. split; [lia|]. do 2 f_equal; lia.
  - intros [Hr ->]%IH. split; [lia|]. do 2 f_equal. lia.
Qed.

(** ** Lists *)

Lemma filter_ext_in {A} (P Q : A -> Prop) `{!forall x, Decision (P x)}
    `{!forall x, Decision (Q x)} (l : list A) :
  (forall x, x ∈ l -> P x <-> Q x) -> filter P l = filter Q l.
Proof.
  induction l as [|x l IH]; intros Hl; [reflexivity|].
  rewrite !filter_cons. rewrite IH by (intros y Hy; apply Hl; right; exact Hy).
  destruct (decide (P x)) as [HP|HP], (decide (Q x)) as [HQ|HQ]; try reflexivity;
    exfalso; apply (Hl x (list_elem_of_here _ _)) in HP || apply (Hl x (list_elem_of_here _ _)) in HQ;
    contradiction.
Qed.

(** Removing one value from a list without duplicates. *)
Lemma length_filter_ne `{EqDecision A} (l : list A) (k : A) :
  NoDup l ->
  Z.of_nat (length (filter (fun x => x <> k) l)) =
    Z.of_nat (length l) - (if decide (k ∈ l) then 1 else 0).
Proof.
  induction 1 as [|x l Hx Hnd IH]; [reflexivity|].
  rewrite filter_cons. destruct (decide (x <> k)) as [Hne|Heq].
  - cbn [length]. rewrite !Nat2Z.inj_succ, IH.
    destruct (decide (k ∈ l)) as [Hin|Hin].
    + rewrite decide_True by (right; exact Hin). lia.
    + rewrite decide_False; [lia|]. intros [->|?]%elem_of_cons; [congruence|contradiction].
  - apply dec_stable in Heq. subst x. rewrite IH.
    rewrite decide_False by exact Hx. rewrite decide_True by left.
    cbn [length]. lia.
Qed.

(** ** Hints *)

Create HintDb upb discriminated.
Create Rewrite HintDb upb_rw.

#[export] Hint Resolve wrap_range swrap_range pow2_pos dec_unsigned_range : upb.
#[export] Hint Resolve mod16_mod8 shiftl_1_pos : upb.
#[export] Hint Resolve load_store_same load_bytes_length store_bytes_length : upb.
#[export] Hint Rewrite length_zeros length_le_split @length_take @length_app : upb_rw.
#[export] Hint Rewrite le_combine_zeros : upb_rw.
