(* ===== verification/Layout.v ===== *)
(** * Layout: the data the three containers share

    The width tables of reflection.c ([field_size],
    [_upb_fieldtype_to_mapsize]) as the arrays they are, the enumerations
    that index them, the layout entry and the field definition through
    which the accessor finds a field, and the union [upb_msgval] in which
    every value travels.

    A [upb_msgval] is the list of the bytes of the union that have been
    written, from its first byte: [msgval_int32 7] has four bytes,
    [msgval_str d n] sixteen.  Reading a member wider than what was written
    is the fault [Indeterminate]. *)

From Stdlib Require Import ZArith Lia List.
From coqutil Require Import Byte Word.LittleEndianList.
From stdpp Require Import base tactics list numbers sets.
From S2P Require Import Prelude.

#[local] Open Scope Z_scope.

(** ** Platform constants (LP64) *)

Definition sizeof_ptr : Z := 8.
Definition sizeof_strview : Z := 16.
Definition sizeof_msgval : Z := 16.

(** ** Enumerations *)

(** The C types a field can have; the code of each is its index in
    [_upb_fieldtype_to_mapsize]. *)
Inductive upb_fieldtype_t : Set :=
| UPB_TYPE_BOOL
| UPB_TYPE_FLOAT
| UPB_TYPE_INT32
| UPB_TYPE_UINT32
| UPB_TYPE_ENUM
| UPB_TYPE_MESSAGE
| UPB_TYPE_DOUBLE
| UPB_TYPE_INT64
| UPB_TYPE_UINT64
| UPB_TYPE_STRING
| UPB_TYPE_BYTES.

Definition fieldtype_code (t : upb_fieldtype_t) : Z :=
  match t with
  | UPB_TYPE_BOOL => 1
  | UPB_TYPE_FLOAT => 2
  | UPB_TYPE_INT32 => 3
  | UPB_TYPE_UINT32 => 4
  | UPB_TYPE_ENUM => 5
  | UPB_TYPE_MESSAGE => 6
  | UPB_TYPE_DOUBLE => 7
  | UPB_TYPE_INT64 => 8
  | UPB_TYPE_UINT64 => 9
  | UPB_TYPE_STRING => 10
  | UPB_TYPE_BYTES => 11
  end.

(** The wire-level types of descriptor.proto; the code of each is its index
    in [field_size]. *)
Inductive upb_descriptortype_t : Set :=
| UPB_DESCRIPTOR_TYPE_DOUBLE
| UPB_DESCRIPTOR_TYPE_FLOAT
| UPB_DESCRIPTOR_TYPE_INT64
| UPB_DESCRIPTOR_TYPE_UINT64
| UPB_DESCRIPTOR_TYPE_INT32
| UPB_DESCRIPTOR_TYPE_FIXED64
| UPB_DESCRIPTOR_TYPE_FIXED32
| UPB_DESCRIPTOR_TYPE_BOOL
| UPB_DESCRIPTOR_TYPE_STRING
| UPB_DESCRIPTOR_TYPE_GROUP
| UPB_DESCRIPTOR_TYPE_MESSAGE
| UPB_DESCRIPTOR_TYPE_BYTES
| UPB_DESCRIPTOR_TYPE_UINT32
| UPB_DESCRIPTOR_TYPE_ENUM
| UPB_DESCRIPTOR_TYPE_SFIXED32
| UPB_DESCRIPTOR_TYPE_SFIXED64
| UPB_DESCRIPTOR_TYPE_SINT32
| UPB_DESCRIPTOR_TYPE_SINT64.

Definition descriptortype_code (t : upb_descriptortype_t) : Z :=
  match t with
  | UPB_DESCRIPTOR_TYPE_DOUBLE => 1
  | UPB_DESCRIPTOR_TYPE_FLOAT => 2
  | UPB_DESCRIPTOR_TYPE_INT64 => 3
  | UPB_DESCRIPTOR_TYPE_UINT64 => 4
  | UPB_DESCRIPTOR_TYPE_INT32 => 5
  | UPB_DESCRIPTOR_TYPE_FIXED64 => 6
  | UPB_DESCRIPTOR_TYPE_FIXED32 => 7
  | UPB_DESCRIPTOR_TYPE_BOOL => 8
  | UPB_DESCRIPTOR_TYPE_STRING => 9
  | UPB_DESCRIPTOR_TYPE_GROUP => 10
  | UPB_DESCRIPTOR_TYPE_MESSAGE => 11
  | UPB_DESCRIPTOR_TYPE_BYTES => 12
  | UPB_DESCRIPTOR_TYPE_UINT32 => 13
  | UPB_DESCRIPTOR_TYPE_ENUM => 14
  | UPB_DESCRIPTOR_TYPE_SFIXED32 => 15
  | UPB_DESCRIPTOR_TYPE_SFIXED64 => 16
  | UPB_DESCRIPTOR_TYPE_SINT32 => 17
  | UPB_DESCRIPTOR_TYPE_SINT64 => 18
  end.

Definition all_descriptortypes : list upb_descriptortype_t :=
  [ UPB_DESCRIPTOR_TYPE_DOUBLE; UPB_DESCRIPTOR_TYPE_FLOAT;
    UPB_DESCRIPTOR_TYPE_INT64; UPB_DESCRIPTOR_TYPE_UINT64;
    UPB_DESCRIPTOR_TYPE_INT32; UPB_DESCRIPTOR_TYPE_FIXED64;
    UPB_DESCRIPTOR_TYPE_FIXED32; UPB_DESCRIPTOR_TYPE_BOOL;
    UPB_DESCRIPTOR_TYPE_STRING; UPB_DESCRIPTOR_TYPE_GROUP;
    UPB_DESCRIPTOR_TYPE_MESSAGE; UPB_DESCRIPTOR_TYPE_BYTES;
    UPB_DESCRIPTOR_TYPE_UINT32; UPB_DESCRIPTOR_TYPE_ENUM;
    UPB_DESCRIPTOR_TYPE_SFIXED32; UPB_DESCRIPTOR_TYPE_SFIXED64;
    UPB_DESCRIPTOR_TYPE_SINT32; UPB_DESCRIPTOR_TYPE_SINT64 ].

(** The descriptor type with a given code: the inverse of
    [descriptortype_code]. *)
Definition descriptortype_of_code (c : Z) : option upb_descriptortype_t :=
  List.find (fun t => descriptortype_code t =? c) all_descriptortypes.

(** The C type in which a field of a descriptor type is stored
    ([upb_fielddef_type]'s classification). *)
Definition fieldtype_of_descriptortype (t : upb_descriptortype_t) : upb_fieldtype_t :=
  match t with
  | UPB_DESCRIPTOR_TYPE_DOUBLE => UPB_TYPE_DOUBLE
  | UPB_DESCRIPTOR_TYPE_FLOAT => UPB_TYPE_FLOAT
  | UPB_DESCRIPTOR_TYPE_INT64
  | UPB_DESCRIPTOR_TYPE_SFIXED64
  | UPB_DESCRIPTOR_TYPE_SINT64 => UPB_TYPE_INT64
  | UPB_DESCRIPTOR_TYPE_UINT64
  | UPB_DESCRIPTOR_TYPE_FIXED64 => UPB_TYPE_UINT64
  | UPB_DESCRIPTOR_TYPE_INT32
  | UPB_DESCRIPTOR_TYPE_SFIXED32
  | UPB_DESCRIPTOR_TYPE_SINT32 => UPB_TYPE_INT32
  | UPB_DESCRIPTOR_TYPE_UINT32
  | UPB_DESCRIPTOR_TYPE_FIXED32 => UPB_TYPE_UINT32
  | UPB_DESCRIPTOR_TYPE_BOOL => UPB_TYPE_BOOL
  | UPB_DESCRIPTOR_TYPE_STRING => UPB_TYPE_STRING
  | UPB_DESCRIPTOR_TYPE_BYTES => UPB_TYPE_BYTES
  | UPB_DESCRIPTOR_TYPE_ENUM => UPB_TYPE_ENUM
  | UPB_DESCRIPTOR_TYPE_GROUP
  | UPB_DESCRIPTOR_TYPE_MESSAGE => UPB_TYPE_MESSAGE
  end.

#[export] Instance upb_fieldtype_eq_dec : EqDecision upb_fieldtype_t.
Proof. solve_decision. Defined.

#[export] Instance upb_descriptortype_eq_dec : EqDecision upb_descriptortype_t.
Proof. solve_decision. Defined.

(** ** The width tables *)

(** [static char field_size[]], indexed by descriptor type. *)
Definition field_size : list Z :=
  [ 0;
    8;               (* UPB_DESCRIPTOR_TYPE_DOUBLE *)
    4;               (* UPB_DESCRIPTOR_TYPE_FLOAT *)
    8;               (* UPB_DESCRIPTOR_TYPE_INT64 *)
    8;               (* UPB_DESCRIPTOR_TYPE_UINT64 *)
    4;               (* UPB_DESCRIPTOR_TYPE_INT32 *)
    8;               (* UPB_DESCRIPTOR_TYPE_FIXED64 *)
    4;               (* UPB_DESCRIPTOR_TYPE_FIXED32 *)
    1;               (* UPB_DESCRIPTOR_TYPE_BOOL *)
    sizeof_strview;  (* UPB_DESCRIPTOR_TYPE_STRING *)
    sizeof_ptr;      (* UPB_DESCRIPTOR_TYPE_GROUP *)
    sizeof_ptr;      (* UPB_DESCRIPTOR_TYPE_MESSAGE *)
    sizeof_strview;  (* UPB_DESCRIPTOR_TYPE_BYTES *)
    4;               (* UPB_DESCRIPTOR_TYPE_UINT32 *)
    4;               (* UPB_DESCRIPTOR_TYPE_ENUM *)
    4;               (* UPB_DESCRIPTOR_TYPE_SFIXED32 *)
    8;               (* UPB_DESCRIPTOR_TYPE_SFIXED64 *)
    4;               (* UPB_DESCRIPTOR_TYPE_SINT32 *)
    8 ].             (* UPB_DESCRIPTOR_TYPE_SINT64 *)

(** [static char _upb_fieldtype_to_mapsize[12]], indexed by field type;
    strings and bytes are special-cased in maps and have size 0. *)
Definition _upb_fieldtype_to_mapsize : list Z :=
  [ 0;
    1;           (* UPB_TYPE_BOOL *)
    4;           (* UPB_TYPE_FLOAT *)
    4;           (* UPB_TYPE_INT32 *)
    4;           (* UPB_TYPE_UINT32 *)
    4;           (* UPB_TYPE_ENUM *)
    sizeof_ptr;  (* UPB_TYPE_MESSAGE *)
    8;           (* UPB_TYPE_DOUBLE *)
    8;           (* UPB_TYPE_INT64 *)
    8;           (* UPB_TYPE_UINT64 *)
    0;           (* UPB_TYPE_STRING *)
    0 ].         (* UPB_TYPE_BYTES *)

(** [t[i]] for a C array [t]: an index outside the array is undefined
    behaviour. *)
Definition table_index (t : list Z) (i : Z) : res Z :=
  if decide (0 <= i)
  then match t !! Z.to_nat i with
       | Some n => Ok n
       | None => Err OutOfBounds
       end
  else Err OutOfBounds.

(** The width of the member of [upb_msgval] that holds a value of a type. *)
Definition value_size (t : upb_fieldtype_t) : Z :=
  match t with
  | UPB_TYPE_BOOL => 1
  | UPB_TYPE_FLOAT | UPB_TYPE_INT32 | UPB_TYPE_UINT32 | UPB_TYPE_ENUM => 4
  | UPB_TYPE_DOUBLE | UPB_TYPE_INT64 | UPB_TYPE_UINT64 => 8
  | UPB_TYPE_MESSAGE => sizeof_ptr
  | UPB_TYPE_STRING | UPB_TYPE_BYTES => sizeof_strview
  end.

(** ** Layout entries and definitions *)

(** One entry of a message layout ([upb_msglayout_field]): the fields
    reflection.c reads. *)
Record upb_msglayout_field : Set := {
  number : Z;          (* uint32_t: the field number *)
  offset : Z;          (* byte offset of the field in the message *)
  presence : Z;        (* 0: none; > 0: hasbit index; < 0: ~offset of the oneof case *)
  descriptortype : Z   (* uint8_t: index into field_size *)
}.

(** A message layout ([upb_msglayout]): its size in bytes. *)
Record upb_msglayout : Set := {
  layout_size : Z
}.

(** Field and message definitions ([upb_fielddef], [upb_msgdef]) as
    reflection.c sees them: one projection per accessor it calls.  Floats
    and doubles are bit patterns; a default string is the address and the
    length of its bytes. *)
Inductive upb_fielddef : Type := Build_upb_fielddef {
  upb_fielddef_layout : upb_msglayout_field;
  upb_fielddef_type : upb_fieldtype_t;
  upb_fielddef_isseq : bool;
  upb_fielddef_ismap : bool;
  upb_fielddef_defaultint32 : Z;
  upb_fielddef_defaultint64 : Z;
  upb_fielddef_defaultuint32 : Z;
  upb_fielddef_defaultuint64 : Z;
  upb_fielddef_defaultfloat : Z;
  upb_fielddef_defaultdouble : Z;
  upb_fielddef_defaultbool : bool;
  upb_fielddef_defaultstr : Z * Z;
  upb_fielddef_msgsubdef : option upb_msgdef
}
with upb_msgdef : Type := Build_upb_msgdef {
  upb_msgdef_layout : upb_msglayout;
  upb_msgdef_fields : list upb_fielddef
}.

#[export] Instance upb_msglayout_field_eq_dec : EqDecision upb_msglayout_field.
Proof. solve_decision. Defined.

#[export] Instance upb_msglayout_eq_dec : EqDecision upb_msglayout.
Proof. solve_decision. Defined.

(** Equality of definitions is decidable: by recursion through the
    definition a message field names and the fields of a definition. *)
Fixpoint fielddef_eq_dec (f g : upb_fielddef) {struct f} : {f = g} + {f <> g}
with msgdef_eq_dec (m n : upb_msgdef) {struct m} : {m = n} + {m <> n}.
Proof.
  - destruct f as [l1 t1 s1 p1 a1 b1 c1 d1 e1 h1 i1 j1 k1],
             g as [l2 t2 s2 p2 a2 b2 c2 d2 e2 h2 i2 j2 k2].
    destruct (decide (l1 = l2)); [subst|right; intros [=]; contradiction].
    destruct (decide (t1 = t2)); [subst|right; intros [=]; contradiction].
    destruct (decide (s1 = s2)); [subst|right; intros [=]; contradiction].
    destruct (decide (p1 = p2)); [subst|right; intros [=]; contradiction].
    destruct (decide (a1 = a2)); [subst|right; intros [=]; contradiction].
    destruct (decide (b1 = b2)); [subst|right; intros [=]; contradiction].
    destruct (decide (c1 = c2)); [subst|right; intros [=]; contradiction].
    destruct (decide (d1 = d2)); [subst|right; intros [=]; contradiction].
    destruct (decide (e1 = e2)); [subst|right; intros [=]; contradiction].
    destruct (decide (h1 = h2)); [subst|right; intros [=]; contradiction].
    destruct (decide (i1 = i2)); [subst|right; intros [=]; contradiction].
    destruct (decide (j1 = j2)); [subst|right; intros [=]; contradiction].
    destruct k1 as [m1|], k2 as [m2|];
      [|right; discriminate|right; discriminate|left; reflexivity].
    destruct (msgdef_eq_dec m1 m2); [left; subst; reflexivity|right; intros [=]; contradiction].
  - destruct m as [l1 fs1], n as [l2 fs2].
    destruct (decide (l1 = l2)); [subst|right; intros [=]; contradiction].
    assert ({fs1 = fs2} + {fs1 <> fs2}) as [|];
      [|left; subst; reflexivity|right; intros [=]; contradiction].
    revert fs2. induction fs1 as [|x fs1 IH]; intros [|y fs2];
      [left; reflexivity|right; discriminate|right; discriminate|].
    destruct (fielddef_eq_dec x y); [subst|right; intros [=]; contradiction].
    destruct (IH fs2); [left; subst; reflexivity|right; intros [=]; contradiction].
Defined.

#[export] Instance upb_fielddef_eq_dec : EqDecision upb_fielddef := fielddef_eq_dec.
#[export] Instance upb_msgdef_eq_dec : EqDecision upb_msgdef := msgdef_eq_dec.

Definition upb_fielddef_issubmsg (f : upb_fielddef) : bool :=
  bool_decide (upb_fielddef_type f = UPB_TYPE_MESSAGE).

(** [upb_msgdef_itof(m, i)]: the field of [m] with number [i], or NULL. *)
Definition upb_msgdef_itof (m : upb_msgdef) (i : Z) : option upb_fielddef :=
  List.find (fun f => number (upb_fielddef_layout f) =? i) (upb_msgdef_fields m).

Definition UPB_MAPENTRY_KEY : Z := 1.
Definition UPB_MAPENTRY_VALUE : Z := 2.

(** A field definition agrees with its layout entry: the descriptor type is
    one of the eighteen and the C type is its classification. *)
Definition fielddef_consistent (f : upb_fielddef) : Prop :=
  exists t, descriptortype_of_code (descriptortype (upb_fielddef_layout f)) = Some t /\
            upb_fielddef_type f = fieldtype_of_descriptortype t.

(** The declared defaults of a field are values of their C types. *)
Definition defaults_in_range (f : upb_fielddef) : Prop :=
  in_signed 32 (upb_fielddef_defaultint32 f) /\
  in_signed 64 (upb_fielddef_defaultint64 f) /\
  in_unsigned 32 (upb_fielddef_defaultuint32 f) /\
  in_unsigned 64 (upb_fielddef_defaultuint64 f) /\
  in_unsigned 32 (upb_fielddef_defaultfloat f) /\
  in_unsigned 64 (upb_fielddef_defaultdouble f) /\
  in_unsigned 64 (fst (upb_fielddef_defaultstr f)) /\
  in_unsigned 64 (snd (upb_fielddef_defaultstr f)).

#[export] Instance defaults_in_range_dec f : Decision (defaults_in_range f).
Proof. unfold defaults_in_range. apply _. Defined.

(** ** The union upb_msgval *)

(** Writers: [val.member = x] on a fresh union. *)
Definition msgval_bool (b : bool) : list byte := [if b then Byte.x01 else Byte.x00].
Definition msgval_float (bits : Z) : list byte := le_split 4 bits.
Definition msgval_double (bits : Z) : list byte := le_split 8 bits.
Definition msgval_int32 (z : Z) : list byte := le_split 4 z.
Definition msgval_int64 (z : Z) : list byte := le_split 8 z.
Definition msgval_uint32 (z : Z) : list byte := le_split 4 z.
Definition msgval_uint64 (z : Z) : list byte := le_split 8 z.
Definition msgval_ptr (p : Z) : list byte := le_split 8 p.
Definition msgval_str (data size : Z) : list byte := le_split 8 data ++ le_split 8 size.

(** Readers: [val.member]. *)
Definition bool_val (v : list byte) : res bool :=
  bs <- prefix_bytes v 1 ;; Ok (negb (dec_unsigned bs =? 0)).
Definition float_val (v : list byte) : res Z :=
  bs <- prefix_bytes v 4 ;; Ok (dec_unsigned bs).
Definition double_val (v : list byte) : res Z :=
  bs <- prefix_bytes v 8 ;; Ok (dec_unsigned bs).
Definition int32_val (v : list byte) : res Z :=
  bs <- prefix_bytes v 4 ;; Ok (dec_signed bs).
Definition int64_val (v : list byte) : res Z :=
  bs <- prefix_bytes v 8 ;; Ok (dec_signed bs).
Definition uint32_val (v : list byte) : res Z :=
  bs <- prefix_bytes v 4 ;; Ok (dec_unsigned bs).
Definition uint64_val (v : list byte) : res Z :=
  bs <- prefix_bytes v 8 ;; Ok (dec_unsigned bs).
Definition ptr_val (v : list byte) : res Z :=
  bs <- prefix_bytes v sizeof_ptr ;; Ok (dec_unsigned bs).
Definition str_val (v : list byte) : res (Z * Z) :=
  bs <- prefix_bytes v sizeof_strview ;;
  Ok (dec_unsigned (take 8 bs), dec_unsigned (drop 8 bs)).

(** The bit pattern of the double a C [bool] converts to: 0.0 or 1.0. *)
Definition double_of_bool (b : bool) : Z :=
  if b then 0x3FF0000000000000 else 0.

(** ** Lemmas on the tables *)

Lemma table_index_Ok t i n :
  table_index t i = Ok n <-> 0 <= i /\ t !! Z.to_nat i = Some n.
Proof.
  unfold table_index. case_res; [|split; [discriminate|lia]].
  destruct (t !! Z.to_nat i); split; try discriminate.
  - intros [= ->]. auto.
  - intros [_ [= ->]]. reflexivity.
  - intros [_ [=]].
Qed.

Lemma table_index_lt t i n :
  table_index t i = Ok n -> 0 <= i < Z.of_nat (length t).
Proof.
  intros [Hi H%lookup_lt_Some]%table_index_Ok. lia.
Qed.

Lemma descriptortype_of_code_spec c t :
  descriptortype_of_code c = Some t <-> descriptortype_code t = c.
Proof.
  split.
  - intros H. apply find_some in H as [_ H]. lia.
  - intros <-. destruct t; reflexivity.
Qed.

Lemma descriptortype_code_range t : 1 <= descriptortype_code t <= 18.
Proof. destruct t; cbn; lia. Qed.

Lemma fieldtype_code_range t : 1 <= fieldtype_code t <= 11.
Proof. destruct t; cbn; lia. Qed.

Lemma fieldtype_code_inj : Inj (=) (=) fieldtype_code.
Proof. intros [] []; cbn; intros; congruence || lia. Qed.

Lemma value_size_cases t : value_size t ∈ [1; 4; 8; 16].
Proof. destruct t; cbn; set_solver. Qed.

(** The width [field_size] gives a descriptor type is the width of the
    member of [upb_msgval] in which a field of that type is stored. *)
Lemma field_size_descriptortype (t : upb_descriptortype_t) :
  table_index field_size (descriptortype_code t) =
    Ok (value_size (fieldtype_of_descriptortype t)).
Proof. destruct t; reflexivity. Qed.

(** For a consistent field definition the table gives the width of the
    field's C type. *)
Lemma field_size_consistent f :
  fielddef_consistent f ->
  table_index field_size (descriptortype (upb_fielddef_layout f)) =
    Ok (value_size (upb_fielddef_type f)).
Proof.
  intros (t & Ht%descriptortype_of_code_spec & ->).
  rewrite <- Ht. apply field_size_descriptortype.
Qed.

Lemma field_size_range i n :
  table_index field_size i = Ok n -> 0 <= i <= 18 /\ 0 <= n <= sizeof_msgval.
Proof.
  intros E. pose proof (table_index_lt _ _ _ E) as Hi. cbn in Hi.
  apply table_index_Ok in E as [_ E].
  assert (Hn : n ∈ field_size) by (eapply list_elem_of_lookup_2; eauto).
  split; [lia|].
  unfold field_size, sizeof_strview, sizeof_ptr, sizeof_msgval in *.
  set_unfold in Hn. lia.
Qed.

(** In a map a scalar or message type has the width of its union member,
    and a string or bytes type has width 0. *)
Lemma mapsize_fieldtype (t : upb_fieldtype_t) :
  table_index _upb_fieldtype_to_mapsize (fieldtype_code t) =
    Ok (if bool_decide (t = UPB_TYPE_STRING \/ t = UPB_TYPE_BYTES)
        then 0 else value_size t).
Proof. destruct t; reflexivity. Qed.

(** ** Round trips through the union *)

Lemma length_msgval_str d n : length (msgval_str d n) = 16%nat.
Proof. unfold msgval_str. rewrite length_app, !length_le_split. reflexivity. Qed.

Lemma read_member (n : nat) (z : Z) :
  prefix_bytes (le_split n z) (Z.of_nat n) = Ok (le_split n z).
Proof.
  rewrite <- (length_le_split n z) at 2. apply prefix_bytes_all.
Qed.

Lemma int32_val_msgval_int32 z : in_signed 32 z -> int32_val (msgval_int32 z) = Ok z.
Proof.
  intros H. unfold int32_val, msgval_int32.
  rewrite (read_member 4). cbn [bind].
  rewrite dec_signed_le_split by (lia || exact H). reflexivity.
Qed.

Lemma int64_val_msgval_int64 z : in_signed 64 z -> int64_val (msgval_int64 z) = Ok z.
Proof.
  intros H. unfold int64_val, msgval_int64.
  rewrite (read_member 8). cbn [bind].
  rewrite dec_signed_le_split by (lia || exact H). reflexivity.
Qed.

Lemma uint32_val_msgval_uint32 z : in_unsigned 32 z -> uint32_val (msgval_uint32 z) = Ok z.
Proof.
  intros H. unfold uint32_val, msgval_uint32.
  rewrite (read_member 4). cbn [bind].
  rewrite dec_unsigned_le_split by exact H. reflexivity.
Qed.

Lemma uint64_val_msgval_uint64 z : in_unsigned 64 z -> uint64_val (msgval_uint64 z) = Ok z.
Proof.
  intros H. unfold uint64_val, msgval_uint64.
  rewrite (read_member 8). cbn [bind].
  rewrite dec_unsigned_le_split by exact H. reflexivity.
Qed.

Lemma float_val_msgval_float z : in_unsigned 32 z -> float_val (msgval_float z) = Ok z.
Proof. apply uint32_val_msgval_uint32. Qed.

Lemma double_val_msgval_double z : in_unsigned 64 z -> double_val (msgval_double z) = Ok z.
Proof. apply uint64_val_msgval_uint64. Qed.

Lemma ptr_val_msgval_ptr p : in_unsigned 64 p -> ptr_val (msgval_ptr p) = Ok p.
Proof. apply uint64_val_msgval_uint64. Qed.

Lemma bool_val_msgval_bool b : bool_val (msgval_bool b) = Ok b.
Proof. destruct b; reflexivity. Qed.

Lemma str_val_msgval_str d n :
  in_unsigned 64 d -> in_unsigned 64 n -> str_val (msgval_str d n) = Ok (d, n).
Proof.
  intros Hd Hn. unfold str_val, sizeof_strview.
  replace 16 with (Z.of_nat (length (msgval_str d n)))
    by (rewrite length_msgval_str; reflexivity).
  rewrite prefix_bytes_all. cbn [bind]. unfold msgval_str.
  rewrite take_app_length' by (symmetry; apply length_le_split).
  rewrite drop_app_length' by (symmetry; apply length_le_split).
  rewrite !dec_unsigned_le_split by assumption. reflexivity.
Qed.

(** The member written is as wide as [value_size] says. *)
Lemma length_msgval_member (t : upb_fieldtype_t) (z : Z) :
  Z.of_nat (length (le_split (Z.to_nat (value_size t)) z)) = value_size t.
Proof. rewrite length_le_split. destruct t; reflexivity. Qed.

#[export] Hint Rewrite length_msgval_str : upb_rw.
#[export] Hint Resolve field_size_consistent : upb.

(** ** Properties of the tables *)

(** [field_size] is exactly the table of member widths: entry 0 is 0,
    and entry [i] is the width of the member of [upb_msgval] that stores a
    field of the descriptor type with code [i], for each of the eighteen
    descriptor types; there are no other entries. *)
Theorem field_size_value_size (i n : Z) :
  table_index field_size i = Ok n <->
  (i = 0 /\ n = 0) \/
  (exists t, descriptortype_code t = i /\
             n = value_size (fieldtype_of_descriptortype t)).
Proof.
  split.
  - intros H. pose proof (table_index_lt _ _ _ H) as Hi. cbn in Hi.
    destruct (decide (i = 0)) as [->|Hz]; [left; injection H as <-; auto|right].
    destruct (descriptortype_of_code i) as [t|] eqn:E.
    + apply descriptortype_of_code_spec in E. exists t. split; [exact E|].
      rewrite <- E, field_size_descriptortype in H. congruence.
    + exfalso. assert (i ∈ seqZ 1 18) as Hin by (apply elem_of_seqZ; lia).
      vm_compute in Hin. set_unfold in Hin.
      destruct Hin as [->|Hin]; [discriminate E|].
      repeat (destruct Hin as [->|Hin]; [discriminate E|]). exact Hin.
  - intros [[-> ->]|(t & <- & ->)]; [reflexivity|apply field_size_descriptortype].
Qed.

(** Every entry of [field_size] fits in a [upb_msgval], so the [memcpy]
    of a field into the union never overflows it; an index the table does
    not have is a fault. *)
Theorem field_size_bounds (i : Z) :
  match table_index field_size i with
  | Ok n => 0 <= i <= 18 /\ 0 <= n <= sizeof_msgval
  | Err e => e = OutOfBounds /\ (i < 0 \/ 18 < i)
  end.
Proof.
  destruct (table_index field_size i) as [n|e] eqn:E.
  - apply field_size_range. exact E.
  - unfold table_index in E.
    destruct (decide (0 <= i)); [|injection E as <-; split; [reflexivity|lia]].
    destruct (field_size !! Z.to_nat i) eqn:L; [discriminate|].
    injection E as <-. split; [reflexivity|].
    apply lookup_ge_None in L. cbn in L. lia.
Qed.

(** In a map a scalar or message type has the width of its union
    member, and a string or bytes type has width 0, the mark of a
    variable-length key or value. *)
Theorem mapsize_value_size (t : upb_fieldtype_t) :
  table_index _upb_fieldtype_to_mapsize (fieldtype_code t) =
    Ok (if bool_decide (t = UPB_TYPE_STRING \/ t = UPB_TYPE_BYTES)
        then 0 else value_size t).
Proof. apply mapsize_fieldtype. Qed.

