(* ===== verification/Arena.v ===== *)
(** * Arena: the store that owns every object

    Messages, array headers, element buffers and map headers all live in
    one arena.  The arena is a finite map from base addresses to objects
    together with a bump pointer [a_next] and a limit [a_limit]:
    [upb_arena_malloc] hands out the bump pointer and fails, returning NULL
    (0), when the limit would be passed.  Every base address is a multiple
    of 16, so the three low bits of a pointer are free for the tag the
    array container keeps there.

    A pointer into an object is a base and an offset ([ptr]); a load or a
    store outside the object is [OutOfBounds], one through an address that
    is no byte block is [BadPointer].  Array and map headers are kept as
    records, since the code reaches them through their members only. *)

From Stdlib Require Import ZArith Lia List.
From coqutil Require Import Byte Word.LittleEndianList.
From stdpp Require Import base tactics list numbers gmap.
From S2P Require Import Prelude Layout.

#[local] Open Scope Z_scope.

(** ** Objects *)

(** [upb_array]: the tagged data pointer, the length and the capacity, both
    counted in elements. *)
Record upb_array : Set := {
  arr_data : Z;
  arr_len : Z;
  arr_size : Z
}.

(** An entry of the string table under a map: the bytes of the key, the
    address of the table's copy of them, and the 64-bit value. *)
Record tabent : Type := {
  te_key : list byte;
  te_addr : Z;
  te_val : Z
}.

(** The string table as the arena stores it: its slots in iteration
    order, each empty or holding an entry. *)
Abbreviation strtable := (list (option tabent)).

(** [upb_map]: the widths of keys and values (0 for strings) and the table. *)
Record upb_map (T : Type) : Type := {
  map_key_size : Z;
  map_val_size : Z;
  map_table : T
}.

Arguments map_key_size {T} _.
Arguments map_val_size {T} _.
Arguments map_table {T} _.

Inductive object : Type :=
| OBytes (bs : list byte)
| OArray (arr : upb_array)
| OMap (m : upb_map strtable).

(** A pointer: the base address of an object and a byte offset into it. *)
Record ptr : Set := {
  p_base : Z;
  p_off : Z
}.

Record upb_arena : Type := {
  a_objs : gmap Z object;
  a_next : Z;
  a_limit : Z
}.

Definition arena_align : Z := 16.

Definition align_up (n : Z) : Z := (n + arena_align - 1) / arena_align * arena_align.

Definition arena_init (limit : Z) : upb_arena :=
  {| a_objs := ∅; a_next := arena_align; a_limit := limit |}.

(** ** Operations *)

Definition set_object (a : upb_arena) (p : Z) (o : object) : upb_arena :=
  {| a_objs := <[p := o]> (a_objs a); a_next := a_next a; a_limit := a_limit a |}.

(** [upb_arena_malloc(a, n)] followed by the initialisation of the block as
    [o]: the address of the new object, or NULL with the arena unchanged. *)
Definition upb_arena_malloc (a : upb_arena) (n : Z) (o : object) : Z * upb_arena :=
  if decide (0 < n /\ a_next a + align_up n <= a_limit a)
  then (a_next a,
        {| a_objs := <[a_next a := o]> (a_objs a);
           a_next := a_next a + align_up n;
           a_limit := a_limit a |})
  else (0, a).

Definition get_bytes (a : upb_arena) (p : Z) : res (list byte) :=
  match a_objs a !! p with
  | Some (OBytes bs) => Ok bs
  | _ => Err BadPointer
  end.

Definition get_array (a : upb_arena) (p : Z) : res upb_array :=
  match a_objs a !! p with
  | Some (OArray arr) => Ok arr
  | _ => Err BadPointer
  end.

Definition get_map (a : upb_arena) (p : Z) : res (upb_map strtable) :=
  match a_objs a !! p with
  | Some (OMap m) => Ok m
  | _ => Err BadPointer
  end.

(** [memcpy(dst, p, n)] from the arena. *)
Definition mem_load (a : upb_arena) (p : ptr) (n : Z) : res (list byte) :=
  bs <- get_bytes a (p_base p) ;;
  load_bytes bs (p_off p) n.

(** [memcpy(p, v, length v)] into the arena. *)
Definition mem_store (a : upb_arena) (p : ptr) (v : list byte) : res upb_arena :=
  bs <- get_bytes a (p_base p) ;;
  bs' <- store_bytes bs (p_off p) v ;;
  Ok (set_object a (p_base p) (OBytes bs')).

(** [upb_arena_realloc(a, p, oldsize, size)]: the arena never grows a block
    in place; it allocates [size] bytes and copies the [oldsize] bytes at
    [p] into them.  The address of the new block, or NULL with the arena
    unchanged. *)
Definition upb_arena_realloc (a : upb_arena) (p oldsize size : Z) : res (Z * upb_arena) :=
  let '(q, a1) := upb_arena_malloc a size (OBytes (zeros (Z.to_nat size))) in
  if q =? 0 then Ok (0, a) else
  if oldsize =? 0 then Ok (q, a1) else
  old <- mem_load a {| p_base := p; p_off := 0 |} oldsize ;;
  a2 <- mem_store a1 {| p_base := q; p_off := 0 |} old ;;
  Ok (q, a2).

(** Two regions do not overlap: different objects, or disjoint ranges. *)
Definition disjoint (p : ptr) (n : Z) (q : ptr) (k : Z) : Prop :=
  p_base p <> p_base q \/ p_off p + n <= p_off q \/ p_off q + k <= p_off p.

(** [a'] extends [a]: every byte block of [a] is a block of [a'] with the
    same bytes.  Allocation and updates of headers extend the arena. *)
Record arena_ext (a a' : upb_arena) : Prop := {
  ext_bytes : forall q bs, get_bytes a q = Ok bs -> get_bytes a' q = Ok bs;
  ext_dom : forall q, is_Some (a_objs a !! q) -> is_Some (a_objs a' !! q);
  ext_headers : forall q o, a_objs a !! q = Some o -> (forall bs, o <> OBytes bs) ->
                forall bs, get_bytes a' q <> Ok bs
}.

(** [r'] is at least as defined as [r]. *)
Definition res_le {A} (r r' : res A) : Prop :=
  forall v, r = Ok v -> r' = Ok v.

#[export] Instance tabent_eq_dec : EqDecision tabent.
Proof. solve_decision. Defined.

#[export] Instance upb_map_eq_dec {T} `{EqDecision T} : EqDecision (upb_map T).
Proof. solve_decision. Defined.

(** The kind of an object: what a handle to it may be used as, with what
    is fixed for its lifetime: the size of a block, the tag of an array
    (the binary logarithm of its element width), the widths of the keys
    and values of a map. *)
Inductive kind : Set :=
| KBytes (n : nat)
| KArray (lg2 : Z)
| KMap (key_size val_size : Z).

#[export] Instance kind_eq_dec : EqDecision kind.
Proof. solve_decision. Defined.

Definition kind_of (o : object) : kind :=
  match o with
  | OBytes bs => KBytes (length bs)
  | OArray arr => KArray (Z.land (arr_data arr) 7)
  | OMap m => KMap (map_key_size m) (map_val_size m)
  end.

Definition arena_kind (a : upb_arena) (p : Z) : option kind :=
  kind_of <$> a_objs a !! p.

(** [a'] is a later state of [a]: the limit is the same, the allocation
    pointer has not moved back, and every object is still there with the
    kind it had. *)
Record arena_le (a a' : upb_arena) : Prop := {
  le_limit : a_limit a' = a_limit a;
  le_next : a_next a <= a_next a';
  le_kind : forall p k, arena_kind a p = Some k -> arena_kind a' p = Some k
}.

(** ** Well-formed arenas *)

Record arena_wf (a : upb_arena) : Prop := {
  wf_next_pos : 0 < a_next a;
  wf_next_aligned : a_next a mod arena_align = 0;
  wf_limit : a_limit a <= 2 ^ 64;
  wf_next_limit : a_next a <= a_limit a;
  wf_objs : forall p o, a_objs a !! p = Some o ->
              0 < p < a_next a /\ p mod arena_align = 0
}.

(** An executable check of [arena_wf]. *)
Definition arena_wf_b (a : upb_arena) : bool :=
  (0 <? a_next a) && (a_next a mod arena_align =? 0) &&
  (a_limit a <=? 2 ^ 64) && (a_next a <=? a_limit a) &&
  forallb (fun po => (0 <? fst po) && (fst po <? a_next a) &&
                     (fst po mod arena_align =? 0))
          (map_to_list (a_objs a)).

(** An update that keeps the allocator's invariant and every handle. *)
Definition preserves (a a' : upb_arena) : Prop :=
  arena_wf a -> arena_wf a' /\ arena_le a a'.

(** ** Lemmas *)

Lemma arena_wf_b_true a : arena_wf_b a = true -> arena_wf a.
Proof.
  unfold arena_wf_b. rewrite !andb_true_iff, forallb_forall.
  intros ((((H1 & H2) & H3) & H4) & H5). split; try lia.
  intros p o Hp%elem_of_map_to_list%list_elem_of_In.
  apply H5 in Hp. cbn in Hp. lia.
Qed.

Lemma align_up_ge n : n <= align_up n.
Proof. unfold align_up, arena_align. Z.div_mod_to_equations. lia. Qed.

Lemma align_up_mod n : align_up n mod arena_align = 0.
Proof. unfold align_up. apply Z_mod_mult. Qed.

Lemma arena_init_wf limit :
  arena_align <= limit <= 2 ^ 64 -> arena_wf (arena_init limit).
Proof.
  intros [H1 H2]. split; cbn; try (unfold arena_align in *; lia).
  - reflexivity.
  - intros p o H. rewrite lookup_empty in H. discriminate.
Qed.

Lemma malloc_fail a n o :
  ~ (0 < n /\ a_next a + align_up n <= a_limit a) ->
  upb_arena_malloc a n o = (0, a).
Proof. intros H. unfold upb_arena_malloc. rewrite decide_False by exact H. reflexivity. Qed.

Lemma malloc_ok a n o :
  0 < n -> a_next a + align_up n <= a_limit a ->
  upb_arena_malloc a n o =
    (a_next a, {| a_objs := <[a_next a := o]> (a_objs a);
                  a_next := a_next a + align_up n;
                  a_limit := a_limit a |}).
Proof. intros. unfold upb_arena_malloc. rewrite decide_True by auto. reflexivity. Qed.

(** The address an allocation returns does not depend on what the block
    is initialised with. *)
Lemma malloc_fst a n o o' : fst (upb_arena_malloc a n o) = fst (upb_arena_malloc a n o').
Proof. unfold upb_arena_malloc. case_decide; reflexivity. Qed.

(** What an allocation guarantees in a well-formed arena. *)
Section Malloc.
Context (a a' : upb_arena) (n p : Z) (o : object).
Context (Hwf : arena_wf a).
Context (Hm : upb_arena_malloc a n o = (p, a')).

Lemma malloc_cases :
  (p = 0 /\ a' = a) \/
  (p = a_next a /\ 0 < n /\ a_next a + align_up n <= a_limit a /\
   a' = {| a_objs := <[p := o]> (a_objs a);
           a_next := a_next a + align_up n;
           a_limit := a_limit a |}).
Proof using Hm.
  unfold upb_arena_malloc in Hm. case_res; injection Hm as <- <-.
  - right. tauto.
  - left. tauto.
Qed.

Lemma malloc_null : p = 0 -> a' = a.
Proof using Hm Hwf.
  destruct malloc_cases as [[_ ->]|(-> & _)]; [reflexivity|].
  pose proof (wf_next_pos _ Hwf). lia.
Qed.

Lemma malloc_fresh : p <> 0 -> a_objs a !! p = None.
Proof using Hm Hwf.
  destruct malloc_cases as [[-> _]|(-> & _)]; [congruence|]. intros _.
  destruct (a_objs a !! a_next a) eqn:E; [|reflexivity].
  apply (wf_objs _ Hwf) in E. lia.
Qed.

Lemma malloc_lookup_new : p <> 0 -> a_objs a' !! p = Some o.
Proof using Hm.
  destruct malloc_cases as [[-> _]|(_ & _ & _ & ->)]; [congruence|].
  intros _. apply lookup_insert_eq.
Qed.

Lemma malloc_lookup_old q x : a_objs a !! q = Some x -> a_objs a' !! q = Some x.
Proof using Hm Hwf.
  intros Hq. destruct malloc_cases as [[_ ->]|(Hp & _ & _ & ->)]; [exact Hq|].
  cbn. rewrite lookup_insert_ne; [exact Hq|].
  apply (wf_objs _ Hwf) in Hq. lia.
Qed.

Lemma malloc_lookup_ne q : q <> p -> a_objs a' !! q = a_objs a !! q.
Proof using Hm.
  intros Hq. destruct malloc_cases as [[_ ->]|(Hp & _ & _ & ->)]; [reflexivity|].
  cbn. apply lookup_insert_ne. congruence.
Qed.

Lemma malloc_range : 0 <= p < 2 ^ 64 /\ p mod arena_align = 0.
Proof using Hm Hwf.
  destruct Hwf. destruct malloc_cases as [[-> _]|(-> & ? & ? & _)].
  - split; [lia|reflexivity].
  - pose proof (align_up_ge n). split; [lia|assumption].
Qed.

Lemma malloc_wf : arena_wf a'.
Proof using Hm Hwf.
  destruct malloc_cases as [[_ ->]|(Hp & Hn & Hl & ->)]; [exact Hwf|].
  destruct Hwf. pose proof (align_up_ge n). pose proof (align_up_mod n).
  split; cbn; try lia.
  - rewrite Z.add_mod, wf_next_aligned0, H0 by (unfold arena_align; lia). reflexivity.
  - intros q x. rewrite lookup_insert. case_res.
    + intros _. subst. lia.
    + intros Hq%wf_objs0. lia.
Qed.

End Malloc.

(** ** Lemmas on loads and stores *)

Lemma mem_load_length a p n v : mem_load a p n = Ok v -> Z.of_nat (length v) = n.
Proof.
  unfold mem_load. destruct (get_bytes a (p_base p)); [|discriminate]. cbn [bind].
  intros H. pose proof (load_bytes_length _ _ _ _ H).
  apply load_bytes_inv in H as [(? & ? & ?) _]. lia.
Qed.

Lemma get_bytes_Ok a p bs : get_bytes a p = Ok bs <-> a_objs a !! p = Some (OBytes bs).
Proof.
  unfold get_bytes. destruct (a_objs a !! p) as [[]|]; split; congruence.
Qed.

Lemma get_array_Ok a p arr : get_array a p = Ok arr <-> a_objs a !! p = Some (OArray arr).
Proof.
  unfold get_array. destruct (a_objs a !! p) as [[]|]; split; congruence.
Qed.

Lemma get_map_Ok a p m : get_map a p = Ok m <-> a_objs a !! p = Some (OMap m).
Proof.
  unfold get_map. destruct (a_objs a !! p) as [[]|]; split; congruence.
Qed.

Lemma get_bytes_set_object a p q o :
  get_bytes (set_object a p o) q =
    if decide (p = q) then match o with OBytes bs => Ok bs | _ => Err BadPointer end
    else get_bytes a q.
Proof. unfold get_bytes, set_object. cbn. rewrite lookup_insert. case_res; reflexivity. Qed.

Lemma get_array_set_object a p q o :
  get_array (set_object a p o) q =
    if decide (p = q) then match o with OArray x => Ok x | _ => Err BadPointer end
    else get_array a q.
Proof. unfold get_array, set_object. cbn. rewrite lookup_insert. case_res; reflexivity. Qed.

Lemma get_map_set_object a p q o :
  get_map (set_object a p o) q =
    if decide (p = q) then match o with OMap x => Ok x | _ => Err BadPointer end
    else get_map a q.
Proof. unfold get_map, set_object. cbn. rewrite lookup_insert. case_res; reflexivity. Qed.

Lemma set_object_wf a p o :
  arena_wf a -> is_Some (a_objs a !! p) -> arena_wf (set_object a p o).
Proof.
  intros [] [x Hx]. split; cbn; try assumption.
  intros q y. rewrite lookup_insert. case_res; [|apply wf_objs0].
  intros _. subst. eapply wf_objs0. exact Hx.
Qed.

Lemma mem_store_inv a p v a' :
  mem_store a p v = Ok a' ->
  exists bs bs', get_bytes a (p_base p) = Ok bs /\
                 store_bytes bs (p_off p) v = Ok bs' /\
                 a' = set_object a (p_base p) (OBytes bs').
Proof. unfold mem_store. intros H. res_inv. eauto. Qed.

Lemma mem_load_store_same a p v a' :
  mem_store a p v = Ok a' -> mem_load a' p (Z.of_nat (length v)) = Ok v.
Proof.
  intros (bs & bs' & _ & Hs & ->)%mem_store_inv. unfold mem_load.
  rewrite get_bytes_set_object, decide_True by reflexivity. cbn [bind].
  eapply load_store_same. exact Hs.
Qed.

Lemma mem_load_store_disjoint a p v a' q k :
  mem_store a p v = Ok a' ->
  disjoint q k p (Z.of_nat (length v)) ->
  mem_load a' q k = mem_load a q k.
Proof.
  intros (bs & bs' & Hg & Hs & ->)%mem_store_inv Hd. unfold mem_load.
  rewrite get_bytes_set_object. case_res; [|reflexivity].
  rewrite <- e, Hg. cbn [bind].
  eapply load_store_disjoint; [exact Hs|].
  destruct Hd as [Hd|Hd]; [congruence|exact Hd].
Qed.

Lemma mem_store_get_array a p v a' q :
  mem_store a p v = Ok a' -> get_array a' q = get_array a q.
Proof.
  intros (bs & bs' & Hg%get_bytes_Ok & _ & ->)%mem_store_inv.
  rewrite get_array_set_object. case_res; [|reflexivity].
  subst. unfold get_array. rewrite Hg. reflexivity.
Qed.

Lemma mem_store_get_map a p v a' q :
  mem_store a p v = Ok a' -> get_map a' q = get_map a q.
Proof.
  intros (bs & bs' & Hg%get_bytes_Ok & _ & ->)%mem_store_inv.
  rewrite get_map_set_object. case_res; [|reflexivity].
  subst. unfold get_map. rewrite Hg. reflexivity.
Qed.

Lemma mem_store_get_bytes a p v a' q bs :
  mem_store a p v = Ok a' -> get_bytes a q = Ok bs ->
  exists bs', get_bytes a' q = Ok bs' /\ length bs' = length bs.
Proof.
  intros (b & b' & Hg & Hs & ->)%mem_store_inv Hq.
  rewrite get_bytes_set_object. case_res; [|eauto].
  subst. exists b'. split; [reflexivity|].
  rewrite Hq in Hg. injection Hg as ->. eapply store_bytes_length; eauto.
Qed.

Lemma mem_store_wf a p v a' :
  arena_wf a -> mem_store a p v = Ok a' -> arena_wf a'.
Proof.
  intros Hwf (bs & bs' & Hg%get_bytes_Ok & _ & ->)%mem_store_inv.
  apply set_object_wf; [exact Hwf|eauto].
Qed.

Lemma mem_store_next a p v a' :
  mem_store a p v = Ok a' -> a_next a' = a_next a /\ a_limit a' = a_limit a.
Proof. intros (bs & bs' & _ & _ & ->)%mem_store_inv. split; reflexivity. Qed.

(** A store succeeds exactly when the region lies inside a byte block. *)
Lemma mem_store_Ok a p v bs :
  get_bytes a (p_base p) = Ok bs ->
  in_bounds bs (p_off p) (Z.of_nat (length v)) ->
  exists a', mem_store a p v = Ok a'.
Proof.
  intros Hg Hb. unfold mem_store. rewrite Hg. cbn [bind].
  rewrite store_bytes_Ok by exact Hb. cbn [bind]. eauto.
Qed.

Lemma set_object_id a p o : a_objs a !! p = Some o -> set_object a p o = a.
Proof.
  intros H. destruct a as [objs nx lim]. unfold set_object. cbn in *.
  rewrite insert_id by exact H. reflexivity.
Qed.

(** Storing back the bytes a load returned leaves the arena as it is. *)
Lemma mem_store_load_id a p n v : mem_load a p n = Ok v -> mem_store a p v = Ok a.
Proof.
  unfold mem_load, mem_store.
  destruct (get_bytes a (p_base p)) as [bs|] eqn:Hb; [|discriminate]. cbn [bind].
  intros H. rewrite (store_load_id _ _ _ _ H). cbn [bind]. f_equal.
  apply set_object_id, get_bytes_Ok. exact Hb.
Qed.

(** Allocation leaves the blocks that exist as they are. *)
Lemma malloc_get_bytes a n o p a' q bs :
  arena_wf a -> upb_arena_malloc a n o = (p, a') ->
  get_bytes a q = Ok bs -> get_bytes a' q = Ok bs.
Proof.
  intros Hwf Hm H%get_bytes_Ok. apply get_bytes_Ok. eapply malloc_lookup_old; eauto.
Qed.

Lemma malloc_mem_load a n o p a' q k bs :
  arena_wf a -> upb_arena_malloc a n o = (p, a') ->
  mem_load a q k = Ok bs -> mem_load a' q k = Ok bs.
Proof.
  unfold mem_load. intros Hwf Hm.
  destruct (get_bytes a (p_base q)) as [m|] eqn:Hb; [|discriminate].
  erewrite malloc_get_bytes by eauto. trivial.
Qed.

(** ** Reallocation *)

(** A block allocated as zeros and then written from its start is the
    block allocated with those bytes; the write fails when they are more
    than the block holds. *)
Lemma malloc_then_store a n q a1 v :
  upb_arena_malloc a n (OBytes (zeros (Z.to_nat n))) = (q, a1) -> q <> 0 ->
  mem_store a1 {| p_base := q; p_off := 0 |} v =
    if decide (Z.of_nat (length v) <= n)
    then Ok (snd (upb_arena_malloc a n (OBytes (v ++ zeros (Z.to_nat n - length v)))))
    else Err OutOfBounds.
Proof.
  intros Hm Hq.
  destruct (malloc_cases _ _ _ _ _ Hm) as [[-> _]|(-> & Hn & Hl & ->)]; [congruence|].
  rewrite malloc_ok by assumption. unfold mem_store, get_bytes. cbn.
  rewrite lookup_insert_eq. cbn [bind]. unfold store_bytes.
  destruct (decide (Z.of_nat (length v) <= n)) as [Hv|Hv].
  - rewrite decide_True by (unfold in_bounds; rewrite length_zeros; lia).
    cbn [bind]. unfold set_object. cbn. rewrite insert_insert_eq. do 4 f_equal.
    unfold zeros. rewrite drop_replicate. reflexivity.
  - rewrite decide_False by (unfold in_bounds; rewrite length_zeros; lia). reflexivity.
Qed.

(** What [upb_arena_realloc] returns: NULL and the arena as it was, or
    the block one allocation makes of the old bytes followed by zeros. *)
Lemma upb_arena_realloc_inv a p oldsize size q a' :
  upb_arena_realloc a p oldsize size = Ok (q, a') ->
  q = 0 /\ a' = a \/
  q <> 0 /\ exists old,
    (if oldsize =? 0 then Ok []
     else mem_load a {| p_base := p; p_off := 0 |} oldsize) = Ok old /\
    Z.of_nat (length old) = oldsize /\ oldsize <= size /\
    upb_arena_malloc a size (OBytes (old ++ zeros (Z.to_nat (size - oldsize)))) = (q, a').
Proof.
  unfold upb_arena_realloc.
  destruct (upb_arena_malloc a size _) as [q1 a1] eqn:Hm.
  destruct (Z.eqb_spec q1 0) as [->|Hq]; [intros [= <- <-]; auto|].
  destruct (malloc_cases _ _ _ _ _ Hm) as [[-> _]|(Hq1 & Hn & Hl & Ha1)]; [congruence|].
  destruct (Z.eqb_spec oldsize 0) as [->|Ho].
  - intros [= <- <-]. right. split; [exact Hq|]. exists []. rewrite Z.sub_0_r.
    repeat split; [lia|exact Hm].
  - destruct (mem_load a _ oldsize) as [old|] eqn:Hold; [|discriminate]. cbn [bind].
    pose proof (mem_load_length _ _ _ _ Hold) as Hlen.
    rewrite (malloc_then_store _ _ _ _ _ Hm Hq). case_decide as Hv; [|discriminate].
    cbn [bind]. intros [= <- <-]. right. split; [exact Hq|]. exists old.
    replace (Z.to_nat (size - oldsize)) with (Z.to_nat size - length old)%nat by lia.
    repeat split; [exact Hlen|lia|].
    rewrite !malloc_ok by assumption. cbn [snd]. congruence.
Qed.

(** On old bytes that can be read and fit the new block the reallocation
    returns. *)
Lemma upb_arena_realloc_copy a p oldsize size old :
  (if oldsize =? 0 then Ok []
   else mem_load a {| p_base := p; p_off := 0 |} oldsize) = Ok old ->
  Z.of_nat (length old) = oldsize -> oldsize <= size ->
  upb_arena_realloc a p oldsize size =
    Ok (let r := upb_arena_malloc a size
                   (OBytes (old ++ zeros (Z.to_nat (size - oldsize)))) in
        if fst r =? 0 then (0, a) else r).
Proof.
  intros Hold Hlen Hle. unfold upb_arena_realloc.
  destruct (decide (0 < size /\ a_next a + align_up size <= a_limit a)) as [[Hn Hl]|Hn].
  2:{ rewrite !malloc_fail by exact Hn. reflexivity. }
  pose proof (malloc_ok a size (OBytes (zeros (Z.to_nat size))) Hn Hl) as Hm.
  rewrite Hm, (malloc_ok a size (OBytes (old ++ _))) by assumption. cbn [fst].
  destruct (Z.eqb_spec (a_next a) 0) as [|Hq]; [reflexivity|].
  destruct (Z.eqb_spec oldsize 0) as [Ho|Ho].
  - injection Hold as <-. subst oldsize. rewrite Z.sub_0_r. reflexivity.
  - rewrite Hold. cbn [bind]. rewrite (malloc_then_store _ _ _ _ _ Hm Hq).
    rewrite decide_True by lia. cbn [bind]. rewrite malloc_ok by assumption. cbn [snd].
    replace (Z.to_nat size - length old)%nat with (Z.to_nat (size - oldsize)) by lia.
    reflexivity.
Qed.

(** ** Extension of the arena *)

#[export] Instance arena_ext_preorder : PreOrder arena_ext.
Proof.
  split.
  - intros a. split; [auto..|]. intros q o Ho Hne bs.
    unfold get_bytes. rewrite Ho.
    destruct o as [bs0| |]; [destruct (Hne bs0 eq_refl)|discriminate..].
  - intros a b c [B1 D1 H1] [B2 D2 H2]. split; [auto..|].
    intros q o Ho Hne bs. destruct (D1 q) as [o2 Ho2]; [eauto|].
    apply (H2 q o2 Ho2). intros bs2 ->.
    apply (H1 q o Ho Hne bs2). unfold get_bytes. rewrite Ho2. reflexivity.
Qed.

#[export] Instance res_le_preorder {A} : PreOrder (@res_le A).
Proof. split; [intros r v H; exact H|intros r1 r2 r3 H1 H2 v H; auto]. Qed.

(** [bind] is monotone. *)
Lemma res_le_bind {A B} (m m' : res A) (k k' : A -> res B) :
  res_le m m' -> (forall x, res_le (k x) (k' x)) -> res_le (bind m k) (bind m' k').
Proof.
  intros Hm Hk v. destruct m as [x|e]; [|discriminate]. rewrite (Hm x eq_refl).
  apply Hk.
Qed.

(** Loads are monotone in the arena. *)
#[export] Instance mem_load_mono :
  Proper (arena_ext ==> eq ==> eq ==> res_le) mem_load.
Proof.
  intros a a' Hext p _ <- n _ <- v. unfold mem_load.
  destruct (get_bytes a (p_base p)) as [bs|] eqn:Hb; [|discriminate].
  rewrite (ext_bytes _ _ Hext _ _ Hb). trivial.
Qed.

Lemma arena_ext_malloc a n o p a' :
  arena_wf a -> upb_arena_malloc a n o = (p, a') -> arena_ext a a'.
Proof.
  intros Hwf Hm. split.
  - intros q bs Hb. eapply malloc_get_bytes; eauto.
  - intros q [x Hx]. exists x. eapply malloc_lookup_old; eauto.
  - intros q x Hx Hne bs. unfold get_bytes.
    rewrite (malloc_lookup_old _ _ _ _ _ Hwf Hm q x Hx).
    destruct x as [bs0| |]; [destruct (Hne bs0 eq_refl)|discriminate..].
Qed.

Lemma arena_ext_set_object a p o :
  (forall bs, get_bytes a p <> Ok bs) -> (forall bs, o <> OBytes bs) ->
  arena_ext a (set_object a p o).
Proof.
  intros Hp Ho. split.
  - intros q bs Hb. rewrite get_bytes_set_object.
    destruct (decide (p = q)) as [->|]; [|exact Hb]. destruct (Hp _ Hb).
  - intros q Hq. cbn. destruct (decide (p = q)) as [->|].
    + rewrite lookup_insert_eq. eauto.
    + rewrite lookup_insert_ne by assumption. exact Hq.
  - intros q x Hx Hne bs. rewrite get_bytes_set_object.
    destruct (decide (p = q)).
    + destruct o as [bs0| |]; [destruct (Ho bs0 eq_refl)|discriminate..].
    + unfold get_bytes. rewrite Hx. destruct x as [bs0| |]; [destruct (Hne bs0 eq_refl)|discriminate..].
Qed.

Lemma get_map_not_bytes a p m bs : get_map a p = Ok m -> get_bytes a p <> Ok bs.
Proof. unfold get_map, get_bytes. destruct (a_objs a !! p) as [[]|]; congruence. Qed.

Lemma malloc_get_map a n o p a' q m :
  arena_wf a -> upb_arena_malloc a n o = (p, a') ->
  get_map a q = Ok m -> get_map a' q = Ok m.
Proof.
  intros Hwf Hm H%get_map_Ok. apply get_map_Ok. eapply malloc_lookup_old; eauto.
Qed.

(** ** Later states *)

#[export] Instance arena_le_preorder : PreOrder arena_le.
Proof.
  split; [intros a; split; [reflexivity|lia|auto]|].
  intros a b c [L1 N1 K1] [L2 N2 K2]. split; [congruence|lia|auto].
Qed.

#[export] Instance preserves_preorder : PreOrder preserves.
Proof.
  split; [intros a Ha; split; [exact Ha|reflexivity]|].
  intros a b c H1 H2 Ha. destruct (H1 Ha) as [Hb L1]. destruct (H2 Hb) as [Hc L2].
  split; [exact Hc|etrans; eauto].
Qed.

Lemma arena_kind_bytes a p bs : get_bytes a p = Ok bs -> arena_kind a p = Some (KBytes (length bs)).
Proof. intros H%get_bytes_Ok. unfold arena_kind. rewrite H. reflexivity. Qed.

Lemma arena_kind_array a p hdr :
  get_array a p = Ok hdr -> arena_kind a p = Some (KArray (Z.land (arr_data hdr) 7)).
Proof. intros H%get_array_Ok. unfold arena_kind. rewrite H. reflexivity. Qed.

Lemma arena_kind_map a p m :
  get_map a p = Ok m -> arena_kind a p = Some (KMap (map_key_size m) (map_val_size m)).
Proof. intros H%get_map_Ok. unfold arena_kind. rewrite H. reflexivity. Qed.

(** What a kind says of the object at an address. *)
Lemma arena_kind_array_inv a p lg2 :
  arena_kind a p = Some (KArray lg2) ->
  exists hdr, get_array a p = Ok hdr /\ Z.land (arr_data hdr) 7 = lg2.
Proof.
  unfold arena_kind, get_array. destruct (a_objs a !! p) as [[| |]|]; cbn; try discriminate.
  intros [= <-]. eauto.
Qed.

Lemma arena_kind_map_inv a p ks vs :
  arena_kind a p = Some (KMap ks vs) ->
  exists m, get_map a p = Ok m /\ map_key_size m = ks /\ map_val_size m = vs.
Proof.
  unfold arena_kind, get_map. destruct (a_objs a !! p) as [[| |]|]; cbn; try discriminate.
  intros [= <- <-]. eauto.
Qed.

(** Allocation keeps every object. *)
Lemma preserves_malloc a n o : preserves a (snd (upb_arena_malloc a n o)).
Proof.
  intros Hwf. destruct (upb_arena_malloc a n o) as [p a'] eqn:Hm. cbn [snd].
  split; [eapply malloc_wf; eauto|].
  destruct (malloc_cases _ _ _ _ _ Hm) as [[_ ->]|(Hp & Hn & Hl & ->)]; [reflexivity|].
  pose proof (align_up_ge n). split; cbn; [reflexivity|lia|].
  intros q k. unfold arena_kind. cbn. intros Hq.
  rewrite lookup_insert_ne; [exact Hq|]. intros <-.
  destruct (a_objs a !! p) as [x|] eqn:Hx; [|discriminate].
  destruct (wf_objs _ Hwf _ _ Hx). lia.
Qed.

(** Replacing an object by one of its kind keeps every object. *)
Lemma preserves_set_object a p o :
  arena_kind a p = Some (kind_of o) -> preserves a (set_object a p o).
Proof.
  intros Hk Hwf. split.
  - apply set_object_wf; [exact Hwf|]. unfold arena_kind in Hk.
    destruct (a_objs a !! p); [eauto|discriminate].
  - split; cbn; [reflexivity|lia|]. intros q k. unfold arena_kind. cbn.
    destruct (decide (p = q)) as [<-|].
    + rewrite lookup_insert_eq. unfold arena_kind in Hk. cbn. congruence.
    + rewrite lookup_insert_ne by assumption. trivial.
Qed.

Lemma preserves_mem_store a p v a' : mem_store a p v = Ok a' -> preserves a a'.
Proof.
  intros (bs & bs' & Hg & Hs & ->)%mem_store_inv. apply preserves_set_object.
  rewrite (arena_kind_bytes _ _ _ Hg). cbn. do 2 f_equal. symmetry.
  eapply store_bytes_length; eauto.
Qed.

Lemma preserves_malloc_eq a n o p a' :
  upb_arena_malloc a n o = (p, a') -> preserves a a'.
Proof. intros H. pose proof (preserves_malloc a n o) as P. rewrite H in P. exact P. Qed.

(** Composition, where the second update may rely on what the first
    established. *)
Lemma preserves_then a a1 a2 :
  preserves a a1 -> (arena_wf a1 -> arena_le a a1 -> preserves a1 a2) -> preserves a a2.
Proof.
  intros H1 H2 Ha. destruct (H1 Ha) as [Ha1 L1]. destruct (H2 Ha1 L1 Ha1) as [Ha2 L2].
  split; [exact Ha2|etrans; eauto].
Qed.

(** Writing a header back over the header it was read from, with the
    tag or the widths it had. *)
Lemma preserves_set_array a a1 arr hdr hdr' :
  get_array a arr = Ok hdr -> arena_le a a1 ->
  Z.land (arr_data hdr') 7 = Z.land (arr_data hdr) 7 ->
  preserves a1 (set_object a1 arr (OArray hdr')).
Proof.
  intros Hg L E. apply preserves_set_object. cbn [kind_of]. rewrite E.
  exact (le_kind _ _ L _ _ (arena_kind_array _ _ _ Hg)).
Qed.

Lemma preserves_set_map a a1 map m m' :
  get_map a map = Ok m -> arena_le a a1 ->
  map_key_size m' = map_key_size m -> map_val_size m' = map_val_size m ->
  preserves a1 (set_object a1 map (OMap m')).
Proof.
  intros Hg L Ek Ev. apply preserves_set_object. cbn [kind_of]. rewrite Ek, Ev.
  exact (le_kind _ _ L _ _ (arena_kind_map _ _ _ Hg)).
Qed.

(** The three low bits of a tagged pointer. *)
Lemma land7_range x : 0 <= Z.land x 7 < 8.
Proof. change 7 with (Z.ones 3). rewrite Z.land_ones by lia. apply Z.mod_pos_bound. lia. Qed.

#[export] Hint Resolve malloc_wf mem_store_wf set_object_wf : upb.
#[export] Hint Resolve mem_load_store_same : upb.
