(* ===== verification/Array.v ===== *)
(** * Array: the type-erased growable array

    [upb_array_size], [upb_array_get], [upb_array_set], [upb_array_append]
    and [upb_array_resize] of reflection.c, over the arena.  An array is a
    header ([upb_array]) whose [arr_data] is the address of the element
    buffer with the binary logarithm of the element width in its three low
    bits; [arr_len] elements are in use and [arr_size] fit.

    [upb_array_new] and [_upb_array_realloc] belong to upb's message
    module; they are modelled here from their contract: a new array is
    empty with no buffer, and a reallocation to at least [min_size]
    elements keeps the elements, doubles the capacity from at least 4 until
    it suffices, and fails without any change when the arena is exhausted.
    The new buffer comes from [upb_arena_realloc], which copies the old
    one into it; its bytes past the old elements are zeros, and no
    operation of the checked build reads them before writing them.

    [upb_array_get] and [upb_array_set] copy [1 << lg2] bytes, whatever
    the tag [lg2] is: the code does not compare the width with the size
    of a [upb_msgval].  An index is the value of a [size_t].

    The abstraction [array_elems] reads an array as the list of its
    elements; the theorems state each operation on that list. *)

From Stdlib Require Import ZArith Lia List.
From coqutil Require Import Byte Word.LittleEndianList.
From stdpp Require Import base tactics list numbers gmap.
From S2P Require Import Prelude Layout Arena.

#[local] Open Scope Z_scope.

(** ** The header's accessors and the constructor *)

Definition sizeof_array : Z := 24.

(** [_upb_array_ptr] and [_upb_array_constptr]: the data pointer without
    its tag. *)
Definition _upb_array_ptr (arr : upb_array) : Z := Z.land (arr_data arr) (Z.lnot 7).

(** [arr->data & 7]: the binary logarithm of the element width. *)
Definition array_lg2 (arr : upb_array) : Z := Z.land (arr_data arr) 7.

Definition tag_arrptr (p lg2 : Z) : Z := Z.lor p lg2.

(** The address of element [i]: [data + (i << lg2)]. *)
Definition array_elem_ptr (arr : upb_array) (i : Z) : ptr :=
  {| p_base := _upb_array_ptr arr; p_off := wrap 64 (Z.shiftl i (array_lg2 arr)) |}.

(** The binary logarithm of the element width of each field type. *)
Definition _upb_fieldtype_to_sizelg2 : list Z :=
  [ 0;
    0;  (* UPB_TYPE_BOOL *)
    2;  (* UPB_TYPE_FLOAT *)
    2;  (* UPB_TYPE_INT32 *)
    2;  (* UPB_TYPE_UINT32 *)
    2;  (* UPB_TYPE_ENUM *)
    3;  (* UPB_TYPE_MESSAGE *)
    3;  (* UPB_TYPE_DOUBLE *)
    3;  (* UPB_TYPE_INT64 *)
    3;  (* UPB_TYPE_UINT64 *)
    4;  (* UPB_TYPE_STRING *)
    4 ].  (* UPB_TYPE_BYTES *)

(** [upb_array_new(a, type)]: the address of a new empty array, or NULL. *)
Definition upb_array_new (a : upb_arena) (type : upb_fieldtype_t) : res (Z * upb_arena) :=
  lg2 <- table_index _upb_fieldtype_to_sizelg2 (fieldtype_code type) ;;
  Ok (upb_arena_malloc a sizeof_array
        (OArray {| arr_data := tag_arrptr 0 lg2; arr_len := 0; arr_size := 0 |})).

(** ** Reallocation *)

(** [while (new_size < min_size) new_size *= 2;] on [size_t]. *)
Fixpoint realloc_capacity (fuel : nat) (new_size min_size : Z) : res Z :=
  if new_size <? min_size then
    match fuel with
    | O => Err Diverges
    | S k => realloc_capacity k (wrap 64 (new_size * 2)) min_size
    end
  else Ok new_size.

(** [_upb_array_realloc(arr, min_size, arena)]: [true] with a capacity of at
    least [min_size], or [false] with nothing changed.  The byte counts are
    [size_t] products; the arena copies the old buffer into the new one. *)
Definition _upb_array_realloc (a : upb_arena) (arr : Z) (min_size : Z)
  : res (bool * upb_arena) :=
  hdr <- get_array a arr ;;
  if min_size <=? arr_size hdr then Ok (true, a) else
  let lg2 := array_lg2 hdr in
  let old_bytes := wrap 64 (Z.shiftl (arr_size hdr) lg2) in
  new_size <- realloc_capacity 64 (Z.max (arr_size hdr) 4) min_size ;;
  let new_bytes := wrap 64 (Z.shiftl new_size lg2) in
  r <- upb_arena_realloc a (_upb_array_ptr hdr) old_bytes new_bytes ;;
  if fst r =? 0 then Ok (false, snd r) else
  Ok (true, set_object (snd r) arr
              (OArray {| arr_data := tag_arrptr (fst r) lg2;
                         arr_len := arr_len hdr;
                         arr_size := new_size |})).

(** ** The operations of reflection.c *)

Definition upb_array_size (a : upb_arena) (arr : Z) : res Z :=
  hdr <- get_array a arr ;;
  Ok (arr_len hdr).

Definition upb_array_get (a : upb_arena) (arr : Z) (i : Z) : res (list byte) :=
  hdr <- get_array a arr ;;
  let lg2 := array_lg2 hdr in
  assert! (i <? arr_len hdr) ;;
  mem_load a (array_elem_ptr hdr i) (Z.shiftl 1 lg2).

Definition upb_array_set (a : upb_arena) (arr : Z) (i : Z) (val : list byte)
  : res upb_arena :=
  hdr <- get_array a arr ;;
  let lg2 := array_lg2 hdr in
  assert! (i <? arr_len hdr) ;;
  bs <- prefix_bytes val (Z.shiftl 1 lg2) ;;
  mem_store a (array_elem_ptr hdr i) bs.

(** [arr->len++] *)
Definition array_len_incr (a : upb_arena) (arr : Z) : res upb_arena :=
  hdr <- get_array a arr ;;
  Ok (set_object a arr
        (OArray {| arr_data := arr_data hdr;
                   arr_len := wrap 64 (arr_len hdr + 1);
                   arr_size := arr_size hdr |})).

Definition upb_array_append (a : upb_arena) (arr : Z) (val : list byte)
  : res (bool * upb_arena) :=
  hdr <- get_array a arr ;;
  r <- _upb_array_realloc a arr (wrap 64 (arr_len hdr + 1)) ;;
  if negb (fst r) then Ok (false, snd r) else
  a2 <- array_len_incr (snd r) arr ;;
  hdr2 <- get_array a2 arr ;;
  a3 <- upb_array_set a2 arr (wrap 64 (arr_len hdr2 - 1)) val ;;
  Ok (true, a3).

Definition upb_array_resize (a : upb_arena) (arr : Z) (size : Z)
  : res (bool * upb_arena) :=
  _upb_array_realloc a arr size.

(** ** Invariant and abstraction *)

(** The header at [arr] is [hdr], its element width is at most 16, its
    length at most its capacity, and its buffer, when it has one, is a byte
    block of the capacity's size outside the header. *)
Record array_wf (a : upb_arena) (arr : Z) (hdr : upb_array) : Prop := {
  awf_hdr : get_array a arr = Ok hdr;
  awf_lg2 : 0 <= array_lg2 hdr <= 4;
  awf_len : 0 <= arr_len hdr <= arr_size hdr;
  awf_size : arr_size hdr < 2 ^ 59;
  awf_buf : arr_size hdr = 0 \/
            exists bs, get_bytes a (_upb_array_ptr hdr) = Ok bs /\
                       Z.of_nat (length bs) = arr_size hdr * 2 ^ array_lg2 hdr
}.

(** Element [i] of a buffer of elements of [w] bytes. *)
Definition elem_at (w : Z) (bs : list byte) (i : nat) : list byte :=
  take (Z.to_nat w) (drop (i * Z.to_nat w) bs).

(** The elements of the array at [arr], in order. *)
Definition array_elems (a : upb_arena) (arr : Z) : res (list (list byte)) :=
  hdr <- get_array a arr ;;
  if arr_len hdr =? 0 then Ok [] else
  bs <- get_bytes a (_upb_array_ptr hdr) ;;
  Ok (map (elem_at (Z.shiftl 1 (array_lg2 hdr)) bs) (seq 0 (Z.to_nat (arr_len hdr)))).

(** What a growth to [n] elements comes to when the buffer holds [old]:
    one allocation of the old bytes followed by zeros, unless the byte
    count of the new capacity has wrapped around below that of the old
    one, where the copy overruns the new block. *)
Definition realloc_grown_to (a : upb_arena) (arr : Z) (hdr : upb_array)
    (old : list byte) (n : Z) : res (bool * upb_arena) :=
  let new_bytes := wrap 64 (Z.shiftl n (array_lg2 hdr)) in
  let old_bytes := Z.of_nat (length old) in
  let '(p, a1) := upb_arena_malloc a new_bytes
                    (OBytes (old ++ zeros (Z.to_nat (new_bytes - old_bytes)))) in
  if p =? 0 then Ok (false, a)
  else if old_bytes <=? new_bytes then
    Ok (true, set_object a1 arr
                (OArray {| arr_data := tag_arrptr p (array_lg2 hdr);
                           arr_len := arr_len hdr;
                           arr_size := n |}))
  else Err OutOfBounds.

(** ** Example: appending 1, 2, 3 to an array of int32 and setting slot 1 *)

Definition example_array : res (Z * upb_arena) :=
  r <- upb_array_new (arena_init 4096) UPB_TYPE_INT32 ;;
  r1 <- upb_array_append (snd r) (fst r) (msgval_int32 1) ;;
  r2 <- upb_array_append (snd r1) (fst r) (msgval_int32 2) ;;
  r3 <- upb_array_append (snd r2) (fst r) (msgval_int32 3) ;;
  a4 <- upb_array_set (snd r3) (fst r) 1 (msgval_int32 99) ;;
  Ok (fst r, a4).

Definition example_arena : upb_arena :=
  match example_array with Ok r => snd r | Err _ => arena_init 0 end.

Definition example_arr : Z :=
  match example_array with Ok r => fst r | Err _ => 0 end.

Definition example_hdr : upb_array :=
  match get_array example_arena example_arr with
  | Ok hdr => hdr
  | Err _ => {| arr_data := 0; arr_len := 0; arr_size := 0 |}
  end.

Definition example_arena_set : upb_arena :=
  match upb_array_set example_arena example_arr 0 (msgval_int32 5) with
  | Ok a' => a'
  | Err _ => example_arena
  end.

(** ** Sequences of appends *)

(** [upb_array_append] of each value in turn, until one fails. *)
Fixpoint append_all (a : upb_arena) (arr : Z) (vals : list (list byte))
  : res (bool * upb_arena) :=
  match vals with
  | [] => Ok (true, a)
  | v :: vs =>
      r <- upb_array_append a arr v ;;
      if fst r then append_all (snd r) arr vs else Ok (false, snd r)
  end.

Definition example_arena_all : upb_arena :=
  match append_all example_arena example_arr [msgval_int32 4; msgval_int32 5] with
  | Ok r => snd r
  | Err _ => example_arena
  end.

Definition example_new : Z * upb_arena :=
  match upb_array_new (arena_init 4096) UPB_TYPE_STRING with
  | Ok r => r
  | Err _ => (0, arena_init 4096)
  end.

(** An arena too small for any element buffer, holding one empty array. *)
Definition example_full : Z * upb_arena :=
  match upb_array_new (arena_init 48) UPB_TYPE_INT32 with
  | Ok r => r
  | Err _ => (0, arena_init 48)
  end.

(** ** Executable checks of the invariants *)

(** An array of int32 that four appends have filled: its address, its
    header and the arena; and the same after a fifth append. *)
Definition example_grown_from : Z * (upb_array * upb_arena) :=
  let r := match upb_array_new (arena_init 4096) UPB_TYPE_INT32 with
           | Ok r => r
           | Err _ => (0, arena_init 4096)
           end in
  match append_all (snd r) (fst r)
          [msgval_int32 1; msgval_int32 2; msgval_int32 3; msgval_int32 4] with
  | Ok (_, a) =>
      (fst r, (match get_array a (fst r) with
               | Ok hdr => hdr
               | Err _ => {| arr_data := 0; arr_len := 0; arr_size := 0 |}
               end, a))
  | Err _ => (fst r, ({| arr_data := 0; arr_len := 0; arr_size := 0 |}, snd r))
  end.

Definition example_grown : Z * (bool * upb_arena) :=
  (fst example_grown_from,
   match upb_array_append (snd (snd example_grown_from)) (fst example_grown_from)
           (msgval_int32 5) with
   | Ok r => r
   | Err _ => (false, snd (snd example_grown_from))
   end).

#[export] Instance upb_array_eq_dec : EqDecision upb_array.
Proof. solve_decision. Defined.

Definition array_wf_b (a : upb_arena) (arr : Z) (hdr : upb_array) : bool :=
  bool_decide (get_array a arr = Ok hdr) &&
  (0 <=? array_lg2 hdr) && (array_lg2 hdr <=? 4) &&
  (0 <=? arr_len hdr) && (arr_len hdr <=? arr_size hdr) &&
  (arr_size hdr <? 2 ^ 59) &&
  ((arr_size hdr =? 0) ||
   match get_bytes a (_upb_array_ptr hdr) with
   | Ok bs => Z.of_nat (length bs) =? arr_size hdr * 2 ^ array_lg2 hdr
   | Err _ => false
   end).

(** ** Elements of a buffer *)

Lemma elem_offset i lg2 :
  0 <= i < 2 ^ 59 -> 0 <= lg2 <= 4 -> wrap 64 (Z.shiftl i lg2) = i * 2 ^ lg2.
Proof.
  intros Hi Hl. rewrite Z.shiftl_mul_pow2 by lia. apply wrap_small.
  unfold in_unsigned.
  assert (0 < 2 ^ lg2 <= 2 ^ 4) by (split; [apply pow2_pos|apply Z.pow_le_mono_r]; lia).
  change (2 ^ 64) with (2 ^ 59 * 2 ^ 5). nia.
Qed.

Lemma elem_width_range lg2 : 0 <= lg2 <= 4 -> 1 <= Z.shiftl 1 lg2 <= sizeof_msgval.
Proof.
  intros H. rewrite Z.shiftl_1_l. unfold sizeof_msgval.
  assert (2 ^ 0 <= 2 ^ lg2 <= 2 ^ 4) by (split; apply Z.pow_le_mono_r; lia).
  lia.
Qed.

Section Elems.
Context (w : Z) (Hw : 0 < w).

Lemma elem_at_load bs i :
  (Z.of_nat i + 1) * w <= Z.of_nat (length bs) ->
  load_bytes bs (Z.of_nat i * w) w = Ok (elem_at w bs i).
Proof using Hw.
  intros H. rewrite load_bytes_Ok by (unfold in_bounds; nia).
  unfold elem_at. do 3 f_equal. nia.
Qed.

Lemma elem_at_length bs i :
  (Z.of_nat i + 1) * w <= Z.of_nat (length bs) ->
  length (elem_at w bs i) = Z.to_nat w.
Proof using Hw.
  intros H. eapply load_bytes_length. apply elem_at_load. exact H.
Qed.

(** Writing element [i] changes element [i] and no other. *)
Lemma elem_at_store bs bs' i j v :
  Z.of_nat (length v) = w ->
  store_bytes bs (Z.of_nat i * w) v = Ok bs' ->
  (Z.of_nat j + 1) * w <= Z.of_nat (length bs) ->
  elem_at w bs' j = if decide (i = j) then v else elem_at w bs j.
Proof using Hw.
  intros Hv Hs Hj.
  assert (Hlen : length bs' = length bs) by (eapply store_bytes_length; eauto).
  assert (Ok (elem_at w bs' j) = Ok (if decide (i = j) then v else elem_at w bs j))
    as [= ->]; [|reflexivity].
  rewrite <- elem_at_load by lia. case_res.
  - subst j. pose proof (load_store_same _ _ _ _ Hs) as L.
    rewrite Hv in L. exact L.
  - rewrite <- elem_at_load by lia.
    eapply load_store_disjoint; [exact Hs|nia].
Qed.

Lemma elems_store bs bs' i n v :
  Z.of_nat (length v) = w ->
  store_bytes bs (Z.of_nat i * w) v = Ok bs' ->
  Z.of_nat n * w <= Z.of_nat (length bs) ->
  map (elem_at w bs') (seq 0 n) = <[i := v]> (map (elem_at w bs) (seq 0 n)).
Proof using Hw.
  intros Hv Hs Hn. apply list_eq. intros j.
  destruct (decide (j < n)%nat) as [Hj|Hj].
  - rewrite list_lookup_fmap, lookup_seq_lt by exact Hj. cbn.
    rewrite (elem_at_store bs bs' i j v Hv Hs) by nia.
    destruct (decide (i = j)) as [->|Hij].
    + rewrite list_lookup_insert_eq by (rewrite length_map, length_seq; exact Hj).
      reflexivity.
    + rewrite list_lookup_insert_ne by exact Hij.
      rewrite list_lookup_fmap, lookup_seq_lt by exact Hj. reflexivity.
  - rewrite !lookup_ge_None_2; [reflexivity| |];
      rewrite ?length_insert, length_map, length_seq; lia.
Qed.

(** The elements of a buffer do not depend on what follows them. *)
Lemma elems_app bs tl n :
  Z.of_nat n * w <= Z.of_nat (length bs) ->
  map (elem_at w (bs ++ tl)) (seq 0 n) = map (elem_at w bs) (seq 0 n).
Proof using Hw.
  intros Hn. apply map_ext_in. intros i Hi%in_seq. unfold elem_at.
  rewrite drop_app_le by nia. rewrite take_app_le; [reflexivity|].
  rewrite length_drop. nia.
Qed.

Lemma elems_snoc bs n :
  (Z.of_nat n + 1) * w <= Z.of_nat (length bs) ->
  map (elem_at w bs) (seq 0 (S n)) = map (elem_at w bs) (seq 0 n) ++ [elem_at w bs n].
Proof. intros _. rewrite seq_S, map_app. reflexivity. Qed.

End Elems.

(** ** The abstraction of a well-formed array *)

Section WellFormed.
Context (a : upb_arena) (arr : Z) (hdr : upb_array).
Context (Hwf : array_wf a arr hdr).

#[local] Abbreviation w := (Z.shiftl 1 (array_lg2 hdr)).

Lemma array_width : w = 2 ^ array_lg2 hdr /\ 1 <= w <= sizeof_msgval.
Proof using Hwf.
  split; [apply Z.shiftl_1_l|apply elem_width_range, (awf_lg2 _ _ _ Hwf)].
Qed.

Lemma array_buf_ne bs : get_bytes a (_upb_array_ptr hdr) = Ok bs -> _upb_array_ptr hdr <> arr.
Proof using Hwf.
  intros Hb%get_bytes_Ok E. pose proof (awf_hdr _ _ _ Hwf) as Hh%get_array_Ok.
  rewrite E in Hb. congruence.
Qed.

Lemma array_elems_nil : arr_len hdr = 0 -> array_elems a arr = Ok [].
Proof using Hwf.
  intros H. unfold array_elems. rewrite (awf_hdr _ _ _ Hwf). cbn [bind].
  rewrite H. reflexivity.
Qed.

Lemma array_elems_buf :
  0 < arr_len hdr ->
  exists bs, get_bytes a (_upb_array_ptr hdr) = Ok bs /\
             Z.of_nat (length bs) = arr_size hdr * w /\
             array_elems a arr =
               Ok (map (elem_at w bs) (seq 0 (Z.to_nat (arr_len hdr)))).
Proof using Hwf.
  intros H. destruct Hwf as [Hh Hl Hn Hs [Hb|(bs & Hb & Hlen)]]; [lia|].
  exists bs. split; [exact Hb|]. split; [rewrite Z.shiftl_1_l; exact Hlen|].
  unfold array_elems. rewrite Hh. cbn [bind].
  destruct (Z.eqb_spec (arr_len hdr) 0); [lia|]. rewrite Hb. reflexivity.
Qed.

Lemma array_elems_length l :
  array_elems a arr = Ok l -> length l = Z.to_nat (arr_len hdr).
Proof using Hwf.
  destruct (Z.eq_dec (arr_len hdr) 0) as [E|E].
  - rewrite (array_elems_nil E). intros [= <-]. rewrite E. reflexivity.
  - pose proof (awf_len _ _ _ Hwf).
    destruct array_elems_buf as (bs & _ & _ & ->); [lia|].
    intros [= <-]. rewrite length_map, length_seq. reflexivity.
Qed.

Lemma array_elems_total : exists l, array_elems a arr = Ok l.
Proof using Hwf.
  destruct (Z.eq_dec (arr_len hdr) 0) as [E|E].
  - rewrite (array_elems_nil E). eauto.
  - pose proof (awf_len _ _ _ Hwf).
    destruct array_elems_buf as (bs & _ & _ & ->); [lia|eauto].
Qed.

(** The load that [upb_array_get] and the store that [upb_array_set]
    address: element [i] of the buffer. *)
Lemma array_elem_ptr_eq i :
  0 <= i < arr_size hdr ->
  array_elem_ptr hdr i =
    {| p_base := _upb_array_ptr hdr; p_off := Z.of_nat (Z.to_nat i) * w |}.
Proof using Hwf.
  intros Hi. unfold array_elem_ptr. f_equal.
  pose proof (awf_size _ _ _ Hwf). pose proof (awf_lg2 _ _ _ Hwf).
  rewrite elem_offset by lia. rewrite Z2Nat.id by lia.
  rewrite Z.shiftl_1_l. reflexivity.
Qed.

End WellFormed.

(** [upb_array_size] is the number of elements of the array. *)
Lemma upb_array_size_spec a arr hdr l :
  array_wf a arr hdr ->
  array_elems a arr = Ok l ->
  upb_array_size a arr = Ok (Z.of_nat (length l)).
Proof.
  intros Hwf Hl. unfold upb_array_size. rewrite (awf_hdr _ _ _ Hwf). cbn [bind].
  rewrite (array_elems_length _ _ _ Hwf _ Hl).
  pose proof (awf_len _ _ _ Hwf). f_equal. lia.
Qed.

(** [upb_array_get] at an index below the length returns that element
    of the array, and at any other index fails its assertion [i < len]. *)
Lemma upb_array_get_spec a arr hdr l i :
  array_wf a arr hdr ->
  array_elems a arr = Ok l ->
  0 <= i ->
  upb_array_get a arr i =
    match l !! Z.to_nat i with
    | Some v => Ok v
    | None => Err AssertFailed
    end.
Proof.
  intros Hwf Hl Hi.
  pose proof (array_elems_length _ _ _ Hwf _ Hl) as Hlen.
  pose proof (awf_len _ _ _ Hwf) as Hle.
  destruct (array_width _ _ _ Hwf) as [Hw Hr].
  unfold upb_array_get. rewrite (awf_hdr _ _ _ Hwf). cbn [bind].
  destruct (Z.ltb_spec i (arr_len hdr)) as [Hlt|Hge].
  - destruct (array_elems_buf _ _ _ Hwf) as (bs & Hb & Hbl & E); [lia|].
    rewrite E in Hl. injection Hl as <-.
    rewrite list_lookup_fmap, lookup_seq_lt by lia. cbn.
    rewrite (array_elem_ptr_eq _ _ _ Hwf) by lia.
    unfold mem_load. cbn. rewrite Hb. cbn [bind].
    apply elem_at_load; nia.
  - rewrite lookup_ge_None_2 by lia. reflexivity.
Qed.

(** [upb_array_set] writes into a byte block: headers and the allocation
    state are as before. *)
Lemma upb_array_set_frame a arr i val a' :
  upb_array_set a arr i val = Ok a' ->
  (forall q, get_array a' q = get_array a q) /\
  (forall q, get_map a' q = get_map a q) /\
  (arena_wf a -> arena_wf a').
Proof.
  unfold upb_array_set. intros H. res_inv.
  split; [|split].
  - intros q. eapply mem_store_get_array; eauto.
  - intros q. eapply mem_store_get_map; eauto.
  - intros Hwf. eapply mem_store_wf; eauto.
Qed.

(** [upb_array_set] at an index below the length, with a value of at
    least the element width, succeeds, keeps the array well formed and
    replaces that element by the first [1 << lg2] bytes of the value. *)
Lemma upb_array_set_spec a arr hdr l i val :
  array_wf a arr hdr ->
  array_elems a arr = Ok l ->
  0 <= i < arr_len hdr ->
  Z.shiftl 1 (array_lg2 hdr) <= Z.of_nat (length val) ->
  exists a',
    upb_array_set a arr i val = Ok a' /\
    array_wf a' arr hdr /\
    array_elems a' arr =
      Ok (<[Z.to_nat i := take (Z.to_nat (Z.shiftl 1 (array_lg2 hdr))) val]> l).
Proof.
  intros Hwf Hl Hi Hval.
  pose proof (awf_len _ _ _ Hwf) as Hle.
  destruct (array_width _ _ _ Hwf) as [Hw Hr].
  destruct (array_elems_buf _ _ _ Hwf) as (bs & Hb & Hbl & E); [lia|].
  rewrite E in Hl. injection Hl as <-.
  set (w := Z.shiftl 1 (array_lg2 hdr)) in *.
  set (v := take (Z.to_nat w) val).
  assert (Hv : Z.of_nat (length v) = w) by (unfold v; rewrite length_take; lia).
  destruct (store_bytes bs (Z.of_nat (Z.to_nat i) * w) v) as [bs'|e] eqn:Hs.
  2:{ rewrite store_bytes_Ok in Hs by (unfold in_bounds; nia). discriminate. }
  exists (set_object a (_upb_array_ptr hdr) (OBytes bs')).
  assert (Hset : upb_array_set a arr i val =
                 Ok (set_object a (_upb_array_ptr hdr) (OBytes bs'))).
  { unfold upb_array_set. rewrite (awf_hdr _ _ _ Hwf). cbn [bind].
    destruct (Z.ltb_spec i (arr_len hdr)); [|lia]. fold w.
    rewrite prefix_bytes_Ok by lia. cbn [bind]. fold v.
    rewrite (array_elem_ptr_eq _ _ _ Hwf) by lia. fold w.
    unfold mem_store. cbn. rewrite Hb. cbn [bind]. rewrite Hs. reflexivity. }
  pose proof (array_buf_ne _ _ _ Hwf _ Hb) as Hne.
  assert (Hh' : get_array (set_object a (_upb_array_ptr hdr) (OBytes bs')) arr = Ok hdr).
  { rewrite get_array_set_object, decide_False by exact Hne. apply (awf_hdr _ _ _ Hwf). }
  assert (Hb' : get_bytes (set_object a (_upb_array_ptr hdr) (OBytes bs'))
                  (_upb_array_ptr hdr) = Ok bs').
  { rewrite get_bytes_set_object, decide_True by reflexivity. reflexivity. }
  split; [exact Hset|]. split.
  - destruct Hwf. split; try assumption. right. exists bs'. split; [exact Hb'|].
    rewrite (store_bytes_length _ _ _ _ Hs). fold w in Hw. rewrite <- Hw. exact Hbl.
  - unfold array_elems. rewrite Hh'. cbn [bind].
    destruct (Z.eqb_spec (arr_len hdr) 0); [lia|]. rewrite Hb'. cbn [bind]. fold w.
    f_equal. eapply elems_store; eauto; nia.
Qed.

(** ** Reallocation: termination and what it preserves *)

Lemma realloc_capacity_spec (k : nat) (s m : Z) :
  1 <= s -> s < 2 ^ 59 -> m <= 2 ^ 58 -> m <= s * 2 ^ Z.of_nat k ->
  exists n, realloc_capacity k s m = Ok n /\ m <= n /\ s <= n /\ n <= Z.max s (2 * m - 1).
Proof.
  revert s. induction k as [|k IH]; intros s Hs Hs' Hm Hk; cbn [realloc_capacity];
    destruct (Z.ltb_spec s m) as [Hlt|Hge]; try (exists s; split; [reflexivity|lia]).
  - cbn in Hk. lia.
  - rewrite wrap_small by (unfold in_unsigned; lia).
    destruct (IH (s * 2)) as (n & -> & ? & ? & ?); try lia.
    + rewrite Nat2Z.inj_succ, Z.pow_succ_r in Hk by lia. lia.
    + exists n. split; [reflexivity|lia].
Qed.

(** The capacity loop of [_upb_array_realloc] ends within 64 doublings
    for every request of at most 2^58 elements, with a capacity that
    suffices, is not smaller than the old one and stays below 2^59. *)
Lemma realloc_capacity_enough (s m : Z) :
  0 <= s < 2 ^ 59 -> m <= 2 ^ 58 ->
  exists n, realloc_capacity 64 (Z.max s 4) m = Ok n /\
            m <= n /\ Z.max s 4 <= n /\ n < 2 ^ 59.
Proof.
  intros Hs Hm.
  destruct (realloc_capacity_spec 64 (Z.max s 4) m) as (n & E & ? & ? & ?);
    [lia|lia|lia| |].
  - change (2 ^ Z.of_nat 64) with (2 ^ 64). lia.
  - exists n. split; [exact E|lia].
Qed.

(** The bytes [upb_arena_realloc] copies: the whole old buffer. *)
Lemma realloc_old_bytes a arr hdr :
  array_wf a arr hdr ->
  let old_bytes := wrap 64 (Z.shiftl (arr_size hdr) (array_lg2 hdr)) in
  exists old,
    (if old_bytes =? 0 then Ok []
     else mem_load a {| p_base := _upb_array_ptr hdr; p_off := 0 |} old_bytes) = Ok old /\
    old_bytes = arr_size hdr * 2 ^ array_lg2 hdr /\
    Z.of_nat (length old) = old_bytes /\
    (arr_size hdr = 0 \/ get_bytes a (_upb_array_ptr hdr) = Ok old).
Proof.
  intros [Hh Hl Hn Hs Hb]. cbn zeta. rewrite elem_offset by lia.
  assert (0 < 2 ^ array_lg2 hdr) by (apply pow2_pos; lia).
  destruct Hb as [Hb|(bs & Hb & Hlen)].
  - rewrite Hb. exists []. cbn. auto.
  - destruct (Z.eqb_spec (arr_size hdr * 2 ^ array_lg2 hdr) 0) as [E|E].
    + exists []. cbn. split; [reflexivity|]. split; [reflexivity|].
      split; [lia|]. left. nia.
    + exists bs. unfold mem_load. cbn. rewrite Hb. cbn [bind].
      rewrite <- Hlen, load_bytes_all. auto.
Qed.

(** A request the capacity covers changes nothing. *)
Lemma upb_array_realloc_fits a arr hdr m :
  get_array a arr = Ok hdr -> m <= arr_size hdr -> _upb_array_realloc a arr m = Ok (true, a).
Proof.
  intros Hg Hm. unfold _upb_array_realloc. rewrite Hg. cbn [bind].
  destruct (Z.leb_spec m (arr_size hdr)); [reflexivity|lia].
Qed.

(** The growth branch of [_upb_array_realloc] on a well-formed array. *)
Lemma upb_array_realloc_grow a arr hdr m :
  array_wf a arr hdr -> arr_size hdr < m ->
  exists old,
    Z.of_nat (length old) = arr_size hdr * 2 ^ array_lg2 hdr /\
    (arr_size hdr = 0 \/ get_bytes a (_upb_array_ptr hdr) = Ok old) /\
    _upb_array_realloc a arr m =
      (n <- realloc_capacity 64 (Z.max (arr_size hdr) 4) m ;; realloc_grown_to a arr hdr old n).
Proof.
  intros Hwf Hm. destruct (realloc_old_bytes a arr hdr Hwf) as (old & Hold & Hob & Hlen & Hbuf).
  cbn zeta in *. rewrite Hob in *. exists old. split; [exact Hlen|]. split; [exact Hbuf|].
  unfold _upb_array_realloc. rewrite (awf_hdr _ _ _ Hwf). cbn [bind].
  destruct (Z.leb_spec m (arr_size hdr)); [lia|].
  destruct (realloc_capacity _ _ _) as [n|]; [|reflexivity]. cbn [bind].
  unfold realloc_grown_to. rewrite Hob, Hlen.
  set (nb := wrap 64 (Z.shiftl n (array_lg2 hdr))).
  destruct (Z.leb_spec (arr_size hdr * 2 ^ array_lg2 hdr) nb) as [Hle|Hgt].
  - rewrite (upb_arena_realloc_copy _ _ _ _ old Hold Hlen Hle). cbn [bind].
    destruct (upb_arena_malloc _ _ _) as [p a1]. cbn [fst snd].
    destruct (Z.eqb_spec p 0) as [->|Hp]; cbn [fst snd]; [reflexivity|].
    destruct (Z.eqb_spec p 0); [contradiction|reflexivity].
  - assert (0 <= nb) by (apply (wrap_range 64); lia).
    destruct (Z.eqb_spec (arr_size hdr * 2 ^ array_lg2 hdr) 0) as [|Hne]; [lia|].
    unfold upb_arena_realloc.
    pose proof (malloc_fst a nb (OBytes (zeros (Z.to_nat nb)))
                  (OBytes (old ++ zeros (Z.to_nat (nb - arr_size hdr * 2 ^ array_lg2 hdr)))))
      as Hf.
    destruct (upb_arena_malloc a nb (OBytes (zeros _))) as [p a1] eqn:Hmal.
    destruct (upb_arena_malloc a nb (OBytes (old ++ _))) as [p' a1'].
    cbn [fst] in Hf. subst p'.
    destruct (Z.eqb_spec p 0) as [->|Hp]; [reflexivity|].
    destruct (Z.eqb_spec (arr_size hdr * 2 ^ array_lg2 hdr) 0); [contradiction|].
    rewrite Hold. cbn [bind]. rewrite (malloc_then_store _ _ _ _ _ Hmal Hp).
    rewrite decide_False by lia. reflexivity.
Qed.

(** What a call of [_upb_array_realloc] that returns has done, on any
    header: nothing, or one allocation and an update of the header. *)
Lemma upb_array_realloc_inv a arr m ok a' :
  _upb_array_realloc a arr m = Ok (ok, a') ->
  exists hdr, get_array a arr = Ok hdr /\
    (m <= arr_size hdr /\ ok = true /\ a' = a \/
     arr_size hdr < m /\ exists n,
       realloc_capacity 64 (Z.max (arr_size hdr) 4) m = Ok n /\
       (ok = false /\ a' = a \/
        ok = true /\ exists bs p a1,
          Z.of_nat (length bs) = wrap 64 (Z.shiftl n (array_lg2 hdr)) /\
          upb_arena_malloc a (wrap 64 (Z.shiftl n (array_lg2 hdr))) (OBytes bs) = (p, a1) /\
          p <> 0 /\
          a' = set_object a1 arr
                 (OArray {| arr_data := tag_arrptr p (array_lg2 hdr);
                            arr_len := arr_len hdr;
                            arr_size := n |}))).
Proof.
  unfold _upb_array_realloc. intros H.
  destruct (get_array a arr) as [hdr|] eqn:Hg; [|discriminate]. cbn [bind] in H.
  exists hdr. split; [reflexivity|].
  destruct (Z.leb_spec m (arr_size hdr)); [injection H as <- <-; auto|]. right.
  split; [assumption|].
  destruct (realloc_capacity _ _ _) as [n|]; [|discriminate]. cbn [bind] in H.
  exists n. split; [reflexivity|].
  destruct (upb_arena_realloc _ _ _ _) as [[q a2]|] eqn:Hr; [|discriminate].
  cbn [bind fst snd] in H.
  destruct (upb_arena_realloc_inv _ _ _ _ _ _ Hr) as [[-> ->]|(Hq & old & _ & Hl & Hle & Hm)].
  - injection H as <- <-. auto.
  - destruct (Z.eqb_spec q 0); [contradiction|]. injection H as <- <-. right.
    split; [reflexivity|]. eexists _, q, a2. split; [|eauto].
    rewrite length_app, length_zeros. lia.
Qed.

(** The state after a successful growth: the header points to the new
    buffer, whose first bytes are the old buffer. *)
Lemma realloc_grown a arr hdr old n p a1 :
  arena_wf a -> array_wf a arr hdr ->
  arr_size hdr = 0 \/ get_bytes a (_upb_array_ptr hdr) = Ok old ->
  Z.of_nat (length old) = arr_size hdr * 2 ^ array_lg2 hdr ->
  arr_size hdr <= n < 2 ^ 59 ->
  upb_arena_malloc a (n * 2 ^ array_lg2 hdr)
    (OBytes (old ++ zeros (Z.to_nat (n * 2 ^ array_lg2 hdr -
                                     arr_size hdr * 2 ^ array_lg2 hdr)))) = (p, a1) ->
  p <> 0 ->
  let hdr' := {| arr_data := tag_arrptr p (array_lg2 hdr);
                 arr_len := arr_len hdr; arr_size := n |} in
  let a' := set_object a1 arr (OArray hdr') in
  arena_wf a' /\ array_wf a' arr hdr' /\ array_lg2 hdr' = array_lg2 hdr /\
  array_elems a' arr = array_elems a arr.
Proof.
  intros Ha Hwf Hold Hlen Hn Hm Hp hdr' a'.
  pose proof (awf_lg2 _ _ _ Hwf) as Hlg. pose proof (awf_len _ _ _ Hwf) as Hle.
  pose proof (awf_hdr _ _ _ Hwf) as Hh. pose proof Hh as Hh0%get_array_Ok.
  destruct (malloc_range _ _ _ _ _ Ha Hm) as [_ Hal%mod16_mod8].
  pose proof (malloc_fresh _ _ _ _ _ Ha Hm Hp) as Hfresh.
  pose proof (malloc_lookup_new _ _ _ _ _ Hm Hp) as Hnew.
  pose proof (malloc_lookup_old _ _ _ _ _ Ha Hm _ _ Hh0) as Hold1.
  assert (Hne : p <> arr) by congruence.
  assert (Hlg' : array_lg2 hdr' = array_lg2 hdr) by (apply tag_low; [exact Hal|lia]).
  assert (Hptr : _upb_array_ptr hdr' = p) by (apply tag_high; [exact Hal|lia]).
  assert (Hh' : get_array a' arr = Ok hdr').
  { unfold a'. rewrite get_array_set_object, decide_True by reflexivity. reflexivity. }
  assert (Hb' : get_bytes a' p = Ok (old ++ zeros (Z.to_nat
                  (n * 2 ^ array_lg2 hdr - arr_size hdr * 2 ^ array_lg2 hdr)))).
  { unfold a'. rewrite get_bytes_set_object, decide_False by congruence.
    apply get_bytes_Ok. exact Hnew. }
  assert (0 < 2 ^ array_lg2 hdr) by (apply pow2_pos; lia).
  split; [|split; [|split; [exact Hlg'|]]].
  - apply set_object_wf; [eapply malloc_wf; eauto|]. rewrite Hold1. eauto.
  - split; [exact Hh'|rewrite Hlg'; exact Hlg|cbn; lia|cbn; lia|].
    right. rewrite Hptr, Hlg'. eexists. split; [exact Hb'|].
    rewrite length_app, length_zeros. cbn. nia.
  - unfold array_elems at 1. rewrite Hh'. cbn [bind]. rewrite Hptr, Hlg'.
    change (arr_len hdr') with (arr_len hdr).
    destruct (Z.eqb_spec (arr_len hdr) 0) as [E|E].
    + symmetry. eapply array_elems_nil; eauto.
    + rewrite Hb'. cbn [bind].
      destruct (array_elems_buf _ _ _ Hwf) as (bs & Hb & Hbl & ->); [lia|].
      destruct Hold as [?|Hold]; [lia|]. rewrite Hold in Hb. injection Hb as <-.
      f_equal. apply elems_app; [apply shiftl_1_pos; lia|].
      rewrite Z.shiftl_1_l. nia.
Qed.

(** What [_upb_array_realloc] promises its callers: it returns, and either
    nothing changed, or the array has room for [m] elements and the same
    elements as before. *)
Lemma upb_array_realloc_spec a arr hdr m :
  arena_wf a -> array_wf a arr hdr -> m <= 2 ^ 58 ->
  exists ok a',
    _upb_array_realloc a arr m = Ok (ok, a') /\
    if ok then
      arena_wf a' /\
      exists hdr', array_wf a' arr hdr' /\ arr_len hdr' = arr_len hdr /\
                   array_lg2 hdr' = array_lg2 hdr /\ m <= arr_size hdr' /\
                   array_elems a' arr = array_elems a arr
    else a' = a.
Proof.
  intros Ha Hwf Hm.
  pose proof (awf_lg2 _ _ _ Hwf) as Hlg. pose proof (awf_len _ _ _ Hwf) as Hle.
  pose proof (awf_size _ _ _ Hwf) as Hsz.
  destruct (Z.le_gt_cases m (arr_size hdr)) as [Hfit|Hgrow].
  { exists true, a. split; [apply (upb_array_realloc_fits a arr hdr); [apply (awf_hdr _ _ _ Hwf)|assumption]|].
    split; [exact Ha|]. exists hdr. auto. }
  destruct (upb_array_realloc_grow a arr hdr m Hwf) as (old & Hlen & Hold & ->); [lia|].
  destruct (realloc_capacity_enough (arr_size hdr) m) as (n & -> & ? & ? & ?); [lia|lia|].
  cbn [bind]. unfold realloc_grown_to. rewrite Hlen, (elem_offset n) by lia.
  assert (0 < 2 ^ array_lg2 hdr) by (apply pow2_pos; lia).
  destruct (upb_arena_malloc _ _ _) as [p a1] eqn:Hmal.
  destruct (Z.eqb_spec p 0) as [->|Hp].
  { exists false, a. auto. }
  destruct (Z.leb_spec (arr_size hdr * 2 ^ array_lg2 hdr) (n * 2 ^ array_lg2 hdr)); [|nia].
  eexists true, _. split; [reflexivity|].
  destruct (realloc_grown a arr hdr old n p a1) as (? & ? & ? & ?); auto; try lia.
  split; [assumption|]. eexists. split; [eassumption|].
  split; [reflexivity|]. split; [assumption|]. split; [cbn; lia|assumption].
Qed.

(** [arr->len++] when there is room: one more element, the one the buffer
    holds there. *)
Lemma array_len_incr_spec a arr hdr l :
  array_wf a arr hdr -> arr_len hdr < arr_size hdr ->
  array_elems a arr = Ok l ->
  exists a' hdr' x,
    array_len_incr a arr = Ok a' /\ array_wf a' arr hdr' /\
    arr_len hdr' = arr_len hdr + 1 /\ array_lg2 hdr' = array_lg2 hdr /\
    array_elems a' arr = Ok (l ++ [x]) /\ (arena_wf a -> arena_wf a').
Proof.
  intros Hwf Hroom Hl. destruct Hwf as [Hh Hlg Hle Hsz [Hb|(bs & Hb & Hbl)]]; [lia|].
  pose proof Hh as Hh0%get_array_Ok. pose proof Hb as Hb0%get_bytes_Ok.
  set (hdr' := {| arr_data := arr_data hdr; arr_len := arr_len hdr + 1;
                  arr_size := arr_size hdr |}).
  exists (set_object a arr (OArray hdr')), hdr',
         (elem_at (Z.shiftl 1 (array_lg2 hdr)) bs (Z.to_nat (arr_len hdr))).
  assert (Hne : arr <> _upb_array_ptr hdr) by congruence.
  assert (Hb' : get_bytes (set_object a arr (OArray hdr')) (_upb_array_ptr hdr) = Ok bs).
  { rewrite get_bytes_set_object, decide_False by exact Hne. exact Hb. }
  assert (Hh' : get_array (set_object a arr (OArray hdr')) arr = Ok hdr').
  { rewrite get_array_set_object, decide_True by reflexivity. reflexivity. }
  split; [|split; [|split; [reflexivity|split; [reflexivity|split]]]].
  - unfold array_len_incr. rewrite Hh. cbn [bind].
    rewrite wrap_small by (unfold in_unsigned; lia). reflexivity.
  - split; [exact Hh'|exact Hlg|cbn; lia|exact Hsz|]. right. eauto.
  - unfold array_elems. rewrite Hh'. cbn [bind]. change (arr_len hdr') with (arr_len hdr + 1).
    destruct (Z.eqb_spec (arr_len hdr + 1) 0); [lia|].
    change (_upb_array_ptr hdr') with (_upb_array_ptr hdr). rewrite Hb'. cbn [bind].
    change (array_lg2 hdr') with (array_lg2 hdr).
    replace (Z.to_nat (arr_len hdr + 1)) with (S (Z.to_nat (arr_len hdr))) by lia.
    rewrite seq_S, map_app. cbn [map Nat.add]. do 2 f_equal.
    unfold array_elems in Hl. rewrite Hh in Hl. cbn [bind] in Hl.
    destruct (Z.eqb_spec (arr_len hdr) 0) as [E|E].
    + rewrite E. injection Hl as <-. reflexivity.
    + rewrite Hb in Hl. injection Hl as <-. reflexivity.
  - intros Ha. apply set_object_wf; [exact Ha|eauto].
Qed.

Lemma insert_app_r_alt_0 {A} (l : list A) (x y : A) :
  <[length l := y]> (l ++ [x]) = l ++ [y].
Proof. rewrite insert_app_r_alt by lia. rewrite Nat.sub_diag. reflexivity. Qed.

(** [upb_array_append] on a well-formed array with a value of at least
    the element width returns; when it returns [true] the array is well
    formed and its elements are the old ones followed by the first
    [1 << lg2] bytes of the value; when it returns [false] (the arena is
    exhausted) the arena is unchanged. *)
Lemma upb_array_append_spec a arr hdr l val :
  arena_wf a -> array_wf a arr hdr ->
  array_elems a arr = Ok l ->
  arr_len hdr < 2 ^ 58 ->
  Z.shiftl 1 (array_lg2 hdr) <= Z.of_nat (length val) ->
  exists ok a',
    upb_array_append a arr val = Ok (ok, a') /\
    if ok then
      arena_wf a' /\
      (exists hdr', array_wf a' arr hdr' /\ arr_len hdr' = arr_len hdr + 1 /\
                    array_lg2 hdr' = array_lg2 hdr) /\
      array_elems a' arr =
        Ok (l ++ [take (Z.to_nat (Z.shiftl 1 (array_lg2 hdr))) val])
    else a' = a.
Proof.
  intros Ha Hwf Hl Hlen Hval. unfold upb_array_append.
  pose proof (awf_len _ _ _ Hwf) as Hle.
  rewrite (awf_hdr _ _ _ Hwf). cbn [bind].
  rewrite wrap_small by (unfold in_unsigned; lia).
  destruct (upb_array_realloc_spec a arr hdr (arr_len hdr + 1) Ha Hwf)
    as ([|] & a1 & -> & Hok); [lia| |]; cbn [bind fst snd negb].
  2:{ exists false, a1. auto. }
  destruct Hok as (Ha1 & hdr1 & Hwf1 & Hlen1 & Hlg1 & Hroom & Hel). rewrite Hl in Hel.
  destruct (array_len_incr_spec a1 arr hdr1 l Hwf1)
    as (a2 & hdr2 & x & -> & Hwf2 & Hlen2 & Hlg2 & Hel2 & Ha2); [lia|exact Hel|].
  cbn [bind]. rewrite (awf_hdr _ _ _ Hwf2). cbn [bind].
  replace (arr_len hdr2 - 1) with (arr_len hdr) by lia.
  rewrite wrap_small by (unfold in_unsigned; lia).
  destruct (upb_array_set_spec a2 arr hdr2 _ (arr_len hdr) val Hwf2 Hel2)
    as (a3 & Hset & Hwf3 & Hel3); [lia|rewrite Hlg2, Hlg1; exact Hval|].
  rewrite Hset. cbn [bind]. exists true, a3. split; [reflexivity|]. split; [|split].
  - apply (upb_array_set_frame _ _ _ _ _ Hset), Ha2, Ha1.
  - exists hdr2. split; [exact Hwf3|]. split; [lia|congruence].
  - rewrite Hel3, Hlg2, Hlg1. f_equal.
    rewrite <- (array_elems_length _ _ _ Hwf _ Hl).
    apply insert_app_r_alt_0.
Qed.

(** ** The executable check, the constructor and sequences of appends *)

Lemma array_wf_b_true a arr hdr : array_wf_b a arr hdr = true -> array_wf a arr hdr.
Proof.
  unfold array_wf_b. rewrite !andb_true_iff, orb_true_iff.
  intros ((((((H1%bool_decide_eq_true & H2) & H3) & H4) & H5) & H6) & H7).
  split; try lia; [exact H1|].
  destruct H7 as [H7|H7]; [left; lia|right].
  destruct (get_bytes a (_upb_array_ptr hdr)) as [bs|]; [|discriminate].
  exists bs. split; [reflexivity|lia].
Qed.

(** The element width [upb_array_new] chooses is the width of the union
    member of the element type. *)
Lemma sizelg2_value_size t :
  exists lg2, table_index _upb_fieldtype_to_sizelg2 (fieldtype_code t) = Ok lg2 /\
              0 <= lg2 <= 4 /\ Z.shiftl 1 lg2 = value_size t.
Proof. destruct t; eexists; (split; [reflexivity|]); cbn; split; (lia || reflexivity). Qed.

Lemma upb_array_new_spec a t p a' :
  arena_wf a -> upb_array_new a t = Ok (p, a') ->
  arena_wf a' /\ (p = 0 -> a' = a) /\
  (p <> 0 -> exists hdr, array_wf a' p hdr /\ arr_len hdr = 0 /\
                         Z.shiftl 1 (array_lg2 hdr) = value_size t /\
                         array_elems a' p = Ok []).
Proof.
  intros Ha. unfold upb_array_new.
  destruct (sizelg2_value_size t) as (lg2 & -> & Hlg & Hw). cbn [bind].
  intros [= Hm]. split; [eapply malloc_wf; eauto|]. split; [eapply malloc_null; eauto|].
  intros Hp. pose proof (malloc_lookup_new _ _ _ _ _ Hm Hp) as Hnew%get_array_Ok.
  assert (Hl : array_lg2 {| arr_data := tag_arrptr 0 lg2; arr_len := 0; arr_size := 0 |} = lg2)
    by (apply tag_low; [reflexivity|lia]).
  exists {| arr_data := tag_arrptr 0 lg2; arr_len := 0; arr_size := 0 |}.
  split; [|split; [reflexivity|split]].
  - split; [exact Hnew|rewrite Hl; lia|cbn; lia|cbn; lia|left; reflexivity].
  - rewrite Hl. exact Hw.
  - unfold array_elems. rewrite Hnew. reflexivity.
Qed.

Lemma append_all_spec vals : forall a arr hdr l,
  arena_wf a -> array_wf a arr hdr -> array_elems a arr = Ok l ->
  arr_len hdr + Z.of_nat (length vals) <= 2 ^ 58 ->
  Forall (fun v => Z.shiftl 1 (array_lg2 hdr) <= Z.of_nat (length v)) vals ->
  exists ok a',
    append_all a arr vals = Ok (ok, a') /\
    (ok = true ->
     arena_wf a' /\
     (exists hdr', array_wf a' arr hdr' /\
                   arr_len hdr' = arr_len hdr + Z.of_nat (length vals) /\
                   array_lg2 hdr' = array_lg2 hdr) /\
     array_elems a' arr =
       Ok (l ++ map (take (Z.to_nat (Z.shiftl 1 (array_lg2 hdr)))) vals)).
Proof.
  induction vals as [|v vs IH]; intros a arr hdr l Ha Hwf Hl Hlen Hvals.
  - exists true, a. split; [reflexivity|]. intros _. split; [exact Ha|].
    rewrite app_nil_r. split; [|exact Hl]. exists hdr. cbn. auto with lia.
  - apply Forall_cons in Hvals as [Hv Hvs]. cbn [length] in Hlen. cbn [append_all].
    destruct (upb_array_append_spec a arr hdr l v Ha Hwf Hl) as ([|] & a1 & -> & H1);
      [lia|exact Hv| |]; cbn [bind fst snd].
    2:{ exists false, a1. split; [reflexivity|discriminate]. }
    destruct H1 as (Ha1 & (hdr1 & Hwf1 & Hlen1 & Hlg1) & Hl1).
    destruct (IH a1 arr hdr1 _ Ha1 Hwf1 Hl1) as (ok & a2 & -> & H2);
      [lia|rewrite Hlg1; exact Hvs|].
    exists ok, a2. split; [reflexivity|]. intros Hok.
    destruct (H2 Hok) as (Ha2 & (hdr2 & Hwf2 & Hlen2 & Hlg2) & Hl2).
    split; [exact Ha2|]. split.
    + exists hdr2. split; [exact Hwf2|]. split; [cbn [length]; lia|congruence].
    + rewrite Hl2, Hlg1, <- app_assoc. reflexivity.
Qed.

(** ** Growth *)

(** The capacity a full array of capacity [s] grows to. *)
Lemma realloc_capacity_full s :
  0 <= s < 2 ^ 59 ->
  realloc_capacity 64 (Z.max s 4) (s + 1) = Ok (if 4 <=? s then 2 * s else 4).
Proof.
  intros Hs. change 64%nat with (S (S 62)). cbn [realloc_capacity].
  destruct (Z.leb_spec 4 s).
  - rewrite Z.max_l by lia. destruct (Z.ltb_spec s (s + 1)); [|lia].
    rewrite wrap_small by (unfold in_unsigned; lia).
    destruct (Z.ltb_spec (s * 2) (s + 1)); [lia|]. f_equal. lia.
  - rewrite Z.max_r by lia. destruct (Z.ltb_spec 4 (s + 1)); [lia|reflexivity].
Qed.

(** The header after a reallocation that had to grow the buffer. *)
Lemma upb_array_realloc_size a arr hdr m a1 :
  get_array a arr = Ok hdr -> arr_size hdr < m ->
  _upb_array_realloc a arr m = Ok (true, a1) ->
  exists hdr1, get_array a1 arr = Ok hdr1 /\ arr_len hdr1 = arr_len hdr /\
               realloc_capacity 64 (Z.max (arr_size hdr) 4) m = Ok (arr_size hdr1).
Proof.
  intros Hg Hm (hdr0 & Hg0 & H)%upb_array_realloc_inv.
  rewrite Hg in Hg0. injection Hg0 as <-.
  destruct H as [(? & _)|(_ & n & Hn & [(? & _)|(_ & o & p & a2 & _ & _ & _ & ->)])];
    [lia|discriminate|].
  eexists. rewrite get_array_set_object, decide_True by reflexivity.
  split; [reflexivity|]. split; [reflexivity|exact Hn].
Qed.

Lemma upb_array_append_size a arr hdr val a' :
  get_array a arr = Ok hdr -> arr_len hdr = arr_size hdr -> 0 <= arr_len hdr < 2 ^ 63 ->
  upb_array_append a arr val = Ok (true, a') ->
  exists hdr', get_array a' arr = Ok hdr' /\
    realloc_capacity 64 (Z.max (arr_size hdr) 4) (arr_size hdr + 1) = Ok (arr_size hdr').
Proof.
  unfold upb_array_append. intros Hg Hfull Hlen. rewrite Hg. cbn [bind].
  rewrite wrap_small by (unfold in_unsigned; lia). rewrite Hfull.
  destruct (_upb_array_realloc a arr (arr_size hdr + 1)) as [[[|] a1]|] eqn:Hr;
    [|discriminate..]. cbn [bind fst snd negb].
  destruct (upb_array_realloc_size a arr hdr (arr_size hdr + 1) a1 Hg) as (hdr1 & Hg1 & _ & Hn);
    [lia|exact Hr|].
  unfold array_len_incr. rewrite Hg1. cbn [bind].
  rewrite get_array_set_object, decide_True by reflexivity. cbn [bind].
  destruct (upb_array_set _ _ _ _) as [a3|] eqn:Hs; [|discriminate]. intros [= <-].
  destruct (upb_array_set_frame _ _ _ _ _ Hs) as (Hfr & _).
  eexists. rewrite Hfr, get_array_set_object, decide_True by reflexivity.
  split; [reflexivity|exact Hn].
Qed.

(** ** Every operation keeps the arena and every handle *)

Lemma upb_array_new_preserves a t p a' : upb_array_new a t = Ok (p, a') -> preserves a a'.
Proof.
  unfold upb_array_new. destruct (table_index _ _); [|discriminate].
  cbn [bind]. intros [= H]. eapply preserves_malloc_eq; eauto.
Qed.

Lemma upb_array_realloc_preserves a arr m ok a' :
  _upb_array_realloc a arr m = Ok (ok, a') -> preserves a a'.
Proof.
  intros (hdr & Hg & H)%upb_array_realloc_inv.
  destruct H as [(_ & _ & ->)|(_ & n & _ & [(_ & ->)|(_ & o & p & a1 & _ & Hm & Hp & ->)])];
    [reflexivity..|].
  eapply preserves_then; [eapply preserves_malloc_eq; eauto|].
  intros Ha1 L. eapply preserves_set_array; [exact Hg|exact L|]. cbn [arr_data].
  apply tag_low; [|apply land7_range].
  apply mod16_mod8, (wf_objs _ Ha1 p _ (malloc_lookup_new _ _ _ _ _ Hm Hp)).
Qed.

Lemma array_len_incr_preserves a arr a' : array_len_incr a arr = Ok a' -> preserves a a'.
Proof.
  unfold array_len_incr. destruct (get_array a arr) as [hdr|] eqn:Hg; [|discriminate].
  cbn [bind]. intros [= <-]. eapply preserves_set_array; [exact Hg|reflexivity..].
Qed.

Lemma upb_array_set_preserves a arr i val a' :
  upb_array_set a arr i val = Ok a' -> preserves a a'.
Proof. unfold upb_array_set. intros H. res_inv. eapply preserves_mem_store; eauto. Qed.

Lemma upb_array_append_preserves a arr val ok a' :
  upb_array_append a arr val = Ok (ok, a') -> preserves a a'.
Proof.
  unfold upb_array_append. intros H.
  destruct (get_array a arr) as [hdr|]; [|discriminate]. cbn [bind] in H.
  destruct (_upb_array_realloc _ _ _) as [[ok1 a1]|] eqn:Hr; [|discriminate].
  cbn [bind fst snd] in H. apply upb_array_realloc_preserves in Hr.
  destruct ok1; cbn [negb] in H; [|injection H as <- <-; exact Hr].
  destruct (array_len_incr a1 arr) as [a2|] eqn:Hi; [|discriminate]. cbn [bind] in H.
  destruct (get_array a2 arr) as [hdr2|]; [|discriminate]. cbn [bind] in H.
  destruct (upb_array_set _ _ _ _) as [a3|] eqn:Hs; [|discriminate]. injection H as <- <-.
  etrans; [exact Hr|]. etrans; [eapply array_len_incr_preserves; eauto|].
  eapply upb_array_set_preserves; eauto.
Qed.

Lemma upb_array_resize_preserves a arr size ok a' :
  upb_array_resize a arr size = Ok (ok, a') -> preserves a a'.
Proof. apply upb_array_realloc_preserves. Qed.

(** ** Properties of the array container *)

(** [upb_array_get] refines list lookup: on a well-formed array it
    returns the element at an index below the length, and fails the
    assertion [i < arr->len] at any other index. *)
Theorem upb_array_get_elems a arr hdr l i :
  array_wf a arr hdr ->
  array_elems a arr = Ok l ->
  0 <= i ->
  upb_array_get a arr i =
    match l !! Z.to_nat i with
    | Some v => Ok v
    | None => Err AssertFailed
    end.
Proof. apply upb_array_get_spec. Qed.

Lemma upb_array_get_elems_witness :
  upb_array_get example_arena example_arr 1 = Ok (msgval_int32 99).
Proof.
  apply (upb_array_get_elems example_arena example_arr example_hdr
           [msgval_int32 1; msgval_int32 99; msgval_int32 3] 1);
    [apply array_wf_b_true; vm_compute; reflexivity|vm_compute; reflexivity|lia].
Defined.

(** [upb_array_set] refines list update: at an index below the length
    and with a value of at least the element width it succeeds, keeps the
    array well formed, and replaces that element by the first [1 << lg2]
    bytes of the value. *)
Theorem upb_array_set_elems a arr hdr l i val :
  array_wf a arr hdr ->
  array_elems a arr = Ok l ->
  0 <= i < arr_len hdr ->
  Z.shiftl 1 (array_lg2 hdr) <= Z.of_nat (length val) ->
  exists a',
    upb_array_set a arr i val = Ok a' /\
    array_wf a' arr hdr /\
    array_elems a' arr =
      Ok (<[Z.to_nat i := take (Z.to_nat (Z.shiftl 1 (array_lg2 hdr))) val]> l).
Proof. apply upb_array_set_spec. Qed.

Lemma upb_array_set_elems_witness :
  exists a',
    upb_array_set example_arena example_arr 2 (msgval_int64 7) = Ok a' /\
    array_wf a' example_arr example_hdr /\
    array_elems a' example_arr =
      Ok (<[Z.to_nat 2 := take (Z.to_nat (Z.shiftl 1 (array_lg2 example_hdr)))
                            (msgval_int64 7)]>
            [msgval_int32 1; msgval_int32 99; msgval_int32 3]).
Proof.
  apply (upb_array_set_elems example_arena example_arr example_hdr
           [msgval_int32 1; msgval_int32 99; msgval_int32 3] 2 (msgval_int64 7));
    [apply array_wf_b_true; vm_compute; reflexivity|vm_compute; reflexivity
    |vm_compute; split; congruence|vm_compute; congruence].
Defined.

(** C18: a read after a write: [upb_array_get] at the index just set
    returns the bytes written, and at any other index what it returned
    before. *)
Theorem upb_array_set_get a arr hdr i j val a' :
  array_wf a arr hdr ->
  0 <= i < arr_len hdr -> 0 <= j ->
  Z.shiftl 1 (array_lg2 hdr) <= Z.of_nat (length val) ->
  upb_array_set a arr i val = Ok a' ->
  upb_array_get a' arr j =
    if decide (j = i)
    then Ok (take (Z.to_nat (Z.shiftl 1 (array_lg2 hdr))) val)
    else upb_array_get a arr j.
Proof.
  intros Hwf Hi Hj Hval Hset.
  destruct (array_elems_total _ _ _ Hwf) as [l Hl].
  destruct (upb_array_set_spec a arr hdr l i val Hwf Hl Hi Hval) as (a'' & E & Hwf' & Hl').
  rewrite Hset in E. injection E as <-.
  rewrite (upb_array_get_spec _ _ _ _ j Hwf' Hl' Hj).
  pose proof (array_elems_length _ _ _ Hwf _ Hl) as Hlen.
  case_res.
  - subst j. rewrite list_lookup_insert_eq by lia. reflexivity.
  - rewrite list_lookup_insert_ne by lia. symmetry.
    apply (upb_array_get_spec a arr hdr); auto.
Qed.

Lemma upb_array_set_get_witness :
  upb_array_get example_arena_set example_arr 1 =
    if decide (1 = 0)
    then Ok (take (Z.to_nat (Z.shiftl 1 (array_lg2 example_hdr))) (msgval_int32 5))
    else upb_array_get example_arena example_arr 1.
Proof.
  apply (upb_array_set_get example_arena example_arr example_hdr 0 1
           (msgval_int32 5) example_arena_set);
    [apply array_wf_b_true; vm_compute; reflexivity|vm_compute; split; congruence
    |lia|vm_compute; congruence|vm_compute; reflexivity].
Defined.

(** C2: [upb_array_append] refines snoc: on a well-formed array it
    returns; after [true] the array is well formed, one longer, and its
    elements are the old ones followed by the first [1 << lg2] bytes of the
    value; after [false] the arena is unchanged. *)
Theorem upb_array_append_elems a arr hdr l val :
  arena_wf a -> array_wf a arr hdr ->
  array_elems a arr = Ok l ->
  arr_len hdr < 2 ^ 58 ->
  Z.shiftl 1 (array_lg2 hdr) <= Z.of_nat (length val) ->
  exists ok a',
    upb_array_append a arr val = Ok (ok, a') /\
    if ok then
      arena_wf a' /\
      (exists hdr', array_wf a' arr hdr' /\ arr_len hdr' = arr_len hdr + 1 /\
                    array_lg2 hdr' = array_lg2 hdr) /\
      array_elems a' arr =
        Ok (l ++ [take (Z.to_nat (Z.shiftl 1 (array_lg2 hdr))) val])
    else a' = a.
Proof. apply upb_array_append_spec. Qed.

Lemma upb_array_append_elems_witness :
  exists ok a',
    upb_array_append example_arena example_arr (msgval_int32 4) = Ok (ok, a') /\
    if ok then
      arena_wf a' /\
      (exists hdr', array_wf a' example_arr hdr' /\
                    arr_len hdr' = arr_len example_hdr + 1 /\
                    array_lg2 hdr' = array_lg2 example_hdr) /\
      array_elems a' example_arr =
        Ok ([msgval_int32 1; msgval_int32 99; msgval_int32 3] ++
            [take (Z.to_nat (Z.shiftl 1 (array_lg2 example_hdr))) (msgval_int32 4)])
    else a' = example_arena.
Proof.
  apply (upb_array_append_elems example_arena example_arr example_hdr
           [msgval_int32 1; msgval_int32 99; msgval_int32 3] (msgval_int32 4));
    [apply arena_wf_b_true; vm_compute; reflexivity
    |apply array_wf_b_true; vm_compute; reflexivity
    |vm_compute; reflexivity|vm_compute; reflexivity|vm_compute; congruence].
Defined.

(** C19: for any sequence of appends that all succeed, the elements of
    the array are the old ones followed by the appended values in order,
    and [upb_array_size] has grown by their number. *)
Theorem upb_array_append_all_elems a arr hdr l vals a' :
  arena_wf a -> array_wf a arr hdr ->
  array_elems a arr = Ok l ->
  arr_len hdr + Z.of_nat (length vals) <= 2 ^ 58 ->
  Forall (fun v => Z.shiftl 1 (array_lg2 hdr) <= Z.of_nat (length v)) vals ->
  append_all a arr vals = Ok (true, a') ->
  array_elems a' arr =
    Ok (l ++ map (take (Z.to_nat (Z.shiftl 1 (array_lg2 hdr)))) vals) /\
  upb_array_size a' arr = Ok (arr_len hdr + Z.of_nat (length vals)).
Proof.
  intros Ha Hwf Hl Hlen Hvals Happ.
  destruct (append_all_spec vals a arr hdr l Ha Hwf Hl Hlen Hvals) as (ok & a'' & E & H).
  rewrite Happ in E. injection E as <- <-.
  destruct (H eq_refl) as (_ & (hdr' & Hwf' & Hlen' & _) & Hl').
  split; [exact Hl'|].
  unfold upb_array_size. rewrite (awf_hdr _ _ _ Hwf'). cbn [bind]. congruence.
Qed.

Lemma upb_array_append_all_elems_witness :
  array_elems example_arena_all example_arr =
    Ok ([msgval_int32 1; msgval_int32 99; msgval_int32 3] ++
        map (take (Z.to_nat (Z.shiftl 1 (array_lg2 example_hdr))))
            [msgval_int32 4; msgval_int32 5]) /\
  upb_array_size example_arena_all example_arr =
    Ok (arr_len example_hdr + Z.of_nat (length [msgval_int32 4; msgval_int32 5])).
Proof.
  apply (upb_array_append_all_elems example_arena example_arr example_hdr
           [msgval_int32 1; msgval_int32 99; msgval_int32 3]
           [msgval_int32 4; msgval_int32 5] example_arena_all);
    [apply arena_wf_b_true; vm_compute; reflexivity
    |apply array_wf_b_true; vm_compute; reflexivity
    |vm_compute; reflexivity|vm_compute; congruence
    |repeat constructor; vm_compute; congruence|vm_compute; reflexivity].
Defined.

(** [upb_array_resize] forwards to [_upb_array_realloc], the helper after
    which [upb_array_append] increments the length itself: with the
    helper as modelled here it returns for every request of at most 2^58
    elements and leaves the length and the elements as they were. *)
Theorem upb_array_resize_keeps_elems a arr hdr m :
  arena_wf a -> array_wf a arr hdr -> m <= 2 ^ 58 ->
  exists ok a',
    upb_array_resize a arr m = Ok (ok, a') /\
    upb_array_size a' arr = upb_array_size a arr /\
    array_elems a' arr = array_elems a arr.
Proof.
  intros Ha Hwf Hm. unfold upb_array_resize.
  destruct (upb_array_realloc_spec a arr hdr m Ha Hwf Hm) as ([|] & a' & E & H);
    eexists; exists a'; (split; [exact E|]).
  - destruct H as (_ & hdr' & Hwf' & Hlen & _ & _ & Hel). split; [|exact Hel].
    unfold upb_array_size. rewrite (awf_hdr _ _ _ Hwf'), (awf_hdr _ _ _ Hwf).
    cbn [bind]. congruence.
  - subst a'. auto.
Qed.

Lemma upb_array_resize_keeps_elems_witness :
  exists ok a',
    upb_array_resize example_arena example_arr 1 = Ok (ok, a') /\
    upb_array_size a' example_arr = upb_array_size example_arena example_arr /\
    array_elems a' example_arr = array_elems example_arena example_arr.
Proof.
  apply (upb_array_resize_keeps_elems example_arena example_arr example_hdr 1);
    [apply arena_wf_b_true; vm_compute; reflexivity
    |apply array_wf_b_true; vm_compute; reflexivity|vm_compute; congruence].
Defined.

(** An array made by [upb_array_new] is well formed and empty:
    [upb_array_size] is 0 and [upb_array_get] fails its assertion at every
    index. *)
Theorem upb_array_new_empty a t p a' i :
  arena_wf a -> upb_array_new a t = Ok (p, a') -> p <> 0 -> 0 <= i ->
  arena_wf a' /\ upb_array_size a' p = Ok 0 /\
  upb_array_get a' p i = Err AssertFailed.
Proof.
  intros Ha Hnew Hp Hi.
  destruct (upb_array_new_spec a t p a' Ha Hnew) as (Ha' & _ & H).
  destruct (H Hp) as (hdr & Hwf & Hlen & _ & Hel).
  split; [exact Ha'|]. split.
  - rewrite (upb_array_size_spec _ _ _ _ Hwf Hel). reflexivity.
  - rewrite (upb_array_get_spec _ _ _ _ i Hwf Hel Hi). reflexivity.
Qed.

Lemma upb_array_new_empty_witness :
  arena_wf (snd example_new) /\
  upb_array_size (snd example_new) (fst example_new) = Ok 0 /\
  upb_array_get (snd example_new) (fst example_new) 0 = Err AssertFailed.
Proof.
  apply (upb_array_new_empty (arena_init 4096) UPB_TYPE_STRING
           (fst example_new) (snd example_new) 0);
    [apply arena_wf_b_true; vm_compute; reflexivity|vm_compute; reflexivity
    |vm_compute; congruence|lia].
Defined.

(** C36: when the arena has no room for a larger buffer,
    [upb_array_append] on a full array returns [false] and leaves the
    arena, hence the array, exactly as it was. *)
Theorem upb_array_append_exhausted a arr hdr val :
  arena_wf a -> array_wf a arr hdr ->
  arr_len hdr = arr_size hdr -> arr_len hdr < 2 ^ 58 ->
  a_limit a < a_next a + Z.max (arr_size hdr) 4 * 2 ^ array_lg2 hdr ->
  upb_array_append a arr val = Ok (false, a).
Proof.
  intros Ha Hwf Hfull Hlen Hlim. unfold upb_array_append.
  pose proof (awf_lg2 _ _ _ Hwf) as Hlg. pose proof (awf_len _ _ _ Hwf) as Hle.
  rewrite (awf_hdr _ _ _ Hwf). cbn [bind].
  rewrite wrap_small by (unfold in_unsigned; lia).
  destruct (upb_array_realloc_grow a arr hdr (arr_len hdr + 1) Hwf) as (old & _ & _ & ->);
    [lia|].
  destruct (realloc_capacity_enough (arr_size hdr) (arr_len hdr + 1))
    as (n & -> & ? & ? & ?); [lia|lia|]. cbn [bind].
  unfold realloc_grown_to. rewrite (elem_offset n) by lia.
  assert (0 < 2 ^ array_lg2 hdr) by (apply pow2_pos; lia).
  rewrite malloc_fail; [reflexivity|].
  pose proof (align_up_ge (n * 2 ^ array_lg2 hdr)). nia.
Qed.

Lemma upb_array_append_exhausted_witness :
  upb_array_append (snd example_full) (fst example_full) (msgval_int32 1) =
    Ok (false, snd example_full).
Proof.
  apply (upb_array_append_exhausted (snd example_full) (fst example_full)
           {| arr_data := 2; arr_len := 0; arr_size := 0 |} (msgval_int32 1));
    [apply arena_wf_b_true; vm_compute; reflexivity
    |apply array_wf_b_true; vm_compute; reflexivity
    |reflexivity|vm_compute; reflexivity|vm_compute; reflexivity].
Defined.

(** Growth is by doubling: when [upb_array_append] on a full array
    returns [true], the capacity is 4 if it was below 4 and twice what it
    was otherwise, so a sequence of appends reallocates a logarithmic
    number of times. *)
Theorem upb_array_append_doubles a arr hdr val a' :
  array_wf a arr hdr -> arr_len hdr = arr_size hdr ->
  upb_array_append a arr val = Ok (true, a') ->
  exists hdr', get_array a' arr = Ok hdr' /\
               arr_size hdr' = if 4 <=? arr_size hdr then 2 * arr_size hdr else 4.
Proof.
  intros Hwf Hfull Happ.
  pose proof (awf_len _ _ _ Hwf) as Hle. pose proof (awf_size _ _ _ Hwf) as Hsz.
  destruct (upb_array_append_size a arr hdr val a' (awf_hdr _ _ _ Hwf) Hfull) as (hdr' & Hg & Hn);
    [lia|exact Happ|].
  rewrite realloc_capacity_full in Hn by lia. exists hdr'. split; [exact Hg|congruence].
Qed.

Lemma upb_array_append_doubles_witness :
  exists hdr', get_array (snd (snd example_grown)) (fst example_grown) = Ok hdr' /\
               arr_size hdr' =
                 if 4 <=? arr_size (fst (snd example_grown_from))
                 then 2 * arr_size (fst (snd example_grown_from)) else 4.
Proof.
  apply (upb_array_append_doubles (snd (snd example_grown_from)) (fst example_grown)
           (fst (snd example_grown_from)) (msgval_int32 5));
    [apply array_wf_b_true; vm_compute; reflexivity|reflexivity|vm_compute; reflexivity].
Defined.

(** ** The scenario of the specification: append 1, 2, 3, set slot 1 to 99 *)

Example example_array_elems :
  (r <- example_array ;; array_elems (snd r) (fst r)) =
    Ok [msgval_int32 1; msgval_int32 99; msgval_int32 3].
Proof. vm_compute. reflexivity. Qed.

Example example_array_get :
  (r <- example_array ;; v <- upb_array_get (snd r) (fst r) 1 ;; int32_val v) = Ok 99.
Proof. vm_compute. reflexivity. Qed.

Example example_array_get_oob :
  (r <- example_array ;; upb_array_get (snd r) (fst r) 3) = Err AssertFailed.
Proof. vm_compute. reflexivity. Qed.
