(* ===== verification/Growth.v ===== *)
(** * Growth: the capacity loop of the array

    [_upb_array_realloc] finds the new capacity by doubling:
    [new_size = max(size, 4); while (new_size < min_size) new_size *= 2;].
    This file relates the loop ([realloc_capacity]) to a closed form, the
    old capacity times the least power of two that suffices
    ([capacity_ref]), and shows what happens to requests the doubling
    cannot reach: above 2^63 the capacity wraps around to 0 and the loop
    never ends, whatever the fuel; between 2^58 and 2^63 the loop ends
    and the byte count is more than an arena holds, or wraps around to
    0: the request is refused and nothing changes. *)

From Stdlib Require Import ZArith Lia List.
From coqutil Require Import Byte Word.LittleEndianList.
From stdpp Require Import base tactics list numbers gmap.
From S2P Require Import Prelude Layout Arena Array.

#[local] Open Scope Z_scope.

(** ** The closed form *)

(** [m / s] rounded up. *)
Definition cdiv (m s : Z) : Z := (m + s - 1) / s.

(** The least [s * 2^k] that is at least [m]. *)
Definition capacity_ref (s m : Z) : Z := s * 2 ^ Z.log2_up (cdiv m s).

(** The capacities the loop passes through from a power of two: powers
    of two, and 0 once the product has left the 64 bits. *)
Definition wrapped_pow2 (s : Z) : Prop := s = 0 \/ exists j, 0 <= j < 64 /\ s = 2 ^ j.

(** An array whose capacity is 0, as [upb_array_new] makes it. *)
Definition example_empty : Z * upb_arena := example_new.

(** The full array of four elements after a request for room for nine. *)
Definition example_resized : bool * upb_arena :=
  match upb_array_resize (snd (snd example_grown_from)) (fst example_grown_from) 9 with
  | Ok r => r
  | Err _ => (false, snd (snd example_grown_from))
  end.

(** ** Rounding up *)

Lemma cdiv_le m s : 0 < s -> m <= s -> cdiv m s <= 1.
Proof.
  intros Hs Hm. unfold cdiv.
  assert ((m + s - 1) / s < 2) by (apply Z.div_lt_upper_bound; lia). lia.
Qed.

Lemma cdiv_gt m s : 0 < s -> s < m -> 2 <= cdiv m s.
Proof. intros Hs Hm. unfold cdiv. apply Z.div_le_lower_bound; lia. Qed.

(** Halving the quotient is doubling the divisor. *)
Lemma cdiv_double m s : 0 < s -> cdiv m (s * 2) = (cdiv m s + 1) / 2.
Proof.
  intros Hs. unfold cdiv.
  replace ((m + s - 1) / s + 1) with ((m + s * 2 - 1) / s).
  - rewrite Z.div_div by lia. reflexivity.
  - replace (m + s * 2 - 1) with (m + s - 1 + 1 * s) by lia.
    rewrite Z.div_add by lia. reflexivity.
Qed.

Lemma log2_up_half c : 2 <= c -> Z.log2_up c = 1 + Z.log2_up ((c + 1) / 2).
Proof.
  intros Hc. rewrite (Z.log2_up_eqn c) by lia.
  destruct (Z.eq_dec c 2) as [->|Hne]; [reflexivity|].
  rewrite (Z.log2_up_eqn ((c + 1) / 2)) by (Z.div_mod_to_equations; lia).
  replace (Z.pred ((c + 1) / 2)) with ((Z.pred c) / 2)
    by (unfold Z.pred; Z.div_mod_to_equations; lia).
  replace (Z.pred c / 2) with (Z.shiftr (Z.pred c) 1)
    by (rewrite Z.shiftr_div_pow2 by lia; reflexivity).
  rewrite Z.log2_shiftr by lia.
  assert (1 <= Z.log2 (Z.pred c)) by (apply Z.log2_le_pow2; lia). lia.
Qed.

(** One turn of the loop in the closed form. *)
Lemma capacity_ref_step s m : 0 < s -> s < m -> capacity_ref s m = capacity_ref (s * 2) m.
Proof.
  intros Hs Hm. unfold capacity_ref. rewrite cdiv_double by exact Hs.
  rewrite (log2_up_half (cdiv m s)) by (apply cdiv_gt; lia).
  rewrite Z.pow_add_r by (try apply Z.log2_up_nonneg; lia). lia.
Qed.

Lemma capacity_ref_fits s m : 0 < s -> m <= s -> capacity_ref s m = s.
Proof.
  intros Hs Hm. unfold capacity_ref.
  rewrite (proj2 (Z.log2_up_null _)) by (apply cdiv_le; lia). lia.
Qed.

(** ** The loop computes the closed form *)

Lemma realloc_capacity_ref (k : nat) : forall s m,
  1 <= s -> s < 2 ^ 59 -> m <= 2 ^ 58 -> m <= s * 2 ^ Z.of_nat k ->
  realloc_capacity k s m = Ok (capacity_ref s m).
Proof.
  induction k as [|k IH]; intros s m Hs Hs' Hm Hk; cbn [realloc_capacity];
    destruct (Z.ltb_spec s m) as [Hlt|Hge];
    try (rewrite capacity_ref_fits by lia; reflexivity).
  - cbn in Hk. lia.
  - rewrite wrap_small by (unfold in_unsigned; lia).
    rewrite (capacity_ref_step s m) by lia. apply IH; try lia.
    rewrite Nat2Z.inj_succ, Z.pow_succ_r in Hk by lia. lia.
Qed.

(** The loop from [max(s, 4)] within the 64 turns of the model. *)
Lemma realloc_capacity_closed_form s m :
  0 <= s < 2 ^ 59 -> m <= 2 ^ 58 ->
  realloc_capacity 64 (Z.max s 4) m = Ok (capacity_ref (Z.max s 4) m).
Proof. intros Hs Hm. apply realloc_capacity_ref; lia. Qed.

(** ** Requests the doubling cannot reach *)

Lemma wrapped_pow2_double s : wrapped_pow2 s -> wrapped_pow2 (wrap 64 (s * 2)).
Proof.
  intros [->|(j & Hj & ->)]; [left; reflexivity|].
  destruct (Z.eq_dec j 63) as [->|Hne]; [left; reflexivity|right].
  exists (j + 1). split; [lia|]. rewrite Z.pow_add_r by lia.
  apply wrap_small. unfold in_unsigned. split; [pose proof (pow2_pos j); lia|].
  change (2 ^ 64) with (2 ^ 63 * 2 ^ 1).
  assert (2 ^ j <= 2 ^ 62) by (apply Z.pow_le_mono_r; lia). lia.
Qed.

Lemma wrapped_pow2_le s : wrapped_pow2 s -> s <= 2 ^ 63.
Proof.
  intros [->|(j & Hj & ->)]; [lia|]. apply Z.pow_le_mono_r; lia.
Qed.

Lemma realloc_capacity_diverges (fuel : nat) : forall s m,
  wrapped_pow2 s -> 2 ^ 63 < m -> realloc_capacity fuel s m = Err Diverges.
Proof.
  induction fuel as [|k IH]; intros s m Hs Hm; cbn [realloc_capacity];
    pose proof (wrapped_pow2_le s Hs);
    (destruct (Z.ltb_spec s m); [|lia]); [reflexivity|].
  apply IH; [apply wrapped_pow2_double; exact Hs|exact Hm].
Qed.

(** ** Requests between 2^58 and 2^63 *)

(** From a power of two the loop ends at a power of two that suffices,
    within 63 doublings. *)
Lemma realloc_capacity_pow2 (k : nat) : forall j m,
  0 <= j <= 63 -> m <= 2 ^ 63 -> 63 - j <= Z.of_nat k ->
  exists j', j <= j' <= 63 /\ realloc_capacity k (2 ^ j) m = Ok (2 ^ j') /\ m <= 2 ^ j'.
Proof.
  induction k as [|k IH]; intros j m Hj Hm Hk; cbn [realloc_capacity];
    destruct (Z.ltb_spec (2 ^ j) m) as [Hlt|Hge];
    try (exists j; split; [lia|split; [reflexivity|lia]]).
  - assert (j = 63) as -> by lia. lia.
  - assert (j < 63) by (destruct (Z.eq_dec j 63) as [->|]; lia).
    assert (2 ^ j <= 2 ^ 62) by (apply Z.pow_le_mono_r; lia). pose proof (pow2_pos j).
    rewrite wrap_small by (unfold in_unsigned; lia).
    replace (2 ^ j * 2) with (2 ^ (j + 1)) by (rewrite Z.pow_add_r by lia; lia).
    destruct (IH (j + 1) m) as (j' & ? & ? & ?); [lia|lia|lia|]. exists j'. split; [lia|auto].
Qed.

(** The byte count of a capacity that is a power of two: the product,
    or 0 when the product does not fit 64 bits. *)
Lemma wrap_shiftl_pow2 j lg2 :
  0 <= j -> 0 <= lg2 ->
  wrap 64 (Z.shiftl (2 ^ j) lg2) =
    if 2 ^ 64 <=? 2 ^ j * 2 ^ lg2 then 0 else 2 ^ j * 2 ^ lg2.
Proof.
  intros Hj Hl. rewrite Z.shiftl_mul_pow2, <- Z.pow_add_r by lia.
  destruct (Z.leb_spec (2 ^ 64) (2 ^ (j + lg2))) as [H|H].
  - assert (64 <= j + lg2) by (apply (Z.pow_le_mono_r_iff 2); lia).
    replace (j + lg2) with ((j + lg2 - 64) + 64) by lia.
    rewrite Z.pow_add_r by lia. apply Z_mod_mult.
  - apply wrap_small. unfold in_unsigned. pose proof (pow2_pos (j + lg2)). lia.
Qed.

(** ** Properties of the growth *)

(** C30: the capacity loop computes the closed form: on a well-formed
    array and for a request of at most 2^58 elements, the loop of
    [_upb_array_realloc] ends within its 64 turns with [max(size, 4)]
    times the least power of two that makes it at least the request, and
    when [upb_array_resize] returns [true] the capacity of the array is
    what it was if that sufficed and this closed form otherwise. *)
Theorem upb_array_resize_closed_form a arr hdr m ok a' :
  array_wf a arr hdr -> m <= 2 ^ 58 ->
  upb_array_resize a arr m = Ok (ok, a') ->
  realloc_capacity 64 (Z.max (arr_size hdr) 4) m =
    Ok (capacity_ref (Z.max (arr_size hdr) 4) m) /\
  (ok = true ->
   exists hdr', get_array a' arr = Ok hdr' /\
     arr_size hdr' = if m <=? arr_size hdr then arr_size hdr
                     else capacity_ref (Z.max (arr_size hdr) 4) m).
Proof.
  intros Hwf Hm Hr. pose proof (awf_len _ _ _ Hwf). pose proof (awf_size _ _ _ Hwf).
  pose proof (awf_hdr _ _ _ Hwf) as Hg.
  assert (E : realloc_capacity 64 (Z.max (arr_size hdr) 4) m =
              Ok (capacity_ref (Z.max (arr_size hdr) 4) m))
    by (apply realloc_capacity_closed_form; lia).
  split; [exact E|]. intros ->. unfold upb_array_resize in Hr.
  destruct (Z.leb_spec m (arr_size hdr)) as [Hfit|Hgrow].
  - rewrite (upb_array_realloc_fits a arr hdr m Hg Hfit) in Hr. injection Hr as <-. eauto.
  - destruct (upb_array_realloc_size a arr hdr m a' Hg Hgrow Hr) as (hdr' & Hg' & _ & Hn).
    exists hdr'. split; [exact Hg'|congruence].
Qed.

Lemma upb_array_resize_closed_form_witness :
  realloc_capacity 64 (Z.max (arr_size (fst (snd example_grown_from))) 4) 9 =
    Ok (capacity_ref (Z.max (arr_size (fst (snd example_grown_from))) 4) 9) /\
  (fst example_resized = true ->
   exists hdr', get_array (snd example_resized) (fst example_grown_from) = Ok hdr' /\
     arr_size hdr' = if 9 <=? arr_size (fst (snd example_grown_from))
                     then arr_size (fst (snd example_grown_from))
                     else capacity_ref (Z.max (arr_size (fst (snd example_grown_from))) 4) 9).
Proof.
  apply (upb_array_resize_closed_form (snd (snd example_grown_from)) (fst example_grown_from)
           (fst (snd example_grown_from)) 9 (fst example_resized) (snd example_resized));
    [apply array_wf_b_true; vm_compute; reflexivity|lia|vm_compute; reflexivity].
Defined.

(** C34: a request above 2^63 elements never returns: on an array whose
    capacity is 0 or a power of two, as every capacity that
    [upb_array_new] and the loop itself produce is, the doubled capacity
    stays below the request until it wraps around to 0, where it stays;
    the loop runs out of every fuel, and [upb_array_resize] diverges. *)
Theorem upb_array_resize_diverges a arr hdr m :
  get_array a arr = Ok hdr -> wrapped_pow2 (Z.max (arr_size hdr) 4) -> 2 ^ 63 < m ->
  upb_array_resize a arr m = Err Diverges /\
  forall fuel, realloc_capacity fuel (Z.max (arr_size hdr) 4) m = Err Diverges.
Proof.
  intros Hg Hp Hm. pose proof (wrapped_pow2_le _ Hp).
  split; [|intros fuel; apply realloc_capacity_diverges; assumption].
  unfold upb_array_resize, _upb_array_realloc. rewrite Hg. cbn [bind].
  destruct (Z.leb_spec m (arr_size hdr)); [lia|].
  rewrite realloc_capacity_diverges by assumption. reflexivity.
Qed.

Lemma upb_array_resize_diverges_witness :
  upb_array_resize (snd example_empty) (fst example_empty) (2 ^ 63 + 1) = Err Diverges /\
  forall fuel, realloc_capacity fuel (Z.max 0 4) (2 ^ 63 + 1) = Err Diverges.
Proof.
  apply (upb_array_resize_diverges (snd example_empty) (fst example_empty)
           {| arr_data := 4; arr_len := 0; arr_size := 0 |} (2 ^ 63 + 1));
    [vm_compute; reflexivity|right; exists 2; split; [lia|reflexivity]|lia].
Defined.

(** The closed form on the capacities of the example: 4, 8, 16; and the
    capacity of the example after the request for nine. *)
Example capacity_ref_examples :
  capacity_ref 4 1 = 4 /\ capacity_ref 4 5 = 8 /\ capacity_ref 4 9 = 16 /\
  capacity_ref 8 100 = 128 /\
  (hdr <- get_array (snd example_resized) (fst example_grown_from) ;; Ok (arr_size hdr)) = Ok 16.
Proof. vm_compute. repeat split. Qed.

(** C35: a request of more than 2^58 and at most 2^63 elements, above the
    capacity, is refused like any request the arena cannot serve.  The
    loop ends with a capacity [c] that suffices.  Its byte count
    [c << lg2] is more than an arena holds, or does not fit 64 bits and
    wraps around to 0, a size for which the arena hands out no block:
    either way [upb_array_resize] returns false with nothing changed, and
    no capacity is recorded that the buffer does not have. *)
Theorem upb_array_resize_large a arr hdr m :
  arena_wf a -> array_wf a arr hdr -> a_limit a <= 2 ^ 58 ->
  wrapped_pow2 (Z.max (arr_size hdr) 4) -> arr_size hdr < m -> 2 ^ 58 < m <= 2 ^ 63 ->
  exists c, realloc_capacity 64 (Z.max (arr_size hdr) 4) m = Ok c /\ m <= c /\
    wrap 64 (Z.shiftl c (array_lg2 hdr)) =
      (if 2 ^ 64 <=? c * 2 ^ array_lg2 hdr then 0 else c * 2 ^ array_lg2 hdr) /\
    upb_array_resize a arr m = Ok (false, a).
Proof.
  intros Ha Hwf Hlim [E|(j & Hj & E)] Hlt Hm; [lia|].
  pose proof (awf_lg2 _ _ _ Hwf) as Hlg.
  assert (2 <= j) by (apply (Z.pow_le_mono_r_iff 2); lia).
  destruct (realloc_capacity_pow2 64 j m) as (j' & Hj' & Hc & Hmc); [lia|lia|lia|].
  exists (2 ^ j'). rewrite E. split; [exact Hc|]. split; [exact Hmc|].
  split; [apply wrap_shiftl_pow2; lia|]. unfold upb_array_resize.
  destruct (upb_array_realloc_grow a arr hdr m Hwf Hlt) as (old & _ & _ & ->).
  rewrite E, Hc. cbn [bind]. unfold realloc_grown_to. rewrite wrap_shiftl_pow2 by lia.
  assert (0 < 2 ^ array_lg2 hdr) by (apply pow2_pos; lia).
  pose proof (wf_next_pos _ Ha). pose proof (align_up_ge (2 ^ j' * 2 ^ array_lg2 hdr)).
  rewrite malloc_fail; [reflexivity|].
  destruct (Z.leb_spec (2 ^ 64) (2 ^ j' * 2 ^ array_lg2 hdr)); nia.
Qed.

Lemma upb_array_resize_large_witness :
  exists c,
    realloc_capacity 64 (Z.max (arr_size (fst (snd example_grown_from))) 4) (2 ^ 62) = Ok c /\
    2 ^ 62 <= c /\
    wrap 64 (Z.shiftl c (array_lg2 (fst (snd example_grown_from)))) =
      (if 2 ^ 64 <=? c * 2 ^ array_lg2 (fst (snd example_grown_from)) then 0
       else c * 2 ^ array_lg2 (fst (snd example_grown_from))) /\
    upb_array_resize (snd (snd example_grown_from)) (fst example_grown_from) (2 ^ 62) =
      Ok (false, snd (snd example_grown_from)).
Proof.
  apply (upb_array_resize_large (snd (snd example_grown_from)) (fst example_grown_from)
           (fst (snd example_grown_from)) (2 ^ 62));
    [apply arena_wf_b_true; vm_compute; reflexivity
    |apply array_wf_b_true; vm_compute; reflexivity
    |vm_compute; discriminate
    |right; exists 2; split; [lia|reflexivity]
    |vm_compute; reflexivity
    |split; [vm_compute; reflexivity|vm_compute; discriminate]].
Defined.

(** On the examples: 2^60 elements of four bytes are more than the arena
    holds; the byte count of 2^62 elements wraps around to 0, on the
    empty array and on the array with a buffer of 16 elements. *)
Example example_resize_large :
  upb_array_resize (snd example_empty) (fst example_empty) (2 ^ 60) =
    Ok (false, snd example_empty) /\
  upb_array_resize (snd example_empty) (fst example_empty) (2 ^ 62) =
    Ok (false, snd example_empty) /\
  upb_array_resize (snd example_resized) (fst example_grown_from) (2 ^ 62) =
    Ok (false, snd example_resized) /\
  wrap 64 (Z.shiftl (2 ^ 62) 2) = 0.
Proof. vm_compute. repeat split. Qed.
