(* ===== verification/Map.v ===== *)
(** * Map: the type-erased map

    [upb_map_new], [upb_map_size], [upb_map_get], [upb_map_set],
    [upb_map_delete] and the iterator of reflection.c.  A map is a header
    ([upb_map]) with the widths of its keys and values and a string table;
    a key or value of width [n > 0] is the first [n] bytes of the
    [upb_msgval] that carries it, and width 0 marks strings: a string key
    is the bytes its view points at, a string value is kept as the address
    of a copy of its view.

    The functions of reflection.c forward to [_upb_map_size],
    [_upb_map_get], [_upb_map_set], [_upb_map_delete] and [_upb_map_next]
    of upb's message module, which are modelled from their contract, over
    the string table of upb's table module.  What the map needs of the
    table is the interface [StrTable] (its operations) with [StrTableLaws]
    (what they promise): lookup, insertion of an absent key, removal, the
    number of entries, and the slots in iteration order.  The operations of
    the map are defined and proved against the interface; the list of slots
    [strtable], which is what the arena stores, is the instance that
    discharges the laws.  The table's own allocations are not modelled,
    apart from the copy of the key that an insertion makes in the arena. *)

From Stdlib Require Import ZArith Lia List.
From coqutil Require Import Byte Word.LittleEndianList.
From stdpp Require Import base tactics list numbers gmap.
From S2P Require Import Prelude Layout Arena Table.

#[local] Open Scope Z_scope.

(** ** The map over a table *)

Definition sizeof_map : Z := 48.

(** The width that marks a string key or value. *)
Definition UPB_MAPTYPE_STRING : Z := 0.

(** The cursor before the first entry: [(size_t)-1]. *)
Definition UPB_MAP_BEGIN : Z := 2 ^ 64 - 1.

Section Generic.
Context {T : Type} `{StrTable T}.

(** The bytes a string view points at. *)
Definition strview_bytes (a : upb_arena) (data size : Z) : res (list byte) :=
  if size =? 0 then Ok [] else mem_load a {| p_base := data; p_off := 0 |} size.

(** [_upb_map_tokey]: the bytes the table is keyed by. *)
Definition _upb_map_tokey (a : upb_arena) (key : list byte) (size : Z) : res (list byte) :=
  if size =? UPB_MAPTYPE_STRING then
    sv <- str_val key ;;
    strview_bytes a (fst sv) (snd sv)
  else prefix_bytes key size.

(** [_upb_map_fromkey]: the key of an entry as a value; a key wider than
    the union it is copied into leaves it, which is a fault. *)
Definition _upb_map_fromkey (e : tabent) (size : Z) : res (list byte) :=
  if size =? UPB_MAPTYPE_STRING then
    Ok (msgval_str (te_addr e) (Z.of_nat (length (te_key e))))
  else
    fits! (size <=? sizeof_msgval) ;;
    load_bytes (te_key e) 0 size.

(** [_upb_map_tovalue]: the 64-bit table value of a value; a string is
    copied into the arena and the value is the address of the copy, NULL
    when the arena is exhausted.  A width above the eight bytes of a
    table value leaves it, which is a fault. *)
Definition _upb_map_tovalue (a : upb_arena) (val : list byte) (size : Z)
  : res (Z * upb_arena) :=
  if size =? UPB_MAPTYPE_STRING then
    sv <- prefix_bytes val sizeof_strview ;;
    Ok (upb_arena_malloc a sizeof_strview (OBytes sv))
  else
    fits! (size <=? 8) ;;
    bs <- prefix_bytes val size ;;
    Ok (dec_unsigned bs, a).

(** [_upb_map_fromvalue]: the value a table value stands for. *)
Definition _upb_map_fromvalue (a : upb_arena) (v : Z) (size : Z) : res (list byte) :=
  if size =? UPB_MAPTYPE_STRING then
    mem_load a {| p_base := v; p_off := 0 |} sizeof_strview
  else load_bytes (le_split 8 v) 0 size.

Definition _upb_map_size (m : upb_map T) : Z := st_count (map_table m).

Definition _upb_map_get (a : upb_arena) (m : upb_map T) (key : list byte)
    (key_size val_size : Z) : res (option (list byte)) :=
  k <- _upb_map_tokey a key key_size ;;
  match st_lookup (map_table m) k with
  | Some v => r <- _upb_map_fromvalue a v val_size ;; Ok (Some r)
  | None => Ok None
  end.

Definition with_table (m : upb_map T) (t : T) : upb_map T :=
  {| map_key_size := map_key_size m; map_val_size := map_val_size m; map_table := t |}.

(** [_upb_map_set]: removes the key, then inserts it with the new value;
    [false] with the map as it was when the arena cannot hold the copy of
    a string value or of the key. *)
Definition _upb_map_set (a : upb_arena) (m : upb_map T) (key : list byte)
    (key_size : Z) (val : list byte) (val_size : Z)
  : res (bool * upb_map T * upb_arena) :=
  k <- _upb_map_tokey a key key_size ;;
  r <- _upb_map_tovalue a val val_size ;;
  if (val_size =? UPB_MAPTYPE_STRING) && (fst r =? 0) then Ok (false, m, a) else
  let ka := upb_arena_malloc (snd r) (Z.of_nat (length k) + 1) (OBytes k) in
  if fst ka =? 0 then Ok (false, m, snd r) else
  Ok (true,
      with_table m (st_insert (st_remove (map_table m) k)
                      {| te_key := k; te_addr := fst ka; te_val := fst r |}),
      snd ka).

Definition _upb_map_delete (a : upb_arena) (m : upb_map T) (key : list byte)
    (key_size : Z) : res (bool * upb_map T) :=
  k <- _upb_map_tokey a key key_size ;;
  Ok (bool_decide (is_Some (st_lookup (map_table m) k)),
      with_table m (st_remove (map_table m) k)).

(** The first live slot among the [n] slots from [i] on. *)
Fixpoint next_live (t : T) (n : nat) (i : Z) : option Z :=
  match n with
  | O => None
  | S n' =>
      match st_entry t i with
      | Some _ => Some i
      | None => next_live t n' (i + 1)
      end
  end.

(** [_upb_map_next]: moves the cursor to the next entry, or reports that
    there is none and leaves the cursor where it is. *)
Definition _upb_map_next (m : upb_map T) (iter : Z) : bool * Z :=
  let start := wrap 64 (iter + 1) in
  match next_live (map_table m) (Z.to_nat (st_size (map_table m) - start)) start with
  | Some i => (true, i)
  | None => (false, iter)
  end.

End Generic.

(** ** The operations of reflection.c *)

(** [_upb_map_new(a, key_size, value_size)]: a new empty map, or NULL. *)
Definition _upb_map_new (a : upb_arena) (key_size value_size : Z) : Z * upb_arena :=
  upb_arena_malloc a sizeof_map
    (OMap {| map_key_size := key_size; map_val_size := value_size; map_table := [] |}).

Definition upb_map_new (a : upb_arena) (key_type value_type : upb_fieldtype_t)
  : res (Z * upb_arena) :=
  ks <- table_index _upb_fieldtype_to_mapsize (fieldtype_code key_type) ;;
  vs <- table_index _upb_fieldtype_to_mapsize (fieldtype_code value_type) ;;
  Ok (_upb_map_new a ks vs).

Definition upb_map_size (a : upb_arena) (map : Z) : res Z :=
  m <- get_map a map ;;
  Ok (_upb_map_size m).

(** [upb_map_get(map, key, &val)]: the value found, if any. *)
Definition upb_map_get (a : upb_arena) (map : Z) (key : list byte)
  : res (option (list byte)) :=
  m <- get_map a map ;;
  _upb_map_get a m key (map_key_size m) (map_val_size m).

Definition upb_map_set (a : upb_arena) (map : Z) (key val : list byte)
  : res (bool * upb_arena) :=
  m <- get_map a map ;;
  r <- _upb_map_set a m key (map_key_size m) val (map_val_size m) ;;
  Ok (fst (fst r), set_object (snd r) map (OMap (snd (fst r)))).

Definition upb_map_delete (a : upb_arena) (map : Z) (key : list byte)
  : res (bool * upb_arena) :=
  m <- get_map a map ;;
  r <- _upb_map_delete a m key (map_key_size m) ;;
  Ok (fst r, set_object a map (OMap (snd r))).

(** [upb_mapiter_next(map, &iter)]: whether there is a next entry, and the
    cursor after the call. *)
Definition upb_mapiter_next (a : upb_arena) (map : Z) (iter : Z) : res (bool * Z) :=
  m <- get_map a map ;;
  Ok (_upb_map_next m iter).

Definition upb_mapiter_key (a : upb_arena) (map : Z) (iter : Z) : res (list byte) :=
  m <- get_map a map ;;
  match st_entry (map_table m) iter with
  | Some e => _upb_map_fromkey e (map_key_size m)
  | None => Err AssertFailed
  end.

Definition upb_mapiter_value (a : upb_arena) (map : Z) (iter : Z) : res (list byte) :=
  m <- get_map a map ;;
  match st_entry (map_table m) iter with
  | Some e => _upb_map_fromvalue a (te_val e) (map_val_size m)
  | None => Err AssertFailed
  end.

(** The loop a caller writes over the iterator: the keys and values from
    the cursor [iter] on, in the order of the iteration. *)
Fixpoint upb_map_entries (fuel : nat) (a : upb_arena) (map : Z) (iter : Z)
  : res (list (list byte * list byte)) :=
  match fuel with
  | O => Err Diverges
  | S n =>
      r <- upb_mapiter_next a map iter ;;
      if fst r then
        k <- upb_mapiter_key a map (snd r) ;;
        v <- upb_mapiter_value a map (snd r) ;;
        rest <- upb_map_entries n a map (snd r) ;;
        Ok ((k, v) :: rest)
      else Ok []
  end.

(** The key and the value at a cursor. *)
Definition upb_mapiter_entry (a : upb_arena) (map : Z) (iter : Z)
  : res (list byte * list byte) :=
  k <- upb_mapiter_key a map iter ;;
  v <- upb_mapiter_value a map iter ;;
  Ok (k, v).

(** The finite map from keys to table values that the map at [map]
    stands for. *)
Definition map_contents (a : upb_arena) (map : Z) : res (gmap (list byte) Z) :=
  m <- get_map a map ;;
  Ok (contents (map_table m)).

(** The number of bytes of a value of width [size] in a map. *)
Definition map_value_width (size : Z) : Z :=
  if size =? UPB_MAPTYPE_STRING then sizeof_strview else size.

(** The cursors of the entries from slot [start] on. *)
Definition cursors_from {T} `{StrTable T} (t : T) (start : Z) : list Z :=
  filter (fun i => is_Some (st_entry t i)) (seqZ start (st_size t - start)).

(** The cursors of the entries of a table, in the order of the iteration. *)
Definition live_cursors {T} `{StrTable T} (t : T) : list Z := cursors_from t 0.

(** The header at [map] is [m], its table is well formed and its widths
    are those of a map: keys of at most 16 bytes, values of at most 8; in
    a map with keys of a fixed width every key of the table has that
    width. *)
Record map_wf (a : upb_arena) (map : Z) (m : upb_map strtable) : Prop := {
  mwf_hdr : get_map a map = Ok m;
  mwf_table : st_wf (map_table m);
  mwf_key : 0 <= map_key_size m <= sizeof_msgval;
  mwf_val : 0 <= map_val_size m <= 8;
  mwf_keys : forall i e, st_entry (map_table m) i = Some e -> map_key_size m <> 0 ->
             Z.of_nat (length (te_key e)) = map_key_size m
}.

(** An executable check of [map_wf]. *)
Definition map_wf_b (a : upb_arena) (map : Z) (m : upb_map strtable) : bool :=
  bool_decide (get_map a map = Ok m) &&
  bool_decide (NoDup (slots_keys (map_table m))) &&
  (0 <=? map_key_size m) && (map_key_size m <=? sizeof_msgval) &&
  (0 <=? map_val_size m) && (map_val_size m <=? 8) &&
  forallb (fun s => match s with
                    | Some e => (map_key_size m =? 0) ||
                                (Z.of_nat (length (te_key e)) =? map_key_size m)
                    | None => true
                    end) (map_table m).

(** ** Example: a map from int32 to strings, 5 set twice *)

Definition example_map_new : Z * upb_arena :=
  match upb_map_new (arena_init 4096) UPB_TYPE_INT32 UPB_TYPE_STRING with
  | Ok r => r
  | Err _ => (0, arena_init 4096)
  end.

Definition example_map : Z := fst example_map_new.

Definition example_map_hdr (a : upb_arena) : upb_map strtable :=
  match get_map a example_map with
  | Ok m => m
  | Err _ => {| map_key_size := 0; map_val_size := 0; map_table := [] |}
  end.

(** The views of the strings "x" and "y", at the addresses 1000 and 2000. *)
Definition example_x : list byte := msgval_str 1000 1.
Definition example_y : list byte := msgval_str 2000 1.

Definition example_map_set (a : upb_arena) (key val : list byte) : upb_arena :=
  match upb_map_set a example_map key val with
  | Ok r => snd r
  | Err _ => a
  end.

Definition example_map_x : upb_arena :=
  example_map_set (snd example_map_new) (msgval_int32 5) example_x.

Definition example_map_xy : upb_arena :=
  example_map_set example_map_x (msgval_int32 5) example_y.

Definition example_map_del : upb_arena :=
  match upb_map_delete example_map_xy example_map (msgval_int32 5) with
  | Ok r => snd r
  | Err _ => example_map_xy
  end.

(** ** Lemmas *)

Lemma upb_map_new_spec a kt vt p a' :
  arena_wf a -> upb_map_new a kt vt = Ok (p, a') ->
  arena_wf a' /\ (p = 0 -> a' = a) /\
  (p <> 0 -> exists ks vs,
     get_map a' p = Ok {| map_key_size := ks; map_val_size := vs; map_table := [] |}).
Proof.
  intros Ha. unfold upb_map_new. rewrite !mapsize_fieldtype. cbn [bind].
  unfold _upb_map_new. intros [= Hm].
  split; [eapply malloc_wf; eauto|]. split; [eapply malloc_null; eauto|].
  intros Hp. do 2 eexists. apply get_map_Ok. eapply malloc_lookup_new; eauto.
Qed.

(** ** Conversions of keys and values *)

#[export] Instance _upb_map_tokey_mono :
  Proper (arena_ext ==> eq ==> eq ==> res_le) _upb_map_tokey.
Proof.
  intros a a' Hext key _ <- size _ <- k. unfold _upb_map_tokey, strview_bytes.
  destruct (size =? _); [|trivial].
  destruct (str_val key) as [sv|]; [|discriminate]. cbn [bind].
  destruct (snd sv =? 0); [trivial|]. apply mem_load_mono; auto.
Qed.

#[export] Instance _upb_map_fromvalue_mono :
  Proper (arena_ext ==> eq ==> eq ==> res_le) _upb_map_fromvalue.
Proof.
  intros a a' Hext v _ <- size _ <- r. unfold _upb_map_fromvalue.
  destruct (size =? _); [|trivial]. apply mem_load_mono; auto.
Qed.

(** A key of a fixed width has that width. *)
Lemma tokey_length a key size k :
  _upb_map_tokey a key size = Ok k -> size <> 0 -> Z.of_nat (length k) = size.
Proof.
  unfold _upb_map_tokey, UPB_MAPTYPE_STRING. intros Hk Hne.
  destruct (Z.eqb_spec size 0); [contradiction|].
  pose proof (prefix_bytes_length _ _ _ Hk) as Hl.
  unfold prefix_bytes in Hk. case_res; [lia|discriminate].
Qed.

(** A value put into the table is read back as its first bytes. *)
Lemma tovalue_fromvalue a val size v a1 :
  arena_wf a -> _upb_map_tovalue a val size = Ok (v, a1) ->
  (size = UPB_MAPTYPE_STRING -> v <> 0) ->
  arena_wf a1 /\ arena_ext a a1 /\
  _upb_map_fromvalue a1 v size = Ok (take (Z.to_nat (map_value_width size)) val).
Proof.
  unfold _upb_map_tovalue, _upb_map_fromvalue, map_value_width. intros Hwf Hto Hv.
  destruct (Z.eqb_spec size UPB_MAPTYPE_STRING) as [E|E].
  - destruct (prefix_bytes val sizeof_strview) as [sv|] eqn:Hp; [|discriminate].
    injection Hto as Hm. pose proof (prefix_bytes_length _ _ _ Hp) as Hl.
    unfold prefix_bytes in Hp. case_res; [|discriminate]. injection Hp as <-.
    split; [eapply malloc_wf; eauto|]. split; [eapply arena_ext_malloc; eauto|].
    unfold mem_load. cbn [p_base p_off].
    rewrite (proj2 (get_bytes_Ok _ _ _) (malloc_lookup_new _ _ _ _ _ Hm (Hv E))).
    cbn [bind].
    transitivity (load_bytes (take (Z.to_nat sizeof_strview) val) 0
                    (Z.of_nat (length (take (Z.to_nat sizeof_strview) val))));
      [|apply load_bytes_all].
    f_equal. rewrite Hl. unfold sizeof_strview. lia.
  - res_inv. rename select (prefix_bytes _ _ = _) into Hp.
    pose proof (prefix_bytes_length _ _ _ Hp) as Hl.
    unfold prefix_bytes in Hp. case_res; [|discriminate]. injection Hp as <-.
    split; [exact Hwf|]. split; [reflexivity|].
    transitivity (load_bytes (le_split 8 (dec_unsigned (take (Z.to_nat size) val))) 0
                    (Z.of_nat (length (take (Z.to_nat size) val))));
      [f_equal; lia|apply load_le_split_pad; lia].
Qed.

(** ** [_upb_map_set] against the interface *)

Section SetSpec.
Context {T : Type} `{StrTableLaws T}.
Context (a : upb_arena) (m : upb_map T) (key val : list byte) (ks vs : Z).
Context (Ha : arena_wf a) (Hwf : st_wf (map_table m)).

Lemma _upb_map_set_false m' a' :
  _upb_map_set a m key ks val vs = Ok (false, m', a') ->
  m' = m /\ arena_wf a' /\ arena_ext a a'.
Proof using Ha.
  unfold _upb_map_set. intros Hs. res_inv.
  rename select (_upb_map_tovalue _ _ _ = _) into Hto.
  destruct (_ && _) eqn:Hc;
    [injection Hs as <- <-; split; [reflexivity|split; [assumption|reflexivity]]|].
  destruct (upb_arena_malloc _ _ _) as [kaddr a2] eqn:Hm. cbn [fst snd] in Hs.
  destruct (kaddr =? 0); [|discriminate]. injection Hs as <- <-.
  unfold _upb_map_tovalue in Hto. destruct (_ =? UPB_MAPTYPE_STRING); res_inv.
  - split; [reflexivity|]. split; [eapply malloc_wf|eapply arena_ext_malloc]; eauto using surjective_pairing.
  - split; [reflexivity|split; [assumption|reflexivity]].
Qed.

Lemma _upb_map_set_true m' a' :
  _upb_map_set a m key ks val vs = Ok (true, m', a') ->
  exists k v,
    _upb_map_tokey a key ks = Ok k /\
    arena_wf a' /\ arena_ext a a' /\
    _upb_map_fromvalue a' v vs = Ok (take (Z.to_nat (map_value_width vs)) val) /\
    map_key_size m' = map_key_size m /\ map_val_size m' = map_val_size m /\
    st_wf (map_table m') /\
    (forall k', st_lookup (map_table m') k' =
                  if decide (k' = k) then Some v else st_lookup (map_table m) k') /\
    st_count (map_table m') =
      st_count (map_table m) + match st_lookup (map_table m) k with Some _ => 0 | None => 1 end /\
    (forall i e, st_entry (map_table m') i = Some e ->
                 te_key e = k \/ st_entry (map_table m) i = Some e).
Proof using Ha Hwf H0.
  unfold _upb_map_set. intros Hs.
  destruct (_upb_map_tokey _ _ _) as [k|]; [|discriminate]. cbn [bind] in Hs.
  destruct (_upb_map_tovalue _ _ _) as [[v a1]|] eqn:Hto; [|discriminate].
  cbn [bind fst snd] in Hs.
  destruct (_ && _) eqn:Hc; [discriminate|].
  destruct (upb_arena_malloc _ _ _) as [kaddr a2] eqn:Hm. cbn [fst snd] in Hs.
  destruct (kaddr =? 0); [discriminate|]. injection Hs as <- <-.
  destruct (tovalue_fromvalue a val _ v a1 Ha Hto) as (Ha1 & He1 & Hfrom).
  { intros E. rewrite E in Hc. cbn in Hc. lia. }
  pose proof (arena_ext_malloc _ _ _ _ _ Ha1 Hm) as He2.
  exists k, v. split; [reflexivity|]. split; [eapply malloc_wf; eauto|].
  split; [etrans; eauto|]. split; [eapply _upb_map_fromvalue_mono; eauto|].
  split; [reflexivity|]. split; [reflexivity|]. cbn [map_table with_table].
  pose (e := {| te_key := k; te_addr := kaddr; te_val := v |}).
  split; [exact (set_table_wf _ e Hwf)|].
  split; [intros k'; exact (set_table_lookup _ e Hwf k')|].
  split; [exact (set_table_count _ e Hwf)|].
  intros i e' [->|He]%st_entry_insert; [left; reflexivity|right].
  eapply st_entry_remove; eauto.
Qed.

End SetSpec.

(** ** The operations on a map of the arena *)

(** Writing a header back after the arena was extended. *)
Lemma map_wf_update a a1 map m m' :
  arena_wf a1 -> arena_ext a a1 -> map_wf a map m ->
  map_key_size m' = map_key_size m -> map_val_size m' = map_val_size m ->
  st_wf (map_table m') ->
  (forall i e, st_entry (map_table m') i = Some e -> map_key_size m <> 0 ->
               Z.of_nat (length (te_key e)) = map_key_size m) ->
  arena_wf (set_object a1 map (OMap m')) /\
  arena_ext a (set_object a1 map (OMap m')) /\
  map_wf (set_object a1 map (OMap m')) map m'.
Proof.
  intros Ha1 Hext [Hh%get_map_Ok Ht Hk Hv Hks] Ek Ev Ht' Hks'.
  split; [apply set_object_wf; [exact Ha1|apply (ext_dom _ _ Hext); eauto]|].
  split.
  - etrans; [exact Hext|]. apply arena_ext_set_object; [|discriminate].
    apply (ext_headers _ _ Hext _ _ Hh). discriminate.
  - split; [|exact Ht'|rewrite Ek; exact Hk|rewrite Ev; exact Hv|rewrite Ek; exact Hks'].
    rewrite get_map_set_object. rewrite decide_True by reflexivity. reflexivity.
Qed.

Section MapOps.
Context (a : upb_arena) (map : Z) (m : upb_map strtable).
Context (Ha : arena_wf a) (Hm : map_wf a map m).

Lemma upb_map_size_spec : upb_map_size a map = Ok (st_count (map_table m)).
Proof using Hm. unfold upb_map_size. rewrite (mwf_hdr _ _ _ Hm). reflexivity. Qed.

Lemma upb_map_get_spec key :
  upb_map_get a map key = _upb_map_get a m key (map_key_size m) (map_val_size m).
Proof using Hm. unfold upb_map_get. rewrite (mwf_hdr _ _ _ Hm). reflexivity. Qed.

(** [upb_map_set]: after [true] the key is bound to the value and every
    other key is bound as before; after [false] the table is as before. *)
Lemma upb_map_set_spec key val ok a' :
  upb_map_set a map key val = Ok (ok, a') ->
  arena_wf a' /\ arena_ext a a' /\
  if ok then
    exists k v m',
      _upb_map_tokey a key (map_key_size m) = Ok k /\ map_wf a' map m' /\
      map_key_size m' = map_key_size m /\ map_val_size m' = map_val_size m /\
      _upb_map_fromvalue a' v (map_val_size m) =
        Ok (take (Z.to_nat (map_value_width (map_val_size m))) val) /\
      (forall k', st_lookup (map_table m') k' =
                    if decide (k' = k) then Some v else st_lookup (map_table m) k') /\
      st_count (map_table m') =
        st_count (map_table m) +
        match st_lookup (map_table m) k with Some _ => 0 | None => 1 end
  else map_wf a' map m.
Proof using Ha Hm.
  unfold upb_map_set. rewrite (mwf_hdr _ _ _ Hm). cbn [bind].
  destruct (_upb_map_set a m key _ val _) as [[[ok1 m1] a1]|] eqn:Hs; [|discriminate].
  cbn [bind fst snd]. intros [= <- <-]. destruct ok1.
  - destruct (_upb_map_set_true a m key val _ _ Ha (mwf_table _ _ _ Hm) m1 a1 Hs)
      as (k & v & Hk & Ha1 & He & Hv & Eks & Evs & Ht & Hl & Hc & Hen).
    destruct (map_wf_update a a1 map m m1 Ha1 He Hm Eks Evs Ht) as (Hw & Hx & Hm1).
    { intros i e [<-|Hi]%Hen Hne; [|eapply mwf_keys; eauto].
      eapply tokey_length; eauto. }
    split; [exact Hw|]. split; [exact Hx|]. exists k, v, m1.
    split; [exact Hk|]. split; [exact Hm1|]. split; [exact Eks|]. split; [exact Evs|].
    split; [|split; [exact Hl|exact Hc]].
    eapply _upb_map_fromvalue_mono; [|reflexivity..|exact Hv].
    apply arena_ext_set_object; [|discriminate].
    apply (ext_headers _ _ He _ _ (proj1 (get_map_Ok _ _ _) (mwf_hdr _ _ _ Hm))). discriminate.
  - destruct (_upb_map_set_false a m key val _ _ Ha m1 a1 Hs) as (-> & Ha1 & He).
    destruct (map_wf_update a a1 map m m Ha1 He Hm eq_refl eq_refl (mwf_table _ _ _ Hm)
                (mwf_keys _ _ _ Hm))
      as (Hw & Hx & Hm1). auto.
Qed.

(** [upb_map_delete]: reports whether the key was bound, and unbinds it. *)
Lemma upb_map_delete_spec key b a' :
  upb_map_delete a map key = Ok (b, a') ->
  arena_wf a' /\ arena_ext a a' /\
  exists k m',
    _upb_map_tokey a key (map_key_size m) = Ok k /\ map_wf a' map m' /\
    map_key_size m' = map_key_size m /\ map_val_size m' = map_val_size m /\
    b = bool_decide (is_Some (st_lookup (map_table m) k)) /\
    (forall k', st_lookup (map_table m') k' =
                  if decide (k' = k) then None else st_lookup (map_table m) k') /\
    st_count (map_table m') =
      st_count (map_table m) -
      match st_lookup (map_table m) k with Some _ => 1 | None => 0 end.
Proof using Ha Hm.
  unfold upb_map_delete, _upb_map_delete. rewrite (mwf_hdr _ _ _ Hm). cbn [bind].
  destruct (_upb_map_tokey a key (map_key_size m)) as [k|]; [|discriminate].
  cbn [bind fst snd]. intros [= <- <-].
  pose proof (mwf_table _ _ _ Hm) as Ht.
  destruct (map_wf_update a a map m (with_table m (st_remove (map_table m) k)) Ha)
    as (Hw & Hx & Hm1); [reflexivity|exact Hm|reflexivity|reflexivity| | |].
  { apply st_wf_remove. exact Ht. }
  { intros i e He%st_entry_remove. eapply mwf_keys; eauto. }
  split; [exact Hw|]. split; [exact Hx|]. eexists k, _. split; [reflexivity|].
  split; [exact Hm1|]. split; [reflexivity|]. split; [reflexivity|]. split; [reflexivity|].
  split; [intros k'; apply st_lookup_remove; exact Ht|apply st_count_remove; exact Ht].
Qed.

End MapOps.

(** ** The iterator *)

Section Iteration.
Context {T : Type} `{StrTableLaws T}.
Context (t : T).

Lemma next_live_spec n : forall i,
  next_live t n i = head (filter (fun j => is_Some (st_entry t j)) (seqZ i (Z.of_nat n))).
Proof.
  induction n as [|n IH]; intros i; [reflexivity|].
  rewrite seqZ_cons by lia. rewrite filter_cons. cbn [next_live].
  replace (Z.pred (Z.of_nat (S n))) with (Z.of_nat n) by lia.
  destruct (st_entry t i) as [e|].
  - rewrite decide_True by eauto. reflexivity.
  - rewrite decide_False by (intros [? ?]; discriminate). apply IH.
Qed.

Lemma live_cursors_count : st_count t = Z.of_nat (length (live_cursors t)).
Proof.
  unfold live_cursors, cursors_from. rewrite Z.sub_0_r. apply st_count_live.
Qed.

Lemma cursors_from_cons start i rest :
  0 <= start -> cursors_from t start = i :: rest ->
  start <= i < st_size t /\ is_Some (st_entry t i) /\ rest = cursors_from t (i + 1).
Proof.
  unfold cursors_from. intros Hs Hc.
  assert (Hin : i ∈ i :: rest) by left. rewrite <- Hc in Hin.
  apply list_elem_of_filter in Hin as [Hi Hr%elem_of_seqZ].
  rewrite <- (Z2Nat.id (st_size t - start)) in Hc by lia.
  apply filter_seqZ_head in Hc as [Hc ->]. split; [lia|]. split; [exact Hi|].
  do 2 f_equal. lia.
Qed.

(** Every binding of the table is at exactly the cursors the iteration
    visits. *)
Lemma live_cursors_lookup k v :
  st_wf t ->
  st_lookup t k = Some v <->
  exists i e, i ∈ live_cursors t /\ st_entry t i = Some e /\ te_key e = k /\ te_val e = v.
Proof.
  intros Hwf. split.
  - intros (i & e & He & Hk & Hv)%st_lookup_entry. exists i, e.
    split; [|auto]. apply list_elem_of_filter. split; [eauto|].
    apply elem_of_seqZ. pose proof (st_entry_range _ _ _ He). lia.
  - intros (i & e & _ & He & <- & <-). eapply st_entry_lookup; eauto.
Qed.

End Iteration.

Lemma _upb_map_next_spec (m : upb_map strtable) iter :
  let start := wrap 64 (iter + 1) in
  _upb_map_next m iter =
    match cursors_from (map_table m) start with
    | i :: _ => (true, i)
    | [] => (false, iter)
    end.
Proof.
  cbn zeta. unfold _upb_map_next, cursors_from. rewrite next_live_spec.
  set (start := wrap 64 (iter + 1)).
  destruct (Z.le_gt_cases start (st_size (map_table m))) as [Hle|Hgt].
  - rewrite Z2Nat.id by lia. destruct (filter _ _); reflexivity.
  - replace (Z.to_nat (st_size (map_table m) - start)) with 0%nat by lia.
    rewrite (seqZ_nil start (st_size _ - start)) by lia. reflexivity.
Qed.

(** The loop over the iterator visits the cursors of the entries in
    order, and ends. *)
Lemma upb_map_entries_spec a map m :
  get_map a map = Ok m -> st_size (map_table m) < 2 ^ 64 - 1 ->
  forall fuel iter start,
    wrap 64 (iter + 1) = start -> 0 <= start ->
    (length (cursors_from (map_table m) start) < fuel)%nat ->
    upb_map_entries fuel a map iter =
      res_mapM (upb_mapiter_entry a map) (cursors_from (map_table m) start).
Proof.
  intros Hg Hsz. induction fuel as [|fuel IH]; intros iter start Hst Hs Hf; [lia|].
  cbn [upb_map_entries]. unfold upb_mapiter_next. rewrite Hg. cbn [bind].
  rewrite _upb_map_next_spec, Hst.
  destruct (cursors_from (map_table m) start) as [|i rest] eqn:Hc; [reflexivity|].
  destruct (cursors_from_cons _ _ _ _ Hs Hc) as (Hi & _ & ->).
  cbn [fst snd res_mapM]. unfold upb_mapiter_entry at 1.
  destruct (upb_mapiter_key a map i) as [k|]; [|reflexivity]. cbn [bind].
  destruct (upb_mapiter_value a map i) as [v|]; [|reflexivity]. cbn [bind].
  rewrite (IH i (i + 1)); [reflexivity| |lia|cbn [length] in Hf; lia].
  apply wrap_small. unfold in_unsigned. lia.
Qed.

Lemma cursors_from_length {T} `{StrTableLaws T} (t : T) start :
  0 <= start -> (length (cursors_from t start) <= Z.to_nat (st_size t))%nat.
Proof.
  intros Hs. unfold cursors_from. etrans; [apply length_filter|].
  rewrite length_seqZ. lia.
Qed.

(** What [upb_map_get] finds is what the table binds. *)
Lemma upb_map_get_found a map m key g :
  map_wf a map m -> upb_map_get a map key = Ok g ->
  exists k, _upb_map_tokey a key (map_key_size m) = Ok k /\
            (g = None <-> st_lookup (map_table m) k = None).
Proof.
  intros Hm. rewrite (upb_map_get_spec a map m Hm). unfold _upb_map_get.
  destruct (_upb_map_tokey _ _ _) as [k|]; [|discriminate]. cbn [bind].
  intros Hg. exists k. split; [reflexivity|].
  destruct (st_lookup (map_table m) k) as [v|].
  - destruct (_upb_map_fromvalue _ _ _); [|discriminate]. injection Hg as <-.
    split; discriminate.
  - injection Hg as <-. split; reflexivity.
Qed.

(** A key bound before a change of the arena and of the table that kept
    its binding is found as before. *)
Lemma upb_map_get_kept a a' map m m' key k r :
  map_wf a map m -> map_wf a' map m' -> arena_ext a a' ->
  map_key_size m' = map_key_size m -> map_val_size m' = map_val_size m ->
  _upb_map_tokey a key (map_key_size m) = Ok k ->
  st_lookup (map_table m') k = st_lookup (map_table m) k ->
  upb_map_get a map key = Ok r -> upb_map_get a' map key = Ok r.
Proof.
  intros Hm Hm' Hext Ek Ev Hk Hl.
  rewrite (upb_map_get_spec a map m Hm), (upb_map_get_spec a' map m' Hm').
  unfold _upb_map_get. rewrite Ek, Ev, Hk.
  rewrite (_upb_map_tokey_mono a a' Hext key key eq_refl _ _ eq_refl k Hk). cbn [bind].
  rewrite Hl.
  destruct (st_lookup (map_table m) k) as [v|]; [|trivial].
  destruct (_upb_map_fromvalue a v (map_val_size m)) as [x|] eqn:Hv; [|discriminate].
  rewrite (_upb_map_fromvalue_mono a a' Hext v v eq_refl _ _ eq_refl x Hv). trivial.
Qed.

Lemma map_wf_b_true a map m : map_wf_b a map m = true -> map_wf a map m.
Proof.
  unfold map_wf_b. rewrite !andb_true_iff, forallb_forall.
  intros ((((((H1%bool_decide_eq_true & H2%bool_decide_eq_true) & H3) & H4) & H5) & H6) & H7).
  split; [exact H1|exact H2|lia|lia|].
  intros i e [_ Hl]%slots_entry_Some Hne.
  specialize (H7 (Some e)). cbn in H7.
  rewrite orb_true_iff in H7. destruct H7 as [H7|H7]; [|lia|lia].
  apply list_elem_of_In. eapply list_elem_of_lookup_2. exact Hl.
Qed.

(** A cursor [upb_mapiter_next] moves to holds an entry. *)
Lemma upb_mapiter_next_entry a map m iter i :
  get_map a map = Ok m -> upb_mapiter_next a map iter = Ok (true, i) ->
  exists e, st_entry (map_table m) i = Some e.
Proof.
  unfold upb_mapiter_next. intros ->. cbn [bind]. rewrite _upb_map_next_spec.
  destruct (cursors_from _ _) as [|j rest] eqn:Hc; [discriminate|]. intros [= <-].
  assert (Hin : j ∈ j :: rest) by left. rewrite <- Hc in Hin.
  apply list_elem_of_filter in Hin as [Hi _]. exact Hi.
Qed.

(** In a map with keys of a fixed width, the key of an entry is read back
    whole and looked up as itself. *)
Lemma fixed_key_roundtrip a (m : upb_map strtable) map i e :
  map_wf a map m -> map_key_size m <> 0 -> st_entry (map_table m) i = Some e ->
  _upb_map_fromkey e (map_key_size m) = Ok (te_key e) /\
  _upb_map_tokey a (te_key e) (map_key_size m) = Ok (te_key e).
Proof.
  intros Hm Hne He. pose proof (mwf_keys _ _ _ Hm i e He Hne) as Hl.
  pose proof (mwf_key _ _ _ Hm) as Hk.
  unfold _upb_map_fromkey, _upb_map_tokey, UPB_MAPTYPE_STRING.
  destruct (Z.eqb_spec (map_key_size m) 0); [contradiction|].
  destruct (Z.leb_spec (map_key_size m) sizeof_msgval); [|lia].
  rewrite <- Hl. split; [apply load_bytes_all|apply prefix_bytes_all].
Qed.

(** ** The map as a finite map *)

Lemma map_contents_spec a map m :
  map_wf a map m -> map_contents a map = Ok (contents (map_table m)).
Proof. intros Hm. unfold map_contents. rewrite (mwf_hdr _ _ _ Hm). reflexivity. Qed.

(** The contents after a change of the table that is known lookup by
    lookup. *)
Lemma map_contents_ext (a' : upb_arena) (map : Z) (m m' : upb_map strtable)
    (c' : gmap (list byte) Z) :
  map_wf a' map m' -> st_wf (map_table m) ->
  (forall k, st_lookup (map_table m') k = c' !! k) ->
  map_contents a' map = Ok c'.
Proof.
  intros Hm' Hwf Hl. rewrite (map_contents_spec _ _ _ Hm'). f_equal.
  apply map_eq. intros k. rewrite contents_lookup by exact (mwf_table _ _ _ Hm'). apply Hl.
Qed.

Section Refines.
Context (a : upb_arena) (map : Z) (m : upb_map strtable).
Context (Ha : arena_wf a) (Hm : map_wf a map m).

#[local] Abbreviation c := (contents (map_table m)).

Lemma upb_map_size_contents : upb_map_size a map = Ok (Z.of_nat (size c)).
Proof using Hm.
  rewrite (upb_map_size_spec a map m Hm), contents_size by exact (mwf_table _ _ _ Hm).
  reflexivity.
Qed.

Lemma upb_map_get_contents key :
  upb_map_get a map key =
    (k <- _upb_map_tokey a key (map_key_size m) ;;
     match c !! k with
     | Some v => r <- _upb_map_fromvalue a v (map_val_size m) ;; Ok (Some r)
     | None => Ok None
     end).
Proof using Hm.
  rewrite (upb_map_get_spec a map m Hm). unfold _upb_map_get.
  destruct (_upb_map_tokey _ _ _) as [k|]; [|reflexivity]. cbn [bind].
  rewrite contents_lookup by exact (mwf_table _ _ _ Hm). reflexivity.
Qed.

Lemma upb_map_set_contents key val ok a' :
  upb_map_set a map key val = Ok (ok, a') ->
  if ok then
    exists k v, _upb_map_tokey a key (map_key_size m) = Ok k /\
      map_contents a' map = Ok (<[k := v]> c) /\
      _upb_map_fromvalue a' v (map_val_size m) =
        Ok (take (Z.to_nat (map_value_width (map_val_size m))) val)
  else map_contents a' map = Ok c.
Proof using Ha Hm.
  intros Hs. pose proof (mwf_table _ _ _ Hm) as Hwf.
  destruct (upb_map_set_spec a map m Ha Hm key val ok a' Hs) as (_ & _ & Hok).
  destruct ok;
    [|apply (map_contents_ext a' map m m _ Hok Hwf); intros k; symmetry;
      apply contents_lookup; exact Hwf].
  destruct Hok as (k & v & m' & Hk & Hm' & _ & _ & Hv & Hl & _).
  exists k, v. split; [exact Hk|]. split; [|exact Hv].
  apply (map_contents_ext a' map m m' _ Hm' Hwf). intros k'.
  rewrite Hl, lookup_insert, contents_lookup by exact Hwf.
  destruct (decide (k' = k)), (decide (k = k')); congruence.
Qed.

Lemma upb_map_delete_contents key b a' :
  upb_map_delete a map key = Ok (b, a') ->
  exists k, _upb_map_tokey a key (map_key_size m) = Ok k /\
    map_contents a' map = Ok (delete k c) /\ b = bool_decide (is_Some (c !! k)).
Proof using Ha Hm.
  intros Hd. pose proof (mwf_table _ _ _ Hm) as Hwf.
  destruct (upb_map_delete_spec a map m Ha Hm key b a' Hd)
    as (_ & _ & k & m' & Hk & Hm' & _ & _ & Hb & Hl & _).
  exists k. split; [exact Hk|]. split; [|rewrite contents_lookup by exact Hwf; exact Hb].
  apply (map_contents_ext a' map m m' _ Hm' Hwf). intros k'.
  rewrite Hl, lookup_delete, contents_lookup by exact Hwf.
  destruct (decide (k' = k)), (decide (k = k')); congruence.
Qed.

End Refines.

(** ** The operations return *)

Lemma _upb_map_tovalue_total a val vs :
  0 <= vs <= 8 -> map_value_width vs <= Z.of_nat (length val) ->
  exists r, _upb_map_tovalue a val vs = Ok r.
Proof.
  unfold _upb_map_tovalue, map_value_width, UPB_MAPTYPE_STRING, sizeof_strview.
  intros Hvs Hw. destruct (Z.eqb_spec vs 0) as [E|E].
  - rewrite prefix_bytes_Ok by lia. cbn [bind]. eauto.
  - destruct (Z.leb_spec vs 8); [|lia]. rewrite prefix_bytes_Ok by lia. cbn [bind]. eauto.
Qed.

(** [_upb_map_set] returns whenever the key can be read and the value is
    as wide as the map's values. *)
Lemma _upb_map_set_total {T} `{StrTable T} a (m : upb_map T) key ks val vs k :
  _upb_map_tokey a key ks = Ok k ->
  0 <= vs <= 8 -> map_value_width vs <= Z.of_nat (length val) ->
  exists r, _upb_map_set a m key ks val vs = Ok r.
Proof.
  intros Hk Hvs Hw. unfold _upb_map_set. rewrite Hk. cbn [bind].
  destruct (_upb_map_tovalue_total a val vs Hvs Hw) as (r & ->). cbn [bind].
  repeat case_match; eauto.
Qed.

Lemma upb_map_set_total a map m key val k :
  map_wf a map m -> _upb_map_tokey a key (map_key_size m) = Ok k ->
  map_value_width (map_val_size m) <= Z.of_nat (length val) ->
  exists r, upb_map_set a map key val = Ok r.
Proof.
  intros Hm Hk Hw. unfold upb_map_set. rewrite (mwf_hdr _ _ _ Hm). cbn [bind].
  destruct (_upb_map_set_total a m key _ val _ k Hk (mwf_val _ _ _ Hm) Hw) as (r & ->).
  cbn [bind]. eauto.
Qed.

Lemma upb_map_delete_total a map m key k :
  get_map a map = Ok m -> _upb_map_tokey a key (map_key_size m) = Ok k ->
  exists r, upb_map_delete a map key = Ok r.
Proof.
  intros Hm Hk. unfold upb_map_delete, _upb_map_delete. rewrite Hm. cbn [bind].
  rewrite Hk. cbn [bind]. eauto.
Qed.

(** ** Every operation keeps the arena and every handle *)

Lemma upb_map_new_preserves a kt vt p a' : upb_map_new a kt vt = Ok (p, a') -> preserves a a'.
Proof.
  unfold upb_map_new, _upb_map_new. intros H. res_inv. eapply preserves_malloc_eq; eauto.
Qed.

Lemma _upb_map_tovalue_preserves a val vs v a1 :
  _upb_map_tovalue a val vs = Ok (v, a1) -> preserves a a1.
Proof.
  unfold _upb_map_tovalue. destruct (vs =? _).
  - destruct (prefix_bytes _ _); [|discriminate]. cbn [bind]. intros [= H].
    eapply preserves_malloc_eq; eauto.
  - intros H. res_inv. reflexivity.
Qed.

Lemma _upb_map_set_preserves {T} `{StrTable T} a (m : upb_map T) key ks val vs ok m' a' :
  _upb_map_set a m key ks val vs = Ok (ok, m', a') -> preserves a a'.
Proof.
  unfold _upb_map_set. intros Hs.
  destruct (_upb_map_tokey _ _ _) as [k|]; [|discriminate]. cbn [bind] in Hs.
  destruct (_upb_map_tovalue _ _ _) as [[v a1]|] eqn:Hv; [|discriminate].
  cbn [bind fst snd] in Hs. apply _upb_map_tovalue_preserves in Hv.
  destruct (_ && _); [injection Hs as <- <- <-; reflexivity|].
  destruct (upb_arena_malloc a1 _ _) as [ka a2] eqn:Hm. cbn [fst snd] in Hs.
  destruct (ka =? 0); injection Hs as <- <- <-; [exact Hv|].
  etrans; [exact Hv|eapply preserves_malloc_eq; eauto].
Qed.

(** The widths of a map are fixed for its lifetime. *)
Lemma _upb_map_set_sizes {T} `{StrTable T} a (m : upb_map T) key ks val vs ok m' a' :
  _upb_map_set a m key ks val vs = Ok (ok, m', a') ->
  map_key_size m' = map_key_size m /\ map_val_size m' = map_val_size m.
Proof.
  unfold _upb_map_set. intros Hs. res_inv.
  repeat case_match; injection Hs as <- <- <-; split; reflexivity.
Qed.

Lemma upb_map_set_preserves a map key val ok a' :
  upb_map_set a map key val = Ok (ok, a') -> preserves a a'.
Proof.
  unfold upb_map_set. destruct (get_map a map) as [m|] eqn:Hg; [|discriminate]. cbn [bind].
  destruct (_upb_map_set _ _ _ _ _ _) as [[[ok1 m1] a1]|] eqn:Hs; [|discriminate].
  cbn [bind fst snd]. intros [= <- <-].
  destruct (_upb_map_set_sizes _ _ _ _ _ _ _ _ _ Hs) as [Ek Ev].
  eapply preserves_then; [eapply _upb_map_set_preserves; eauto|].
  intros _ L. eapply preserves_set_map; eauto.
Qed.

Lemma upb_map_delete_preserves a map key b a' :
  upb_map_delete a map key = Ok (b, a') -> preserves a a'.
Proof.
  unfold upb_map_delete. destruct (get_map a map) as [m|] eqn:Hg; [|discriminate]. cbn [bind].
  destruct (_upb_map_delete _ _ _ _) as [r|] eqn:Hd; [|discriminate]. cbn [bind].
  intros [= <- <-]. unfold _upb_map_delete in Hd. res_inv.
  eapply preserves_set_map; [exact Hg|reflexivity..].
Qed.

(** What [upb_map_get] finds under a key just set. *)
Lemma upb_map_get_after_set a map m key val a' :
  arena_wf a -> map_wf a map m ->
  upb_map_set a map key val = Ok (true, a') ->
  upb_map_get a' map key =
    Ok (Some (take (Z.to_nat (map_value_width (map_val_size m))) val)).
Proof.
  intros Ha Hm Hs.
  destruct (upb_map_set_spec a map m Ha Hm key val true a' Hs)
    as (Ha' & Hext & k & v & m' & Hk & Hm' & Eks & Evs & Hv & Hl & _).
  rewrite (upb_map_get_spec a' map m' Hm'). unfold _upb_map_get. rewrite Eks, Evs.
  rewrite (_upb_map_tokey_mono a a' Hext key key eq_refl _ _ eq_refl k Hk). cbn [bind].
  rewrite Hl, decide_True by reflexivity. rewrite Hv. reflexivity.
Qed.

(** ** Properties of the map container *)

(** C17: a lookup after an insertion: when [upb_map_set] returns [true],
    [upb_map_get] of the same key finds the first bytes of the value (its
    width, or the sixteen bytes of the view for a string). *)
Theorem upb_map_set_get a map m key val a' :
  arena_wf a -> map_wf a map m ->
  upb_map_set a map key val = Ok (true, a') ->
  upb_map_get a' map key =
    Ok (Some (take (Z.to_nat (map_value_width (map_val_size m))) val)).
Proof. exact (upb_map_get_after_set a map m key val a'). Qed.

Lemma upb_map_set_get_witness :
  upb_map_get example_map_xy example_map (msgval_int32 5) =
    Ok (Some (take (Z.to_nat (map_value_width (map_val_size (example_map_hdr example_map_x))))
                example_y)).
Proof.
  apply (upb_map_set_get example_map_x example_map (example_map_hdr example_map_x)
           (msgval_int32 5) example_y example_map_xy);
    [apply arena_wf_b_true; vm_compute; reflexivity
    |apply map_wf_b_true; vm_compute; reflexivity
    |vm_compute; reflexivity].
Defined.

(** An insertion leaves the other keys alone: when [upb_map_set]
    returns [true], [upb_map_get] of a key with other bytes finds what it
    found before. *)
Theorem upb_map_set_other a map m key val a' key' k k' r :
  arena_wf a -> map_wf a map m ->
  upb_map_set a map key val = Ok (true, a') ->
  _upb_map_tokey a key (map_key_size m) = Ok k ->
  _upb_map_tokey a key' (map_key_size m) = Ok k' -> k' <> k ->
  upb_map_get a map key' = Ok r -> upb_map_get a' map key' = Ok r.
Proof.
  intros Ha Hm Hs Hk Hk' Hne.
  destruct (upb_map_set_spec a map m Ha Hm key val true a' Hs)
    as (Ha' & Hext & k0 & v & m' & Hk0 & Hm' & Eks & Evs & _ & Hl & _).
  rewrite Hk in Hk0. injection Hk0 as <-.
  apply (upb_map_get_kept a a' map m m' key' k'); auto.
  rewrite Hl. apply decide_False. exact Hne.
Qed.

Lemma upb_map_set_other_witness :
  upb_map_get (example_map_set example_map_x (msgval_int32 6) example_y) example_map
    (msgval_int32 5) = Ok (Some example_x).
Proof.
  apply (upb_map_set_other example_map_x example_map (example_map_hdr example_map_x)
           (msgval_int32 6) example_y _ (msgval_int32 5)
           (msgval_int32 6) (msgval_int32 5));
    [apply arena_wf_b_true; vm_compute; reflexivity
    |apply map_wf_b_true; vm_compute; reflexivity
    |vm_compute; reflexivity|vm_compute; reflexivity|vm_compute; reflexivity
    |vm_compute; congruence|vm_compute; reflexivity].
Defined.

(** The size counts the keys: when [upb_map_set] returns [true],
    [upb_map_size] has grown by one if [upb_map_get] did not find the key
    before, and is the same if it did. *)
Theorem upb_map_set_size a map m key val a' g :
  arena_wf a -> map_wf a map m ->
  upb_map_get a map key = Ok g ->
  upb_map_set a map key val = Ok (true, a') ->
  exists n, upb_map_size a map = Ok n /\
            upb_map_size a' map = Ok (n + match g with Some _ => 0 | None => 1 end).
Proof.
  intros Ha Hm Hg Hs.
  destruct (upb_map_set_spec a map m Ha Hm key val true a' Hs)
    as (_ & _ & k & v & m' & Hk & Hm' & _ & _ & _ & _ & Hc).
  destruct (upb_map_get_found a map m key g Hm Hg) as (k0 & Hk0 & Hf).
  rewrite Hk in Hk0. injection Hk0 as <-.
  exists (st_count (map_table m)). split; [apply upb_map_size_spec; exact Hm|].
  rewrite (upb_map_size_spec a' map m' Hm'), Hc. do 2 f_equal.
  destruct g, (st_lookup (map_table m) k); try reflexivity;
    [pose proof (proj2 Hf eq_refl)|pose proof (proj1 Hf eq_refl)]; discriminate.
Qed.

Lemma upb_map_set_size_witness :
  exists n, upb_map_size example_map_x example_map = Ok n /\
            upb_map_size example_map_xy example_map =
              Ok (n + match Some example_x with Some _ => 0 | None => 1 end).
Proof.
  apply (upb_map_set_size example_map_x example_map (example_map_hdr example_map_x)
           (msgval_int32 5) example_y example_map_xy (Some example_x));
    [apply arena_wf_b_true; vm_compute; reflexivity
    |apply map_wf_b_true; vm_compute; reflexivity
    |vm_compute; reflexivity|vm_compute; reflexivity].
Defined.

(** C22: removal: [upb_map_delete] returns whether [upb_map_get] found the
    key; afterwards the key is not found, [upb_map_size] is one less if it
    was, and every key with other bytes is found as before. *)
Theorem upb_map_delete_get a map m key b a' g :
  arena_wf a -> map_wf a map m ->
  upb_map_get a map key = Ok g ->
  upb_map_delete a map key = Ok (b, a') ->
  b = bool_decide (is_Some g) /\
  upb_map_get a' map key = Ok None /\
  (exists n, upb_map_size a map = Ok n /\
             upb_map_size a' map = Ok (n - if b then 1 else 0)) /\
  (forall key' k k' r,
     _upb_map_tokey a key (map_key_size m) = Ok k ->
     _upb_map_tokey a key' (map_key_size m) = Ok k' -> k' <> k ->
     upb_map_get a map key' = Ok r -> upb_map_get a' map key' = Ok r).
Proof.
  intros Ha Hm Hg Hd.
  destruct (upb_map_delete_spec a map m Ha Hm key b a' Hd)
    as (Ha' & Hext & k & m' & Hk & Hm' & Eks & Evs & -> & Hl & Hc).
  destruct (upb_map_get_found a map m key g Hm Hg) as (k0 & Hk0 & Hf).
  rewrite Hk in Hk0. injection Hk0 as <-.
  assert (Hb : bool_decide (is_Some (st_lookup (map_table m) k)) = bool_decide (is_Some g)).
  { apply bool_decide_ext. rewrite <- !not_eq_None_Some. tauto. }
  split; [exact Hb|]. split; [|split].
  - rewrite (upb_map_get_spec a' map m' Hm'). unfold _upb_map_get. rewrite Eks.
    rewrite (_upb_map_tokey_mono a a' Hext key key eq_refl _ _ eq_refl k Hk). cbn [bind].
    rewrite Hl, decide_True by reflexivity. reflexivity.
  - exists (st_count (map_table m)). split; [apply upb_map_size_spec; exact Hm|].
    rewrite (upb_map_size_spec a' map m' Hm'), Hc. do 2 f_equal.
    destruct (st_lookup (map_table m) k); reflexivity.
  - intros key' k1 k' r Hk1 Hk' Hne. rewrite Hk in Hk1. injection Hk1 as <-.
    apply (upb_map_get_kept a a' map m m' key' k'); auto.
    rewrite Hl. apply decide_False. exact Hne.
Qed.

Lemma upb_map_delete_get_witness :
  true = bool_decide (is_Some (Some example_y)) /\
  upb_map_get example_map_del example_map (msgval_int32 5) = Ok None /\
  (exists n, upb_map_size example_map_xy example_map = Ok n /\
             upb_map_size example_map_del example_map = Ok (n - if true then 1 else 0)) /\
  (forall key' k k' r,
     _upb_map_tokey example_map_xy (msgval_int32 5)
       (map_key_size (example_map_hdr example_map_xy)) = Ok k ->
     _upb_map_tokey example_map_xy key'
       (map_key_size (example_map_hdr example_map_xy)) = Ok k' -> k' <> k ->
     upb_map_get example_map_xy example_map key' = Ok r ->
     upb_map_get example_map_del example_map key' = Ok r).
Proof.
  apply (upb_map_delete_get example_map_xy example_map (example_map_hdr example_map_xy)
           (msgval_int32 5) true example_map_del (Some example_y));
    [apply arena_wf_b_true; vm_compute; reflexivity
    |apply map_wf_b_true; vm_compute; reflexivity
    |vm_compute; reflexivity|vm_compute; reflexivity].
Defined.

(** The iteration visits every entry once and ends: from
    [UPB_MAP_BEGIN], with fuel above the number of slots, the loop over
    [upb_mapiter_next], [upb_mapiter_key] and [upb_mapiter_value] returns
    the keys and values at the cursors of the entries in slot order, and
    when none of the reads faults their number is [upb_map_size]. *)
Theorem upb_map_entries_all a map m fuel :
  map_wf a map m -> st_size (map_table m) < 2 ^ 64 - 1 ->
  (Z.to_nat (st_size (map_table m)) < fuel)%nat ->
  upb_map_entries fuel a map UPB_MAP_BEGIN =
    res_mapM (upb_mapiter_entry a map) (live_cursors (map_table m)) /\
  forall l, upb_map_entries fuel a map UPB_MAP_BEGIN = Ok l ->
            upb_map_size a map = Ok (Z.of_nat (length l)).
Proof.
  intros Hm Hsz Hf.
  assert (E : upb_map_entries fuel a map UPB_MAP_BEGIN =
              res_mapM (upb_mapiter_entry a map) (live_cursors (map_table m))).
  { apply (upb_map_entries_spec a map m (mwf_hdr _ _ _ Hm) Hsz); [reflexivity|lia|].
    pose proof (cursors_from_length (map_table m) 0). lia. }
  split; [exact E|]. intros l Hl. rewrite E in Hl.
  rewrite (upb_map_size_spec a map m Hm), (res_mapM_length _ _ _ Hl).
  f_equal. apply live_cursors_count.
Qed.

Lemma upb_map_entries_all_witness :
  upb_map_entries 5 example_map_xy example_map UPB_MAP_BEGIN =
    res_mapM (upb_mapiter_entry example_map_xy example_map)
      (live_cursors (map_table (example_map_hdr example_map_xy))) /\
  forall l, upb_map_entries 5 example_map_xy example_map UPB_MAP_BEGIN = Ok l ->
            upb_map_size example_map_xy example_map = Ok (Z.of_nat (length l)).
Proof.
  apply (upb_map_entries_all example_map_xy example_map (example_map_hdr example_map_xy) 5);
    [apply map_wf_b_true; vm_compute; reflexivity
    |vm_compute; reflexivity|vm_compute; lia].
Defined.

(** The iteration yields bindings: in a map with keys of a fixed
    width, the key [upb_mapiter_key] returns at a cursor that
    [upb_mapiter_next] moved to is found by [upb_map_get], with the value
    [upb_mapiter_value] returns there. *)
Theorem upb_mapiter_key_found a map m iter i :
  map_wf a map m -> map_key_size m <> 0 ->
  upb_mapiter_next a map iter = Ok (true, i) ->
  exists k, upb_mapiter_key a map i = Ok k /\
            forall v, upb_mapiter_value a map i = Ok v ->
                      upb_map_get a map k = Ok (Some v).
Proof.
  intros Hm Hne Hn.
  destruct (upb_mapiter_next_entry a map m iter i (mwf_hdr _ _ _ Hm) Hn) as [e He].
  destruct (fixed_key_roundtrip a m map i e Hm Hne He) as [Hfrom Hto].
  exists (te_key e). unfold upb_mapiter_key, upb_mapiter_value.
  rewrite (upb_map_get_spec a map m Hm). unfold _upb_map_get.
  rewrite (mwf_hdr _ _ _ Hm). cbn [bind]. rewrite He, Hto. cbn [bind].
  split; [exact Hfrom|].
  rewrite (st_entry_lookup _ _ _ (mwf_table _ _ _ Hm) He). intros v ->. reflexivity.
Qed.

Lemma upb_mapiter_key_found_witness :
  exists k, upb_mapiter_key example_map_xy example_map 1 = Ok k /\
            forall v, upb_mapiter_value example_map_xy example_map 1 = Ok v ->
                      upb_map_get example_map_xy example_map k = Ok (Some v).
Proof.
  apply (upb_mapiter_key_found example_map_xy example_map (example_map_hdr example_map_xy)
           UPB_MAP_BEGIN 1);
    [apply map_wf_b_true; vm_compute; reflexivity
    |vm_compute; congruence|vm_compute; reflexivity].
Defined.

(** A map made by [upb_map_new] is empty: its size is 0, the
    iteration ends at once, and no key is found. *)
Theorem upb_map_new_empty a kt vt p a' :
  arena_wf a -> upb_map_new a kt vt = Ok (p, a') -> p <> 0 ->
  upb_map_size a' p = Ok 0 /\
  upb_map_entries 1 a' p UPB_MAP_BEGIN = Ok [] /\
  forall key r, upb_map_get a' p key = Ok r -> r = None.
Proof.
  intros Ha Hn Hp. destruct (upb_map_new_spec a kt vt p a' Ha Hn) as (_ & _ & Hnew).
  destruct (Hnew Hp) as (ks & vs & Hg).
  unfold upb_map_size, upb_map_get, _upb_map_get. cbn [upb_map_entries].
  unfold upb_mapiter_next. rewrite Hg. cbn [bind map_table map_key_size].
  split; [reflexivity|]. split.
  - rewrite _upb_map_next_spec. reflexivity.
  - intros key r. destruct (_upb_map_tokey _ _ _); [|discriminate].
    cbn. intros [= <-]. reflexivity.
Qed.

Lemma upb_map_new_empty_witness :
  upb_map_size (snd example_map_new) (fst example_map_new) = Ok 0 /\
  upb_map_entries 1 (snd example_map_new) (fst example_map_new) UPB_MAP_BEGIN = Ok [] /\
  forall key r, upb_map_get (snd example_map_new) (fst example_map_new) key = Ok r -> r = None.
Proof.
  apply (upb_map_new_empty (arena_init 4096) UPB_TYPE_INT32 UPB_TYPE_STRING);
    [apply arena_wf_b_true; vm_compute; reflexivity
    |vm_compute; reflexivity|vm_compute; congruence].
Defined.

(** C8: the map refines a finite map from keys to table values
    ([map_contents]): [upb_map_size] is the number of its bindings,
    [upb_map_get] looks the key up in it and decodes the value found,
    [upb_map_set] that returns [true] inserts the binding of the key and
    leaves a table value that decodes to the first bytes of the value,
    [upb_map_set] that returns [false] changes nothing, and
    [upb_map_delete] deletes the key and reports whether it was bound. *)
Theorem upb_map_refines a map m key :
  arena_wf a -> map_wf a map m ->
  map_contents a map = Ok (contents (map_table m)) /\
  upb_map_size a map = Ok (Z.of_nat (size (contents (map_table m)))) /\
  upb_map_get a map key =
    (k <- _upb_map_tokey a key (map_key_size m) ;;
     match contents (map_table m) !! k with
     | Some v => r <- _upb_map_fromvalue a v (map_val_size m) ;; Ok (Some r)
     | None => Ok None
     end) /\
  (forall val ok a', upb_map_set a map key val = Ok (ok, a') ->
     if ok then
       exists k v, _upb_map_tokey a key (map_key_size m) = Ok k /\
         map_contents a' map = Ok (<[k := v]> (contents (map_table m))) /\
         _upb_map_fromvalue a' v (map_val_size m) =
           Ok (take (Z.to_nat (map_value_width (map_val_size m))) val)
     else map_contents a' map = Ok (contents (map_table m))) /\
  (forall b a', upb_map_delete a map key = Ok (b, a') ->
     exists k, _upb_map_tokey a key (map_key_size m) = Ok k /\
       map_contents a' map = Ok (delete k (contents (map_table m))) /\
       b = bool_decide (is_Some (contents (map_table m) !! k))).
Proof.
  intros Ha Hm. split; [apply map_contents_spec; exact Hm|].
  split; [apply upb_map_size_contents; exact Hm|].
  split; [apply upb_map_get_contents; exact Hm|].
  split; [intros val ok a'; apply upb_map_set_contents; assumption|].
  intros b a'. apply upb_map_delete_contents; assumption.
Qed.

Lemma upb_map_refines_witness :
  map_contents example_map_x example_map =
    Ok (contents (map_table (example_map_hdr example_map_x))) /\
  upb_map_size example_map_x example_map =
    Ok (Z.of_nat (size (contents (map_table (example_map_hdr example_map_x))))) /\
  upb_map_get example_map_x example_map (msgval_int32 5) =
    (k <- _upb_map_tokey example_map_x (msgval_int32 5)
            (map_key_size (example_map_hdr example_map_x)) ;;
     match contents (map_table (example_map_hdr example_map_x)) !! k with
     | Some v =>
         r <- _upb_map_fromvalue example_map_x v
                (map_val_size (example_map_hdr example_map_x)) ;; Ok (Some r)
     | None => Ok None
     end) /\
  (forall val ok a', upb_map_set example_map_x example_map (msgval_int32 5) val = Ok (ok, a') ->
     if ok then
       exists k v, _upb_map_tokey example_map_x (msgval_int32 5)
                     (map_key_size (example_map_hdr example_map_x)) = Ok k /\
         map_contents a' example_map =
           Ok (<[k := v]> (contents (map_table (example_map_hdr example_map_x)))) /\
         _upb_map_fromvalue a' v (map_val_size (example_map_hdr example_map_x)) =
           Ok (take (Z.to_nat (map_value_width
                                 (map_val_size (example_map_hdr example_map_x)))) val)
     else map_contents a' example_map =
            Ok (contents (map_table (example_map_hdr example_map_x)))) /\
  (forall b a', upb_map_delete example_map_x example_map (msgval_int32 5) = Ok (b, a') ->
     exists k, _upb_map_tokey example_map_x (msgval_int32 5)
                 (map_key_size (example_map_hdr example_map_x)) = Ok k /\
       map_contents a' example_map =
         Ok (delete k (contents (map_table (example_map_hdr example_map_x)))) /\
       b = bool_decide (is_Some (contents (map_table (example_map_hdr example_map_x)) !! k))).
Proof.
  apply (upb_map_refines example_map_x example_map (example_map_hdr example_map_x)
           (msgval_int32 5));
    [apply arena_wf_b_true; vm_compute; reflexivity
    |apply map_wf_b_true; vm_compute; reflexivity].
Defined.

(** The contents of the map of the example: 5 is bound, and only 5. *)
Example example_map_contents :
  (c <- map_contents example_map_xy example_map ;; Ok (map_to_list c)) =
    (v <- (m <- get_map example_map_xy example_map ;;
           Ok (st_lookup (map_table m) (le_split 4 5))) ;;
     Ok (match v with Some tv => [(le_split 4 5, tv)] | None => [] end)).
Proof. vm_compute. reflexivity. Qed.

(** The scenario of the specification: in a map from int32 to
    strings, after 5 is set to "x" and then to "y", the size is 1, 5 is
    found with "y", and the iteration yields that one entry. *)
Example upb_map_set_twice :
  upb_map_size example_map_xy example_map = Ok 1 /\
  upb_map_get example_map_xy example_map (msgval_int32 5) = Ok (Some example_y) /\
  upb_map_entries 3 example_map_xy example_map UPB_MAP_BEGIN =
    Ok [(msgval_int32 5, example_y)] /\
  upb_map_get example_map_del example_map (msgval_int32 5) = Ok None.
Proof. vm_compute. repeat split. Qed.
