(* ===== verification/Iter.v ===== *)
(** * Iter: what the iteration over a map reaches

    A caller walks a map by calling [upb_mapiter_next] on a cursor that
    starts at [UPB_MAP_BEGIN] and reads the entry at the cursor with
    [upb_mapiter_key] and [upb_mapiter_value].  [upb_mapiter_advance] is
    that walk for a given number of steps.  This file shows that the walk
    is fair to every entry: whatever [upb_map_get] finds is at the cursor
    after some number of steps, and that number is below the size of the
    map; after as many steps as the map has entries the next step reports
    the end. *)

From Stdlib Require Import ZArith Lia List.
From coqutil Require Import Byte Word.LittleEndianList.
From stdpp Require Import base tactics list numbers gmap.
From S2P Require Import Prelude Layout Arena Table Map.

#[local] Open Scope Z_scope.

(** [n] calls of [upb_mapiter_next], each on the cursor the one before
    left, stopping at the first that reports the end. *)
Fixpoint upb_mapiter_advance (n : nat) (a : upb_arena) (map : Z) (iter : Z)
  : res (bool * Z) :=
  match n with
  | O => Ok (true, iter)
  | S k =>
      r <- upb_mapiter_next a map iter ;;
      if fst r then upb_mapiter_advance k a map (snd r) else Ok r
  end.

(** ** The cursor after [n] steps *)

Section Advance.
Context (a : upb_arena) (map : Z) (m : upb_map strtable).
Context (Hg : get_map a map = Ok m) (Hsz : st_size (map_table m) < 2 ^ 64 - 1).

#[local] Abbreviation t := (map_table m).

Lemma upb_mapiter_next_cursors iter :
  upb_mapiter_next a map iter =
    Ok match cursors_from t (wrap 64 (iter + 1)) with
       | i :: _ => (true, i)
       | [] => (false, iter)
       end.
Proof using Hg.
  unfold upb_mapiter_next. rewrite Hg. cbn [bind]. rewrite _upb_map_next_spec. reflexivity.
Qed.

(** The cursor after [n + 1] steps is the [n]-th live cursor. *)
Lemma upb_mapiter_advance_nth n : forall iter start i,
  wrap 64 (iter + 1) = start -> 0 <= start ->
  cursors_from t start !! n = Some i ->
  upb_mapiter_advance (S n) a map iter = Ok (true, i).
Proof using Hg Hsz.
  induction n as [|n IH]; intros iter start i Hst Hs Hn;
    cbn [upb_mapiter_advance]; rewrite upb_mapiter_next_cursors, Hst; cbn [bind];
    destruct (cursors_from t start) as [|j rest] eqn:Hc; try discriminate;
    destruct (cursors_from_cons _ _ _ _ Hs Hc) as (Hj & _ & ->); cbn [fst snd].
  - injection Hn as ->. reflexivity.
  - apply (IH j (j + 1)); [apply wrap_small; unfold in_unsigned; lia|lia|exact Hn].
Qed.

(** One step past the last live cursor reports the end. *)
Lemma upb_mapiter_advance_end n : forall iter start,
  wrap 64 (iter + 1) = start -> 0 <= start ->
  length (cursors_from t start) = n ->
  exists i, upb_mapiter_advance (S n) a map iter = Ok (false, i).
Proof using Hg Hsz.
  induction n as [|n IH]; intros iter start Hst Hs Hn;
    cbn [upb_mapiter_advance]; rewrite upb_mapiter_next_cursors, Hst; cbn [bind];
    destruct (cursors_from t start) as [|j rest] eqn:Hc; try discriminate; cbn [fst snd].
  - eauto.
  - destruct (cursors_from_cons _ _ _ _ Hs Hc) as (Hj & _ & ->).
    apply (IH j (j + 1)); [apply wrap_small; unfold in_unsigned; lia|lia|].
    injection Hn as Hn. exact Hn.
Qed.

End Advance.

(** ** Properties of the iteration *)

(** C28: the iteration reaches every entry: whatever [upb_map_get] finds
    under a key is the value at the cursor after some number of calls of
    [upb_mapiter_next] from [UPB_MAP_BEGIN], fewer than the map has
    entries being needed before that one; in a map with keys of a fixed
    width the key at that cursor is the key that was looked up. *)
Theorem upb_mapiter_reaches a map m key v :
  map_wf a map m -> st_size (map_table m) < 2 ^ 64 - 1 ->
  upb_map_get a map key = Ok (Some v) ->
  exists n i,
    upb_map_size a map = Ok (st_count (map_table m)) /\
    Z.of_nat n < st_count (map_table m) /\
    upb_mapiter_advance (S n) a map UPB_MAP_BEGIN = Ok (true, i) /\
    upb_mapiter_value a map i = Ok v /\
    (map_key_size m <> 0 ->
     exists k, _upb_map_tokey a key (map_key_size m) = Ok k /\
               upb_mapiter_key a map i = Ok k).
Proof.
  intros Hm Hsz Hget. pose proof (mwf_hdr _ _ _ Hm) as Hg.
  rewrite (upb_map_get_spec a map m Hm) in Hget. unfold _upb_map_get in Hget.
  destruct (_upb_map_tokey _ _ _) as [k|] eqn:Hk; [|discriminate]. cbn [bind] in Hget.
  destruct (st_lookup (map_table m) k) as [tv|] eqn:Hl; [|discriminate].
  destruct (_upb_map_fromvalue _ _ _) as [r|] eqn:Hv; [|discriminate]. injection Hget as ->.
  apply (live_cursors_lookup _ _ _ (mwf_table _ _ _ Hm)) in Hl
    as (i & e & (n & Hn)%list_elem_of_lookup_1 & He & Hke & Hve).
  exists n, i. split; [apply upb_map_size_spec; exact Hm|]. split.
  { rewrite (live_cursors_count (map_table m)). apply lookup_lt_Some in Hn. lia. }
  split; [apply (upb_mapiter_advance_nth a map m Hg Hsz n _ 0); [reflexivity|lia|exact Hn]|].
  unfold upb_mapiter_value, upb_mapiter_key. rewrite Hg. cbn [bind]. rewrite He, Hve.
  split; [exact Hv|]. intros Hne. exists k. split; [reflexivity|]. rewrite <- Hke.
  exact (proj1 (fixed_key_roundtrip a m map i e Hm Hne He)).
Qed.

Lemma upb_mapiter_reaches_witness :
  exists n i,
    upb_map_size example_map_xy example_map =
      Ok (st_count (map_table (example_map_hdr example_map_xy))) /\
    Z.of_nat n < st_count (map_table (example_map_hdr example_map_xy)) /\
    upb_mapiter_advance (S n) example_map_xy example_map UPB_MAP_BEGIN = Ok (true, i) /\
    upb_mapiter_value example_map_xy example_map i = Ok example_y /\
    (map_key_size (example_map_hdr example_map_xy) <> 0 ->
     exists k, _upb_map_tokey example_map_xy (msgval_int32 5)
                 (map_key_size (example_map_hdr example_map_xy)) = Ok k /\
               upb_mapiter_key example_map_xy example_map i = Ok k).
Proof.
  apply (upb_mapiter_reaches example_map_xy example_map (example_map_hdr example_map_xy)
           (msgval_int32 5) example_y);
    [apply map_wf_b_true; vm_compute; reflexivity|vm_compute; reflexivity
    |vm_compute; reflexivity].
Defined.

(** The walk over the map of the example: the entry is at the first
    cursor the walk stops at, and the second step reports the end. *)
Example example_advance :
  upb_mapiter_advance 1 example_map_xy example_map UPB_MAP_BEGIN = Ok (true, 1) /\
  upb_mapiter_advance 2 example_map_xy example_map UPB_MAP_BEGIN = Ok (false, 1).
Proof. vm_compute. split; reflexivity. Qed.
