(* ===== verification/Msg.v ===== *)
(** * Msg: the record accessor

    [upb_msg_new], [upb_msg_has], [upb_msg_get], [upb_msg_mutable] and
    [upb_msg_set] of reflection.c.  A message is a byte block of the arena;
    a field is found through its layout entry: [offset] bytes into the
    block, with a width from [field_size], and a [presence] that is 0 (no
    presence), a hasbit index (positive), or the complement of the offset
    of the 32-bit case word of a oneof (negative).

    [_upb_msg_new] belongs to upb's message module; it is modelled from its
    contract: a block of the layout's size, all zero, or NULL.  The
    internal header that precedes a message is not modelled. *)

From Stdlib Require Import ZArith Lia List.
From coqutil Require Import Byte Word.LittleEndianList.
From stdpp Require Import base tactics list numbers gmap.
From S2P Require Import Prelude Layout Arena Array Table Map.

#[local] Open Scope Z_scope.

(** ** Creation *)

Definition upb_msg_internalsize : Z := 24.

Definition _upb_msg_new (l : upb_msglayout) (a : upb_arena) : Z * upb_arena :=
  upb_arena_malloc a (layout_size l + upb_msg_internalsize)
    (OBytes (zeros (Z.to_nat (layout_size l)))).

Definition upb_msg_new (m : upb_msgdef) (a : upb_arena) : Z * upb_arena :=
  _upb_msg_new (upb_msgdef_layout m) a.

(** ** Presence *)

(** [PTR_AT(msg, ofs, type)]: the address [ofs] bytes into [msg]. *)
Definition PTR_AT (msg ofs : Z) : ptr := {| p_base := msg; p_off := ofs |}.

Definition in_oneof (field : upb_msglayout_field) : bool :=
  presence field <? 0.

(** The address of the case word of the oneof a field belongs to. *)
Definition oneofcase (msg : Z) (field : upb_msglayout_field) : res ptr :=
  assert! in_oneof field ;;
  Ok (PTR_AT msg (Z.lnot (presence field))).

Definition upb_msg_has (a : upb_arena) (msg : Z) (f : upb_fielddef) : res bool :=
  let field := upb_fielddef_layout f in
  assert! negb (presence field =? 0) ;;
  if in_oneof field then
    p <- oneofcase msg field ;;
    bs <- mem_load a p 4 ;;
    Ok (dec_unsigned bs =? number field)
  else
    let hasbit := wrap 32 (presence field) in
    bs <- mem_load a (PTR_AT msg (hasbit / 8)) 1 ;;
    Ok (negb (Z.lor (dec_signed bs) (Z.shiftl 1 (hasbit mod 8)) =? 0)).

(** What the hasbit of a field holds: the bit a presence test has to read. *)
Definition hasbit_value (a : upb_arena) (msg : Z) (f : upb_fielddef) : res bool :=
  let hasbit := wrap 32 (presence (upb_fielddef_layout f)) in
  bs <- mem_load a (PTR_AT msg (hasbit / 8)) 1 ;;
  Ok (Z.testbit (dec_unsigned bs) (hasbit mod 8)).

(** ** Reading *)

(** The number of bytes a field occupies in the message. *)
Definition msg_field_size (f : upb_fielddef) : res Z :=
  if upb_fielddef_isseq f then Ok sizeof_ptr
  else table_index field_size (descriptortype (upb_fielddef_layout f)).

(** The [switch] of [upb_msg_get]: the default of a field that is not set. *)
Definition msg_default (f : upb_fielddef) : list byte :=
  match upb_fielddef_type f with
  | UPB_TYPE_INT32 | UPB_TYPE_ENUM => msgval_int32 (upb_fielddef_defaultint32 f)
  | UPB_TYPE_INT64 => msgval_int64 (upb_fielddef_defaultint64 f)
  | UPB_TYPE_UINT32 => msgval_uint32 (upb_fielddef_defaultuint32 f)
  | UPB_TYPE_UINT64 => msgval_uint64 (upb_fielddef_defaultuint64 f)
  | UPB_TYPE_FLOAT => msgval_float (upb_fielddef_defaultfloat f)
  | UPB_TYPE_DOUBLE => msgval_double (upb_fielddef_defaultdouble f)
  | UPB_TYPE_BOOL => msgval_double (double_of_bool (upb_fielddef_defaultbool f))
  | UPB_TYPE_STRING | UPB_TYPE_BYTES =>
      msgval_str (fst (upb_fielddef_defaultstr f)) (snd (upb_fielddef_defaultstr f))
  | UPB_TYPE_MESSAGE => msgval_ptr 0
  end.

Definition upb_msg_get (a : upb_arena) (msg : Z) (f : upb_fielddef) : res (list byte) :=
  let field := upb_fielddef_layout f in
  let mem := PTR_AT msg (offset field) in
  present <- (if presence field =? 0 then Ok true else upb_msg_has a msg f) ;;
  if present then
    size <- msg_field_size f ;;
    mem_load a mem size
  else Ok (msg_default f).

(** ** Lazy creation of sub-objects *)

(** The object [upb_msg_mutable] creates for a field that has none. *)
Definition msg_new_subobject (a : upb_arena) (f : upb_fielddef) : res (Z * upb_arena) :=
  if upb_fielddef_ismap f then
    match upb_fielddef_msgsubdef f with
    | Some entry =>
        match upb_msgdef_itof entry UPB_MAPENTRY_KEY,
              upb_msgdef_itof entry UPB_MAPENTRY_VALUE with
        | Some key, Some value =>
            upb_map_new a (upb_fielddef_type key) (upb_fielddef_type value)
        | _, _ => Err BadPointer
        end
    | None => Err BadPointer
    end
  else if upb_fielddef_isseq f then
    upb_array_new a (upb_fielddef_type f)
  else
    assert! upb_fielddef_issubmsg f ;;
    match upb_fielddef_msgsubdef f with
    | Some m => Ok (upb_msg_new m a)
    | None => Err BadPointer
    end.

Definition upb_msg_mutable (a : upb_arena) (msg : Z) (f : upb_fielddef)
  : res (Z * upb_arena) :=
  let field := upb_fielddef_layout f in
  let mem := PTR_AT msg (offset field) in
  bs <- mem_load a mem sizeof_ptr ;;
  let ret := dec_unsigned bs in
  if ret =? 0 then
    r <- msg_new_subobject a f ;;
    a' <- mem_store (snd r) mem (le_split 8 (fst r)) ;;
    Ok (fst r, a')
  else Ok (ret, a).

(** ** Writing *)

Definition upb_msg_set (a : upb_arena) (msg : Z) (f : upb_fielddef) (val : list byte)
  : res upb_arena :=
  let field := upb_fielddef_layout f in
  let mem := PTR_AT msg (offset field) in
  size <- msg_field_size f ;;
  bs <- prefix_bytes val size ;;
  a1 <- mem_store a mem bs ;;
  if in_oneof field then
    p <- oneofcase msg field ;;
    mem_store a1 p (le_split 4 (number field))
  else Ok a1.

(** ** Well-formed fields *)

(** The field [f] lies inside a message of [n] bytes: its bytes, its
    hasbit or its case word are in the block, and the case word does not
    overlap the field. *)
Record field_wf (n : Z) (f : upb_fielddef) (sz : Z) : Prop := {
  fwf_size : msg_field_size f = Ok sz;
  fwf_offset : 0 <= offset (upb_fielddef_layout f) /\
               offset (upb_fielddef_layout f) + sz <= n;
  fwf_presence : in_signed 32 (presence (upb_fielddef_layout f));
  fwf_number : in_unsigned 32 (number (upb_fielddef_layout f));
  fwf_hasbit : 0 < presence (upb_fielddef_layout f) ->
               presence (upb_fielddef_layout f) / 8 < n;
  fwf_case : presence (upb_fielddef_layout f) < 0 ->
             Z.lnot (presence (upb_fielddef_layout f)) + 4 <= n /\
             (offset (upb_fielddef_layout f) + sz <= Z.lnot (presence (upb_fielddef_layout f)) \/
              Z.lnot (presence (upb_fielddef_layout f)) + 4 <= offset (upb_fielddef_layout f))
}.

(** The message at [msg] is a block of [n] bytes. *)
Definition msg_wf (a : upb_arena) (msg n : Z) : Prop :=
  exists bs, get_bytes a msg = Ok bs /\ Z.of_nat (length bs) = n.

(** What [upb_msg_mutable] creates, by the kind of the field: an empty
    map, an empty array of the field's element width, or a zeroed message. *)
Definition created (a : upb_arena) (f : upb_fielddef) (p : Z) : Prop :=
  if upb_fielddef_ismap f then
    exists ks vs, get_map a p =
      Ok {| map_key_size := ks; map_val_size := vs; map_table := [] |}
  else if upb_fielddef_isseq f then
    exists lg2,
      table_index _upb_fieldtype_to_sizelg2 (fieldtype_code (upb_fielddef_type f)) = Ok lg2 /\
      get_array a p = Ok {| arr_data := tag_arrptr 0 lg2; arr_len := 0; arr_size := 0 |}
  else exists m, upb_fielddef_msgsubdef f = Some m /\
         get_bytes a p = Ok (zeros (Z.to_nat (layout_size (upb_msgdef_layout m)))).

(** The schema lets [upb_msg_mutable] create the object of the field: a
    map field names its entry type with a key and a value field, and a
    field that is neither a map nor repeated is a sub-message field that
    names its type. *)
Definition field_creatable (f : upb_fielddef) : Prop :=
  if upb_fielddef_ismap f then
    (exists entry key value,
       upb_fielddef_msgsubdef f = Some entry /\
       upb_msgdef_itof entry UPB_MAPENTRY_KEY = Some key /\
       upb_msgdef_itof entry UPB_MAPENTRY_VALUE = Some value)
  else if upb_fielddef_isseq f then True
  else (upb_fielddef_issubmsg f = true /\ exists m, upb_fielddef_msgsubdef f = Some m).

(** Executable checks of [field_wf] and [msg_wf]. *)
Definition field_wf_b (n : Z) (f : upb_fielddef) (sz : Z) : bool :=
  let field := upb_fielddef_layout f in
  bool_decide (msg_field_size f = Ok sz) &&
  (0 <=? offset field) && (offset field + sz <=? n) &&
  bool_decide (in_signed 32 (presence field)) &&
  bool_decide (in_unsigned 32 (number field)) &&
  ((presence field <=? 0) || (presence field / 8 <? n)) &&
  ((0 <=? presence field) ||
   ((Z.lnot (presence field) + 4 <=? n) &&
    ((offset field + sz <=? Z.lnot (presence field)) ||
     (Z.lnot (presence field) + 4 <=? offset field)))).

Definition msg_wf_b (a : upb_arena) (msg n : Z) : bool :=
  match get_bytes a msg with
  | Ok bs => Z.of_nat (length bs) =? n
  | Err _ => false
  end.

(** ** Examples *)

(** A singular field of a descriptor type, with its defaults all zero. *)
Definition scalar_field (num ofs pres : Z) (dt : upb_descriptortype_t) : upb_fielddef :=
  {| upb_fielddef_layout :=
       {| number := num; offset := ofs; presence := pres;
          descriptortype := descriptortype_code dt |};
     upb_fielddef_type := fieldtype_of_descriptortype dt;
     upb_fielddef_isseq := false;
     upb_fielddef_ismap := false;
     upb_fielddef_defaultint32 := 0;
     upb_fielddef_defaultint64 := 0;
     upb_fielddef_defaultuint32 := 0;
     upb_fielddef_defaultuint64 := 0;
     upb_fielddef_defaultfloat := 0;
     upb_fielddef_defaultdouble := 0;
     upb_fielddef_defaultbool := false;
     upb_fielddef_defaultstr := (0, 0);
     upb_fielddef_msgsubdef := None |}.

(** The message of the specification's scenario: one int32 field at offset
    4 with hasbit 1 (the byte at offset 0 holds the hasbits) and default 42. *)
Definition example_f : upb_fielddef :=
  {| upb_fielddef_layout :=
       {| number := 1; offset := 4; presence := 1;
          descriptortype := descriptortype_code UPB_DESCRIPTOR_TYPE_INT32 |};
     upb_fielddef_type := UPB_TYPE_INT32;
     upb_fielddef_isseq := false;
     upb_fielddef_ismap := false;
     upb_fielddef_defaultint32 := 42;
     upb_fielddef_defaultint64 := 0;
     upb_fielddef_defaultuint32 := 0;
     upb_fielddef_defaultuint64 := 0;
     upb_fielddef_defaultfloat := 0;
     upb_fielddef_defaultdouble := 0;
     upb_fielddef_defaultbool := false;
     upb_fielddef_defaultstr := (0, 0);
     upb_fielddef_msgsubdef := None |}.

Definition example_msg : Z * upb_arena :=
  _upb_msg_new {| layout_size := 8 |} (arena_init 4096).

(** A repeated field of a type, and a sub-message field. *)
Definition repeated_field (num ofs : Z) (dt : upb_descriptortype_t) : upb_fielddef :=
  {| upb_fielddef_layout :=
       {| number := num; offset := ofs; presence := 0;
          descriptortype := descriptortype_code dt |};
     upb_fielddef_type := fieldtype_of_descriptortype dt;
     upb_fielddef_isseq := true;
     upb_fielddef_ismap := false;
     upb_fielddef_defaultint32 := 0;
     upb_fielddef_defaultint64 := 0;
     upb_fielddef_defaultuint32 := 0;
     upb_fielddef_defaultuint64 := 0;
     upb_fielddef_defaultfloat := 0;
     upb_fielddef_defaultdouble := 0;
     upb_fielddef_defaultbool := false;
     upb_fielddef_defaultstr := (0, 0);
     upb_fielddef_msgsubdef := None |}.

Definition message_field (num ofs : Z) (m : upb_msgdef) : upb_fielddef :=
  {| upb_fielddef_layout :=
       {| number := num; offset := ofs; presence := 0;
          descriptortype := descriptortype_code UPB_DESCRIPTOR_TYPE_MESSAGE |};
     upb_fielddef_type := UPB_TYPE_MESSAGE;
     upb_fielddef_isseq := false;
     upb_fielddef_ismap := false;
     upb_fielddef_defaultint32 := 0;
     upb_fielddef_defaultint64 := 0;
     upb_fielddef_defaultuint32 := 0;
     upb_fielddef_defaultuint64 := 0;
     upb_fielddef_defaultfloat := 0;
     upb_fielddef_defaultdouble := 0;
     upb_fielddef_defaultbool := false;
     upb_fielddef_defaultstr := (0, 0);
     upb_fielddef_msgsubdef := Some m |}.

(** A message of 32 bytes: the hasbits in byte 0, [example_f] at 4, the
    case word of a oneof at 8 with its two members sharing the bytes at
    12, a repeated field at 16 and a sub-message at 24. *)
Definition example_o1 : upb_fielddef :=
  scalar_field 2 12 (Z.lnot 8) UPB_DESCRIPTOR_TYPE_INT32.
Definition example_o2 : upb_fielddef :=
  scalar_field 3 12 (Z.lnot 8) UPB_DESCRIPTOR_TYPE_FLOAT.
Definition example_rep : upb_fielddef :=
  repeated_field 4 16 UPB_DESCRIPTOR_TYPE_INT32.
Definition example_sub : upb_fielddef :=
  message_field 5 24
    {| upb_msgdef_layout := {| layout_size := 8 |}; upb_msgdef_fields := [example_f] |}.
Definition example_plain : upb_fielddef :=
  scalar_field 6 4 0 UPB_DESCRIPTOR_TYPE_INT32.

Definition example_rec : Z * upb_arena :=
  _upb_msg_new {| layout_size := 32 |} (arena_init 4096).

(** The same message in an arena with no room for anything else. *)
Definition example_rec_full : Z * upb_arena :=
  _upb_msg_new {| layout_size := 32 |} (arena_init 80).

(** A bool member of the oneof whose declared default is [true]. *)
Definition example_bool : upb_fielddef :=
  {| upb_fielddef_layout :=
       {| number := 7; offset := 12; presence := Z.lnot 8;
          descriptortype := descriptortype_code UPB_DESCRIPTOR_TYPE_BOOL |};
     upb_fielddef_type := UPB_TYPE_BOOL;
     upb_fielddef_isseq := false;
     upb_fielddef_ismap := false;
     upb_fielddef_defaultint32 := 0;
     upb_fielddef_defaultint64 := 0;
     upb_fielddef_defaultuint32 := 0;
     upb_fielddef_defaultuint64 := 0;
     upb_fielddef_defaultfloat := 0;
     upb_fielddef_defaultdouble := 0;
     upb_fielddef_defaultbool := true;
     upb_fielddef_defaultstr := (0, 0);
     upb_fielddef_msgsubdef := None |}.

Definition example_msgdef : upb_msgdef :=
  {| upb_msgdef_layout := {| layout_size := 32 |};
     upb_msgdef_fields := [example_f; example_o1; example_o2; example_rep; example_sub] |}.

(** The states the examples go through. *)
Definition example_rec_set : upb_arena :=
  match upb_msg_set (snd example_rec) (fst example_rec) example_o1 (msgval_int32 7) with
  | Ok a => a
  | Err _ => snd example_rec
  end.

Definition example_rec_mut : Z * upb_arena :=
  match upb_msg_mutable (snd example_rec) (fst example_rec) example_rep with
  | Ok r => r
  | Err _ => (0, snd example_rec)
  end.

(** ** Lemmas on presence *)

Section Presence.
Context (a : upb_arena) (msg : Z) (f : upb_fielddef).

#[local] Abbreviation field := (upb_fielddef_layout f).

Lemma upb_msg_has_none : presence field = 0 -> upb_msg_has a msg f = Err AssertFailed.
Proof. intros H. unfold upb_msg_has. rewrite H. reflexivity. Qed.

(** On a hasbit field the result does not depend on the byte read. *)
Lemma upb_msg_has_hasbit_spec :
  0 < presence field ->
  upb_msg_has a msg f =
    (bs <- mem_load a (PTR_AT msg (wrap 32 (presence field) / 8)) 1 ;; Ok true).
Proof.
  intros H. unfold upb_msg_has, in_oneof.
  destruct (Z.eqb_spec (presence field) 0); [lia|].
  destruct (Z.ltb_spec (presence field) 0); [lia|]. cbn [negb].
  destruct (mem_load _ _ _) as [bs|]; [|reflexivity]. cbn [bind]. f_equal.
  apply negb_true_iff, Z.eqb_neq, lor_bit_nonzero.
  apply Z.mod_pos_bound. lia.
Qed.

Lemma upb_msg_has_oneof_spec :
  presence field < 0 ->
  upb_msg_has a msg f =
    (bs <- mem_load a (PTR_AT msg (Z.lnot (presence field))) 4 ;;
     Ok (dec_unsigned bs =? number field)).
Proof.
  intros H. unfold upb_msg_has, oneofcase, in_oneof.
  destruct (Z.eqb_spec (presence field) 0); [lia|].
  destruct (Z.ltb_spec (presence field) 0); [|lia]. reflexivity.
Qed.

End Presence.

(** ** Lemmas on stores into a message *)

Lemma msg_wf_store a msg n p v a' :
  msg_wf a msg n -> mem_store a p v = Ok a' -> msg_wf a' msg n.
Proof.
  intros (bs & Hb & Hn) Hs.
  destruct (mem_store_get_bytes _ _ _ _ _ _ Hs Hb) as (bs' & Hb' & Hl).
  exists bs'. split; [exact Hb'|lia].
Qed.

Lemma msg_store_Ok a msg n ofs v :
  msg_wf a msg n -> 0 <= ofs -> ofs + Z.of_nat (length v) <= n ->
  exists a', mem_store a (PTR_AT msg ofs) v = Ok a'.
Proof.
  intros (bs & Hb & Hn) Ho Hl. eapply mem_store_Ok; [exact Hb|].
  unfold in_bounds. cbn. lia.
Qed.

Lemma msg_load_Ok a msg n ofs k :
  msg_wf a msg n -> 0 <= ofs -> 0 <= k -> ofs + k <= n ->
  exists bs, mem_load a (PTR_AT msg ofs) k = Ok bs /\ Z.of_nat (length bs) = k.
Proof.
  intros (bs & Hb & Hn) Ho Hk Hl. unfold mem_load. cbn. rewrite Hb. cbn [bind].
  rewrite load_bytes_Ok by (unfold in_bounds; lia).
  eexists. split; [reflexivity|]. rewrite length_take, length_drop. lia.
Qed.

Lemma msg_field_size_range f sz : msg_field_size f = Ok sz -> 0 <= sz <= sizeof_msgval.
Proof.
  unfold msg_field_size. destruct (upb_fielddef_isseq f).
  - intros [= <-]. unfold sizeof_ptr, sizeof_msgval. lia.
  - intros H. pose proof (field_size_range _ _ H). lia.
Qed.

(** A store into a message succeeds, can be read back, and leaves every
    disjoint region as it was. *)
Lemma msg_store_spec a msg n ofs v :
  msg_wf a msg n -> 0 <= ofs -> ofs + Z.of_nat (length v) <= n ->
  exists a',
    mem_store a (PTR_AT msg ofs) v = Ok a' /\
    msg_wf a' msg n /\
    mem_load a' (PTR_AT msg ofs) (Z.of_nat (length v)) = Ok v /\
    forall q k, disjoint q k (PTR_AT msg ofs) (Z.of_nat (length v)) ->
                mem_load a' q k = mem_load a q k.
Proof.
  intros Hm Ho Hl. destruct (msg_store_Ok a msg n ofs v Hm Ho Hl) as [a' Hs].
  exists a'. split; [exact Hs|]. split; [eapply msg_wf_store; eauto|].
  split; [eapply mem_load_store_same; eauto|].
  intros q k Hd. eapply mem_load_store_disjoint; eauto.
Qed.

(** ** Lemmas on [upb_msg_set] *)

Section Write.
Context (a : upb_arena) (msg n : Z) (f : upb_fielddef) (sz : Z) (val : list byte).
Context (Hmsg : msg_wf a msg n) (Hf : field_wf n f sz).
Context (Hval : sz <= Z.of_nat (length val)).

#[local] Abbreviation field := (upb_fielddef_layout f).
#[local] Abbreviation v := (take (Z.to_nat sz) val).

Lemma set_value_length : Z.of_nat (length v) = sz.
Proof using Hf Hval.
  pose proof (msg_field_size_range _ _ (fwf_size _ _ _ Hf)).
  rewrite length_take. lia.
Qed.

(** What [upb_msg_set] does to the message: the field holds the first
    [sz] bytes of the value, the case word of a oneof member holds the
    field's number, and nothing else in the arena's byte blocks changed. *)
Lemma upb_msg_set_spec :
  exists a',
    upb_msg_set a msg f val = Ok a' /\
    msg_wf a' msg n /\
    mem_load a' (PTR_AT msg (offset field)) sz = Ok v /\
    (presence field < 0 ->
     mem_load a' (PTR_AT msg (Z.lnot (presence field))) 4 =
       Ok (le_split 4 (number field))) /\
    (forall q k,
       disjoint q k (PTR_AT msg (offset field)) sz ->
       (presence field < 0 -> disjoint q k (PTR_AT msg (Z.lnot (presence field))) 4) ->
       mem_load a' q k = mem_load a q k).
Proof using Hmsg Hf Hval.
  pose proof set_value_length as Hv.
  destruct Hf as [Hsz [Ho1 Ho2] Hp Hnum Hhb Hcase].
  destruct (msg_store_spec a msg n (offset field) v Hmsg Ho1) as (a1 & Hs1 & Hm1 & Hl1 & Hfr1);
    [lia|]. rewrite Hv in Hl1, Hfr1.
  unfold upb_msg_set, oneofcase, in_oneof. rewrite Hsz. cbn [bind].
  rewrite prefix_bytes_Ok by (pose proof (msg_field_size_range _ _ Hsz); lia).
  cbn [bind]. rewrite Hs1. cbn [bind].
  destruct (Z.ltb_spec (presence field) 0) as [Hneg|Hpos].
  - destruct (Hcase Hneg) as [Hc1 Hc2]. cbn [bind].
    assert (0 <= Z.lnot (presence field)) by (apply Z.lnot_nonneg; lia).
    destruct (msg_store_spec a1 msg n (Z.lnot (presence field))
                (le_split 4 (number field)) Hm1) as (a2 & Hs2 & Hm2 & Hl2 & Hfr2);
      [lia|rewrite length_le_split; lia|]. rewrite length_le_split in Hl2, Hfr2.
    exists a2. split; [exact Hs2|]. split; [exact Hm2|]. split; [|split].
    + rewrite Hfr2; [exact Hl1|]. right. cbn. lia.
    + intros _. exact Hl2.
    + intros q k Hd1 Hd2. rewrite Hfr2 by auto. apply Hfr1. exact Hd1.
  - exists a1. split; [reflexivity|]. split; [exact Hm1|]. split; [exact Hl1|].
    split; [lia|]. intros q k Hd1 _. apply Hfr1. exact Hd1.
Qed.

End Write.

(** [upb_msg_set] writes into byte blocks only: array and map headers and
    the allocation state are as before. *)
Lemma upb_msg_set_frame a msg f val a' :
  upb_msg_set a msg f val = Ok a' ->
  (forall q, get_array a' q = get_array a q) /\
  (forall q, get_map a' q = get_map a q) /\
  (arena_wf a -> arena_wf a').
Proof.
  unfold upb_msg_set, oneofcase. intros H. res_inv.
  destruct (in_oneof (upb_fielddef_layout f)); cbn [bind] in H; res_inv.
  - split; [|split].
    + intros q. erewrite mem_store_get_array by eauto. eapply mem_store_get_array; eauto.
    + intros q. erewrite mem_store_get_map by eauto. eapply mem_store_get_map; eauto.
    + intros Hwf. eapply mem_store_wf; [|eauto]. eapply mem_store_wf; eauto.
  - split; [|split].
    + intros q. eapply mem_store_get_array; eauto.
    + intros q. eapply mem_store_get_map; eauto.
    + intros Hwf. eapply mem_store_wf; eauto.
Qed.

(** ** Lemmas on [upb_msg_get] *)

Lemma upb_msg_get_present a msg f :
  presence (upb_fielddef_layout f) = 0 \/ upb_msg_has a msg f = Ok true ->
  upb_msg_get a msg f =
    (size <- msg_field_size f ;; mem_load a (PTR_AT msg (offset (upb_fielddef_layout f))) size).
Proof.
  unfold upb_msg_get. destruct (Z.eqb_spec (presence (upb_fielddef_layout f)) 0).
  - reflexivity.
  - intros [?|H]; [lia|]. rewrite H. reflexivity.
Qed.

Lemma upb_msg_get_absent a msg f :
  upb_msg_has a msg f = Ok false -> upb_msg_get a msg f = Ok (msg_default f).
Proof.
  intros H. unfold upb_msg_get.
  destruct (Z.eqb_spec (presence (upb_fielddef_layout f)) 0) as [E|E].
  - rewrite (upb_msg_has_none _ _ _ E) in H. discriminate.
  - rewrite H. reflexivity.
Qed.

Section Read.
Context (a : upb_arena) (msg n : Z) (f : upb_fielddef) (sz : Z).
Context (Hmsg : msg_wf a msg n) (Hf : field_wf n f sz).

#[local] Abbreviation field := (upb_fielddef_layout f).

Lemma hasbit_wrap : 0 < presence field -> wrap 32 (presence field) = presence field.
Proof using Hf.
  intros H. apply wrap_small. pose proof (fwf_presence _ _ _ Hf) as Hp.
  unfold in_signed, in_unsigned in *. lia.
Qed.

(** The presence test of a hasbit field answers true whatever the bit is. *)
Lemma upb_msg_has_hasbit_true : 0 < presence field -> upb_msg_has a msg f = Ok true.
Proof using Hmsg Hf.
  intros H. rewrite upb_msg_has_hasbit_spec by exact H. rewrite hasbit_wrap by exact H.
  pose proof (fwf_hasbit _ _ _ Hf H) as Hb.
  destruct (msg_load_Ok a msg n (presence field / 8) 1 Hmsg) as (bs & -> & _);
    [apply Z.div_pos; lia|lia|lia|reflexivity].
Qed.

Lemma msg_field_load :
  exists bs, mem_load a (PTR_AT msg (offset field)) sz = Ok bs /\ Z.of_nat (length bs) = sz.
Proof using Hmsg Hf.
  destruct Hf as [Hsz [Ho1 Ho2] _ _ _ _].
  pose proof (msg_field_size_range _ _ Hsz).
  apply (msg_load_Ok a msg n); [exact Hmsg|lia..].
Qed.

(** A field without presence, and a hasbit field, are read from memory. *)
Lemma upb_msg_get_memory :
  0 <= presence field ->
  upb_msg_get a msg f = mem_load a (PTR_AT msg (offset field)) sz.
Proof using Hmsg Hf.
  intros H. rewrite upb_msg_get_present.
  - rewrite (fwf_size _ _ _ Hf). reflexivity.
  - destruct (Z.eq_dec (presence field) 0); [left; assumption|right].
    apply upb_msg_has_hasbit_true. lia.
Qed.

End Read.

(** ** Lemmas on a read after a write *)

Lemma case_word_number num : in_unsigned 32 num -> dec_unsigned (le_split 4 num) = num.
Proof. intros H. apply dec_unsigned_le_split. exact H. Qed.

Section WriteRead.
Context (a : upb_arena) (msg n : Z) (f : upb_fielddef) (sz : Z) (val : list byte).
Context (Hmsg : msg_wf a msg n) (Hf : field_wf n f sz).
Context (Hval : sz <= Z.of_nat (length val)).

#[local] Abbreviation field := (upb_fielddef_layout f).
#[local] Abbreviation v := (take (Z.to_nat sz) val).

(** After a write to a oneof member the presence test of a field that
    shares the case word compares the member's number with its own. *)
Lemma upb_msg_set_has_case a' g :
  upb_msg_set a msg f val = Ok a' ->
  presence field < 0 -> presence (upb_fielddef_layout g) = presence field ->
  upb_msg_has a' msg g = Ok (number field =? number (upb_fielddef_layout g)).
Proof using Hmsg Hf Hval.
  intros Hs Hneg Hg.
  destruct (upb_msg_set_spec a msg n f sz val Hmsg Hf Hval) as (a2 & Hs2 & _ & _ & Hc & _).
  rewrite Hs in Hs2. injection Hs2 as <-.
  rewrite upb_msg_has_oneof_spec by lia. rewrite Hg, (Hc Hneg). cbn [bind].
  rewrite case_word_number by apply (fwf_number _ _ _ Hf). reflexivity.
Qed.

Lemma upb_msg_set_get_spec :
  exists a', upb_msg_set a msg f val = Ok a' /\ msg_wf a' msg n /\
             upb_msg_get a' msg f = Ok v.
Proof using Hmsg Hf Hval.
  destruct (upb_msg_set_spec a msg n f sz val Hmsg Hf Hval) as (a' & Hs & Hm & Hl & _).
  exists a'. split; [exact Hs|]. split; [exact Hm|].
  destruct (Z.lt_ge_cases (presence field) 0) as [Hneg|Hpos].
  - rewrite upb_msg_get_present.
    + rewrite (fwf_size _ _ _ Hf). exact Hl.
    + right. rewrite (upb_msg_set_has_case a' f Hs Hneg eq_refl), Z.eqb_refl. reflexivity.
  - rewrite (upb_msg_get_memory a' msg n f sz Hm Hf Hpos). exact Hl.
Qed.

End WriteRead.

(** ** Lemmas on the fields a write leaves alone *)

Section Frame.
Context (a a' : upb_arena) (msg n : Z) (f g : upb_fielddef) (sz szg : Z) (val : list byte).
Context (Hmsg : msg_wf a msg n) (Hf : field_wf n f sz) (Hg : field_wf n g szg).
Context (Hval : sz <= Z.of_nat (length val)).
Context (Hset : upb_msg_set a msg f val = Ok a').

#[local] Abbreviation pf := (presence (upb_fielddef_layout f)).
#[local] Abbreviation pg := (presence (upb_fielddef_layout g)).
#[local] Abbreviation off_f := (offset (upb_fielddef_layout f)).
#[local] Abbreviation off_g := (offset (upb_fielddef_layout g)).

(** The bytes of [g] and its case word, if it has one, lie apart from the
    bytes of [f] and from the case word of [f]. *)
Context (Hvv : off_g + szg <= off_f \/ off_f + sz <= off_g).
Context (Hvc : pf < 0 -> off_g + szg <= Z.lnot pf \/ Z.lnot pf + 4 <= off_g).
Context (Hcv : pg < 0 -> Z.lnot pg + 4 <= off_f \/ off_f + sz <= Z.lnot pg).
Context (Hcc : pg < 0 -> pf < 0 -> Z.lnot pg + 4 <= Z.lnot pf \/ Z.lnot pf + 4 <= Z.lnot pg).

Lemma set_frame_load q k :
  disjoint q k (PTR_AT msg off_f) sz ->
  (pf < 0 -> disjoint q k (PTR_AT msg (Z.lnot pf)) 4) ->
  mem_load a' q k = mem_load a q k.
Proof using Hmsg Hf Hval Hset.
  destruct (upb_msg_set_spec a msg n f sz val Hmsg Hf Hval) as (a2 & Hs2 & _ & _ & _ & Hfr).
  rewrite Hset in Hs2. injection Hs2 as <-. apply Hfr.
Qed.

Lemma set_frame_wf : msg_wf a' msg n.
Proof using Hmsg Hf Hval Hset.
  destruct (upb_msg_set_spec a msg n f sz val Hmsg Hf Hval) as (a2 & Hs2 & Hm & _).
  rewrite Hset in Hs2. injection Hs2 as <-. exact Hm.
Qed.

Lemma set_frame_value :
  mem_load a' (PTR_AT msg off_g) szg = mem_load a (PTR_AT msg off_g) szg.
Proof using Hmsg Hf Hval Hset Hvv Hvc.
  apply set_frame_load.
  - right. cbn. lia.
  - intros Hneg. right. cbn. specialize (Hvc Hneg). lia.
Qed.

Lemma set_frame_has : pg < 0 -> upb_msg_has a' msg g = upb_msg_has a msg g.
Proof using Hmsg Hf Hval Hset Hcv Hcc.
  intros Hneg. rewrite !upb_msg_has_oneof_spec by exact Hneg.
  rewrite set_frame_load; [reflexivity| |].
  - right. cbn. specialize (Hcv Hneg). lia.
  - intros Hnf. right. cbn. specialize (Hcc Hneg Hnf). lia.
Qed.

Lemma upb_msg_set_other_spec : upb_msg_get a' msg g = upb_msg_get a msg g.
Proof using All.
  destruct (Z.lt_ge_cases pg 0) as [Hneg|Hpos].
  - unfold upb_msg_get. rewrite (set_frame_has Hneg).
    rewrite (fwf_size _ _ _ Hg). cbn [bind]. rewrite set_frame_value. reflexivity.
  - rewrite (upb_msg_get_memory a' msg n g szg set_frame_wf Hg Hpos).
    rewrite (upb_msg_get_memory a msg n g szg Hmsg Hg Hpos). apply set_frame_value.
Qed.

End Frame.

(** ** Lemmas on creation *)

Lemma msg_wf_malloc a n o p a' msg k :
  arena_wf a -> upb_arena_malloc a n o = (p, a') -> msg_wf a msg k -> msg_wf a' msg k.
Proof.
  intros Hwf Hm (bs & Hb & Hl). exists bs. split; [|exact Hl].
  eapply malloc_get_bytes; eauto.
Qed.

Lemma upb_msg_new_spec m a p a' :
  arena_wf a -> 0 <= layout_size (upb_msgdef_layout m) ->
  upb_msg_new m a = (p, a') ->
  arena_wf a' /\ (p = 0 -> a' = a) /\
  (p <> 0 ->
   get_bytes a' p = Ok (zeros (Z.to_nat (layout_size (upb_msgdef_layout m)))) /\
   msg_wf a' p (layout_size (upb_msgdef_layout m))).
Proof.
  unfold upb_msg_new, _upb_msg_new. intros Hwf Hn Hm.
  split; [eapply malloc_wf; eauto|]. split; [eapply malloc_null; eauto|].
  intros Hp. pose proof (malloc_lookup_new _ _ _ _ _ Hm Hp) as Hnew%get_bytes_Ok.
  split; [exact Hnew|]. eexists. split; [exact Hnew|]. rewrite length_zeros. lia.
Qed.

(** Whatever [upb_msg_mutable] creates is one allocation from the arena. *)
Lemma msg_new_subobject_malloc a f r :
  msg_new_subobject a f = Ok r -> exists n o, upb_arena_malloc a n o = r.
Proof.
  unfold msg_new_subobject, upb_map_new, upb_array_new, upb_msg_new, _upb_msg_new, _upb_map_new.
  intros H. repeat case_match; res_inv; eauto.
Qed.

Section Mutable.
Context (a : upb_arena) (msg n : Z) (f : upb_fielddef).
Context (Hwf : arena_wf a) (Hmsg : msg_wf a msg n).
Context (Hofs : 0 <= offset (upb_fielddef_layout f) /\
                offset (upb_fielddef_layout f) + sizeof_ptr <= n).

#[local] Abbreviation mem := (PTR_AT msg (offset (upb_fielddef_layout f))).

(** A field that holds a handle is returned as it is. *)
Lemma upb_msg_mutable_present bs :
  mem_load a mem sizeof_ptr = Ok bs -> dec_unsigned bs <> 0 ->
  upb_msg_mutable a msg f = Ok (dec_unsigned bs, a).
Proof.
  intros Hl Hnz. unfold upb_msg_mutable. rewrite Hl. cbn [bind].
  destruct (Z.eqb_spec (dec_unsigned bs) 0); [contradiction|reflexivity].
Qed.

(** A field that holds NULL gets the new object; the handle is stored in
    the field, and when the arena is exhausted nothing changes. *)
Lemma upb_msg_mutable_absent p a1 :
  mem_load a mem sizeof_ptr = Ok (le_split 8 0) ->
  msg_new_subobject a f = Ok (p, a1) ->
  exists a',
    upb_msg_mutable a msg f = Ok (p, a') /\
    mem_store a1 mem (le_split 8 p) = Ok a' /\
    arena_wf a' /\ msg_wf a' msg n /\ 0 <= p < 2 ^ 64 /\
    (p = 0 -> a' = a).
Proof using Hwf Hmsg Hofs.
  intros Hl Hn. destruct (msg_new_subobject_malloc _ _ _ Hn) as (k & o & Hm).
  pose proof (malloc_wf _ _ _ _ _ Hwf Hm) as Hwf1.
  pose proof (msg_wf_malloc _ _ _ _ _ _ _ Hwf Hm Hmsg) as Hmsg1.
  destruct (malloc_range _ _ _ _ _ Hwf Hm) as [Hr _].
  destruct (msg_store_spec a1 msg n (offset (upb_fielddef_layout f)) (le_split 8 p) Hmsg1)
    as (a' & Hs & Hm' & _); [lia|rewrite length_le_split; unfold sizeof_ptr in Hofs; lia|].
  exists a'. split.
  { unfold upb_msg_mutable. rewrite Hl, Hn. cbn [bind fst snd].
    change (dec_unsigned (le_split 8 0) =? 0) with true. cbn iota. rewrite Hs. reflexivity. }
  split; [exact Hs|]. split; [eapply mem_store_wf; eauto|].
  split; [exact Hm'|]. split; [exact Hr|].
  intros ->. rewrite (malloc_null _ _ _ _ _ Hwf Hm eq_refl) in Hs.
  rewrite (mem_store_load_id _ _ _ _ Hl) in Hs. congruence.
Qed.

(** The bytes of a field decide which of the two cases applies. *)
Lemma mutable_field_cases :
  exists bs, mem_load a mem sizeof_ptr = Ok bs /\
             (dec_unsigned bs <> 0 \/ bs = le_split 8 0).
Proof using Hmsg Hofs.
  destruct (msg_load_Ok a msg n (offset (upb_fielddef_layout f)) sizeof_ptr Hmsg)
    as (bs & Hl & Hlen); [unfold sizeof_ptr in *; lia..|].
  exists bs. split; [exact Hl|].
  destruct (Z.eq_dec (dec_unsigned bs) 0) as [E|E]; [right|left; exact E].
  rewrite <- (le_split_dec_unsigned bs), E. f_equal. unfold sizeof_ptr in Hlen. lia.
Qed.

End Mutable.

(** ** Lemmas on a second [upb_msg_mutable] *)

Lemma upb_msg_mutable_again_spec a msg n f p a' :
  arena_wf a -> msg_wf a msg n ->
  0 <= offset (upb_fielddef_layout f) /\ offset (upb_fielddef_layout f) + sizeof_ptr <= n ->
  upb_msg_mutable a msg f = Ok (p, a') -> p <> 0 ->
  upb_msg_mutable a' msg f = Ok (p, a').
Proof.
  intros Hwf Hmsg Hofs Hmut Hp.
  destruct (mutable_field_cases a msg n f Hmsg Hofs) as (bs & Hl & [Hnz| ->]).
  - rewrite (upb_msg_mutable_present _ _ _ _ Hl Hnz) in Hmut. injection Hmut as <- <-.
    apply upb_msg_mutable_present; assumption.
  - destruct (msg_new_subobject a f) as [[p1 a1]|e] eqn:Hn.
    + destruct (upb_msg_mutable_absent a msg n f Hwf Hmsg Hofs p1 a1 Hl Hn)
        as (a2 & Hmut2 & Hs & _ & _ & Hr & _).
      rewrite Hmut in Hmut2. injection Hmut2 as <- <-.
      apply mem_load_store_same in Hs. rewrite length_le_split in Hs.
      pose proof (upb_msg_mutable_present a' msg f (le_split 8 p) Hs) as R.
      rewrite (dec_unsigned_le_split 8 p Hr) in R. exact (R Hp).
    + unfold upb_msg_mutable in Hmut. rewrite Hl in Hmut. cbn [bind] in Hmut.
      change (dec_unsigned (le_split 8 0) =? 0) with true in Hmut. cbn iota in Hmut.
      rewrite Hn in Hmut. discriminate.
Qed.

(** ** The executable checks *)

Lemma msg_wf_b_true a msg n : msg_wf_b a msg n = true -> msg_wf a msg n.
Proof.
  unfold msg_wf_b, msg_wf. destruct (get_bytes a msg) as [bs|]; [|discriminate].
  intros H. exists bs. split; [reflexivity|lia].
Qed.

Lemma field_wf_b_true n f sz : field_wf_b n f sz = true -> field_wf n f sz.
Proof.
  unfold field_wf_b. rewrite !andb_true_iff, !orb_true_iff, !andb_true_iff, orb_true_iff.
  intros ((((((H1%bool_decide_eq_true & H2) & H3) & H4%bool_decide_eq_true) &
             H5%bool_decide_eq_true) & H6) & H7).
  split; [exact H1|lia|exact H4|exact H5|lia|lia].
Qed.

Lemma field_wf_b_complete n f sz : field_wf n f sz -> field_wf_b n f sz = true.
Proof.
  intros [H1 H2 H3 H4 H5 H6]. unfold field_wf_b.
  rewrite !andb_true_iff, !orb_true_iff, !andb_true_iff, orb_true_iff.
  repeat split; (apply bool_decide_eq_true; assumption) || lia.
Qed.

#[export] Instance field_wf_dec n f sz : Decision (field_wf n f sz) :=
  decision_of_bool _ (field_wf_b n f sz)
    (conj (field_wf_b_true n f sz) (field_wf_b_complete n f sz)).

(** ** Lemmas on what [upb_msg_mutable] creates *)

Lemma mem_store_get_bytes_ne a p v a' q :
  mem_store a p v = Ok a' -> q <> p_base p -> get_bytes a' q = get_bytes a q.
Proof.
  intros (bs & bs' & _ & _ & ->)%mem_store_inv Hq.
  rewrite get_bytes_set_object. rewrite decide_False by congruence. reflexivity.
Qed.

Lemma msg_new_subobject_spec a f p a1 :
  arena_wf a -> msg_new_subobject a f = Ok (p, a1) -> p <> 0 -> created a1 f p.
Proof.
  intros Hwf H Hp. unfold msg_new_subobject in H. unfold created.
  destruct (upb_fielddef_ismap f); [|destruct (upb_fielddef_isseq f)].
  - repeat case_match; try discriminate.
    destruct (upb_map_new_spec _ _ _ _ _ Hwf H) as (_ & _ & Hnew). auto.
  - unfold upb_array_new in H.
    destruct (table_index _ _) as [lg2|]; [|discriminate]. injection H as H.
    exists lg2. split; [reflexivity|]. apply get_array_Ok. eapply malloc_lookup_new; eauto.
  - repeat case_match; try discriminate. injection H as H.
    eexists. split; [reflexivity|].
    apply get_bytes_Ok. eapply malloc_lookup_new; eauto.
Qed.

Lemma created_store a f p q v a' :
  created a f p -> p <> p_base q -> mem_store a q v = Ok a' -> created a' f p.
Proof.
  unfold created. intros Hc Hne Hs.
  rewrite (mem_store_get_map _ _ _ _ p Hs), (mem_store_get_array _ _ _ _ p Hs).
  rewrite (mem_store_get_bytes_ne _ _ _ _ p Hs Hne). exact Hc.
Qed.

Lemma created_array_size a f p :
  created a f p -> upb_fielddef_ismap f = false -> upb_fielddef_isseq f = true ->
  upb_array_size a p = Ok 0 /\ array_elems a p = Ok [].
Proof.
  unfold created, upb_array_size, array_elems. intros Hc Hm Hs. rewrite Hm, Hs in Hc.
  destruct Hc as (lg2 & _ & ->). split; reflexivity.
Qed.

(** ** [upb_msg_mutable] returns *)

Lemma upb_map_new_total a kt vt : exists r, upb_map_new a kt vt = Ok r.
Proof. unfold upb_map_new. rewrite !mapsize_fieldtype. cbn [bind]. eauto. Qed.

Lemma upb_array_new_total a t : exists r, upb_array_new a t = Ok r.
Proof.
  unfold upb_array_new. destruct (sizelg2_value_size t) as (lg2 & -> & _). cbn [bind]. eauto.
Qed.

Lemma msg_new_subobject_total a f :
  field_creatable f -> exists r, msg_new_subobject a f = Ok r.
Proof.
  unfold field_creatable, msg_new_subobject.
  destruct (upb_fielddef_ismap f); [|destruct (upb_fielddef_isseq f)].
  - intros (entry & key & value & -> & -> & ->). apply upb_map_new_total.
  - intros _. apply upb_array_new_total.
  - intros (-> & m & ->). cbn. eauto.
Qed.

Lemma upb_msg_mutable_total a msg n f :
  arena_wf a -> msg_wf a msg n ->
  0 <= offset (upb_fielddef_layout f) /\ offset (upb_fielddef_layout f) + sizeof_ptr <= n ->
  field_creatable f ->
  exists r, upb_msg_mutable a msg f = Ok r.
Proof.
  intros Hwf Hmsg Hofs Hc.
  destruct (mutable_field_cases a msg n f Hmsg Hofs) as (bs & Hl & [Hnz| ->]).
  - rewrite (upb_msg_mutable_present _ _ _ _ Hl Hnz). eauto.
  - destruct (msg_new_subobject_total a f Hc) as ([p a1] & Hn).
    destruct (upb_msg_mutable_absent a msg n f Hwf Hmsg Hofs p a1 Hl Hn) as (a' & -> & _).
    eauto.
Qed.

(** ** Every operation keeps the arena and every handle *)

Lemma upb_msg_new_preserves m a : preserves a (snd (upb_msg_new m a)).
Proof. apply preserves_malloc. Qed.

Lemma upb_msg_set_preserves a msg f val a' : upb_msg_set a msg f val = Ok a' -> preserves a a'.
Proof.
  unfold upb_msg_set, oneofcase. intros H. res_inv.
  rename select (mem_store a _ _ = _) into H1. apply preserves_mem_store in H1.
  destruct (in_oneof (upb_fielddef_layout f)); cbn [bind] in H; res_inv; [|exact H1].
  etrans; [exact H1|]. eapply preserves_mem_store; eauto.
Qed.

Lemma msg_new_subobject_preserves a f r : msg_new_subobject a f = Ok r -> preserves a (snd r).
Proof.
  intros (n & o & <-)%msg_new_subobject_malloc. apply preserves_malloc.
Qed.

Lemma upb_msg_mutable_preserves a msg f p a' :
  upb_msg_mutable a msg f = Ok (p, a') -> preserves a a'.
Proof.
  unfold upb_msg_mutable. intros H.
  destruct (mem_load _ _ _) as [bs|]; [|discriminate]. cbn [bind] in H.
  destruct (dec_unsigned bs =? 0); [|injection H as <- <-; reflexivity].
  destruct (msg_new_subobject a f) as [r|] eqn:Hn; [|discriminate]. cbn [bind] in H.
  destruct (mem_store _ _ _) as [a2|] eqn:Hs; [|discriminate]. injection H as <- <-.
  etrans; [eapply msg_new_subobject_preserves; eauto|eapply preserves_mem_store; eauto].
Qed.

(** ** Properties of the record accessor *)

(** C1: a write followed by a read: on a well-formed field of any presence
    kind, [upb_msg_set] succeeds and [upb_msg_get] then returns the first
    [sz] bytes of the value written. *)
Theorem upb_msg_set_get a msg n f sz val :
  msg_wf a msg n -> field_wf n f sz -> sz <= Z.of_nat (length val) ->
  exists a', upb_msg_set a msg f val = Ok a' /\ msg_wf a' msg n /\
             upb_msg_get a' msg f = Ok (take (Z.to_nat sz) val).
Proof. intros Hmsg Hf Hval. exact (upb_msg_set_get_spec a msg n f sz val Hmsg Hf Hval). Qed.

Lemma upb_msg_set_get_witness :
  exists a', upb_msg_set (snd example_rec) (fst example_rec) example_o1 (msgval_int32 7) = Ok a' /\
             msg_wf a' (fst example_rec) 32 /\
             upb_msg_get a' (fst example_rec) example_o1 =
               Ok (take (Z.to_nat 4) (msgval_int32 7)).
Proof.
  apply (upb_msg_set_get (snd example_rec) (fst example_rec) 32 example_o1 4 (msgval_int32 7));
    [apply msg_wf_b_true; vm_compute; reflexivity
    |apply field_wf_b_true; vm_compute; reflexivity
    |vm_compute; congruence].
Defined.

(** C3: the members of a oneof exclude each other: after [upb_msg_set] of
    a member, [upb_msg_has] is true of it and false of every field that
    shares its case word under another number, and [upb_msg_get] of such
    a sibling returns the sibling's default. *)
Theorem upb_msg_set_oneof a msg n f sz val g a' :
  msg_wf a msg n -> field_wf n f sz -> sz <= Z.of_nat (length val) ->
  presence (upb_fielddef_layout f) < 0 ->
  presence (upb_fielddef_layout g) = presence (upb_fielddef_layout f) ->
  number (upb_fielddef_layout g) <> number (upb_fielddef_layout f) ->
  upb_msg_set a msg f val = Ok a' ->
  upb_msg_has a' msg f = Ok true /\ upb_msg_has a' msg g = Ok false /\
  upb_msg_get a' msg g = Ok (msg_default g).
Proof.
  intros Hmsg Hf Hval Hneg Hg Hnum Hset.
  pose proof (upb_msg_set_has_case a msg n f sz val Hmsg Hf Hval a') as Hc.
  split; [|split].
  - rewrite (Hc f Hset Hneg eq_refl), Z.eqb_refl. reflexivity.
  - rewrite (Hc g Hset Hneg Hg). f_equal. apply Z.eqb_neq. congruence.
  - apply upb_msg_get_absent. rewrite (Hc g Hset Hneg Hg). f_equal. apply Z.eqb_neq. congruence.
Qed.

Lemma upb_msg_set_oneof_witness :
  upb_msg_has example_rec_set (fst example_rec) example_o1 = Ok true /\
  upb_msg_has example_rec_set (fst example_rec) example_o2 = Ok false /\
  upb_msg_get example_rec_set (fst example_rec) example_o2 = Ok (msg_default example_o2).
Proof.
  apply (upb_msg_set_oneof (snd example_rec) (fst example_rec) 32 example_o1 4
           (msgval_int32 7) example_o2 example_rec_set);
    [apply msg_wf_b_true; vm_compute; reflexivity
    |apply field_wf_b_true; vm_compute; reflexivity
    |vm_compute; congruence|vm_compute; reflexivity|vm_compute; reflexivity
    |vm_compute; congruence|vm_compute; reflexivity].
Defined.

(** C4: the presence test of a hasbit field does not test the bit: on a
    well-formed message [upb_msg_has] is true of every hasbit field,
    whatever the hasbit holds, so [upb_msg_get] reads the field from memory
    and never returns its default. *)
Theorem upb_msg_has_hasbit a msg n f sz :
  msg_wf a msg n -> field_wf n f sz -> 0 < presence (upb_fielddef_layout f) ->
  upb_msg_has a msg f = Ok true /\
  upb_msg_get a msg f = mem_load a (PTR_AT msg (offset (upb_fielddef_layout f))) sz.
Proof.
  intros Hmsg Hf Hp. split.
  - exact (upb_msg_has_hasbit_true a msg n f sz Hmsg Hf Hp).
  - apply (upb_msg_get_memory a msg n f sz Hmsg Hf). lia.
Qed.

Lemma upb_msg_has_hasbit_witness :
  upb_msg_has (snd example_rec) (fst example_rec) example_f = Ok true /\
  upb_msg_get (snd example_rec) (fst example_rec) example_f =
    mem_load (snd example_rec) (PTR_AT (fst example_rec) (offset (upb_fielddef_layout example_f))) 4.
Proof.
  apply (upb_msg_has_hasbit (snd example_rec) (fst example_rec) 32 example_f 4);
    [apply msg_wf_b_true; vm_compute; reflexivity
    |apply field_wf_b_true; vm_compute; reflexivity
    |vm_compute; reflexivity].
Defined.

(** The scenario of the specification: on a new message whose int32
    field has hasbit 1 and default 42, the hasbit is clear, yet
    [upb_msg_has] answers true and [upb_msg_get] returns 0, not 42. *)
Example upb_msg_has_fresh_hasbit :
  hasbit_value (snd example_msg) (fst example_msg) example_f = Ok false /\
  upb_msg_has (snd example_msg) (fst example_msg) example_f = Ok true /\
  (v <- upb_msg_get (snd example_msg) (fst example_msg) example_f ;; int32_val v) = Ok 0 /\
  int32_val (msg_default example_f) = Ok 42.
Proof. vm_compute. repeat split. Qed.

(** [upb_msg_has] on a field without presence is an assertion
    failure. *)
Theorem upb_msg_has_untracked a msg f :
  presence (upb_fielddef_layout f) = 0 -> upb_msg_has a msg f = Err AssertFailed.
Proof. apply upb_msg_has_none. Qed.

Lemma upb_msg_has_untracked_witness :
  upb_msg_has (snd example_rec) (fst example_rec) example_plain = Err AssertFailed.
Proof.
  apply (upb_msg_has_untracked (snd example_rec) (fst example_rec) example_plain).
  reflexivity.
Defined.

(** A write leaves the other fields alone: if the bytes of [g] and its
    case word lie apart from the bytes of [f] and from the case word of
    [f], then [upb_msg_get] of [g] returns after [upb_msg_set] of [f] what
    it returned before. *)
Theorem upb_msg_set_other a a' msg n f g sz szg val :
  msg_wf a msg n -> field_wf n f sz -> field_wf n g szg ->
  sz <= Z.of_nat (length val) ->
  upb_msg_set a msg f val = Ok a' ->
  (offset (upb_fielddef_layout g) + szg <= offset (upb_fielddef_layout f) \/
   offset (upb_fielddef_layout f) + sz <= offset (upb_fielddef_layout g)) ->
  (presence (upb_fielddef_layout f) < 0 ->
   offset (upb_fielddef_layout g) + szg <= Z.lnot (presence (upb_fielddef_layout f)) \/
   Z.lnot (presence (upb_fielddef_layout f)) + 4 <= offset (upb_fielddef_layout g)) ->
  (presence (upb_fielddef_layout g) < 0 ->
   Z.lnot (presence (upb_fielddef_layout g)) + 4 <= offset (upb_fielddef_layout f) \/
   offset (upb_fielddef_layout f) + sz <= Z.lnot (presence (upb_fielddef_layout g))) ->
  (presence (upb_fielddef_layout g) < 0 -> presence (upb_fielddef_layout f) < 0 ->
   Z.lnot (presence (upb_fielddef_layout g)) + 4 <= Z.lnot (presence (upb_fielddef_layout f)) \/
   Z.lnot (presence (upb_fielddef_layout f)) + 4 <= Z.lnot (presence (upb_fielddef_layout g))) ->
  upb_msg_get a' msg g = upb_msg_get a msg g.
Proof. apply upb_msg_set_other_spec. Qed.

Lemma upb_msg_set_other_witness :
  upb_msg_get example_rec_set (fst example_rec) example_f =
  upb_msg_get (snd example_rec) (fst example_rec) example_f.
Proof.
  apply (upb_msg_set_other (snd example_rec) example_rec_set (fst example_rec) 32
           example_o1 example_f 4 4 (msgval_int32 7));
    [apply msg_wf_b_true; vm_compute; reflexivity
    |apply field_wf_b_true; vm_compute; reflexivity
    |apply field_wf_b_true; vm_compute; reflexivity
    |vm_compute; congruence|vm_compute; reflexivity
    |left; vm_compute; congruence
    |intros _; left; vm_compute; congruence
    |intros H; vm_compute in H; discriminate H
    |intros H; vm_compute in H; discriminate H].
Defined.

(** C40: [upb_msg_set] does not mark presence: the hasbit of a field whose
    hasbit byte lies outside the bytes written holds after the write what
    it held before. *)
Theorem upb_msg_set_keeps_hasbit a a' msg n f g sz val :
  msg_wf a msg n -> field_wf n f sz -> sz <= Z.of_nat (length val) ->
  upb_msg_set a msg f val = Ok a' ->
  (wrap 32 (presence (upb_fielddef_layout g)) / 8 + 1 <= offset (upb_fielddef_layout f) \/
   offset (upb_fielddef_layout f) + sz <= wrap 32 (presence (upb_fielddef_layout g)) / 8) ->
  (presence (upb_fielddef_layout f) < 0 ->
   wrap 32 (presence (upb_fielddef_layout g)) / 8 + 1 <=
     Z.lnot (presence (upb_fielddef_layout f)) \/
   Z.lnot (presence (upb_fielddef_layout f)) + 4 <=
     wrap 32 (presence (upb_fielddef_layout g)) / 8) ->
  hasbit_value a' msg g = hasbit_value a msg g.
Proof.
  intros Hmsg Hf Hval Hset Hv Hc. unfold hasbit_value.
  rewrite (set_frame_load a a' msg n f sz val Hmsg Hf Hval Hset); [reflexivity| |].
  - right. cbn. lia.
  - intros Hneg. right. cbn. specialize (Hc Hneg). lia.
Qed.

Lemma upb_msg_set_keeps_hasbit_witness :
  hasbit_value
    match upb_msg_set (snd example_rec) (fst example_rec) example_f (msgval_int32 7) with
    | Ok a => a
    | Err _ => snd example_rec
    end (fst example_rec) example_f =
  hasbit_value (snd example_rec) (fst example_rec) example_f.
Proof.
  apply (upb_msg_set_keeps_hasbit (snd example_rec) _ (fst example_rec) 32
           example_f example_f 4 (msgval_int32 7));
    [apply msg_wf_b_true; vm_compute; reflexivity
    |apply field_wf_b_true; vm_compute; reflexivity
    |vm_compute; congruence|vm_compute; reflexivity
    |left; vm_compute; congruence
    |intros H; vm_compute in H; discriminate H].
Defined.

(** [upb_msg_set] writes into the message only: every array and map
    header of the arena is as before, and a well-formed arena stays well
    formed. *)
Theorem upb_msg_set_headers a msg f val a' :
  upb_msg_set a msg f val = Ok a' ->
  (forall q, get_array a' q = get_array a q) /\
  (forall q, get_map a' q = get_map a q) /\
  (arena_wf a -> arena_wf a').
Proof. apply upb_msg_set_frame. Qed.

Lemma upb_msg_set_headers_witness :
  (forall q, get_array example_rec_set q = get_array (snd example_rec) q) /\
  (forall q, get_map example_rec_set q = get_map (snd example_rec) q) /\
  (arena_wf (snd example_rec) -> arena_wf example_rec_set).
Proof.
  apply (upb_msg_set_headers (snd example_rec) (fst example_rec) example_o1 (msgval_int32 7)).
  vm_compute. reflexivity.
Defined.

(** C20: lazy creation is idempotent: once [upb_msg_mutable] has returned a
    handle that is not NULL, a second call in the state it left returns
    the same handle and changes nothing. *)
Theorem upb_msg_mutable_idempotent a msg n f p a' :
  arena_wf a -> msg_wf a msg n ->
  0 <= offset (upb_fielddef_layout f) /\ offset (upb_fielddef_layout f) + sizeof_ptr <= n ->
  upb_msg_mutable a msg f = Ok (p, a') -> p <> 0 ->
  upb_msg_mutable a' msg f = Ok (p, a').
Proof. apply upb_msg_mutable_again_spec. Qed.

Lemma upb_msg_mutable_idempotent_witness :
  upb_msg_mutable (snd example_rec_mut) (fst example_rec) example_rep =
    Ok (fst example_rec_mut, snd example_rec_mut).
Proof.
  apply (upb_msg_mutable_idempotent (snd example_rec) (fst example_rec) 32 example_rep);
    [apply arena_wf_b_true; vm_compute; reflexivity
    |apply msg_wf_b_true; vm_compute; reflexivity
    |vm_compute; split; congruence
    |vm_compute; reflexivity|vm_compute; congruence].
Defined.

(** C21: lazy creation: on a field that holds NULL, [upb_msg_mutable]
    returns the object the field's kind asks for (an empty map, an empty
    array, a zeroed message) and stores its handle in the field; the arena
    and the message stay well formed; when the arena is exhausted it
    returns NULL and the arena is unchanged. *)
Theorem upb_msg_mutable_creates a msg n f p a1 :
  arena_wf a -> msg_wf a msg n ->
  0 <= offset (upb_fielddef_layout f) /\ offset (upb_fielddef_layout f) + sizeof_ptr <= n ->
  mem_load a (PTR_AT msg (offset (upb_fielddef_layout f))) sizeof_ptr = Ok (le_split 8 0) ->
  msg_new_subobject a f = Ok (p, a1) ->
  exists a',
    upb_msg_mutable a msg f = Ok (p, a') /\
    arena_wf a' /\ msg_wf a' msg n /\
    mem_load a' (PTR_AT msg (offset (upb_fielddef_layout f))) sizeof_ptr = Ok (le_split 8 p) /\
    (p <> 0 -> created a' f p) /\
    (p = 0 -> a' = a).
Proof.
  intros Hwf Hmsg Hofs Hl Hn.
  destruct (upb_msg_mutable_absent a msg n f Hwf Hmsg Hofs p a1 Hl Hn)
    as (a' & Hmut & Hs & Hwf' & Hm' & Hr & Hnull).
  exists a'. split; [exact Hmut|]. split; [exact Hwf'|]. split; [exact Hm'|].
  split; [|split; [|exact Hnull]].
  - apply mem_load_store_same in Hs. rewrite length_le_split in Hs. exact Hs.
  - intros Hp. eapply (created_store a1 f p); [| |exact Hs].
    + apply (msg_new_subobject_spec a); assumption.
    + destruct (msg_new_subobject_malloc _ _ _ Hn) as (k & o & Hma).
      pose proof (malloc_fresh _ _ _ _ _ Hwf Hma Hp) as Hfresh.
      destruct Hmsg as (bs & Hb%get_bytes_Ok & _). intros E. rewrite E in Hfresh.
      unfold PTR_AT in Hfresh. cbn in Hfresh. congruence.
Qed.

Lemma upb_msg_mutable_creates_witness :
  exists a',
    upb_msg_mutable (snd example_rec) (fst example_rec) example_rep =
      Ok (fst example_rec_mut, a') /\
    arena_wf a' /\ msg_wf a' (fst example_rec) 32 /\
    mem_load a' (PTR_AT (fst example_rec) (offset (upb_fielddef_layout example_rep)))
      sizeof_ptr = Ok (le_split 8 (fst example_rec_mut)) /\
    (fst example_rec_mut <> 0 -> created a' example_rep (fst example_rec_mut)) /\
    (fst example_rec_mut = 0 -> a' = snd example_rec).
Proof.
  apply (upb_msg_mutable_creates (snd example_rec) (fst example_rec) 32 example_rep
           (fst example_rec_mut)
           (snd (upb_arena_malloc (snd example_rec) sizeof_array
                   (OArray {| arr_data := tag_arrptr 0 2; arr_len := 0; arr_size := 0 |}))));
    [apply arena_wf_b_true; vm_compute; reflexivity
    |apply msg_wf_b_true; vm_compute; reflexivity
    |vm_compute; split; congruence
    |vm_compute; reflexivity|vm_compute; reflexivity].
Defined.

(** C37: the default of a bool field is lost: [upb_msg_get] builds it
    through the [double] member of the value, so the [bool] member of the
    default reads false whatever the declared default is. *)
Theorem msg_default_bool f :
  upb_fielddef_type f = UPB_TYPE_BOOL -> bool_val (msg_default f) = Ok false.
Proof.
  intros H. unfold msg_default. rewrite H.
  destruct (upb_fielddef_defaultbool f); vm_compute; reflexivity.
Qed.

Lemma msg_default_bool_witness :
  bool_val (msg_default example_bool) = Ok false.
Proof. apply (msg_default_bool example_bool). reflexivity. Defined.

(** C38: the defaults are the declared ones: for every type but bool, the
    member of the type read from the value the [switch] of [upb_msg_get]
    builds is the default the field definition declares; for a string
    that is the declared default string, which need not be empty. *)
Theorem msg_default_declared f :
  defaults_in_range f ->
  match upb_fielddef_type f with
  | UPB_TYPE_BOOL => double_val (msg_default f) = Ok (double_of_bool (upb_fielddef_defaultbool f))
  | UPB_TYPE_FLOAT => float_val (msg_default f) = Ok (upb_fielddef_defaultfloat f)
  | UPB_TYPE_INT32 | UPB_TYPE_ENUM => int32_val (msg_default f) = Ok (upb_fielddef_defaultint32 f)
  | UPB_TYPE_UINT32 => uint32_val (msg_default f) = Ok (upb_fielddef_defaultuint32 f)
  | UPB_TYPE_MESSAGE => ptr_val (msg_default f) = Ok 0
  | UPB_TYPE_DOUBLE => double_val (msg_default f) = Ok (upb_fielddef_defaultdouble f)
  | UPB_TYPE_INT64 => int64_val (msg_default f) = Ok (upb_fielddef_defaultint64 f)
  | UPB_TYPE_UINT64 => uint64_val (msg_default f) = Ok (upb_fielddef_defaultuint64 f)
  | UPB_TYPE_STRING | UPB_TYPE_BYTES => str_val (msg_default f) = Ok (upb_fielddef_defaultstr f)
  end.
Proof.
  intros (H1 & H2 & H3 & H4 & H5 & H6 & H7 & H8). unfold msg_default.
  destruct (upb_fielddef_type f);
    auto using int32_val_msgval_int32, int64_val_msgval_int64, uint32_val_msgval_uint32,
      uint64_val_msgval_uint64, float_val_msgval_float, double_val_msgval_double.
  - destruct (upb_fielddef_defaultbool f); reflexivity.
  - rewrite str_val_msgval_str by assumption. destruct (upb_fielddef_defaultstr f); reflexivity.
  - rewrite str_val_msgval_str by assumption. destruct (upb_fielddef_defaultstr f); reflexivity.
Qed.

Lemma msg_default_declared_witness :
  int32_val (msg_default example_f) = Ok (upb_fielddef_defaultint32 example_f).
Proof.
  apply (msg_default_declared example_f).
  apply (bool_decide_unpack _). vm_compute. exact I.
Defined.

(** A new message is zeroed: in the message [upb_msg_new] returns,
    every field without presence and every hasbit field reads as zero
    bytes. *)
Theorem upb_msg_new_zeroed m a p a' f sz :
  arena_wf a -> 0 <= layout_size (upb_msgdef_layout m) ->
  upb_msg_new m a = (p, a') -> p <> 0 ->
  field_wf (layout_size (upb_msgdef_layout m)) f sz ->
  0 <= presence (upb_fielddef_layout f) ->
  upb_msg_get a' p f = Ok (zeros (Z.to_nat sz)).
Proof.
  intros Hwf Hn Hnew Hp Hf Hpres.
  destruct (upb_msg_new_spec m a p a' Hwf Hn Hnew) as (_ & _ & Hz).
  destruct (Hz Hp) as [Hb Hm].
  rewrite (upb_msg_get_memory a' p _ f sz Hm Hf Hpres).
  unfold mem_load. cbn [p_base p_off PTR_AT]. rewrite Hb. cbn [bind].
  destruct Hf as [Hsz [Ho1 Ho2] _ _ _ _]. pose proof (msg_field_size_range _ _ Hsz).
  apply load_zeros; lia.
Qed.

Lemma upb_msg_new_zeroed_witness :
  upb_msg_get (snd example_rec) (fst example_rec) example_rep = Ok (zeros (Z.to_nat 8)).
Proof.
  apply (upb_msg_new_zeroed example_msgdef (arena_init 4096) (fst example_rec)
           (snd example_rec) example_rep 8);
    [apply arena_wf_b_true; vm_compute; reflexivity
    |vm_compute; congruence|reflexivity|vm_compute; congruence
    |apply field_wf_b_true; vm_compute; reflexivity
    |vm_compute; congruence].
Defined.

(** ** The scenario of the specification, evaluated *)

Example example_set_get :
  (a <- upb_msg_set (snd example_msg) (fst example_msg) example_f (msgval_int32 7) ;;
   v <- upb_msg_get a (fst example_msg) example_f ;; int32_val v) = Ok 7.
Proof. vm_compute. reflexivity. Qed.

Example example_mutable_exhausted :
  upb_msg_mutable (snd example_rec_full) (fst example_rec_full) example_sub =
    Ok (0, snd example_rec_full).
Proof. vm_compute. reflexivity. Qed.

Example example_mutable_message :
  (r <- upb_msg_mutable (snd example_rec) (fst example_rec) example_sub ;;
   upb_msg_get (snd r) (fst r) example_plain) = Ok (zeros 4).
Proof. vm_compute. reflexivity. Qed.
