(* ===== verification/Presence.v ===== *)
(** * Presence: the record accessor against the specification's reading

    The specification states the presence of a field as one of three
    cases: always live, a bit of the bitset of the record, or the member
    of a oneof that the discriminant word selects ([Presence],
    [presence_of]).  This file writes the accessor that statement
    describes ([has_ref], [default_ref], [get_ref]) and relates
    [upb_msg_has] and [upb_msg_get] of reflection.c to it: where they
    agree, and the three places where they do not (the test of a hasbit,
    the default of a bool, the default of a string). *)

From Stdlib Require Import ZArith Lia List.
From coqutil Require Import Byte Word.LittleEndianList.
From stdpp Require Import base tactics list numbers gmap.
From S2P Require Import Prelude Layout Arena Array Map Msg.

#[local] Open Scope Z_scope.

(** ** The reference *)

(** The liveness of a field: always live, a single bit of the shared
    bitset, or the selected member of a tagged group. *)
Inductive Presence : Set :=
| Always
| Bit (index : Z)
| OneofMember (discriminant_location tag : Z).

#[export] Instance Presence_eq_dec : EqDecision Presence.
Proof. solve_decision. Defined.

(** The case the [presence] member of a layout field encodes: 0, a bit
    index, or the complement of the offset of the case word. *)
Definition presence_of (field : upb_msglayout_field) : Presence :=
  if presence field =? 0 then Always
  else if presence field <? 0 then OneofMember (Z.lnot (presence field)) (number field)
  else Bit (presence field).

(** [has]: the bit at the index, or whether the discriminant is the
    number of the field; a contract violation on a field that is always
    live. *)
Definition has_ref (a : upb_arena) (msg : Z) (f : upb_fielddef) : res bool :=
  match presence_of (upb_fielddef_layout f) with
  | Always => Err AssertFailed
  | Bit i =>
      bs <- mem_load a (PTR_AT msg (i / 8)) 1 ;;
      Ok (Z.testbit (dec_unsigned bs) (i mod 8))
  | OneofMember loc tag =>
      bs <- mem_load a (PTR_AT msg loc) 4 ;;
      Ok (dec_unsigned bs =? tag)
  end.

(** The default of a field that is not set: the numeric default of the
    schema, the empty view for a string, the null handle for a
    message. *)
Definition default_ref (f : upb_fielddef) : list byte :=
  match upb_fielddef_type f with
  | UPB_TYPE_BOOL => msgval_bool (upb_fielddef_defaultbool f)
  | UPB_TYPE_STRING | UPB_TYPE_BYTES => msgval_str 0 0
  | _ => msg_default f
  end.

(** [get]: the bytes of the field when it is live, its default when it
    is not. *)
Definition get_ref (a : upb_arena) (msg : Z) (f : upb_fielddef) : res (list byte) :=
  present <- match presence_of (upb_fielddef_layout f) with
             | Always => Ok true
             | _ => has_ref a msg f
             end ;;
  if present then
    size <- msg_field_size f ;;
    mem_load a (PTR_AT msg (offset (upb_fielddef_layout f))) size
  else Ok (default_ref f).

(** The defaults of a field are those of the reference: the member of
    the field's type reads the same from both. *)
Definition default_agrees (f : upb_fielddef) : Prop :=
  match upb_fielddef_type f with
  | UPB_TYPE_BOOL => upb_fielddef_defaultbool f = false
  | UPB_TYPE_STRING | UPB_TYPE_BYTES => msg_default f = msgval_str 0 0
  | _ => True
  end.

#[export] Instance default_agrees_dec f : Decision (default_agrees f).
Proof. unfold default_agrees. destruct (upb_fielddef_type f); apply _. Defined.

(** ** Examples *)

(** A string member of the oneof of [example_msgdef] whose declared
    default is the three bytes at address 64. *)
Definition example_str : upb_fielddef :=
  {| upb_fielddef_layout :=
       {| number := 8; offset := 12; presence := Z.lnot 8;
          descriptortype := descriptortype_code UPB_DESCRIPTOR_TYPE_STRING |};
     upb_fielddef_type := UPB_TYPE_STRING;
     upb_fielddef_isseq := false;
     upb_fielddef_ismap := false;
     upb_fielddef_defaultint32 := 0;
     upb_fielddef_defaultint64 := 0;
     upb_fielddef_defaultuint32 := 0;
     upb_fielddef_defaultuint64 := 0;
     upb_fielddef_defaultfloat := 0;
     upb_fielddef_defaultdouble := 0;
     upb_fielddef_defaultbool := false;
     upb_fielddef_defaultstr := (64, 3);
     upb_fielddef_msgsubdef := None |}.

(** The message of the scenario after [set(record, f, 7)]. *)
Definition example_msg_set : upb_arena :=
  match upb_msg_set (snd example_msg) (fst example_msg) example_f (msgval_int32 7) with
  | Ok a => a
  | Err _ => snd example_msg
  end.

(** ** Lemmas *)

Lemma presence_of_always field : presence field = 0 -> presence_of field = Always.
Proof. intros H. unfold presence_of. rewrite H. reflexivity. Qed.

Lemma presence_of_bit field : 0 < presence field -> presence_of field = Bit (presence field).
Proof.
  intros H. unfold presence_of.
  destruct (Z.eqb_spec (presence field) 0); [lia|].
  destruct (Z.ltb_spec (presence field) 0); [lia|reflexivity].
Qed.

Lemma presence_of_oneof field :
  presence field < 0 ->
  presence_of field = OneofMember (Z.lnot (presence field)) (number field).
Proof.
  intros H. unfold presence_of.
  destruct (Z.eqb_spec (presence field) 0); [lia|].
  destruct (Z.ltb_spec (presence field) 0); [reflexivity|lia].
Qed.

(** The three cases of [presence_of], with the sign they stand for. *)
Lemma presence_of_cases field :
  presence field = 0 /\ presence_of field = Always \/
  0 < presence field /\ presence_of field = Bit (presence field) \/
  presence field < 0 /\
    presence_of field = OneofMember (Z.lnot (presence field)) (number field).
Proof.
  destruct (Z.lt_total (presence field) 0) as [H|[H|H]];
    auto using presence_of_always, presence_of_bit, presence_of_oneof.
Qed.

(** The reference reads what [hasbit_value] reads. *)
Lemma has_ref_hasbit a msg n f sz :
  field_wf n f sz -> 0 < presence (upb_fielddef_layout f) ->
  has_ref a msg f = hasbit_value a msg f.
Proof.
  intros Hf H. unfold has_ref, hasbit_value.
  rewrite presence_of_bit, (hasbit_wrap n f sz Hf H) by exact H. reflexivity.
Qed.

(** On a member of a oneof the code is the reference. *)
Lemma has_ref_oneof a msg f :
  presence (upb_fielddef_layout f) < 0 -> upb_msg_has a msg f = has_ref a msg f.
Proof.
  intros H. rewrite upb_msg_has_oneof_spec by exact H. unfold has_ref.
  rewrite presence_of_oneof by exact H. reflexivity.
Qed.

(** The reference returns on a well-formed message. *)
Lemma has_ref_total a msg n f sz :
  msg_wf a msg n -> field_wf n f sz -> presence (upb_fielddef_layout f) <> 0 ->
  exists b, has_ref a msg f = Ok b.
Proof.
  intros Hmsg Hf Hp. unfold has_ref.
  destruct (presence_of_cases (upb_fielddef_layout f)) as [[H _]|[[H ->]|[H ->]]]; [lia| |].
  - pose proof (fwf_hasbit _ _ _ Hf H).
    destruct (msg_load_Ok a msg n (presence (upb_fielddef_layout f) / 8) 1 Hmsg)
      as (bs & -> & _); [apply Z.div_pos; lia|lia|lia|]. cbn [bind]. eauto.
  - destruct (fwf_case _ _ _ Hf H) as [Hc _].
    assert (0 <= Z.lnot (presence (upb_fielddef_layout f))) by (unfold Z.lnot; lia).
    destruct (msg_load_Ok a msg n (Z.lnot (presence (upb_fielddef_layout f))) 4 Hmsg)
      as (bs & -> & _); [lia..|]. cbn [bind]. eauto.
Qed.

(** The reference, by what its presence test answers. *)
Lemma get_ref_present a msg f :
  presence (upb_fielddef_layout f) = 0 \/ has_ref a msg f = Ok true ->
  get_ref a msg f =
    (size <- msg_field_size f ;; mem_load a (PTR_AT msg (offset (upb_fielddef_layout f))) size).
Proof.
  unfold get_ref. intros [H|H].
  - rewrite presence_of_always by exact H. reflexivity.
  - destruct (presence_of _); [reflexivity|rewrite H; reflexivity..].
Qed.

Lemma get_ref_absent a msg f : has_ref a msg f = Ok false -> get_ref a msg f = Ok (default_ref f).
Proof.
  unfold get_ref. intros H. destruct (presence_of _) eqn:E; [|rewrite H; reflexivity..].
  unfold has_ref in H. rewrite E in H. discriminate.
Qed.

(** Where the defaults agree, the member of the field's type reads the
    same from the default of the code and from that of the reference. *)
Lemma default_agrees_spec f :
  default_agrees f ->
  match upb_fielddef_type f with
  | UPB_TYPE_BOOL => bool_val (msg_default f) = bool_val (default_ref f)
  | _ => msg_default f = default_ref f
  end.
Proof.
  unfold default_agrees, default_ref, msg_default.
  destruct (upb_fielddef_type f); try reflexivity; try (intros ->; reflexivity).
Qed.

(** ** Properties *)

(** The presence test against the reference: [upb_msg_has] answers what
    the reference answers on a member of a oneof, and true on every
    hasbit field: it is the reference or-ed with "the field has a
    hasbit". *)
Theorem upb_msg_has_reference a msg n f sz b :
  msg_wf a msg n -> field_wf n f sz -> has_ref a msg f = Ok b ->
  upb_msg_has a msg f = Ok (b || negb (in_oneof (upb_fielddef_layout f))).
Proof.
  intros Hmsg Hf Hb. unfold in_oneof.
  destruct (presence_of_cases (upb_fielddef_layout f)) as [[H E]|[[H _]|[H _]]].
  - unfold has_ref in Hb. rewrite E in Hb. discriminate.
  - rewrite (upb_msg_has_hasbit_true a msg n f sz Hmsg Hf H).
    destruct (Z.ltb_spec (presence (upb_fielddef_layout f)) 0); [lia|].
    rewrite orb_true_r. reflexivity.
  - rewrite (has_ref_oneof a msg f H), Hb.
    destruct (Z.ltb_spec (presence (upb_fielddef_layout f)) 0); [|lia].
    rewrite orb_false_r. reflexivity.
Qed.

Lemma upb_msg_has_reference_witness :
  upb_msg_has (snd example_msg) (fst example_msg) example_f =
    Ok (false || negb (in_oneof (upb_fielddef_layout example_f))).
Proof.
  apply (upb_msg_has_reference (snd example_msg) (fst example_msg) 8 example_f 4 false);
    [apply msg_wf_b_true; vm_compute; reflexivity
    |apply field_wf_b_true; vm_compute; reflexivity
    |vm_compute; reflexivity].
Defined.

(** C23: [upb_msg_get] against the reference, case by case.  On a
    well-formed message the reference presence test returns; where the
    field is always live or the test is true, [upb_msg_get] is the
    reference (both read the bytes of the field).  On a member of a
    oneof that is not selected both return a default, the code the one
    of its [switch] and the reference the one of the schema.  On a
    hasbit field whose bit is clear the reference returns the default
    and [upb_msg_get] the bytes of the field. *)
Theorem upb_msg_get_reference a msg n f sz :
  msg_wf a msg n -> field_wf n f sz ->
  match presence_of (upb_fielddef_layout f), has_ref a msg f with
  | Always, _ | _, Ok true => upb_msg_get a msg f = get_ref a msg f
  | OneofMember _ _, Ok false =>
      upb_msg_get a msg f = Ok (msg_default f) /\ get_ref a msg f = Ok (default_ref f)
  | Bit _, Ok false =>
      upb_msg_get a msg f = mem_load a (PTR_AT msg (offset (upb_fielddef_layout f))) sz /\
      get_ref a msg f = Ok (default_ref f)
  | _, Err _ => False
  end.
Proof.
  intros Hmsg Hf.
  destruct (presence_of_cases (upb_fielddef_layout f)) as [[H ->]|[[H ->]|[H ->]]].
  - rewrite upb_msg_get_present, get_ref_present by (left; exact H). reflexivity.
  - destruct (has_ref_total a msg n f sz Hmsg Hf ltac:(lia)) as [[|] Hb]; rewrite Hb.
    + rewrite get_ref_present by (right; exact Hb).
      rewrite (upb_msg_get_memory a msg n f sz Hmsg Hf), (fwf_size _ _ _ Hf) by lia.
      reflexivity.
    + rewrite (upb_msg_get_memory a msg n f sz Hmsg Hf) by lia.
      split; [reflexivity|exact (get_ref_absent a msg f Hb)].
  - destruct (has_ref_total a msg n f sz Hmsg Hf ltac:(lia)) as [[|] Hb]; rewrite Hb;
      pose proof Hb as Hc; rewrite <- (has_ref_oneof a msg f H) in Hc.
    + rewrite upb_msg_get_present, get_ref_present by (right; assumption). reflexivity.
    + split; [exact (upb_msg_get_absent a msg f Hc)|exact (get_ref_absent a msg f Hb)].
Qed.

Lemma upb_msg_get_reference_witness :
  upb_msg_get (snd example_msg) (fst example_msg) example_f =
    mem_load (snd example_msg) (PTR_AT (fst example_msg) 4) 4 /\
  get_ref (snd example_msg) (fst example_msg) example_f = Ok (default_ref example_f).
Proof.
  refine (upb_msg_get_reference (snd example_msg) (fst example_msg) 8 example_f 4 _ _);
    [apply msg_wf_b_true; vm_compute; reflexivity
    |apply field_wf_b_true; vm_compute; reflexivity].
Defined.

(** The scenario of the specification under the two readings.  Before
    any [set] the reference answers "not set" and 42 and the code "set"
    and 0.  After [set(record, f, 7)] the reference still answers "not
    set" and therefore 42, the code "set" and 7: the 7 the scenario
    expects together with "not set" is what neither returns. *)
Example example_scenario :
  (has_ref (snd example_msg) (fst example_msg) example_f = Ok false /\
   (v <- get_ref (snd example_msg) (fst example_msg) example_f ;; int32_val v) = Ok 42 /\
   upb_msg_has (snd example_msg) (fst example_msg) example_f = Ok true /\
   (v <- upb_msg_get (snd example_msg) (fst example_msg) example_f ;; int32_val v) = Ok 0) /\
  (has_ref example_msg_set (fst example_msg) example_f = Ok false /\
   (v <- get_ref example_msg_set (fst example_msg) example_f ;; int32_val v) = Ok 42 /\
   upb_msg_has example_msg_set (fst example_msg) example_f = Ok true /\
   (v <- upb_msg_get example_msg_set (fst example_msg) example_f ;; int32_val v) = Ok 7).
Proof. vm_compute. repeat split. Qed.

(** The defaults that differ: a bool whose default is true reads false
    from the default of the code, and a string field returns its
    declared default where the reference returns the empty view. *)
Example example_defaults_differ :
  ~ default_agrees example_bool /\ ~ default_agrees example_str /\
  bool_val (msg_default example_bool) = Ok false /\
  bool_val (default_ref example_bool) = Ok true /\
  str_val (msg_default example_str) = Ok (64, 3) /\
  str_val (default_ref example_str) = Ok (0, 0).
Proof.
  split; [|split]; [apply (bool_decide_eq_false_1 _); reflexivity..|].
  vm_compute. repeat split.
Qed.
