(* ===== verification/Record.v ===== *)
(** * Record: the message as a record of its fields

    The array has its list of elements and the map its finite map; this
    file gives the message its abstraction.  A message of definition [md]
    stands for a record ([msg_record]): the finite map from the numbers of
    the fields that read as set to the bytes they hold.  On a message
    whose layout is well formed ([layout_ok]: the fields lie inside the
    block, their numbers are distinct, and two fields either are members
    of one oneof or lie apart with their case words) the accessor refines
    the record: [upb_msg_get] is lookup with the field's default,
    [upb_msg_has] is membership, [upb_msg_set] is insertion after the
    removal of the other members of the oneof of the field, and
    [upb_msg_mutable] is insertion of the handle it returns. *)

From Stdlib Require Import ZArith Lia List.
From coqutil Require Import Byte Word.LittleEndianList.
From stdpp Require Import base tactics list numbers gmap.
From S2P Require Import Prelude Layout Arena Msg.

#[local] Open Scope Z_scope.

(** ** Maps keyed by a function *)

Section Keyed.
Context {A B : Type} (k : A -> Z) (e : A -> option B).

(** The map from [k x] to [e x], for the [x] of a list that have an [e x]. *)
Fixpoint keyed (l : list A) : gmap Z B :=
  match l with
  | [] => ∅
  | x :: l' =>
      match e x with
      | Some b => <[k x := b]> (keyed l')
      | None => keyed l'
      end
  end.

End Keyed.

(** ** The record of a message *)

Definition field_number (f : upb_fielddef) : Z := number (upb_fielddef_layout f).

(** The presence test of [upb_msg_get]. *)
Definition field_present (a : upb_arena) (msg : Z) (f : upb_fielddef) : bool :=
  match (if presence (upb_fielddef_layout f) =? 0 then Ok true else upb_msg_has a msg f) with
  | Ok b => b
  | Err _ => false
  end.

(** What a field that reads as set holds. *)
Definition field_entry (a : upb_arena) (msg : Z) (f : upb_fielddef) : option (list byte) :=
  if field_present a msg f then
    match upb_msg_get a msg f with
    | Ok bs => Some bs
    | Err _ => None
    end
  else None.

Definition msg_record (a : upb_arena) (msg : Z) (md : upb_msgdef) : gmap Z (list byte) :=
  keyed field_number (field_entry a msg) (upb_msgdef_fields md).

(** ** The operations on records *)

Definition rec_get (f : upb_fielddef) (r : gmap Z (list byte)) : list byte :=
  default (msg_default f) (r !! field_number f).

(** The numbers of the members of the oneof of [f]. *)
Definition siblings (md : upb_msgdef) (f : upb_fielddef) : list Z :=
  field_number <$>
    filter (fun g => presence (upb_fielddef_layout g) = presence (upb_fielddef_layout f))
           (upb_msgdef_fields md).

Definition rec_set (md : upb_msgdef) (f : upb_fielddef) (v : list byte)
    (r : gmap Z (list byte)) : gmap Z (list byte) :=
  <[field_number f := v]>
    (if in_oneof (upb_fielddef_layout f)
     then filter (fun kv => kv.1 ∉ siblings md f) r
     else r).

(** The record of a new message: every field outside a oneof holds
    zeros, and no member of a oneof is set. *)
Definition rec_new (md : upb_msgdef) : gmap Z (list byte) :=
  keyed field_number
    (fun f => if in_oneof (upb_fielddef_layout f) then None
              else match msg_field_size f with
                   | Ok sz => Some (zeros (Z.to_nat sz))
                   | Err _ => None
                   end)
    (upb_msgdef_fields md).

(** ** Well-formed layouts *)

(** A write to [f] touches neither the bytes nor the case word of [g]. *)
Definition independent (f g : upb_fielddef) (sz szg : Z) : Prop :=
  let pf := presence (upb_fielddef_layout f) in
  let pg := presence (upb_fielddef_layout g) in
  let off_f := offset (upb_fielddef_layout f) in
  let off_g := offset (upb_fielddef_layout g) in
  (off_g + szg <= off_f \/ off_f + sz <= off_g) /\
  (pf < 0 -> off_g + szg <= Z.lnot pf \/ Z.lnot pf + 4 <= off_g) /\
  (pg < 0 -> Z.lnot pg + 4 <= off_f \/ off_f + sz <= Z.lnot pg) /\
  (pg < 0 -> pf < 0 -> Z.lnot pg + 4 <= Z.lnot pf \/ Z.lnot pf + 4 <= Z.lnot pg).

Record layout_ok (md : upb_msgdef) : Prop := {
  lo_size : 0 <= layout_size (upb_msgdef_layout md);
  lo_fields : forall f, f ∈ upb_msgdef_fields md ->
    exists sz, field_wf (layout_size (upb_msgdef_layout md)) f sz;
  lo_numbers : NoDup (field_number <$> upb_msgdef_fields md);
  lo_positive : forall f, f ∈ upb_msgdef_fields md -> 0 < field_number f;
  lo_apart : forall f g sz szg,
    f ∈ upb_msgdef_fields md -> g ∈ upb_msgdef_fields md ->
    field_number f <> field_number g ->
    msg_field_size f = Ok sz -> msg_field_size g = Ok szg ->
    (presence (upb_fielddef_layout f) < 0 /\
     presence (upb_fielddef_layout g) = presence (upb_fielddef_layout f)) \/
    independent f g sz szg
}.

(** Executable checks. *)
Definition independent_b (f g : upb_fielddef) (sz szg : Z) : bool :=
  let pf := presence (upb_fielddef_layout f) in
  let pg := presence (upb_fielddef_layout g) in
  let off_f := offset (upb_fielddef_layout f) in
  let off_g := offset (upb_fielddef_layout g) in
  ((off_g + szg <=? off_f) || (off_f + sz <=? off_g)) &&
  ((0 <=? pf) || (off_g + szg <=? Z.lnot pf) || (Z.lnot pf + 4 <=? off_g)) &&
  ((0 <=? pg) || (Z.lnot pg + 4 <=? off_f) || (off_f + sz <=? Z.lnot pg)) &&
  ((0 <=? pg) || (0 <=? pf) ||
   (Z.lnot pg + 4 <=? Z.lnot pf) || (Z.lnot pf + 4 <=? Z.lnot pg)).

Definition compatible_b (f g : upb_fielddef) : bool :=
  (field_number f =? field_number g) ||
  ((presence (upb_fielddef_layout f) <? 0) &&
   (presence (upb_fielddef_layout g) =? presence (upb_fielddef_layout f))) ||
  match msg_field_size f, msg_field_size g with
  | Ok sz, Ok szg => independent_b f g sz szg
  | _, _ => true
  end.

Definition layout_ok_b (md : upb_msgdef) : bool :=
  (0 <=? layout_size (upb_msgdef_layout md)) &&
  forallb (fun f => match msg_field_size f with
                    | Ok sz => field_wf_b (layout_size (upb_msgdef_layout md)) f sz &&
                               (0 <? field_number f)
                    | Err _ => false
                    end) (upb_msgdef_fields md) &&
  bool_decide (NoDup (field_number <$> upb_msgdef_fields md)) &&
  forallb (fun f => forallb (compatible_b f) (upb_msgdef_fields md)) (upb_msgdef_fields md).

(** ** Example: the record of the example message *)

(** The message of the example after its oneof member [example_o1] is set
    to 7. *)
Definition example_record : gmap Z (list byte) :=
  msg_record example_rec_set 16 example_msgdef.

(** ** Lemmas on keyed maps *)

Section KeyedLemmas.
Context {A B : Type} (k : A -> Z) (e : A -> option B).

Lemma keyed_lookup_None l i : i ∉ k <$> l -> keyed k e l !! i = None.
Proof.
  induction l as [|x l IH]; [intros _; apply lookup_empty|].
  rewrite fmap_cons, not_elem_of_cons. intros [Hne Hi]. cbn [keyed].
  destruct (e x); [rewrite lookup_insert_ne by congruence|]; exact (IH Hi).
Qed.

Lemma keyed_lookup l x : NoDup (k <$> l) -> x ∈ l -> keyed k e l !! k x = e x.
Proof.
  induction l as [|y l IH]; [intros _ []%elem_of_nil|].
  rewrite fmap_cons, NoDup_cons. intros [Hy Hnd] [->|Hin]%elem_of_cons; cbn [keyed].
  - destruct (e y) eqn:E; [apply lookup_insert_eq|apply keyed_lookup_None; exact Hy].
  - assert (k y <> k x) by (intros E; apply Hy; rewrite E; apply list_elem_of_fmap; eauto).
    destruct (e y); [rewrite lookup_insert_ne by assumption|]; exact (IH Hnd Hin).
Qed.

Lemma keyed_ext (e' : A -> option B) l :
  (forall x, x ∈ l -> e x = e' x) -> keyed k e l = keyed k e' l.
Proof.
  induction l as [|x l IH]; [reflexivity|]. intros H. cbn [keyed].
  rewrite <- (H x) by apply list_elem_of_here.
  rewrite IH by (intros y Hy; apply H, list_elem_of_further, Hy). reflexivity.
Qed.

(** Distinct keys identify the elements of the list. *)
Lemma keyed_inj l x y : NoDup (k <$> l) -> x ∈ l -> y ∈ l -> k x = k y -> x = y.
Proof.
  intros Hnd (i & Hi)%list_elem_of_lookup_1 (j & Hj)%list_elem_of_lookup_1 E.
  assert (i = j) as ->; [|congruence].
  apply (NoDup_lookup _ _ _ (k x) Hnd); rewrite list_lookup_fmap; [rewrite Hi|rewrite Hj, E];
    reflexivity.
Qed.

End KeyedLemmas.

(** Lookup in the record after [rec_set]. *)
Lemma rec_set_lookup md f v r i :
  rec_set md f v r !! i =
    if decide (i = field_number f) then Some v
    else if in_oneof (upb_fielddef_layout f) && bool_decide (i ∈ siblings md f) then None
    else r !! i.
Proof.
  unfold rec_set. destruct (decide (i = field_number f)) as [->|Hne];
    [apply lookup_insert_eq|]. rewrite lookup_insert_ne by congruence.
  destruct (in_oneof _); [|reflexivity]. cbn [andb].
  apply option_eq. intros x. rewrite map_lookup_filter_Some. cbn [fst].
  destruct (bool_decide_reflect (i ∈ siblings md f)); [|tauto]. split; [tauto|discriminate].
Qed.

(** ** The executable check *)

Lemma independent_b_true f g sz szg : independent_b f g sz szg = true -> independent f g sz szg.
Proof. unfold independent_b, independent. cbn zeta. lia. Qed.

Lemma layout_ok_b_true md : layout_ok_b md = true -> layout_ok md.
Proof.
  unfold layout_ok_b. rewrite !andb_true_iff, !forallb_forall.
  intros [[[Hsz Hf] Hnd%bool_decide_eq_true] Hap].
  assert (Hfield : forall f, f ∈ upb_msgdef_fields md -> exists sz,
            field_wf (layout_size (upb_msgdef_layout md)) f sz /\ 0 < field_number f).
  { intros f Hin%list_elem_of_In%Hf. destruct (msg_field_size f) as [sz|]; [|discriminate].
    apply andb_true_iff in Hin as [Hw Hn]. exists sz.
    split; [apply field_wf_b_true; exact Hw|lia]. }
  split; [lia| |exact Hnd| |].
  - intros f Hin. destruct (Hfield f Hin) as (sz & Hw & _). eauto.
  - intros f Hin. destruct (Hfield f Hin) as (sz & _ & Hn). exact Hn.
  - intros f g sz szg Hin Hg Hne Hsf Hsg. apply list_elem_of_In in Hin, Hg.
    specialize (Hap f Hin). rewrite forallb_forall in Hap. specialize (Hap g Hg).
    unfold compatible_b in Hap. rewrite Hsf, Hsg in Hap.
    rewrite (proj2 (Z.eqb_neq _ _) Hne) in Hap. cbn [orb] in Hap.
    apply orb_true_iff in Hap as [Hsib|Hind]; [left; lia|right].
    apply independent_b_true. exact Hind.
Qed.

Lemma independent_b_complete f g sz szg :
  independent f g sz szg -> independent_b f g sz szg = true.
Proof. unfold independent_b, independent. cbn zeta. lia. Qed.

Lemma layout_ok_b_complete md : layout_ok md -> layout_ok_b md = true.
Proof.
  intros [Hsz Hf Hnd Hpos Hap]. unfold layout_ok_b.
  rewrite !andb_true_iff, !forallb_forall. repeat split.
  - lia.
  - intros f Hin%list_elem_of_In. destruct (Hf f Hin) as [sz Hw].
    rewrite (fwf_size _ _ _ Hw), (field_wf_b_complete _ _ _ Hw).
    specialize (Hpos f Hin). cbn [andb]. lia.
  - apply bool_decide_eq_true. exact Hnd.
  - intros f Hin%list_elem_of_In. apply forallb_forall. intros g Hg%list_elem_of_In.
    unfold compatible_b. destruct (Z.eqb_spec (field_number f) (field_number g)) as [|Hne];
      [reflexivity|]. cbn [orb].
    destruct (msg_field_size f) as [sz|] eqn:Hsf; [|apply orb_true_r].
    destruct (msg_field_size g) as [szg|] eqn:Hsg; [|apply orb_true_r].
    destruct (Hap f g sz szg Hin Hg Hne Hsf Hsg) as [[H1 H2]|Hi].
    + apply orb_true_iff. left. apply andb_true_iff. lia.
    + rewrite (independent_b_complete _ _ _ _ Hi). apply orb_true_r.
Qed.

#[export] Instance layout_ok_dec md : Decision (layout_ok md) :=
  decision_of_bool _ (layout_ok_b md) (conj (layout_ok_b_true md) (layout_ok_b_complete md)).

(** ** Lemmas on the fields of a message *)

Section Field.
Context (a : upb_arena) (msg n : Z) (f : upb_fielddef) (sz : Z).
Context (Hmsg : msg_wf a msg n) (Hf : field_wf n f sz).

#[local] Abbreviation pf := (presence (upb_fielddef_layout f)).

(** The presence test does not fault. *)
Lemma presence_test_total :
  exists b, (if pf =? 0 then Ok true else upb_msg_has a msg f) = Ok b.
Proof using Hmsg Hf.
  destruct (Z.eqb_spec pf 0); [eauto|].
  destruct (Z.lt_ge_cases pf 0) as [Hneg|Hpos].
  - rewrite upb_msg_has_oneof_spec by exact Hneg. destruct (fwf_case _ _ _ Hf Hneg) as [Hc _].
    destruct (msg_load_Ok a msg n (Z.lnot pf) 4 Hmsg) as (bs & -> & _);
      [apply Z.lnot_nonneg; lia|lia|lia|]. cbn [bind]. eauto.
  - rewrite (upb_msg_has_hasbit_true a msg n f sz Hmsg Hf) by lia. eauto.
Qed.

Lemma field_present_spec :
  (if pf =? 0 then Ok true else upb_msg_has a msg f) = Ok (field_present a msg f).
Proof using Hmsg Hf.
  unfold field_present. destruct presence_test_total as (b & ->). reflexivity.
Qed.

(** [upb_msg_get] is the entry of the field, or its default. *)
Lemma upb_msg_get_entry :
  upb_msg_get a msg f = Ok (default (msg_default f) (field_entry a msg f)).
Proof using Hmsg Hf.
  unfold field_entry. pose proof field_present_spec as Hp.
  destruct (field_present a msg f).
  - rewrite upb_msg_get_present
      by (destruct (Z.eqb_spec pf 0); [left; assumption|right; exact Hp]).
    rewrite (fwf_size _ _ _ Hf). cbn [bind].
    destruct (msg_field_load a msg n f sz Hmsg Hf) as (bs & -> & _). reflexivity.
  - unfold upb_msg_get. rewrite Hp. reflexivity.
Qed.

Lemma field_entry_present : is_Some (field_entry a msg f) <-> field_present a msg f = true.
Proof using Hmsg Hf.
  pose proof upb_msg_get_entry as Hg. unfold field_entry in *.
  destruct (field_present a msg f); [rewrite Hg|]; split; eauto; try discriminate.
  intros []; discriminate.
Qed.

(** [upb_msg_has] is whether the field has an entry. *)
Lemma upb_msg_has_entry :
  pf <> 0 -> upb_msg_has a msg f = Ok (bool_decide (is_Some (field_entry a msg f))).
Proof using Hmsg Hf.
  intros Hne. pose proof field_present_spec as Hp.
  destruct (Z.eqb_spec pf 0); [contradiction|]. rewrite Hp. f_equal.
  destruct (field_present a msg f) eqn:E; symmetry.
  - apply bool_decide_eq_true, field_entry_present. exact E.
  - apply bool_decide_eq_false. rewrite field_entry_present. congruence.
Qed.

End Field.

(** ** Lemmas on a write *)

Section Write.
Context (a a' : upb_arena) (msg n : Z) (f : upb_fielddef) (sz : Z) (val : list byte).
Context (Hmsg : msg_wf a msg n) (Hf : field_wf n f sz).
Context (Hval : sz <= Z.of_nat (length val)).
Context (Hset : upb_msg_set a msg f val = Ok a').

#[local] Abbreviation pf := (presence (upb_fielddef_layout f)).

Lemma set_msg_wf : msg_wf a' msg n.
Proof using Hmsg Hf Hval Hset.
  destruct (upb_msg_set_spec a msg n f sz val Hmsg Hf Hval) as (a2 & E & Hwf & _).
  congruence.
Qed.

(** The field written has the value as its entry. *)
Lemma field_entry_set_same : field_entry a' msg f = Some (take (Z.to_nat sz) val).
Proof using Hmsg Hf Hval Hset.
  destruct (upb_msg_set_get_spec a msg n f sz val Hmsg Hf Hval) as (a2 & E & Hwf & Hget).
  assert (a2 = a') as -> by congruence.
  assert (Hp : field_present a' msg f = true).
  { unfold field_present. destruct (Z.eqb_spec pf 0) as [|Hne]; [reflexivity|].
    destruct (Z.lt_ge_cases pf 0) as [Hneg|Hpos].
    - rewrite (upb_msg_set_has_case a msg n f sz val Hmsg Hf Hval a' f Hset Hneg eq_refl).
      apply Z.eqb_refl.
    - rewrite (upb_msg_has_hasbit_true a' msg n f sz Hwf Hf) by lia. reflexivity. }
  unfold field_entry. rewrite Hp, Hget. reflexivity.
Qed.

(** Another member of the oneof of the field written has none. *)
Lemma field_entry_set_sibling g :
  pf < 0 -> presence (upb_fielddef_layout g) = pf -> field_number g <> field_number f ->
  field_entry a' msg g = None.
Proof using Hmsg Hf Hval Hset.
  intros Hneg Hg Hne. unfold field_entry, field_present.
  destruct (Z.eqb_spec (presence (upb_fielddef_layout g)) 0); [lia|].
  rewrite (upb_msg_set_has_case a msg n f sz val Hmsg Hf Hval a' g Hset Hneg Hg).
  destruct (Z.eqb_spec (number (upb_fielddef_layout f)) (number (upb_fielddef_layout g)));
    [|reflexivity].
  unfold field_number in Hne. congruence.
Qed.

(** A field that lies apart has the entry it had. *)
Lemma field_entry_set_other g szg :
  field_wf n g szg -> independent f g sz szg ->
  field_entry a' msg g = field_entry a msg g.
Proof using Hmsg Hf Hval Hset.
  intros Hg (Hvv & Hvc & Hcv & Hcc). unfold field_entry, field_present.
  rewrite (upb_msg_set_other_spec a a' msg n f g sz szg val Hmsg Hf Hg Hval Hset Hvv Hvc Hcv Hcc).
  destruct (Z.eqb_spec (presence (upb_fielddef_layout g)) 0); [reflexivity|].
  destruct (Z.lt_ge_cases (presence (upb_fielddef_layout g)) 0) as [Hneg|Hpos].
  - rewrite (set_frame_has a a' msg n f g sz val Hmsg Hf Hval Hset Hcv Hcc Hneg). reflexivity.
  - rewrite (upb_msg_has_hasbit_true a' msg n g szg set_msg_wf Hg),
      (upb_msg_has_hasbit_true a msg n g szg Hmsg Hg) by lia. reflexivity.
Qed.

End Write.

(** ** The record of a message of a well-formed layout *)

Section Refines.
Context (a : upb_arena) (msg : Z) (md : upb_msgdef).
Context (Hok : layout_ok md).
Context (Hmsg : msg_wf a msg (layout_size (upb_msgdef_layout md))).

Lemma msg_record_lookup f :
  f ∈ upb_msgdef_fields md -> msg_record a msg md !! field_number f = field_entry a msg f.
Proof using Hok. apply keyed_lookup, (lo_numbers _ Hok). Qed.

Lemma siblings_spec f g :
  g ∈ upb_msgdef_fields md ->
  field_number g ∈ siblings md f <->
  presence (upb_fielddef_layout g) = presence (upb_fielddef_layout f).
Proof using Hok.
  intros Hg. unfold siblings. rewrite list_elem_of_fmap. split.
  - intros (g' & E & [Hp Hin]%list_elem_of_filter).
    rewrite (keyed_inj field_number _ g g' (lo_numbers _ Hok) Hg Hin E). exact Hp.
  - intros Hp. exists g. split; [reflexivity|]. apply list_elem_of_filter. auto.
Qed.

Lemma upb_msg_get_record f :
  f ∈ upb_msgdef_fields md -> upb_msg_get a msg f = Ok (rec_get f (msg_record a msg md)).
Proof using Hok Hmsg.
  intros Hin. destruct (lo_fields _ Hok f Hin) as (sz & Hf).
  unfold rec_get. rewrite (msg_record_lookup f Hin).
  exact (upb_msg_get_entry a msg _ f sz Hmsg Hf).
Qed.

Lemma upb_msg_has_record f :
  f ∈ upb_msgdef_fields md -> presence (upb_fielddef_layout f) <> 0 ->
  upb_msg_has a msg f = Ok (bool_decide (is_Some (msg_record a msg md !! field_number f))).
Proof using Hok Hmsg.
  intros Hin Hp. destruct (lo_fields _ Hok f Hin) as (sz & Hf).
  rewrite (msg_record_lookup f Hin). exact (upb_msg_has_entry a msg _ f sz Hmsg Hf Hp).
Qed.

(** The entry of a field after a write to [f], by cases. *)
Lemma field_entry_set f sz val a' g :
  f ∈ upb_msgdef_fields md -> g ∈ upb_msgdef_fields md ->
  msg_field_size f = Ok sz -> sz <= Z.of_nat (length val) ->
  upb_msg_set a msg f val = Ok a' ->
  field_entry a' msg g = rec_set md f (take (Z.to_nat sz) val) (msg_record a msg md)
                           !! field_number g.
Proof using Hok Hmsg.
  intros Hf Hg Hsz Hval Hset. destruct (lo_fields _ Hok f Hf) as (sz' & Hwf).
  assert (sz' = sz) as -> by (pose proof (fwf_size _ _ _ Hwf); congruence).
  destruct (lo_fields _ Hok g Hg) as (szg & Hwg). rewrite rec_set_lookup.
  destruct (decide (field_number g = field_number f)) as [E|Hne].
  { rewrite (keyed_inj field_number _ g f (lo_numbers _ Hok) Hg Hf E).
    exact (field_entry_set_same a a' msg _ f sz val Hmsg Hwf Hval Hset). }
  pose proof (siblings_spec f g Hg) as Hsib. unfold in_oneof.
  destruct (lo_apart _ Hok f g sz szg Hf Hg (not_eq_sym Hne) Hsz (fwf_size _ _ _ Hwg))
    as [[Hneg Hp]|Hind].
  - rewrite (proj2 (Z.ltb_lt _ _) Hneg), bool_decide_eq_true_2 by (apply Hsib, Hp).
    exact (field_entry_set_sibling a a' msg _ f sz val Hmsg Hwf Hval Hset g Hneg Hp Hne).
  - rewrite (field_entry_set_other a a' msg _ f sz val Hmsg Hwf Hval Hset g szg Hwg Hind).
    rewrite <- (msg_record_lookup g Hg).
    destruct (Z.ltb_spec (presence (upb_fielddef_layout f)) 0) as [Hneg|]; [|reflexivity].
    rewrite bool_decide_eq_false_2; [reflexivity|].
    rewrite Hsib. destruct Hind as (_ & _ & _ & Hcc). intros E. rewrite E in Hcc. lia.
Qed.

(** The record after a write. *)
Lemma msg_record_set f sz val a' :
  f ∈ upb_msgdef_fields md -> msg_field_size f = Ok sz -> sz <= Z.of_nat (length val) ->
  upb_msg_set a msg f val = Ok a' ->
  msg_record a' msg md = rec_set md f (take (Z.to_nat sz) val) (msg_record a msg md).
Proof using Hok Hmsg.
  intros Hf Hsz Hval Hset. apply map_eq. intros i.
  destruct (decide (i ∈ field_number <$> upb_msgdef_fields md)) as [Hin|Hout].
  - apply list_elem_of_fmap in Hin as (g & -> & Hg).
    rewrite <- (field_entry_set f sz val a' g Hf Hg Hsz Hval Hset).
    apply keyed_lookup; [exact (lo_numbers _ Hok)|exact Hg].
  - unfold msg_record at 1. rewrite keyed_lookup_None by exact Hout. symmetry.
    rewrite rec_set_lookup, decide_False
      by (intros ->; apply Hout, list_elem_of_fmap_2; exact Hf).
    rewrite (keyed_lookup_None _ _ _ i Hout : msg_record a msg md !! i = None).
    destruct (_ && _); reflexivity.
Qed.

End Refines.

(** ** The record of a new message *)

Lemma msg_record_new md a p a' :
  arena_wf a -> layout_ok md -> upb_msg_new md a = (p, a') -> p <> 0 ->
  msg_record a' p md = rec_new md.
Proof.
  intros Ha Hok Hnew Hp.
  destruct (upb_msg_new_spec md a p a' Ha (lo_size _ Hok) Hnew) as (_ & _ & Hz).
  destruct (Hz Hp) as [Hb Hm]. apply keyed_ext. intros f Hin.
  destruct (lo_fields _ Hok f Hin) as (sz & Hf). rewrite (fwf_size _ _ _ Hf).
  unfold field_entry, field_present, in_oneof.
  destruct (Z.ltb_spec (presence (upb_fielddef_layout f)) 0) as [Hneg|Hpos].
  - destruct (Z.eqb_spec (presence (upb_fielddef_layout f)) 0); [lia|].
    rewrite upb_msg_has_oneof_spec by exact Hneg.
    destruct (fwf_case _ _ _ Hf Hneg) as [Hc _].
    assert (0 <= Z.lnot (presence (upb_fielddef_layout f))) by (apply Z.lnot_nonneg; lia).
    unfold mem_load. cbn [p_base p_off PTR_AT]. rewrite Hb. cbn [bind].
    rewrite load_zeros by lia. cbn [bind].
    change (dec_unsigned (zeros (Z.to_nat 4))) with 0.
    pose proof (lo_positive _ Hok f Hin) as Hn. unfold field_number in Hn.
    destruct (Z.eqb_spec 0 (number (upb_fielddef_layout f))); [lia|reflexivity].
  - rewrite (upb_msg_new_zeroed md a p a' f sz Ha (lo_size _ Hok) Hnew Hp Hf Hpos).
    destruct (Z.eqb_spec (presence (upb_fielddef_layout f)) 0); [reflexivity|].
    rewrite (upb_msg_has_hasbit_true a' p _ f sz Hm Hf) by lia. reflexivity.
Qed.

Lemma rec_new_lookup md f :
  layout_ok md -> f ∈ upb_msgdef_fields md ->
  rec_new md !! field_number f =
    if in_oneof (upb_fielddef_layout f) then None
    else match msg_field_size f with
         | Ok sz => Some (zeros (Z.to_nat sz))
         | Err _ => None
         end.
Proof. intros Hok Hin. unfold rec_new. apply keyed_lookup; [apply (lo_numbers _ Hok)|exact Hin]. Qed.

(** ** The record after [upb_msg_mutable] *)

(** The entries of a message are read from its block. *)
Lemma field_entry_bytes a a' msg f :
  get_bytes a' msg = get_bytes a msg -> field_entry a' msg f = field_entry a msg f.
Proof.
  intros E.
  assert (Hl : forall ofs k, mem_load a' (PTR_AT msg ofs) k = mem_load a (PTR_AT msg ofs) k)
    by (intros ofs k; unfold mem_load; cbn [p_base PTR_AT]; rewrite E; reflexivity).
  assert (Hh : upb_msg_has a' msg f = upb_msg_has a msg f).
  { unfold upb_msg_has, oneofcase. destruct (negb _); [|reflexivity]. cbn [bind].
    destruct (in_oneof _); cbn [bind]; rewrite Hl; reflexivity. }
  assert (Hg : upb_msg_get a' msg f = upb_msg_get a msg f).
  { unfold upb_msg_get. rewrite Hh. destruct (if _ =? 0 then _ else _) as [[]|];
      cbn [bind]; try reflexivity.
    destruct (msg_field_size f); cbn [bind]; [apply Hl|reflexivity]. }
  unfold field_entry, field_present. rewrite Hh, Hg. reflexivity.
Qed.

Lemma msg_record_bytes a a' msg md :
  get_bytes a' msg = get_bytes a msg -> msg_record a' msg md = msg_record a msg md.
Proof. intros E. apply keyed_ext. intros f _. apply field_entry_bytes, E. Qed.

(** A field that is no member of a oneof has its bytes as its entry. *)
Lemma field_entry_load a msg n f sz :
  msg_wf a msg n -> field_wf n f sz -> 0 <= presence (upb_fielddef_layout f) ->
  exists bs, mem_load a (PTR_AT msg (offset (upb_fielddef_layout f))) sz = Ok bs /\
             Z.of_nat (length bs) = sz /\ field_entry a msg f = Some bs.
Proof.
  intros Hmsg Hf Hp. destruct (msg_field_load a msg n f sz Hmsg Hf) as (bs & Hl & Hn).
  exists bs. split; [exact Hl|]. split; [exact Hn|].
  assert (Hh : presence (upb_fielddef_layout f) = 0 \/ upb_msg_has a msg f = Ok true).
  { destruct (Z.eq_dec (presence (upb_fielddef_layout f)) 0); [left; assumption|right].
    apply (upb_msg_has_hasbit_true a msg n f sz Hmsg Hf). lia. }
  unfold field_entry, field_present. rewrite (upb_msg_get_present a msg f Hh).
  rewrite (fwf_size _ _ _ Hf). cbn [bind]. rewrite Hl.
  destruct Hh as [->| ->]; [reflexivity|]. destruct (_ =? 0); reflexivity.
Qed.

(** The record at a pointer-wide field that is no member of a oneof. *)
Lemma handle_entry a msg md f bs :
  layout_ok md -> msg_wf a msg (layout_size (upb_msgdef_layout md)) ->
  f ∈ upb_msgdef_fields md -> msg_field_size f = Ok sizeof_ptr ->
  in_oneof (upb_fielddef_layout f) = false ->
  mem_load a (PTR_AT msg (offset (upb_fielddef_layout f))) sizeof_ptr = Ok bs ->
  msg_record a msg md !! field_number f = Some (le_split 8 (dec_unsigned bs)).
Proof.
  intros Hok Hmsg Hin Hsz Ho Hl. destruct (lo_fields _ Hok f Hin) as (sz & Hf).
  assert (sz = sizeof_ptr) as -> by (pose proof (fwf_size _ _ _ Hf); congruence).
  rewrite (msg_record_lookup a msg md Hok f Hin).
  destruct (field_entry_load a msg _ f _ Hmsg Hf) as (bs' & Hl' & Hlen & ->);
    [unfold in_oneof in Ho; lia|].
  assert (bs' = bs) as -> by congruence. f_equal.
  assert (Hlen8 : length bs = 8%nat) by (apply Nat2Z.inj; rewrite Hlen; reflexivity).
  etrans; [symmetry; apply le_split_dec_unsigned|]. rewrite Hlen8. reflexivity.
Qed.

(** [upb_msg_mutable] returns the handle the field holds, or finds
    NULL, makes the object and is [upb_msg_set] of its handle. *)
Lemma upb_msg_mutable_as_set a msg f h a' :
  msg_field_size f = Ok sizeof_ptr -> in_oneof (upb_fielddef_layout f) = false ->
  upb_msg_mutable a msg f = Ok (h, a') ->
  exists bs, mem_load a (PTR_AT msg (offset (upb_fielddef_layout f))) sizeof_ptr = Ok bs /\
    (dec_unsigned bs = h /\ h <> 0 /\ a' = a \/
     dec_unsigned bs = 0 /\
     exists a1, msg_new_subobject a f = Ok (h, a1) /\
                upb_msg_set a1 msg f (le_split 8 h) = Ok a').
Proof.
  intros Hsz Ho. unfold upb_msg_mutable. intros H.
  destruct (mem_load _ _ _) as [bs|] eqn:Hl; [|discriminate]. cbn [bind] in H.
  exists bs. split; [reflexivity|].
  destruct (Z.eqb_spec (dec_unsigned bs) 0) as [Hz|]; [right|left; injection H as <- <-; auto].
  destruct (msg_new_subobject a f) as [[p a1]|] eqn:Hn; [|discriminate].
  cbn [bind fst snd] in H.
  destruct (mem_store _ _ _) as [a2|] eqn:Hst; [|discriminate]. injection H as <- <-.
  split; [exact Hz|]. exists a1. split; [reflexivity|]. unfold upb_msg_set.
  rewrite Hsz. cbn [bind].
  rewrite (prefix_bytes_all (le_split 8 p) : prefix_bytes _ sizeof_ptr = _). cbn [bind].
  rewrite Hst. cbn [bind]. rewrite Ho. reflexivity.
Qed.

(** The record after [upb_msg_mutable] on a field that is no member of a
    oneof: the field, which held the same handle or NULL, holds the
    handle returned. *)
Lemma msg_record_mutable a msg md f h a' :
  arena_wf a -> layout_ok md -> msg_wf a msg (layout_size (upb_msgdef_layout md)) ->
  f ∈ upb_msgdef_fields md -> msg_field_size f = Ok sizeof_ptr ->
  in_oneof (upb_fielddef_layout f) = false ->
  upb_msg_mutable a msg f = Ok (h, a') ->
  msg_wf a' msg (layout_size (upb_msgdef_layout md)) /\
  msg_record a' msg md = <[field_number f := le_split 8 h]> (msg_record a msg md) /\
  (msg_record a msg md !! field_number f = Some (le_split 8 h) \/
   msg_record a msg md !! field_number f = Some (le_split 8 0)).
Proof.
  intros Ha Hok Hmsg Hin Hsz Ho Hmut.
  destruct (upb_msg_mutable_as_set a msg f h a' Hsz Ho Hmut)
    as (bs & Hl & [(<- & _ & ->)|(Hz & a1 & Hn & Hset)]);
    pose proof (handle_entry a msg md f bs Hok Hmsg Hin Hsz Ho Hl) as He.
  - split; [exact Hmsg|]. split; [symmetry; apply insert_id; exact He|left; exact He].
  - rewrite Hz in He. destruct (msg_new_subobject_malloc _ _ _ Hn) as (k & o & Hm).
    pose proof (msg_wf_malloc _ _ _ _ _ _ _ Ha Hm Hmsg) as Hmsg1.
    destruct (lo_fields _ Hok f Hin) as (sz & Hf).
    assert (Hv : sizeof_ptr <= Z.of_nat (length (le_split 8 h)))
      by (rewrite length_le_split; cbv; discriminate).
    split; [|split; [|right; exact He]].
    + assert (sz = sizeof_ptr) as -> by (pose proof (fwf_size _ _ _ Hf); congruence).
      exact (set_msg_wf a1 a' msg _ f _ _ Hmsg1 Hf Hv Hset).
    + rewrite (msg_record_set a1 msg md Hok Hmsg1 f sizeof_ptr _ a' Hin Hsz Hv Hset).
      unfold rec_set. rewrite Ho, (take_ge (le_split 8 h))
        by (rewrite length_le_split; cbv; lia).
      f_equal. apply msg_record_bytes. destruct Hmsg as (cs & Hb & _).
      rewrite Hb. eapply malloc_get_bytes; eauto.
Qed.

(** ** Properties of the record *)

(** C7: the accessor refines a record: on a message of a well-formed
    layout [upb_msg_get] is lookup in the record of the message, with the
    field's default where the record has no entry; [upb_msg_has] tells
    whether the record has an entry; and [upb_msg_set] returns, with the
    record in which the field holds the leading bytes of the value, as
    many as the field is wide, the other members of its oneof have no
    entry, and every other field has the entry it had. *)
Theorem upb_msg_refines a msg md f :
  layout_ok md -> msg_wf a msg (layout_size (upb_msgdef_layout md)) ->
  f ∈ upb_msgdef_fields md ->
  upb_msg_get a msg f = Ok (rec_get f (msg_record a msg md)) /\
  (presence (upb_fielddef_layout f) <> 0 ->
   upb_msg_has a msg f =
     Ok (bool_decide (is_Some (msg_record a msg md !! field_number f)))) /\
  (forall sz val, msg_field_size f = Ok sz -> sz <= Z.of_nat (length val) ->
     exists a', upb_msg_set a msg f val = Ok a' /\
       msg_wf a' msg (layout_size (upb_msgdef_layout md)) /\
       msg_record a' msg md =
         rec_set md f (take (Z.to_nat sz) val) (msg_record a msg md)).
Proof.
  intros Hok Hmsg Hin. split; [exact (upb_msg_get_record a msg md Hok Hmsg f Hin)|].
  split; [exact (upb_msg_has_record a msg md Hok Hmsg f Hin)|].
  intros sz val Hsz Hval. destruct (lo_fields _ Hok f Hin) as (sz' & Hf).
  assert (sz' = sz) as -> by (pose proof (fwf_size _ _ _ Hf); congruence).
  destruct (upb_msg_set_spec a msg _ f sz val Hmsg Hf Hval) as (a' & Hset & Hwf & _).
  exists a'. split; [exact Hset|]. split; [exact Hwf|].
  exact (msg_record_set a msg md Hok Hmsg f sz val a' Hin Hsz Hval Hset).
Qed.

Lemma upb_msg_refines_witness :
  upb_msg_get (snd example_rec) 16 example_o1 =
    Ok (rec_get example_o1 (msg_record (snd example_rec) 16 example_msgdef)) /\
  (presence (upb_fielddef_layout example_o1) <> 0 ->
   upb_msg_has (snd example_rec) 16 example_o1 =
     Ok (bool_decide (is_Some (msg_record (snd example_rec) 16 example_msgdef
                                 !! field_number example_o1)))) /\
  (forall sz val, msg_field_size example_o1 = Ok sz -> sz <= Z.of_nat (length val) ->
     exists a', upb_msg_set (snd example_rec) 16 example_o1 val = Ok a' /\
       msg_wf a' 16 (layout_size (upb_msgdef_layout example_msgdef)) /\
       msg_record a' 16 example_msgdef =
         rec_set example_msgdef example_o1 (take (Z.to_nat sz) val)
           (msg_record (snd example_rec) 16 example_msgdef)).
Proof.
  apply (upb_msg_refines (snd example_rec) 16 example_msgdef example_o1);
    [apply layout_ok_b_true; vm_compute; reflexivity
    |apply msg_wf_b_true; vm_compute; reflexivity|cbn; set_solver].
Defined.

(** C39: the record of a new message: [upb_msg_new] makes the message in
    which no member of a oneof is set and every other field holds zeros;
    a hasbit field is among them, so that [upb_msg_has] is true of it and
    [upb_msg_get] returns zeros, not the default the schema declares. *)
Theorem upb_msg_new_record md a p a' :
  arena_wf a -> layout_ok md -> upb_msg_new md a = (p, a') -> p <> 0 ->
  msg_record a' p md = rec_new md /\
  (forall f sz, f ∈ upb_msgdef_fields md -> msg_field_size f = Ok sz ->
     upb_msg_get a' p f =
       Ok (if in_oneof (upb_fielddef_layout f) then msg_default f
           else zeros (Z.to_nat sz)) /\
     (0 < presence (upb_fielddef_layout f) -> upb_msg_has a' p f = Ok true)).
Proof.
  intros Ha Hok Hnew Hp. pose proof (msg_record_new md a p a' Ha Hok Hnew Hp) as Hrec.
  split; [exact Hrec|]. intros f sz Hin Hsz.
  destruct (upb_msg_new_spec md a p a' Ha (lo_size _ Hok) Hnew) as (_ & _ & Hz).
  destruct (Hz Hp) as [_ Hm]. pose proof (rec_new_lookup md f Hok Hin) as Hl.
  split.
  - rewrite (upb_msg_get_record a' p md Hok Hm f Hin). unfold rec_get.
    rewrite Hrec, Hl, Hsz. destruct (in_oneof _); reflexivity.
  - intros Hpos. rewrite (upb_msg_has_record a' p md Hok Hm f Hin) by lia.
    rewrite Hrec, Hl, Hsz. unfold in_oneof.
    destruct (Z.ltb_spec (presence (upb_fielddef_layout f)) 0); [lia|reflexivity].
Qed.

Lemma upb_msg_new_record_witness :
  msg_record (snd example_rec) (fst example_rec) example_msgdef = rec_new example_msgdef /\
  (forall f sz, f ∈ upb_msgdef_fields example_msgdef -> msg_field_size f = Ok sz ->
     upb_msg_get (snd example_rec) (fst example_rec) f =
       Ok (if in_oneof (upb_fielddef_layout f) then msg_default f
           else zeros (Z.to_nat sz)) /\
     (0 < presence (upb_fielddef_layout f) ->
      upb_msg_has (snd example_rec) (fst example_rec) f = Ok true)).
Proof.
  apply (upb_msg_new_record example_msgdef (arena_init 4096) (fst example_rec)
           (snd example_rec));
    [apply arena_wf_b_true; vm_compute; reflexivity
    |apply layout_ok_b_true; vm_compute; reflexivity
    |vm_compute; reflexivity|vm_compute; congruence].
Defined.

(** [upb_msg_mutable] in terms of the record: on a pointer-wide field
    that is no member of a oneof, in a message of a well-formed layout, a
    call that returns leaves the record in which the field holds the
    handle returned and every other field the entry it had;
    [upb_msg_get] of the field returns that handle; and what the field
    held before was that handle or NULL, so that nothing but a NULL is
    overwritten. *)
Theorem upb_msg_mutable_record a msg md f h a' :
  arena_wf a -> layout_ok md -> msg_wf a msg (layout_size (upb_msgdef_layout md)) ->
  f ∈ upb_msgdef_fields md -> msg_field_size f = Ok sizeof_ptr ->
  in_oneof (upb_fielddef_layout f) = false ->
  upb_msg_mutable a msg f = Ok (h, a') ->
  msg_record a' msg md = <[field_number f := le_split 8 h]> (msg_record a msg md) /\
  upb_msg_get a' msg f = Ok (le_split 8 h) /\
  (msg_record a msg md !! field_number f = Some (le_split 8 h) \/
   msg_record a msg md !! field_number f = Some (le_split 8 0)).
Proof.
  intros Ha Hok Hmsg Hin Hsz Ho Hmut.
  destruct (msg_record_mutable a msg md f h a' Ha Hok Hmsg Hin Hsz Ho Hmut)
    as (Hmsg' & Hrec & Hold).
  split; [exact Hrec|]. split; [|exact Hold].
  rewrite (upb_msg_get_record a' msg md Hok Hmsg' f Hin). unfold rec_get.
  rewrite Hrec, lookup_insert_eq. reflexivity.
Qed.

Lemma upb_msg_mutable_record_witness :
  msg_record (snd example_rec_mut) 16 example_msgdef =
    <[field_number example_rep := le_split 8 (fst example_rec_mut)]>
      (msg_record (snd example_rec) 16 example_msgdef) /\
  upb_msg_get (snd example_rec_mut) 16 example_rep = Ok (le_split 8 (fst example_rec_mut)) /\
  (msg_record (snd example_rec) 16 example_msgdef !! field_number example_rep =
     Some (le_split 8 (fst example_rec_mut)) \/
   msg_record (snd example_rec) 16 example_msgdef !! field_number example_rep =
     Some (le_split 8 0)).
Proof.
  apply (upb_msg_mutable_record (snd example_rec) 16 example_msgdef example_rep
           (fst example_rec_mut) (snd example_rec_mut));
    [apply arena_wf_b_true; vm_compute; reflexivity
    |apply layout_ok_b_true; vm_compute; reflexivity
    |apply msg_wf_b_true; vm_compute; reflexivity|cbn; set_solver
    |reflexivity|reflexivity|vm_compute; reflexivity].
Defined.

(** The record of the example: the hasbit field, the array and the
    sub-message hold zeros, and of the oneof the member written holds 7. *)
Example example_record_entries :
  msg_record (snd example_rec) 16 example_msgdef =
    {[ 1 := zeros 4; 4 := zeros 8; 5 := zeros 8 ]} /\
  example_record = {[ 1 := zeros 4; 2 := msgval_int32 7; 4 := zeros 8; 5 := zeros 8 ]} /\
  rec_get example_o2 example_record = msg_default example_o2.
Proof. vm_compute. repeat split. Qed.
