(* ===== verification/Store.v ===== *)
(** * Store: the invariant of the whole arena

    [array_wf] and [map_wf] speak of one container.  A program holds many
    handles at once, and the functions of reflection.c take any address:
    a write through one handle must not break what another handle relies
    on.  [store_wf] is the invariant of the arena as a whole: the
    allocator's invariant, every block inside the allocated part, every
    array header well formed with its buffer, no two arrays with the
    same buffer, every map header well formed.  It is kept by each of the three ways the code changes the
    arena (an allocation, a [memcpy] into a block, writing a header back),
    and hence by every function of reflection.c, on whatever address it is
    called: a call on an address that is no object of the expected kind
    faults and changes nothing.

    The arena is at most [arena_max] = 2^58 bytes.  An array of such an
    arena has fewer than 2^58 elements, so that neither [arr->len + 1] nor
    the byte count [size << lg2] wraps around; a request to
    [upb_array_resize] has to be bounded by the caller. *)

From Stdlib Require Import ZArith Lia List.
From coqutil Require Import Byte Word.LittleEndianList.
From stdpp Require Import base tactics list numbers gmap.
From S2P Require Import Prelude Layout Arena Array Table Map Msg.

#[local] Open Scope Z_scope.

(** ** The invariant *)

Definition arena_max : Z := 2 ^ 58.

(** Every block ends below the allocation pointer. *)
Definition blocks_in (a : upb_arena) : Prop :=
  forall p bs, get_bytes a p = Ok bs -> p + Z.of_nat (length bs) <= a_next a.

(** No two arrays share a buffer. *)
Definition unshared (a : upb_arena) : Prop :=
  forall p q hp hq,
    get_array a p = Ok hp -> get_array a q = Ok hq ->
    0 < arr_size hp -> 0 < arr_size hq ->
    _upb_array_ptr hp = _upb_array_ptr hq -> p = q.

Record store_wf (a : upb_arena) : Prop := {
  swf_arena : arena_wf a;
  swf_limit : a_limit a <= arena_max;
  swf_blocks : blocks_in a;
  swf_arrays : forall p hdr, get_array a p = Ok hdr -> array_wf a p hdr;
  swf_maps : forall p m, get_map a p = Ok m -> map_wf a p m;
  swf_unshared : unshared a
}.

(** What an object has to be when it is allocated in [n] bytes: a block
    of at most [n] bytes, an empty array of a legal element width, an
    empty map of legal key and value widths. *)
Definition fresh_ok (n : Z) (o : object) : Prop :=
  match o with
  | OBytes bs => 0 < n -> Z.of_nat (length bs) <= n
  | OArray hdr => arr_len hdr = 0 /\ arr_size hdr = 0 /\ 0 <= array_lg2 hdr <= 4
  | OMap m => map_table m = [] /\ 0 <= map_key_size m <= sizeof_msgval /\
              0 <= map_val_size m <= 8
  end.

(** An executable check of [store_wf]. *)
Definition object_wf_b (a : upb_arena) (po : Z * object) : bool :=
  match snd po with
  | OBytes bs => fst po + Z.of_nat (length bs) <=? a_next a
  | OArray hdr => array_wf_b a (fst po) hdr
  | OMap m => map_wf_b a (fst po) m
  end.

Definition unshared_b (x y : Z * object) : bool :=
  match snd x, snd y with
  | OArray hp, OArray hq =>
      (fst x =? fst y) || (arr_size hp <=? 0) || (arr_size hq <=? 0) ||
      negb (_upb_array_ptr hp =? _upb_array_ptr hq)
  | _, _ => true
  end.

Definition store_wf_b (a : upb_arena) : bool :=
  arena_wf_b a && (a_limit a <=? arena_max) &&
  forallb (object_wf_b a) (map_to_list (a_objs a)) &&
  forallb (fun x => forallb (unshared_b x) (map_to_list (a_objs a)))
          (map_to_list (a_objs a)).

(** ** The invariant and the order on arenas *)

Lemma store_wf_b_true a : store_wf_b a = true -> store_wf a.
Proof.
  unfold store_wf_b. rewrite !andb_true_iff, !forallb_forall.
  intros [[[Ha Hl] Ho] Hu].
  assert (Hin : forall p o, a_objs a !! p = Some o -> In (p, o) (map_to_list (a_objs a)))
    by (intros p o Hp; apply list_elem_of_In, elem_of_map_to_list; exact Hp).
  assert (Hobj : forall p o, a_objs a !! p = Some o -> object_wf_b a (p, o) = true)
    by (intros p o Hp; apply Ho, Hin, Hp).
  split; [apply arena_wf_b_true; exact Ha|lia|..].
  - intros p bs Hp%get_bytes_Ok%Hobj. cbn in Hp. lia.
  - intros p hdr Hp%get_array_Ok%Hobj. apply array_wf_b_true. exact Hp.
  - intros p m Hp%get_map_Ok%Hobj. apply map_wf_b_true. exact Hp.
  - intros p q hp hq Hp%get_array_Ok%Hin Hq%get_array_Ok%Hin Hsp Hsq E.
    specialize (Hu _ Hp). rewrite forallb_forall in Hu. specialize (Hu _ Hq).
    unfold unshared_b in Hu. cbn [fst snd] in Hu. lia.
Qed.

(** Arrays with a buffer that were arrays before share no buffer. *)
Lemma unshared_sub a a' :
  (forall q h, get_array a' q = Ok h -> 0 < arr_size h -> get_array a q = Ok h) ->
  unshared a -> unshared a'.
Proof. intros Hsub Hu p q hp hq Hp Hq Hsp Hsq. apply Hu; auto. Qed.

(** A block keeps its size in every later state. *)
Lemma arena_le_bytes a a' p bs :
  arena_le a a' -> get_bytes a p = Ok bs ->
  exists bs', get_bytes a' p = Ok bs' /\ length bs' = length bs.
Proof.
  intros L Hb%arena_kind_bytes. apply (le_kind _ _ L) in Hb.
  unfold arena_kind, get_bytes in *.
  destruct (a_objs a' !! p) as [[bs'| |]|]; try discriminate.
  injection Hb as Hb. eauto.
Qed.

(** A header that is not written stays well formed. *)
Lemma array_wf_le a a' q h :
  arena_le a a' -> array_wf a q h -> get_array a' q = Ok h -> array_wf a' q h.
Proof.
  intros L [_ Hlg Hlen Hsz Hb] Hh. split; try assumption.
  destruct Hb as [Hb|(bs & Hb & Hn)]; [left; exact Hb|right].
  destruct (arena_le_bytes _ _ _ _ L Hb) as (bs' & Hb' & Hn').
  exists bs'. split; [exact Hb'|]. rewrite Hn'. exact Hn.
Qed.

Lemma map_wf_hdr a a' q m : map_wf a q m -> get_map a' q = Ok m -> map_wf a' q m.
Proof. intros [_ Ht Hk Hv Hks] Hh. split; assumption. Qed.

(** The invariant after an update that keeps the allocator's invariant
    and every object: the blocks have to stay inside the allocated part,
    and every header has to be an old one or a well-formed one. *)
Lemma store_wf_frame a a' :
  store_wf a -> preserves a a' -> blocks_in a' ->
  (forall q h, get_array a' q = Ok h -> get_array a q = Ok h \/ array_wf a' q h) ->
  (forall q m, get_map a' q = Ok m -> get_map a q = Ok m \/ map_wf a' q m) ->
  unshared a' ->
  store_wf a'.
Proof.
  intros [Ha Hl Hb Harr Hmap _] P Hb' Harr' Hmap' Hu. destruct (P Ha) as [Ha' L].
  split; [exact Ha'|rewrite (le_limit _ _ L); exact Hl|exact Hb'|..|exact Hu].
  - intros q h Hq. destruct (Harr' q h Hq) as [Ho|Hn]; [|exact Hn].
    eapply array_wf_le; eauto.
  - intros q m Hq. destruct (Hmap' q m Hq) as [Ho|Hn]; [|exact Hn].
    eapply map_wf_hdr; eauto.
Qed.

(** ** The three updates *)

(** A [memcpy] into a block. *)
Lemma store_wf_mem_store a p v a' :
  store_wf a -> mem_store a p v = Ok a' -> store_wf a'.
Proof.
  intros Hs Hst. apply (store_wf_frame a a' Hs); [eapply preserves_mem_store; eauto|..].
  - intros q bs Hq. destruct (mem_store_next _ _ _ _ Hst) as [-> _].
    pose proof Hst as (b & b' & Hg & Hsb & ->)%mem_store_inv.
    rewrite get_bytes_set_object in Hq. destruct (decide (p_base p = q)) as [<-|].
    + injection Hq as <-. rewrite (store_bytes_length _ _ _ _ Hsb).
      exact (swf_blocks _ Hs _ _ Hg).
    + exact (swf_blocks _ Hs _ _ Hq).
  - intros q h. rewrite (mem_store_get_array _ _ _ _ q Hst). auto.
  - intros q m. rewrite (mem_store_get_map _ _ _ _ q Hst). auto.
  - apply (unshared_sub a); [|exact (swf_unshared _ Hs)].
    intros q h. rewrite (mem_store_get_array _ _ _ _ q Hst). auto.
Qed.

(** An allocation. *)
Lemma store_wf_malloc a n o p a' :
  store_wf a -> fresh_ok n o -> upb_arena_malloc a n o = (p, a') -> store_wf a'.
Proof.
  intros Hs Ho Hm. pose proof (swf_arena _ Hs) as Ha.
  destruct (malloc_cases _ _ _ _ _ Hm) as [[_ ->]|(Hp & Hn & Hlim & E)]; [exact Hs|].
  assert (Hp0 : p <> 0) by (pose proof (wf_next_pos _ Ha); lia).
  pose proof (malloc_lookup_new _ _ _ _ _ Hm Hp0) as Hnew.
  assert (Hold : forall q, q <> p -> a_objs a' !! q = a_objs a !! q)
    by (intros q; apply (malloc_lookup_ne _ _ _ _ _ Hm)).
  assert (Hnext : a_next a' = a_next a + align_up n) by (rewrite E; reflexivity).
  pose proof (align_up_ge n) as Hal.
  apply (store_wf_frame a a' Hs); [eapply preserves_malloc_eq; eauto|..].
  - intros q bs Hq%get_bytes_Ok. rewrite Hnext. destruct (decide (q = p)) as [->|Hne].
    + rewrite Hnew in Hq. injection Hq as ->. cbn in Ho. lia.
    + rewrite (Hold q Hne) in Hq. apply get_bytes_Ok in Hq.
      pose proof (swf_blocks _ Hs _ _ Hq). lia.
  - intros q h Hq%get_array_Ok. destruct (decide (q = p)) as [->|Hne].
    + right. rewrite Hnew in Hq. injection Hq as ->. destruct Ho as (Hlen & Hsz & Hlg).
      split; [apply get_array_Ok; exact Hnew|exact Hlg|lia|lia|left; exact Hsz].
    + left. apply get_array_Ok. rewrite <- (Hold q Hne). exact Hq.
  - intros q m Hq%get_map_Ok. destruct (decide (q = p)) as [->|Hne].
    + right. rewrite Hnew in Hq. injection Hq as ->. destruct Ho as (Ht & Hk & Hv).
      split; [apply get_map_Ok; exact Hnew| |exact Hk|exact Hv|].
      * rewrite Ht. exact (st_wf_empty (T := strtable)).
      * intros i e. rewrite Ht. cbn. destruct (0 <=? i); [|discriminate].
        rewrite lookup_nil. discriminate.
    + left. apply get_map_Ok. rewrite <- (Hold q Hne). exact Hq.
  - apply (unshared_sub a); [|exact (swf_unshared _ Hs)].
    intros q h Hq%get_array_Ok Hsz. apply get_array_Ok. destruct (decide (q = p)) as [->|Hne].
    + rewrite Hnew in Hq. injection Hq as ->. destruct Ho as (_ & Ho & _). lia.
    + rewrite <- (Hold q Hne). exact Hq.
Qed.

(** Writing an array header back over an array header. *)
Lemma store_wf_set_array a arr o h' :
  store_wf a -> arena_kind a arr = Some (kind_of o) ->
  array_wf (set_object a arr o) arr h' ->
  (forall q hq, q <> arr -> get_array a q = Ok hq -> 0 < arr_size hq ->
     _upb_array_ptr hq <> _upb_array_ptr h') ->
  store_wf (set_object a arr o).
Proof.
  intros Hs Hg Hwf Hbuf. pose proof (awf_hdr _ _ _ Hwf) as Hh.
  rewrite get_array_set_object, decide_True in Hh by reflexivity.
  destruct o as [|h|]; try discriminate. injection Hh as ->.
  apply (store_wf_frame a _ Hs); [apply preserves_set_object; exact Hg|..].
  - intros q bs. rewrite get_bytes_set_object. case_res; [discriminate|].
    apply (swf_blocks _ Hs).
  - intros q h. rewrite get_array_set_object. case_res; [|auto].
    intros [= <-]. subst. right. exact Hwf.
  - intros q m. rewrite get_map_set_object. case_res; [discriminate|auto].
  - intros p q hp hq. rewrite !get_array_set_object.
    destruct (decide (arr = p)) as [<-|Hp], (decide (arr = q)) as [<-|Hq];
      [reflexivity|intros [= <-] Hq' _ Hsq E|intros Hp' [= <-] Hsp _ E|
       apply (swf_unshared _ Hs)]; exfalso.
    + exact (Hbuf q hq (not_eq_sym Hq) Hq' Hsq (eq_sym E)).
    + exact (Hbuf p hp (not_eq_sym Hp) Hp' Hsp E).
Qed.

(** Writing a map header back over a map header. *)
Lemma store_wf_set_map a map o m' :
  store_wf a -> arena_kind a map = Some (kind_of o) ->
  map_wf (set_object a map o) map m' -> store_wf (set_object a map o).
Proof.
  intros Hs Hg Hwf. pose proof (mwf_hdr _ _ _ Hwf) as Hh.
  rewrite get_map_set_object, decide_True in Hh by reflexivity.
  destruct o as [| |m0]; try discriminate. injection Hh as ->.
  apply (store_wf_frame a _ Hs); [apply preserves_set_object; exact Hg|..].
  - intros q bs. rewrite get_bytes_set_object. case_res; [discriminate|].
    apply (swf_blocks _ Hs).
  - intros q h. rewrite get_array_set_object. case_res; [discriminate|auto].
  - intros q m1. rewrite get_map_set_object. case_res; [|auto].
    intros [= <-]. subst. right. exact Hwf.
  - apply (unshared_sub a); [|exact (swf_unshared _ Hs)].
    intros q h. rewrite get_array_set_object. case_res; [discriminate|auto].
Qed.

(** An empty arena of at most [arena_max] bytes. *)
Lemma store_wf_init limit :
  arena_align <= limit <= arena_max -> store_wf (arena_init limit).
Proof.
  intros [H1 H2]. unfold arena_max in *.
  split; [apply arena_init_wf; lia|exact H2|..].
  - intros p bs Hp%get_bytes_Ok. cbn in Hp. rewrite lookup_empty in Hp. discriminate.
  - intros p h Hp%get_array_Ok. cbn in Hp. rewrite lookup_empty in Hp. discriminate.
  - intros p m Hp%get_map_Ok. cbn in Hp. rewrite lookup_empty in Hp. discriminate.
  - intros p q hp hq Hp%get_array_Ok. cbn in Hp. rewrite lookup_empty in Hp. discriminate.
Qed.

(** An array of a well-formed store has fewer than 2^58 elements. *)
Lemma store_array_small a arr hdr :
  store_wf a -> get_array a arr = Ok hdr -> arr_size hdr < 2 ^ 58.
Proof.
  intros Hs Hg. destruct (swf_arrays _ Hs _ _ Hg) as [_ Hlg _ _ [->|(bs & Hb & Hn)]]; [lia|].
  pose proof (swf_blocks _ Hs _ _ Hb) as Hin. pose proof (swf_limit _ Hs) as Hl.
  pose proof (wf_next_limit _ (swf_arena _ Hs)).
  apply get_bytes_Ok in Hb. destruct (wf_objs _ (swf_arena _ Hs) _ _ Hb) as [Hp _].
  assert (1 <= 2 ^ array_lg2 hdr) by (pose proof (pow2_pos (array_lg2 hdr)); lia).
  unfold arena_max in Hl. nia.
Qed.

(** ** Every function keeps the invariant *)

(** The kind of a header in a later state. *)
Lemma later_array a a1 arr hdr :
  arena_wf a -> preserves a a1 -> get_array a arr = Ok hdr ->
  arena_kind a1 arr = Some (KArray (array_lg2 hdr)).
Proof.
  intros Ha P Hg. destruct (P Ha) as [_ L].
  exact (le_kind _ _ L _ _ (arena_kind_array _ _ _ Hg)).
Qed.

Lemma later_map a a1 map m :
  arena_wf a -> preserves a a1 -> get_map a map = Ok m ->
  arena_kind a1 map = Some (KMap (map_key_size m) (map_val_size m)).
Proof.
  intros Ha P Hg. destruct (P Ha) as [_ L].
  exact (le_kind _ _ L _ _ (arena_kind_map _ _ _ Hg)).
Qed.

(** What the constructors allocate. *)
Lemma upb_msg_new_fresh m :
  fresh_ok (layout_size (upb_msgdef_layout m) + upb_msg_internalsize)
    (OBytes (zeros (Z.to_nat (layout_size (upb_msgdef_layout m))))).
Proof. cbn. rewrite length_zeros. unfold upb_msg_internalsize. lia. Qed.

Lemma upb_array_new_fresh a t r :
  upb_array_new a t = Ok r ->
  exists o, fresh_ok sizeof_array o /\ upb_arena_malloc a sizeof_array o = r.
Proof.
  unfold upb_array_new. destruct (sizelg2_value_size t) as (lg2 & -> & Hlg & _).
  cbn [bind]. intros [= <-]. eexists. split; [|reflexivity].
  cbn. split; [reflexivity|]. split; [reflexivity|].
  unfold array_lg2. cbn [arr_data]. rewrite tag_low by (reflexivity || lia). exact Hlg.
Qed.

Lemma upb_map_new_fresh a kt vt r :
  upb_map_new a kt vt = Ok r ->
  exists o, fresh_ok sizeof_map o /\ upb_arena_malloc a sizeof_map o = r.
Proof.
  unfold upb_map_new, _upb_map_new. rewrite !mapsize_fieldtype. cbn [bind].
  intros [= <-]. eexists. split; [|reflexivity]. cbn. split; [reflexivity|].
  destruct kt, vt; vm_compute; repeat split; discriminate.
Qed.

Lemma msg_new_subobject_fresh a f r :
  msg_new_subobject a f = Ok r ->
  exists n o, fresh_ok n o /\ upb_arena_malloc a n o = r.
Proof.
  unfold msg_new_subobject. intros H. repeat case_match; try discriminate.
  - apply upb_map_new_fresh in H as (o & Ho & Hm). eauto.
  - apply upb_array_new_fresh in H as (o & Ho & Hm). eauto.
  - injection H as <-. do 2 eexists. split; [apply upb_msg_new_fresh|reflexivity].
Qed.

Section Keeps.
Context (a : upb_arena) (Hs : store_wf a).

Lemma upb_msg_new_store m : store_wf (snd (upb_msg_new m a)).
Proof using Hs.
  eapply store_wf_malloc; [exact Hs|apply upb_msg_new_fresh|apply surjective_pairing].
Qed.

Lemma upb_array_new_store t r : upb_array_new a t = Ok r -> store_wf (snd r).
Proof using Hs.
  intros (o & Ho & Hm)%upb_array_new_fresh.
  eapply store_wf_malloc; [exact Hs|exact Ho|rewrite Hm; apply surjective_pairing].
Qed.

Lemma upb_map_new_store kt vt r : upb_map_new a kt vt = Ok r -> store_wf (snd r).
Proof using Hs.
  intros (o & Ho & Hm)%upb_map_new_fresh.
  eapply store_wf_malloc; [exact Hs|exact Ho|rewrite Hm; apply surjective_pairing].
Qed.

Lemma upb_msg_set_store msg f val a' : upb_msg_set a msg f val = Ok a' -> store_wf a'.
Proof using Hs.
  unfold upb_msg_set, oneofcase. intros H. res_inv.
  rename select (mem_store a _ _ = _) into H1. apply (store_wf_mem_store _ _ _ _ Hs) in H1.
  destruct (in_oneof (upb_fielddef_layout f)); cbn [bind] in H; res_inv; [|exact H1].
  eapply store_wf_mem_store; eauto.
Qed.

Lemma upb_msg_mutable_store msg f r : upb_msg_mutable a msg f = Ok r -> store_wf (snd r).
Proof using Hs.
  unfold upb_msg_mutable. intros H.
  destruct (mem_load _ _ _) as [bs|]; [|discriminate]. cbn [bind] in H.
  destruct (dec_unsigned bs =? 0); [|injection H as <-; exact Hs].
  destruct (msg_new_subobject a f) as [[p a1]|] eqn:Hn; [|discriminate]. cbn [bind] in H.
  destruct (mem_store _ _ _) as [a2|] eqn:Hst; [|discriminate]. injection H as <-.
  apply msg_new_subobject_fresh in Hn as (n & o & Ho & Hm).
  eapply store_wf_mem_store; [|exact Hst]. eapply store_wf_malloc; eauto.
Qed.

Lemma upb_array_set_store arr i val a' : upb_array_set a arr i val = Ok a' -> store_wf a'.
Proof using Hs. unfold upb_array_set. intros H. res_inv. eapply store_wf_mem_store; eauto. Qed.

End Keeps.

(** ** The array functions *)

(** A block allocated just now is the buffer of no array. *)
Lemma malloc_not_buffer_of a n bs p a1 q hq :
  store_wf a -> upb_arena_malloc a n (OBytes bs) = (p, a1) -> p <> 0 ->
  get_array a1 q = Ok hq -> 0 < arr_size hq -> _upb_array_ptr hq <> p.
Proof.
  intros Hs Hm Hp Hq%get_array_Ok Hsz E. pose proof (swf_arena _ Hs) as Ha.
  assert (Hne : q <> p)
    by (intros ->; rewrite (malloc_lookup_new _ _ _ _ _ Hm Hp) in Hq; discriminate).
  rewrite (malloc_lookup_ne _ _ _ _ _ Hm q Hne) in Hq. apply get_array_Ok in Hq.
  destruct (awf_buf _ _ _ (swf_arrays _ Hs _ _ Hq)) as [?|(cs & Hb%get_bytes_Ok & _)]; [lia|].
  rewrite E, (malloc_fresh _ _ _ _ _ Ha Hm Hp) in Hb. discriminate.
Qed.

Lemma upb_array_realloc_store a arr m r :
  store_wf a -> m <= 2 ^ 58 -> _upb_array_realloc a arr m = Ok r -> store_wf (snd r).
Proof.
  intros Hs Hm H. pose proof (swf_arena _ Hs) as Ha.
  destruct (get_array a arr) as [hdr|] eqn:Hg;
    [|unfold _upb_array_realloc in H; rewrite Hg in H; discriminate].
  destruct (upb_array_realloc_spec a arr hdr m Ha (swf_arrays _ Hs _ _ Hg) Hm)
    as (ok & a' & E & Hok).
  rewrite E in H. injection H as <-. cbn [snd].
  destruct ok; [|subst a'; exact Hs]. destruct Hok as (_ & hdr' & Hwf' & _).
  destruct (upb_array_realloc_inv _ _ _ _ _ E) as (hdr0 & Hg0 & H).
  rewrite Hg in Hg0. injection Hg0 as <-.
  destruct H as [(_ & _ & ->)|(_ & n & _ & [(? & _)|(_ & bs & p & a1 & Hl & Hmal & Hp & ->)])];
    [exact Hs|discriminate|].
  eapply store_wf_set_array; [| |exact Hwf'|].
  - eapply store_wf_malloc; [exact Hs| |exact Hmal]. cbn. lia.
  - rewrite (later_array a a1 arr hdr Ha (preserves_malloc_eq _ _ _ _ _ Hmal) Hg).
    cbn [kind_of arr_data]. do 2 f_equal. symmetry.
    apply tag_low; [|apply land7_range].
    apply mod16_mod8, (malloc_range _ _ _ _ _ Ha Hmal).
  - intros q hq _ Hq Hsq. pose proof (awf_hdr _ _ _ Hwf') as Hh.
    rewrite get_array_set_object, decide_True in Hh by reflexivity. injection Hh as <-.
    unfold _upb_array_ptr at 2. cbn [arr_data]. unfold tag_arrptr.
    rewrite tag_high by (apply land7_range || apply mod16_mod8, (malloc_range _ _ _ _ _ Ha Hmal)).
    exact (malloc_not_buffer_of a _ _ p a1 q hq Hs Hmal Hp Hq Hsq).
Qed.

Lemma array_len_incr_store a arr hdr a' :
  store_wf a -> get_array a arr = Ok hdr -> arr_len hdr < arr_size hdr ->
  array_len_incr a arr = Ok a' -> store_wf a'.
Proof.
  intros Hs Hg Hroom H. pose proof (swf_arrays _ Hs _ _ Hg) as Hwf.
  destruct (array_elems_total _ _ _ Hwf) as (l & Hl).
  destruct (array_len_incr_spec a arr hdr l Hwf Hroom Hl) as (a2 & hdr' & _ & E & Hwf' & _).
  rewrite E in H. injection H as <-.
  unfold array_len_incr in E. rewrite Hg in E. injection E as <-.
  eapply store_wf_set_array; [exact Hs|exact (arena_kind_array _ _ _ Hg)|exact Hwf'|].
  intros q hq Hne Hq Hsq E. apply Hne. pose proof (awf_len _ _ _ Hwf).
  pose proof (awf_hdr _ _ _ Hwf') as Hh.
  rewrite get_array_set_object, decide_True in Hh by reflexivity. injection Hh as <-.
  apply (swf_unshared _ Hs q arr hq hdr Hq Hg Hsq); [lia|exact E].
Qed.

Lemma upb_array_append_store a arr val r :
  store_wf a -> upb_array_append a arr val = Ok r -> store_wf (snd r).
Proof.
  intros Hs H. pose proof (swf_arena _ Hs) as Ha. unfold upb_array_append in H.
  destruct (get_array a arr) as [hdr|] eqn:Hg; [|discriminate]. cbn [bind] in H.
  pose proof (swf_arrays _ Hs _ _ Hg) as Hwf. pose proof (awf_len _ _ _ Hwf) as Hlen.
  pose proof (store_array_small _ _ _ Hs Hg) as Hsm.
  rewrite wrap_small in H by (unfold in_unsigned; lia).
  destruct (upb_array_realloc_spec a arr hdr (arr_len hdr + 1) Ha Hwf)
    as (ok & a1 & E & Hok); [lia|].
  pose proof (upb_array_realloc_store a arr (arr_len hdr + 1) _ Hs ltac:(lia) E) as Hs1.
  rewrite E in H. cbn [bind fst snd] in *.
  destruct ok; cbn [negb] in H; [|injection H as <-; exact Hs1].
  destruct Hok as (_ & hdr1 & Hwf1 & Hl1 & _ & Hroom & _).
  destruct (array_len_incr a1 arr) as [a2|] eqn:Hi; [|discriminate]. cbn [bind] in H.
  destruct (get_array a2 arr) as [hdr2|]; [|discriminate]. cbn [bind] in H.
  destruct (upb_array_set _ _ _ _) as [a3|] eqn:Hset; [|discriminate]. injection H as <-.
  eapply upb_array_set_store; [|exact Hset].
  eapply array_len_incr_store; [exact Hs1|exact (awf_hdr _ _ _ Hwf1)|lia|exact Hi].
Qed.

Lemma upb_array_resize_store a arr size r :
  store_wf a -> size <= 2 ^ 58 -> upb_array_resize a arr size = Ok r -> store_wf (snd r).
Proof. apply upb_array_realloc_store. Qed.

(** ** The map functions *)

Lemma _upb_map_tovalue_store a val vs r :
  store_wf a -> _upb_map_tovalue a val vs = Ok r -> store_wf (snd r).
Proof.
  intros Hs. unfold _upb_map_tovalue. destruct (vs =? _).
  - destruct (prefix_bytes _ _) as [sv|] eqn:Hp; [|discriminate]. cbn [bind]. intros [= <-].
    eapply store_wf_malloc; [exact Hs| |apply surjective_pairing].
    intros _. rewrite (prefix_bytes_length _ _ _ Hp). unfold sizeof_strview. lia.
  - intros H. res_inv. exact Hs.
Qed.

Lemma _upb_map_set_store {T} `{StrTable T} a (m : upb_map T) key ks val vs r :
  store_wf a -> _upb_map_set a m key ks val vs = Ok r -> store_wf (snd r).
Proof.
  intros Hs. unfold _upb_map_set. intros Hr.
  destruct (_upb_map_tokey _ _ _) as [k|]; [|discriminate]. cbn [bind] in Hr.
  destruct (_upb_map_tovalue _ _ _) as [[v a1]|] eqn:Hv; [|discriminate].
  cbn [bind fst snd] in Hr. apply (_upb_map_tovalue_store _ _ _ _ Hs) in Hv. cbn [snd] in Hv.
  destruct (_ && _); [injection Hr as <-; exact Hs|].
  destruct (upb_arena_malloc a1 _ _) as [ka a2] eqn:Hm. cbn [fst snd] in Hr.
  destruct (ka =? 0); injection Hr as <-; [exact Hv|].
  eapply store_wf_malloc; [exact Hv| |exact Hm]. cbn. lia.
Qed.

Lemma upb_map_set_store a map key val r :
  store_wf a -> upb_map_set a map key val = Ok r -> store_wf (snd r).
Proof.
  intros Hs H. pose proof (swf_arena _ Hs) as Ha.
  destruct (get_map a map) as [m|] eqn:Hg;
    [|unfold upb_map_set in H; rewrite Hg in H; discriminate].
  destruct r as [ok a'].
  destruct (upb_map_set_spec a map m Ha (swf_maps _ Hs _ _ Hg) key val ok a' H) as (_ & _ & Hok).
  assert (exists m', map_wf a' map m') as [m' Hwf'].
  { destruct ok; [destruct Hok as (_ & _ & m' & _ & Hm' & _)|]; eauto. }
  unfold upb_map_set in H. rewrite Hg in H. cbn [bind] in H.
  destruct (_upb_map_set _ _ _ _ _ _) as [[[ok1 m1] a1]|] eqn:Hset; [|discriminate].
  cbn [bind fst snd] in H. injection H as _ <-. cbn [snd].
  destruct (_upb_map_set_sizes _ _ _ _ _ _ _ _ _ Hset) as [Ek Ev].
  eapply store_wf_set_map; [| |exact Hwf'].
  - exact (_upb_map_set_store _ _ _ _ _ _ _ Hs Hset).
  - rewrite (later_map a a1 map m Ha (_upb_map_set_preserves _ _ _ _ _ _ _ _ _ Hset) Hg).
    cbn [kind_of]. rewrite Ek, Ev. reflexivity.
Qed.

Lemma upb_map_delete_store a map key r :
  store_wf a -> upb_map_delete a map key = Ok r -> store_wf (snd r).
Proof.
  intros Hs H. pose proof (swf_arena _ Hs) as Ha.
  destruct (get_map a map) as [m|] eqn:Hg;
    [|unfold upb_map_delete in H; rewrite Hg in H; discriminate].
  destruct r as [b a'].
  destruct (upb_map_delete_spec a map m Ha (swf_maps _ Hs _ _ Hg) key b a' H)
    as (_ & _ & _ & m' & _ & Hwf' & _).
  unfold upb_map_delete in H. rewrite Hg in H. cbn [bind] in H.
  destruct (_upb_map_delete _ _ _ _) as [r|] eqn:Hd; [|discriminate].
  cbn [bind] in H. injection H as _ <-. cbn [snd].
  unfold _upb_map_delete in Hd. res_inv.
  eapply store_wf_set_map; [exact Hs|exact (arena_kind_map _ _ _ Hg)|exact Hwf'].
Qed.
