(* ===== verification/Amortised.v ===== *)
(** * Amortised: what a run of appends takes from the arena

    [upb_array_append] reallocates when the array is full, and the arena
    never takes a buffer back: every growth leaves the old buffer behind.
    Growth is by doubling, so the buffers a run of appends leaves behind
    add up to less than the last one, and the arena pays a number of
    bytes that is linear in the number of elements.

    The cost is counted on the bump pointer of the arena ([a_next]):
    [upb_array_realloc_cost] is what one growth takes, [append_cost] what
    one append takes, [growth_inv] the invariant of a run of appends to an
    array that was empty (the bytes taken so far are at most twice the
    size of the buffer, plus the padding of the two smallest buffers to
    the alignment of the arena), and [append_all_cost] its preservation
    along [append_all]. *)

From Stdlib Require Import ZArith Lia List.
From coqutil Require Import Byte Word.LittleEndianList.
From stdpp Require Import base tactics list numbers gmap.
From S2P Require Import Prelude Layout Arena Array Store.

#[local] Open Scope Z_scope.

(** ** Definitions *)

(** The size of the buffer of an array, in bytes. *)
Definition buffer_bytes (hdr : upb_array) : Z := arr_size hdr * 2 ^ array_lg2 hdr.

(** The invariant of a run of appends to an array that was empty, [u]
    being the bytes the run has taken from the arena: nothing yet, or
    a capacity of at least 4 and at most twice the length before the last
    append, and a buffer of 4 or 8 bytes (padded to 16) or of a multiple
    of 16 bytes, with at most twice its size taken, and 16. *)
Definition growth_inv (hdr : upb_array) (u : Z) : Prop :=
  (arr_size hdr = 0 /\ arr_len hdr = 0 /\ u = 0) \/
  (4 <= arr_size hdr <= Z.max 4 (2 * (arr_len hdr - 1)) /\ 1 <= arr_len hdr /\
   ((buffer_bytes hdr = 4 /\ u <= 16) \/ (buffer_bytes hdr = 8 /\ u <= 32) \/
    (exists m, 1 <= m /\ buffer_bytes hdr = 16 * m /\ u <= 2 * buffer_bytes hdr + 16))).

(** A new array of int32 and the arena after nine appends to it. *)
Definition example_nine_from : Z * upb_arena :=
  match upb_array_new (arena_init 4096) UPB_TYPE_INT32 with
  | Ok r => r
  | Err _ => (0, arena_init 4096)
  end.

Definition example_nine_vals : list (list byte) :=
  map msgval_int32 [1; 2; 3; 4; 5; 6; 7; 8; 9].

Definition example_nine : upb_arena :=
  match append_all (snd example_nine_from) (fst example_nine_from) example_nine_vals with
  | Ok r => snd r
  | Err _ => snd example_nine_from
  end.

(** ** Rounding to the alignment *)

Lemma align_up_16 m : align_up (16 * m) = 16 * m.
Proof.
  unfold align_up, arena_align. replace (16 * m + 16 - 1) with (m * 16 + 15) by lia.
  rewrite Z.div_add_l by lia. change (15 / 16) with 0. lia.
Qed.

Lemma align_up_small x : 0 < x <= 16 -> align_up x = 16.
Proof.
  intros Hx. unfold align_up, arena_align.
  replace ((x + 16 - 1) / 16) with 1; [reflexivity|].
  apply (Z.div_unique (x + 16 - 1) 16 1 (x - 1)); lia.
Qed.

(** ** The cost of one call *)

(** A growth takes the new buffer, rounded to the alignment. *)
Lemma upb_array_realloc_cost a arr hdr m a1 :
  arena_wf a -> array_wf a arr hdr -> arr_size hdr < m <= 2 ^ 58 ->
  _upb_array_realloc a arr m = Ok (true, a1) ->
  exists hdr1, get_array a1 arr = Ok hdr1 /\ arr_len hdr1 = arr_len hdr /\
    array_lg2 hdr1 = array_lg2 hdr /\
    realloc_capacity 64 (Z.max (arr_size hdr) 4) m = Ok (arr_size hdr1) /\
    a_next a1 = a_next a + align_up (buffer_bytes hdr1).
Proof.
  intros Ha Hwf Hm (hdr0 & Hg0 & H)%upb_array_realloc_inv.
  pose proof (awf_lg2 _ _ _ Hwf) as Hlg. pose proof (awf_len _ _ _ Hwf) as Hle.
  pose proof (awf_size _ _ _ Hwf) as Hsz.
  rewrite (awf_hdr _ _ _ Hwf) in Hg0. injection Hg0 as <-.
  destruct H as [(? & _)|(_ & n & Hn & [(? & _)|(_ & bs & p & a2 & _ & Hmal & Hp & ->)])];
    [lia|discriminate|].
  destruct (realloc_capacity_enough (arr_size hdr) m) as (n' & Hn' & ? & ? & ?); [lia|lia|].
  rewrite Hn in Hn'. injection Hn' as <-. rewrite Hn.
  rewrite (elem_offset n) in Hmal by lia.
  set (hdr1 := {| arr_data := tag_arrptr p (array_lg2 hdr); arr_len := arr_len hdr;
                  arr_size := n |}).
  assert (Hl1 : array_lg2 hdr1 = array_lg2 hdr).
  { apply (tag_low p); [|lia].
    exact (mod16_mod8 _ (proj2 (malloc_range _ _ _ _ _ Ha Hmal))). }
  exists hdr1. rewrite get_array_set_object, decide_True by reflexivity.
  do 4 (split; [done|]).
  destruct (malloc_cases _ _ _ _ _ Hmal) as [[? _]|(_ & _ & _ & ->)]; [contradiction|].
  unfold buffer_bytes. rewrite Hl1. reflexivity.
Qed.

(** An append takes nothing when the array has room and the new buffer
    when it is full; the capacity then is 4 or twice what it was. *)
Lemma append_cost a arr hdr val a' :
  store_wf a -> get_array a arr = Ok hdr ->
  upb_array_append a arr val = Ok (true, a') ->
  exists hdr', get_array a' arr = Ok hdr' /\ arr_len hdr' = arr_len hdr + 1 /\
    array_lg2 hdr' = array_lg2 hdr /\
    (arr_len hdr < arr_size hdr /\ arr_size hdr' = arr_size hdr /\ a_next a' = a_next a \/
     arr_len hdr = arr_size hdr /\
     arr_size hdr' = (if 4 <=? arr_size hdr then 2 * arr_size hdr else 4) /\
     a_next a' = a_next a + align_up (buffer_bytes hdr')).
Proof.
  intros Hs Hg Happ. pose proof (swf_arena _ Hs) as Ha.
  pose proof (swf_arrays _ Hs _ _ Hg) as Hwf. pose proof (awf_len _ _ _ Hwf) as Hle.
  pose proof (store_array_small _ _ _ Hs Hg) as Hsm.
  unfold upb_array_append in Happ. rewrite Hg in Happ. cbn [bind] in Happ.
  rewrite wrap_small in Happ by (unfold in_unsigned; lia).
  destruct (_upb_array_realloc a arr (arr_len hdr + 1)) as [[[|] a1]|] eqn:Hr;
    [|discriminate..]. cbn [bind fst snd negb] in Happ.
  assert (H1 : exists hdr1, get_array a1 arr = Ok hdr1 /\ arr_len hdr1 = arr_len hdr /\
                 array_lg2 hdr1 = array_lg2 hdr /\
                 (arr_len hdr < arr_size hdr /\ arr_size hdr1 = arr_size hdr /\
                  a_next a1 = a_next a \/
                  arr_len hdr = arr_size hdr /\
                  arr_size hdr1 = (if 4 <=? arr_size hdr then 2 * arr_size hdr else 4) /\
                  a_next a1 = a_next a + align_up (buffer_bytes hdr1))).
  { destruct (Z.le_gt_cases (arr_len hdr + 1) (arr_size hdr)) as [Hroom|Hfull].
    - rewrite (upb_array_realloc_fits a arr hdr _ Hg Hroom) in Hr. injection Hr as <-.
      exists hdr. do 3 (split; [done|]). left. split; [lia|done].
    - destruct (upb_array_realloc_cost a arr hdr (arr_len hdr + 1) a1 Ha Hwf ltac:(lia) Hr)
        as (hdr1 & Hg1 & Hl1 & Hlg1 & Hcap & Hnx).
      exists hdr1. do 3 (split; [done|]). right. split; [lia|]. split; [|exact Hnx].
      replace (arr_len hdr + 1) with (arr_size hdr + 1) in Hcap by lia.
      rewrite realloc_capacity_full in Hcap by lia. congruence. }
  destruct H1 as (hdr1 & Hg1 & Hl1 & Hlg1 & Hcost).
  unfold array_len_incr in Happ. rewrite Hg1 in Happ. cbn [bind] in Happ.
  rewrite get_array_set_object, decide_True in Happ by reflexivity. cbn [bind] in Happ.
  destruct (upb_array_set _ _ _ _) as [a3|] eqn:Hset; [|discriminate]. injection Happ as <-.
  destruct (upb_array_set_frame _ _ _ _ _ Hset) as (Hfr & _).
  assert (Hnx : a_next a3 = a_next a1).
  { unfold upb_array_set in Hset. res_inv.
    rename select (mem_store _ _ _ = Ok _) into Hst.
    exact (proj1 (mem_store_next _ _ _ _ Hst)). }
  eexists. rewrite Hfr, get_array_set_object, decide_True by reflexivity.
  split; [reflexivity|]. cbn [arr_len arr_size].
  split; [rewrite wrap_small by (unfold in_unsigned; lia); lia|].
  split; [exact Hlg1|]. rewrite Hnx.
  unfold buffer_bytes, array_lg2 in *. cbn [arr_size arr_data]. exact Hcost.
Qed.

(** ** The invariant of a run *)

(** The buffer after a growth from nothing: four elements. *)
Lemma growth_first lg2 :
  0 <= lg2 <= 4 ->
  4 * 2 ^ lg2 = 4 /\ align_up (4 * 2 ^ lg2) = 16 \/
  4 * 2 ^ lg2 = 8 /\ align_up (4 * 2 ^ lg2) = 16 \/
  exists m, 1 <= m /\ 4 * 2 ^ lg2 = 16 * m /\ align_up (4 * 2 ^ lg2) = 16 * m.
Proof.
  intros Hlg.
  assert (lg2 = 0 \/ lg2 = 1 \/ lg2 = 2 \/ lg2 = 3 \/ lg2 = 4) as [->|[->|[->|[->| ->]]]]
    by lia; [left|right; left|right; right..]; [split; reflexivity..| | |].
  - exists 1. split; [lia|]. split; reflexivity.
  - exists 2. split; [lia|]. split; reflexivity.
  - exists 4. split; [lia|]. split; reflexivity.
Qed.

(** An append keeps the invariant, with what it took added. *)
Lemma growth_inv_step hdr hdr' u u' :
  0 <= array_lg2 hdr <= 4 -> 0 <= arr_len hdr <= arr_size hdr -> growth_inv hdr u ->
  arr_len hdr' = arr_len hdr + 1 -> array_lg2 hdr' = array_lg2 hdr ->
  (arr_len hdr < arr_size hdr /\ arr_size hdr' = arr_size hdr /\ u' = u \/
   arr_len hdr = arr_size hdr /\
   arr_size hdr' = (if 4 <=? arr_size hdr then 2 * arr_size hdr else 4) /\
   u' = u + align_up (buffer_bytes hdr')) ->
  growth_inv hdr' u'.
Proof.
  intros Hlg Hle Hinv Hlen Hlg' Hstep. unfold growth_inv, buffer_bytes in *.
  rewrite Hlen, Hlg'. right.
  destruct Hinv as [(Hc & Hl & ->)|(Hc & Hl & Hu)].
  - destruct Hstep as [?|(_ & -> & ->)]; [lia|]. rewrite Hc. cbn [Z.leb Z.compare].
    split; [lia|]. split; [lia|]. rewrite Hlg'.
    destruct (growth_first (array_lg2 hdr) Hlg) as [[-> ->]|[[-> ->]|(m & Hm & -> & ->)]];
      [left; lia|right; left; lia|right; right; exists m; lia].
  - destruct Hstep as [(? & -> & ->)|(Hfull & -> & ->)]; [split; [lia|]; split; [lia|exact Hu]|].
    destruct (Z.leb_spec 4 (arr_size hdr)); [|lia]. rewrite Hlg'.
    split; [lia|]. split; [lia|].
    replace (2 * arr_size hdr * 2 ^ array_lg2 hdr)
      with (2 * (arr_size hdr * 2 ^ array_lg2 hdr)) by lia.
    destruct Hu as [[-> Hu]|[[-> Hu]|(m & Hm & -> & Hu)]].
    + right; left. rewrite (align_up_small (2 * 4)) by lia. lia.
    + right; right. exists 1. rewrite (align_up_small (2 * 8)) by lia. lia.
    + right; right. exists (2 * m).
      replace (2 * (16 * m)) with (16 * (2 * m)) by lia. rewrite align_up_16. lia.
Qed.

(** A run of appends that all succeed keeps the invariant. *)
Lemma append_all_cost vals : forall a arr hdr u a',
  store_wf a -> get_array a arr = Ok hdr -> growth_inv hdr u ->
  append_all a arr vals = Ok (true, a') ->
  exists hdr', get_array a' arr = Ok hdr' /\
    arr_len hdr' = arr_len hdr + Z.of_nat (length vals) /\
    array_lg2 hdr' = array_lg2 hdr /\ growth_inv hdr' (u + (a_next a' - a_next a)).
Proof.
  induction vals as [|v vals IH]; intros a arr hdr u a' Hs Hg Hinv Hrun; cbn [append_all] in Hrun.
  - injection Hrun as <-. exists hdr. do 3 (split; [done || cbn; lia|]).
    replace (u + (a_next a - a_next a)) with u by lia. exact Hinv.
  - destruct (upb_array_append a arr v) as [[[|] a1]|] eqn:Happ; cbn [bind fst snd] in Hrun;
      [|discriminate..].
    pose proof (upb_array_append_store a arr v (true, a1) Hs Happ) as Hs1.
    pose proof (swf_arrays _ Hs _ _ Hg) as Hwf.
    destruct (append_cost a arr hdr v a1 Hs Hg Happ) as (hdr1 & Hg1 & Hl1 & Hlg1 & Hcost).
    assert (Hinv1 : growth_inv hdr1 (u + (a_next a1 - a_next a))).
    { apply (growth_inv_step hdr hdr1 u);
        [exact (awf_lg2 _ _ _ Hwf)|exact (awf_len _ _ _ Hwf)|exact Hinv|exact Hl1|exact Hlg1|].
      destruct Hcost as [(? & ? & ->)|(? & ? & ->)]; [left|right];
        (split; [assumption|]; split; [assumption|lia]). }
    destruct (IH a1 arr hdr1 _ a' Hs1 Hg1 Hinv1 Hrun) as (hdr' & Hg' & Hl' & Hlg' & Hinv').
    exists hdr'. split; [exact Hg'|]. split; [cbn [length]; lia|]. split; [congruence|].
    replace (u + (a_next a' - a_next a))
      with (u + (a_next a1 - a_next a) + (a_next a' - a_next a1)) by lia.
    exact Hinv'.
Qed.

(** What the invariant says of the bytes taken. *)
Lemma growth_inv_bound hdr u :
  0 <= array_lg2 hdr -> 0 <= arr_len hdr -> growth_inv hdr u ->
  u <= 4 * (arr_len hdr + 1) * 2 ^ array_lg2 hdr + 16.
Proof.
  intros Hlg Hl Hinv. assert (0 < 2 ^ array_lg2 hdr) by (apply pow2_pos; lia).
  destruct Hinv as [(_ & _ & ->)|(Hc & Hl1 & Hu)]; [nia|]. unfold buffer_bytes in Hu.
  assert (arr_size hdr * 2 ^ array_lg2 hdr <= 2 * (arr_len hdr + 1) * 2 ^ array_lg2 hdr)
    by (apply Z.mul_le_mono_nonneg_r; lia).
  destruct Hu as [[? ?]|[[? ?]|(m & _ & _ & ?)]]; lia.
Qed.

(** ** Properties *)

(** C29: appends are amortised.  A run of [n] appends that all return
    [true], to an array that was empty and had no buffer, takes at most
    [4 * (n + 1)] elements and 16 bytes from the arena, although every
    growth leaves the old buffer behind: the growth is by doubling, so
    the buffers add up to less than twice the last one, which has room
    for fewer than [2 * (n + 1)] elements. *)
Theorem upb_array_append_amortised a arr hdr vals a' :
  store_wf a -> get_array a arr = Ok hdr -> arr_len hdr = 0 -> arr_size hdr = 0 ->
  append_all a arr vals = Ok (true, a') ->
  a_next a' - a_next a <= 4 * (Z.of_nat (length vals) + 1) * 2 ^ array_lg2 hdr + 16.
Proof.
  intros Hs Hg Hl Hc Hrun.
  destruct (append_all_cost vals a arr hdr 0 a' Hs Hg ltac:(left; auto) Hrun)
    as (hdr' & _ & Hl' & Hlg' & Hinv).
  pose proof (awf_lg2 _ _ _ (swf_arrays _ Hs _ _ Hg)) as Hlg.
  apply growth_inv_bound in Hinv; [|lia..]. rewrite Hl', Hlg', Hl in Hinv.
  replace (0 + (a_next a' - a_next a)) with (a_next a' - a_next a) in Hinv by lia.
  exact Hinv.
Qed.

Lemma upb_array_append_amortised_witness :
  a_next example_nine - a_next (snd example_nine_from) <=
    4 * (Z.of_nat (length example_nine_vals) + 1) * 2 ^ 2 + 16.
Proof.
  apply (upb_array_append_amortised (snd example_nine_from) (fst example_nine_from)
           {| arr_data := tag_arrptr 0 2; arr_len := 0; arr_size := 0 |}
           example_nine_vals example_nine).
  - apply store_wf_b_true. vm_compute. reflexivity.
  - vm_compute. reflexivity.
  - reflexivity.
  - reflexivity.
  - vm_compute. reflexivity.
Defined.

(** The nine appends took the buffers of 4, 8 and 16 elements: 112 of
    the 176 bytes of the bound. *)
Example example_nine_taken : a_next example_nine - a_next (snd example_nine_from) = 112.
Proof. vm_compute. reflexivity. Qed.
