(* ===== verification/Frame.v ===== *)
(** * Frame: what the containers leave alone

    A message, the bytes of a string, the buffer of an array: all are
    blocks of one arena, and the functions of reflection.c take any
    address.  This file shows who writes where.  The array and map
    functions and the constructors write no block but the buffer of an
    array ([is_buffer]), and the buffer an array has afterwards is the
    buffer of an array before the call or a block that did not exist then.
    [quiet] is that relation between the arena before and after; it is a
    preorder, shown of the ways the code changes the arena and then of
    every function but [upb_msg_set] and [upb_msg_mutable], which write
    into the message they are given.  Hence a block that is no array's
    buffer (a message, string data) keeps its bytes through any sequence
    of such calls, and never becomes a buffer.

    The containers do not disturb one another either ([keeps]): an array
    or a map that is not the one a function is given has the header it
    had, and the buffer of such an array has the bytes it had.  For a
    write into the buffer of an array this is the clause of [store_wf]
    that no two arrays share a buffer; for a write into a message it
    needs that the message is no buffer. *)

From Stdlib Require Import ZArith Lia List.
From coqutil Require Import Byte Word.LittleEndianList.
From stdpp Require Import base tactics list numbers gmap.
From S2P Require Import Prelude Layout Arena Array Table Map Msg Store.

#[local] Open Scope Z_scope.

(** ** Buffers and quiet updates *)

(** [p] is the buffer of an array that has room for an element. *)
Definition is_buffer (a : upb_arena) (p : Z) : Prop :=
  exists arr hdr, get_array a arr = Ok hdr /\ 0 < arr_size hdr /\ _upb_array_ptr hdr = p.

(** The containers other than those of [W] are as they were: an array
    has its header and the bytes of its buffer, a map has its header. *)
Definition keeps (W : Z -> Prop) (a a' : upb_arena) : Prop :=
  (forall q hdr, ~ W q -> get_array a q = Ok hdr ->
     get_array a' q = Ok hdr /\
     (0 < arr_size hdr -> forall bs, get_bytes a (_upb_array_ptr hdr) = Ok bs ->
        get_bytes a' (_upb_array_ptr hdr) = Ok bs)) /\
  (forall q m, ~ W q -> get_map a q = Ok m -> get_map a' q = Ok m).

(** [a'] is [a] after writes into array buffers only, on the containers
    [W]: every object is still there, a block that is no buffer has its
    bytes, a buffer of [a'] is a buffer of [a] or new, and the other
    containers are kept. *)
Record quiet (W : Z -> Prop) (a a' : upb_arena) : Prop := {
  q_objs : forall p, is_Some (a_objs a !! p) -> is_Some (a_objs a' !! p);
  q_bytes : forall p bs, get_bytes a p = Ok bs -> ~ is_buffer a p -> get_bytes a' p = Ok bs;
  q_buffers : forall p, is_buffer a' p -> is_buffer a p \/ a_objs a !! p = None;
  q_keeps : keeps W a a'
}.

(** [p] is a block that no array uses as its buffer: a message, the
    bytes of a string, a block the caller made. *)
Definition private (a : upb_arena) (p : Z) : Prop :=
  (exists bs, get_bytes a p = Ok bs) /\ ~ is_buffer a p.

(** An executable check of [is_buffer]. *)
Definition is_buffer_b (a : upb_arena) (p : Z) : bool :=
  existsb (fun po => match snd po with
                     | OArray hdr => (0 <? arr_size hdr) && (_upb_array_ptr hdr =? p)
                     | _ => false
                     end)
          (map_to_list (a_objs a)).

Lemma is_buffer_b_false a p : is_buffer_b a p = false -> ~ is_buffer a p.
Proof.
  intros Hb (arr & hdr & Hg%get_array_Ok%elem_of_map_to_list & Hsz & Hp).
  apply not_true_iff_false in Hb. apply Hb, existsb_exists.
  exists (arr, OArray hdr). split; [apply list_elem_of_In; exact Hg|]. cbn.
  apply andb_true_iff. split; [apply Z.ltb_lt|apply Z.eqb_eq]; assumption.
Qed.

(** ** [quiet] is a preorder *)

#[export] Instance keeps_preorder W : PreOrder (keeps W).
Proof.
  split; [intros a; split; auto|].
  intros a a1 a2 [Ha1 Hm1] [Ha2 Hm2]. split.
  - intros q hdr Hw Hq. destruct (Ha1 q hdr Hw Hq) as [Hq1 Hb1].
    destruct (Ha2 q hdr Hw Hq1) as [Hq2 Hb2]. split; [exact Hq2|]. auto.
  - intros q m Hw Hq. auto.
Qed.

Lemma keeps_mono (W W' : Z -> Prop) a a' :
  (forall q, W q -> W' q) -> keeps W a a' -> keeps W' a a'.
Proof. intros Hw [Ha Hm]. split; intros q x Hq; [apply Ha|apply Hm]; auto. Qed.

#[export] Instance quiet_preorder W : PreOrder (quiet W).
Proof.
  split.
  - intros a. split; auto. reflexivity.
  - intros a a1 a2 H1 H2. split.
    + intros p Hp. apply (q_objs _ _ _ H2), (q_objs _ _ _ H1), Hp.
    + intros p bs Hb Hn. apply (q_bytes _ _ _ H2); [apply (q_bytes _ _ _ H1); assumption|].
      intros [Hbuf|Hnew]%(q_buffers _ _ _ H1); [exact (Hn Hbuf)|].
      apply get_bytes_Ok in Hb. congruence.
    + intros p [Hbuf|Hnew]%(q_buffers _ _ _ H2); [exact (q_buffers _ _ _ H1 p Hbuf)|].
      right. destruct (a_objs a !! p) eqn:E; [|reflexivity].
      destruct (q_objs _ _ _ H1 p (mk_is_Some _ _ E)) as [x Hx]. congruence.
    + etrans; [exact (q_keeps _ _ _ H1)|exact (q_keeps _ _ _ H2)].
Qed.

(** ** What the ways to change the arena keep of the containers *)

Lemma keeps_malloc W a n o p a' :
  arena_wf a -> upb_arena_malloc a n o = (p, a') -> keeps W a a'.
Proof.
  intros Ha Hm. split.
  - intros q hdr _ Hq%get_array_Ok.
    split; [apply get_array_Ok; eapply malloc_lookup_old; eauto|].
    intros _ bs Hb. eapply malloc_get_bytes; eauto.
  - intros q m _ Hq%get_map_Ok. apply get_map_Ok. eapply malloc_lookup_old; eauto.
Qed.

(** Writing the header of a container of [W] back. *)
Lemma keeps_set_header (W : Z -> Prop) a p o o' :
  a_objs a !! p = Some o -> (forall bs, o <> OBytes bs) -> W p ->
  keeps W a (set_object a p o').
Proof.
  intros Hp Ho Hw. split.
  - intros q hdr Hq Hg. assert (p <> q) by congruence.
    rewrite get_array_set_object, decide_False by assumption. split; [exact Hg|].
    intros _ bs Hb. rewrite get_bytes_set_object, decide_False; [exact Hb|].
    intros E. apply get_bytes_Ok in Hb. rewrite <- E, Hp in Hb. injection Hb as ->.
    exact (Ho bs eq_refl).
  - intros q m Hq Hg. assert (p <> q) by congruence.
    rewrite get_map_set_object, decide_False by assumption. exact Hg.
Qed.

(** A [memcpy] into a block that no array of those kept has as its
    buffer. *)
Lemma keeps_store W a q v a' :
  (forall arr hdr, ~ W arr -> get_array a arr = Ok hdr -> 0 < arr_size hdr ->
     _upb_array_ptr hdr <> p_base q) ->
  mem_store a q v = Ok a' -> keeps W a a'.
Proof.
  intros Hbuf Hs. split.
  - intros arr hdr Hw Hg. rewrite (mem_store_get_array _ _ _ _ arr Hs).
    split; [exact Hg|]. intros Hsz bs Hb. rewrite <- Hb.
    eapply mem_store_get_bytes_ne; [exact Hs|]. exact (Hbuf arr hdr Hw Hg Hsz).
  - intros m hm _ Hg. rewrite (mem_store_get_map _ _ _ _ m Hs). exact Hg.
Qed.

(** ** The ways the code changes the arena *)

(** An allocation; a new array has no buffer yet. *)
Lemma quiet_malloc W a n o p a' :
  arena_wf a -> upb_arena_malloc a n o = (p, a') ->
  (forall hdr, o = OArray hdr -> arr_size hdr = 0) -> quiet W a a'.
Proof.
  intros Ha Hm Ho. destruct (Z.eq_dec p 0) as [->|Hp];
    [rewrite (malloc_null _ _ _ _ _ Ha Hm eq_refl); reflexivity|].
  split.
  - intros q [x Hx]. exists x. eapply malloc_lookup_old; eauto.
  - intros q bs Hb _. eapply malloc_get_bytes; eauto.
  - intros q (arr & hdr & Hg & Hsz & Hq). left. exists arr, hdr.
    split; [|split; assumption]. apply get_array_Ok in Hg. apply get_array_Ok.
    destruct (Z.eq_dec arr p) as [->|Hne].
    + rewrite (malloc_lookup_new _ _ _ _ _ Hm Hp) in Hg. injection Hg as ->.
      specialize (Ho hdr eq_refl). lia.
    + rewrite <- (malloc_lookup_ne _ _ _ _ _ Hm arr Hne). exact Hg.
  - eapply keeps_malloc; eauto.
Qed.

(** Writing a header back over the header of a container of [W]. *)
Lemma quiet_set_header (W : Z -> Prop) a p o o' :
  a_objs a !! p = Some o -> (forall bs, o <> OBytes bs) -> W p ->
  (forall hdr', o' = OArray hdr' -> 0 < arr_size hdr' ->
     is_buffer a (_upb_array_ptr hdr')) ->
  quiet W a (set_object a p o').
Proof.
  intros Hp Ho Hw Hbuf. split.
  - intros q Hq. cbn. destruct (decide (p = q)) as [->|Hne];
      [rewrite lookup_insert_eq; eauto|rewrite lookup_insert_ne by exact Hne; exact Hq].
  - intros q bs Hb _. rewrite get_bytes_set_object, decide_False; [exact Hb|].
    intros ->. apply get_bytes_Ok in Hb. rewrite Hp in Hb. injection Hb as ->.
    exact (Ho bs eq_refl).
  - intros q (arr & hdr & Hg & Hsz & Hq). left. apply get_array_Ok in Hg. cbn in Hg.
    destruct (decide (p = arr)) as [->|Hne].
    + rewrite lookup_insert_eq in Hg. injection Hg as ->. subst q. auto.
    + rewrite lookup_insert_ne in Hg by exact Hne. exists arr, hdr.
      split; [apply get_array_Ok; exact Hg|split; assumption].
  - eapply keeps_set_header; eauto.
Qed.

(** An array header that names a block allocated just before. *)
Lemma quiet_set_buffer (W : Z -> Prop) a n bs p a1 arr hdr hdr' :
  arena_wf a -> upb_arena_malloc a n (OBytes bs) = (p, a1) -> p <> 0 ->
  get_array a arr = Ok hdr -> W arr -> _upb_array_ptr hdr' = p ->
  quiet W a (set_object a1 arr (OArray hdr')).
Proof.
  intros Ha Hm Hp Hg Hw Hptr. apply get_array_Ok in Hg.
  pose proof (malloc_fresh _ _ _ _ _ Ha Hm Hp) as Hfresh.
  assert (Hne : arr <> p) by congruence. split.
  - intros q [x Hx]. cbn. destruct (decide (arr = q)) as [->|Hq];
      [rewrite lookup_insert_eq; eauto|rewrite lookup_insert_ne by exact Hq].
    exists x. eapply malloc_lookup_old; eauto.
  - intros q cs Hb _. rewrite get_bytes_set_object, decide_False.
    + eapply malloc_get_bytes; eauto.
    + intros ->. apply get_bytes_Ok in Hb. congruence.
  - intros q (arr0 & hdr0 & Hg0 & Hsz & Hq). apply get_array_Ok in Hg0. cbn in Hg0.
    destruct (decide (arr = arr0)) as [->|Hne0].
    + rewrite lookup_insert_eq in Hg0. injection Hg0 as ->. right. congruence.
    + rewrite lookup_insert_ne in Hg0 by exact Hne0. left. exists arr0, hdr0.
      split; [|split; assumption]. apply get_array_Ok.
      destruct (Z.eq_dec arr0 p) as [->|Hne1].
      * rewrite (malloc_lookup_new _ _ _ _ _ Hm Hp) in Hg0. discriminate.
      * rewrite <- (malloc_lookup_ne _ _ _ _ _ Hm arr0 Hne1). exact Hg0.
  - etrans; [exact (keeps_malloc W _ _ _ _ _ Ha Hm)|].
    eapply keeps_set_header; [eapply malloc_lookup_old; eauto|discriminate|exact Hw].
Qed.

(** A [memcpy] into the buffer of an array of [W]: no other array has
    this buffer. *)
Lemma quiet_buffer_store (W : Z -> Prop) a arr hdr q v a' :
  unshared a -> get_array a arr = Ok hdr -> 0 < arr_size hdr ->
  _upb_array_ptr hdr = p_base q -> W arr ->
  mem_store a q v = Ok a' -> quiet W a a'.
Proof.
  intros Hun Hg Hsz Hptr Hw Hs.
  assert (Hbuf : is_buffer a (p_base q)) by (exists arr, hdr; auto).
  split.
  - intros p Hp. destruct (mem_store_inv _ _ _ _ Hs) as (bs & bs' & _ & _ & ->). cbn.
    destruct (decide (p_base q = p)) as [->|Hne];
      [rewrite lookup_insert_eq; eauto|rewrite lookup_insert_ne by exact Hne; exact Hp].
  - intros p bs Hb Hn. rewrite <- Hb. eapply mem_store_get_bytes_ne; [exact Hs|].
    intros ->. exact (Hn Hbuf).
  - intros p (arr0 & hdr0 & Hg0 & Hsz0 & Hp). left. exists arr0, hdr0.
    rewrite <- (mem_store_get_array _ _ _ _ arr0 Hs). auto.
  - eapply keeps_store; [|exact Hs]. intros arr0 hdr0 Hn Hg0 Hsz0 E.
    apply Hn. rewrite (Hun arr0 arr hdr0 hdr); auto. congruence.
Qed.

(** ** What the updates keep *)

(** A quiet update keeps a private block private, with its bytes. *)
Lemma private_quiet W a a' p :
  private a p -> quiet W a a' -> private a' p /\ get_bytes a' p = get_bytes a p.
Proof.
  intros [[bs Hb] Hn] Hq. pose proof (q_bytes _ _ _ Hq p bs Hb Hn) as Hb'.
  split; [split; [eauto|]|congruence].
  intros [Hbuf|Hnew]%(q_buffers _ _ _ Hq); [exact (Hn Hbuf)|].
  apply get_bytes_Ok in Hb. congruence.
Qed.

(** A [memcpy] anywhere keeps it private, and keeps its bytes unless it
    is the block written. *)
Lemma private_store a q v a' p :
  private a p -> mem_store a q v = Ok a' ->
  private a' p /\ (p_base q <> p -> get_bytes a' p = get_bytes a p).
Proof.
  intros [[bs Hb] Hn] Hs. split; [split|].
  - destruct (mem_store_inv _ _ _ _ Hs) as (cs & cs' & _ & _ & ->).
    rewrite get_bytes_set_object. case_res; eauto.
  - intros (arr & hdr & Hg & Hsz). apply Hn. exists arr, hdr.
    rewrite <- (mem_store_get_array _ _ _ _ arr Hs). auto.
  - intros Hne. eapply mem_store_get_bytes_ne; eauto.
Qed.

Lemma quiet_mem_load W a a' p k :
  quiet W a a' -> private a (p_base p) -> mem_load a' p k = mem_load a p k.
Proof.
  intros Hq Hp. unfold mem_load. rewrite (proj2 (private_quiet _ _ _ _ Hp Hq)). reflexivity.
Qed.

(** A [memcpy] into a block that is no buffer keeps every container. *)
Lemma keeps_store_private W a q v a' :
  private a (p_base q) -> mem_store a q v = Ok a' -> keeps W a a'.
Proof.
  intros [_ Hn] Hs. eapply keeps_store; [|exact Hs].
  intros arr hdr _ Hg Hsz E. apply Hn. exists arr, hdr. auto.
Qed.

(** What is kept of an array is what it holds. *)
Lemma array_elems_keeps W a a' arr hdr :
  store_wf a -> keeps W a a' -> ~ W arr -> get_array a arr = Ok hdr ->
  array_elems a' arr = array_elems a arr.
Proof.
  intros Hs [Hk _] Hw Hg. unfold array_elems.
  destruct (Hk arr hdr Hw Hg) as [-> Hb]. rewrite Hg. cbn [bind].
  destruct (Z.eqb_spec (arr_len hdr) 0); [reflexivity|].
  pose proof (swf_arrays _ Hs _ _ Hg) as Hwf. pose proof (awf_len _ _ _ Hwf).
  destruct (awf_buf _ _ _ Hwf) as [?|(bs & Hbs & _)]; [lia|].
  rewrite Hbs, (Hb ltac:(lia) bs Hbs). reflexivity.
Qed.

Lemma map_contents_keeps W a a' map m :
  keeps W a a' -> ~ W map -> get_map a map = Ok m ->
  map_contents a' map = map_contents a map.
Proof. intros [_ Hk] Hw Hg. unfold map_contents. rewrite Hg, (Hk map m Hw Hg). reflexivity. Qed.

(** In a well-formed store a buffer is a block, so that a block made by
    an allocation is no buffer. *)
Lemma buffer_live a p : store_wf a -> is_buffer a p -> exists bs, get_bytes a p = Ok bs.
Proof.
  intros Hs (arr & hdr & Hg & Hsz & <-).
  destruct (awf_buf _ _ _ (swf_arrays _ Hs _ _ Hg)) as [?|(bs & Hb & _)]; [lia|eauto].
Qed.

Lemma malloc_not_buffer a n o p a' :
  store_wf a -> fresh_ok n o -> upb_arena_malloc a n o = (p, a') -> p <> 0 ->
  ~ is_buffer a' p.
Proof.
  intros Hs Ho Hm Hp (arr & hdr & Hg%get_array_Ok & Hsz & Hptr).
  pose proof (malloc_fresh _ _ _ _ _ (swf_arena _ Hs) Hm Hp) as Hfresh.
  destruct (Z.eq_dec arr p) as [->|Hne].
  - rewrite (malloc_lookup_new _ _ _ _ _ Hm Hp) in Hg. injection Hg as ->.
    destruct Ho as (_ & Ho & _). lia.
  - rewrite (malloc_lookup_ne _ _ _ _ _ Hm arr Hne) in Hg.
    destruct (buffer_live a p Hs) as [bs Hb%get_bytes_Ok]; [|congruence].
    exists arr, hdr. split; [apply get_array_Ok; exact Hg|auto].
Qed.

(** ** The constructors *)

Lemma quiet_fresh W a n o r :
  arena_wf a -> fresh_ok n o -> upb_arena_malloc a n o = r -> quiet W a (snd r).
Proof.
  intros Ha Ho Hm. eapply quiet_malloc; [exact Ha|rewrite Hm; apply surjective_pairing|].
  intros hdr ->. exact (proj1 (proj2 Ho)).
Qed.

Lemma upb_msg_new_quiet W m a : arena_wf a -> quiet W a (snd (upb_msg_new m a)).
Proof. intros Ha. eapply quiet_fresh; [exact Ha|apply (upb_msg_new_fresh m)|reflexivity]. Qed.

Lemma msg_new_subobject_quiet W a f r :
  arena_wf a -> msg_new_subobject a f = Ok r -> quiet W a (snd r).
Proof. intros Ha (n & o & Ho & Hm)%msg_new_subobject_fresh. eapply quiet_fresh; eauto. Qed.

Lemma upb_map_new_quiet W a kt vt r :
  arena_wf a -> upb_map_new a kt vt = Ok r -> quiet W a (snd r).
Proof. intros Ha (o & Ho & Hm)%upb_map_new_fresh. eapply quiet_fresh; eauto. Qed.

(** ** The array functions *)

Lemma upb_array_set_quiet (W : Z -> Prop) a arr i val a' :
  store_wf a -> 0 <= i -> W arr -> upb_array_set a arr i val = Ok a' -> quiet W a a'.
Proof.
  intros Hs Hi Hw. unfold upb_array_set. intros H.
  destruct (get_array a arr) as [hdr|] eqn:Hg; [|discriminate]. cbn [bind] in H.
  destruct (Z.ltb_spec i (arr_len hdr)) as [Hlt|]; [|discriminate].
  destruct (prefix_bytes _ _) as [bs|]; [|discriminate]. cbn [bind] in H.
  pose proof (awf_len _ _ _ (swf_arrays _ Hs _ _ Hg)).
  exact (quiet_buffer_store W a arr hdr (array_elem_ptr hdr i) _ _
           (swf_unshared _ Hs) Hg ltac:(lia) eq_refl Hw H).
Qed.

Lemma upb_array_realloc_quiet (W : Z -> Prop) a arr m r :
  arena_wf a -> W arr -> _upb_array_realloc a arr m = Ok r -> quiet W a (snd r).
Proof.
  intros Ha Hw H. destruct r as [ok a'].
  destruct (upb_array_realloc_inv _ _ _ _ _ H) as (hdr & Hg & H').
  destruct H' as [(_ & _ & ->)|(_ & n & _ & [(_ & ->)|(_ & bs & p & a1 & _ & Hm & Hp & ->)])];
    [reflexivity..|]. cbn [snd].
  eapply quiet_set_buffer; [exact Ha|exact Hm|exact Hp|exact Hg|exact Hw|].
  apply tag_high; [|apply land7_range].
  apply mod16_mod8, (malloc_range _ _ _ _ _ Ha Hm).
Qed.

Lemma array_len_incr_quiet (W : Z -> Prop) a arr a' :
  W arr -> array_len_incr a arr = Ok a' -> quiet W a a'.
Proof.
  unfold array_len_incr. intros Hw. destruct (get_array a arr) as [hdr|] eqn:Hg; [|discriminate].
  cbn [bind]. intros [= <-].
  eapply quiet_set_header; [apply get_array_Ok; exact Hg|discriminate|exact Hw|].
  intros hdr' [= <-] Hsz. exists arr, hdr. auto.
Qed.

Lemma upb_array_append_quiet (W : Z -> Prop) a arr val r :
  store_wf a -> W arr -> upb_array_append a arr val = Ok r -> quiet W a (snd r).
Proof.
  intros Hs Hw H. pose proof (swf_arena _ Hs) as Ha. unfold upb_array_append in H.
  destruct (get_array a arr) as [hdr|] eqn:Hg; [|discriminate]. cbn [bind] in H.
  pose proof (swf_arrays _ Hs _ _ Hg) as Hwf. pose proof (awf_len _ _ _ Hwf) as Hlen.
  pose proof (store_array_small _ _ _ Hs Hg) as Hsm.
  rewrite wrap_small in H by (unfold in_unsigned; lia).
  destruct (upb_array_realloc_spec a arr hdr (arr_len hdr + 1) Ha Hwf)
    as (ok & a1 & E & Hok); [lia|].
  pose proof (upb_array_realloc_store a arr (arr_len hdr + 1) _ Hs ltac:(lia) E) as Hs1.
  pose proof (upb_array_realloc_quiet W _ _ _ _ Ha Hw E) as Hq1.
  rewrite E in H. cbn [bind fst snd] in *.
  destruct ok; cbn [negb] in H; [|injection H as <-; exact Hq1].
  destruct Hok as (_ & hdr1 & Hwf1 & Hl1 & _ & Hroom & _).
  destruct (array_len_incr a1 arr) as [a2|] eqn:Hi; [|discriminate]. cbn [bind] in H.
  destruct (get_array a2 arr) as [hdr2|]; [|discriminate]. cbn [bind] in H.
  destruct (upb_array_set _ _ _ _) as [a3|] eqn:Hset; [|discriminate]. injection H as <-.
  etrans; [exact Hq1|]. etrans; [exact (array_len_incr_quiet W _ _ _ Hw Hi)|].
  eapply upb_array_set_quiet; [|apply (wrap_range 64); lia|exact Hw|exact Hset].
  eapply array_len_incr_store; [exact Hs1|exact (awf_hdr _ _ _ Hwf1)|lia|exact Hi].
Qed.

(** ** The map functions *)

Lemma _upb_map_tovalue_quiet W a val vs r :
  arena_wf a -> _upb_map_tovalue a val vs = Ok r -> quiet W a (snd r).
Proof.
  intros Ha. unfold _upb_map_tovalue. destruct (vs =? _).
  - destruct (prefix_bytes _ _) as [sv|]; [|discriminate]. cbn [bind]. intros [= <-].
    eapply quiet_malloc; [exact Ha|apply surjective_pairing|discriminate].
  - intros H. res_inv. reflexivity.
Qed.

Lemma _upb_map_set_quiet {T} `{StrTable T} W a (m : upb_map T) key ks val vs r :
  arena_wf a -> _upb_map_set a m key ks val vs = Ok r -> quiet W a (snd r).
Proof.
  intros Ha. unfold _upb_map_set. intros Hr.
  destruct (_upb_map_tokey _ _ _) as [k|]; [|discriminate]. cbn [bind] in Hr.
  destruct (_upb_map_tovalue _ _ _) as [[v a1]|] eqn:Hv; [|discriminate].
  cbn [bind fst snd] in Hr.
  pose proof (_upb_map_tovalue_quiet W _ _ _ _ Ha Hv) as Hq. cbn [snd] in Hq.
  destruct (_upb_map_tovalue_preserves _ _ _ _ _ Hv Ha) as [Ha1 _].
  destruct (_ && _); [injection Hr as <-; reflexivity|].
  destruct (upb_arena_malloc a1 _ _) as [ka a2] eqn:Hm. cbn [fst snd] in Hr.
  destruct (ka =? 0); injection Hr as <-; [exact Hq|].
  etrans; [exact Hq|]. eapply quiet_malloc; [exact Ha1|exact Hm|discriminate].
Qed.

Lemma upb_map_set_quiet (W : Z -> Prop) a map key val r :
  arena_wf a -> W map -> upb_map_set a map key val = Ok r -> quiet W a (snd r).
Proof.
  intros Ha Hw. unfold upb_map_set.
  destruct (get_map a map) as [m|] eqn:Hg; [|discriminate]. cbn [bind].
  destruct (_upb_map_set _ _ _ _ _ _) as [[[ok1 m1] a1]|] eqn:Hset; [|discriminate].
  cbn [bind fst snd]. intros [= <-]. cbn [snd].
  pose proof (_upb_map_set_quiet W _ _ _ _ _ _ _ Ha Hset) as Hq. cbn [snd] in Hq.
  destruct (_upb_map_set_preserves _ _ _ _ _ _ _ _ _ Hset Ha) as [_ Hle].
  pose proof (le_kind _ _ Hle _ _ (arena_kind_map _ _ _ Hg)) as (m0 & Hm0 & _)%arena_kind_map_inv.
  etrans; [exact Hq|].
  eapply quiet_set_header; [apply get_map_Ok; exact Hm0|discriminate|exact Hw|discriminate].
Qed.

Lemma upb_map_delete_quiet (W : Z -> Prop) a map key r :
  W map -> upb_map_delete a map key = Ok r -> quiet W a (snd r).
Proof.
  unfold upb_map_delete. intros Hw. destruct (get_map a map) as [m|] eqn:Hg; [|discriminate]. cbn [bind].
  destruct (_upb_map_delete _ _ _ _) as [d|] eqn:Hd; [|discriminate]. cbn [bind].
  intros [= <-]. cbn [snd].
  eapply quiet_set_header; [apply get_map_Ok; exact Hg|discriminate|exact Hw|discriminate].
Qed.

(** ** The message functions *)

(** [upb_msg_set] and [upb_msg_mutable] write into the message they are
    given and nowhere else. *)
Lemma upb_msg_set_private a msg f val a' p :
  private a p -> upb_msg_set a msg f val = Ok a' ->
  private a' p /\ (msg <> p -> get_bytes a' p = get_bytes a p).
Proof.
  unfold upb_msg_set, oneofcase. intros Hp H. res_inv.
  destruct (private_store _ _ _ _ p Hp E1) as [Hp1 Hk1].
  destruct (in_oneof (upb_fielddef_layout f)); cbn [bind] in H; res_inv; [|auto].
  destruct (private_store _ _ _ _ p Hp1 H) as [Hp2 Hk2].
  split; [exact Hp2|]. intros Hne. rewrite Hk2, Hk1 by exact Hne. reflexivity.
Qed.

Lemma upb_msg_mutable_private a msg f r p :
  arena_wf a -> private a p -> upb_msg_mutable a msg f = Ok r ->
  private (snd r) p /\ (msg <> p -> get_bytes (snd r) p = get_bytes a p).
Proof.
  unfold upb_msg_mutable. intros Ha Hp H.
  destruct (mem_load _ _ _) as [bs|]; [|discriminate]. cbn [bind] in H.
  destruct (dec_unsigned bs =? 0); [|injection H as <-; auto].
  destruct (msg_new_subobject a f) as [[q a1]|] eqn:Hn; [|discriminate]. cbn [bind] in H.
  destruct (mem_store _ _ _) as [a2|] eqn:Hst; [|discriminate]. injection H as <-.
  destruct (private_quiet _ _ _ _ Hp (msg_new_subobject_quiet (fun _ => False) _ _ _ Ha Hn))
    as [Hp1 Hk1].
  destruct (private_store _ _ _ _ p Hp1 Hst) as [Hp2 Hk2]. cbn [snd] in *.
  split; [exact Hp2|]. intros Hne. rewrite Hk2, Hk1 by exact Hne. reflexivity.
Qed.

(** Nor do they change a container, when the message is no buffer. *)
Lemma upb_msg_set_keeps W a msg f val a' :
  private a msg -> upb_msg_set a msg f val = Ok a' -> keeps W a a'.
Proof.
  unfold upb_msg_set, oneofcase. intros Hp H. res_inv.
  pose proof (keeps_store_private W _ (PTR_AT msg _) _ _ Hp E1) as Hk1.
  destruct (in_oneof (upb_fielddef_layout f)); cbn [bind] in H; res_inv; [|exact Hk1].
  etrans; [exact Hk1|]. eapply keeps_store_private; [|exact H].
  exact (proj1 (private_store _ _ _ _ msg Hp E1)).
Qed.

Lemma upb_msg_mutable_keeps W a msg f r :
  arena_wf a -> private a msg -> upb_msg_mutable a msg f = Ok r -> keeps W a (snd r).
Proof.
  unfold upb_msg_mutable. intros Ha Hp H.
  destruct (mem_load _ _ _) as [bs|]; [|discriminate]. cbn [bind] in H.
  destruct (dec_unsigned bs =? 0); [|injection H as <-; reflexivity].
  destruct (msg_new_subobject a f) as [[q a1]|] eqn:Hn; [|discriminate]. cbn [bind] in H.
  destruct (mem_store _ _ _) as [a2|] eqn:Hst; [|discriminate]. injection H as <-.
  pose proof (msg_new_subobject_quiet W _ _ _ Ha Hn) as Hq.
  etrans; [exact (q_keeps _ _ _ Hq)|]. eapply keeps_store_private; [|exact Hst].
  exact (proj1 (private_quiet _ _ _ _ Hp Hq)).
Qed.
