(* ===== verification/Api.v ===== *)
(** * Api: the operations as steps of one arena

    A program that uses reflection.c calls its functions one after the
    other on handles it obtained earlier.  This file puts the functions
    that change the arena into one type of calls ([call]), runs a call on
    an arena ([run], a fault of the function is a fault of the call), and
    defines the states a program can reach from an empty arena
    ([reachable]).  What holds of every reachable state is proved by
    induction on [reachable]: the allocator's invariant and the
    invariant of the store.  What a sequence of calls
    leaves as it was is proved by induction on the sequence: the blocks
    that no call is given as its message, and the arrays and maps that no
    call is given as its container. *)

From Stdlib Require Import ZArith Lia List.
From coqutil Require Import Byte Word.LittleEndianList.
From stdpp Require Import base tactics list numbers gmap.
From S2P Require Import Prelude Layout Arena Array Table Map Msg Store Frame.

#[local] Open Scope Z_scope.

(** ** Calls *)

Inductive call : Type :=
| call_msg_new (m : upb_msgdef)
| call_msg_set (msg : Z) (f : upb_fielddef) (val : list byte)
| call_msg_mutable (msg : Z) (f : upb_fielddef)
| call_array_set (arr : Z) (i : Z) (val : list byte)
| call_array_append (arr : Z) (val : list byte)
| call_array_resize (arr : Z) (size : Z)
| call_map_new (key_type value_type : upb_fieldtype_t)
| call_map_set (map : Z) (key val : list byte)
| call_map_delete (map : Z) (key : list byte).

(** The arena after a call; what the call returns is dropped. *)
Definition run (a : upb_arena) (c : call) : res upb_arena :=
  match c with
  | call_msg_new m => Ok (snd (upb_msg_new m a))
  | call_msg_set msg f val => upb_msg_set a msg f val
  | call_msg_mutable msg f => r <- upb_msg_mutable a msg f ;; Ok (snd r)
  | call_array_set arr i val => upb_array_set a arr i val
  | call_array_append arr val => r <- upb_array_append a arr val ;; Ok (snd r)
  | call_array_resize arr size => r <- upb_array_resize a arr size ;; Ok (snd r)
  | call_map_new kt vt => r <- upb_map_new a kt vt ;; Ok (snd r)
  | call_map_set map key val => r <- upb_map_set a map key val ;; Ok (snd r)
  | call_map_delete map key => r <- upb_map_delete a map key ;; Ok (snd r)
  end.

(** A sequence of calls, stopping at the first fault. *)
Fixpoint run_all (a : upb_arena) (cs : list call) : res upb_arena :=
  match cs with
  | [] => Ok a
  | c :: cs' => a' <- run a c ;; run_all a' cs'
  end.

(** One call that returns. *)
Inductive step : upb_arena -> upb_arena -> Prop :=
| step_call a c a' : run a c = Ok a' -> step a a'.

(** The states a program reaches from the empty arena of [limit] bytes. *)
Inductive reachable (limit : Z) : upb_arena -> Prop :=
| reachable_init : reachable limit (arena_init limit)
| reachable_step a a' : reachable limit a -> step a a' -> reachable limit a'.

(** ** Calls a caller may make *)

(** What the caller has to bound: the index given to [upb_array_set] is
    a [size_t], and the size asked of [upb_array_resize] is shifted and
    doubled unchecked. *)
Definition call_bounded (c : call) : Prop :=
  match c with
  | call_array_set _ i _ => 0 <= i
  | call_array_resize _ size => size <= arena_max
  | _ => True
  end.

(** The block a call writes into, the buffers of arrays apart: the
    message given to [upb_msg_set] or [upb_msg_mutable]. *)
Definition call_writes (c : call) (p : Z) : Prop :=
  match c with
  | call_msg_set msg _ _ | call_msg_mutable msg _ => msg = p
  | _ => False
  end.

(** The container a call works on: the array or the map it is given. *)
Definition call_target (c : call) (q : Z) : Prop :=
  match c with
  | call_array_set arr _ _ | call_array_append arr _ | call_array_resize arr _ => arr = q
  | call_map_set map _ _ | call_map_delete map _ => map = q
  | _ => False
  end.

(** The containers the calls of a program work on. *)
Definition targets (cs : list call) (q : Z) : Prop := Exists (fun c => call_target c q) cs.

#[export] Instance call_bounded_dec c : Decision (call_bounded c).
Proof. destruct c; cbn; apply _. Defined.

(** The contract of each function, as the specification states it: the
    handle is an object of the kind the function works on, a field lies
    inside its message, an index is below the length, a value is at least
    as wide as what is copied from it, and the key of a map can be read. *)
Definition call_valid (a : upb_arena) (c : call) : Prop :=
  match c with
  | call_msg_new _ => True
  | call_msg_set msg f val =>
      exists n sz, msg_wf a msg n /\ field_wf n f sz /\ sz <= Z.of_nat (length val)
  | call_msg_mutable msg f =>
      exists n, msg_wf a msg n /\
        (0 <= offset (upb_fielddef_layout f) /\
         offset (upb_fielddef_layout f) + sizeof_ptr <= n) /\
        field_creatable f
  | call_array_set arr i val =>
      exists hdr, get_array a arr = Ok hdr /\ 0 <= i < arr_len hdr /\
        Z.shiftl 1 (array_lg2 hdr) <= Z.of_nat (length val)
  | call_array_append arr val =>
      exists hdr, get_array a arr = Ok hdr /\
        Z.shiftl 1 (array_lg2 hdr) <= Z.of_nat (length val)
  | call_array_resize arr size =>
      (exists hdr, get_array a arr = Ok hdr) /\ size <= arena_max
  | call_map_new _ _ => True
  | call_map_set map key val =>
      exists m k, get_map a map = Ok m /\
        _upb_map_tokey a key (map_key_size m) = Ok k /\
        map_value_width (map_val_size m) <= Z.of_nat (length val)
  | call_map_delete map key =>
      exists m k, get_map a map = Ok m /\
        _upb_map_tokey a key (map_key_size m) = Ok k
  end.

(** A program whose every call meets its contract in the state it is
    made in. *)
Fixpoint calls_valid (a : upb_arena) (cs : list call) : Prop :=
  match cs with
  | [] => True
  | c :: cs' => call_valid a c /\ forall a', run a c = Ok a' -> calls_valid a' cs'
  end.

(** A program whose every call that is given a message is given a block
    that no array has as its buffer, in the state the call is made in. *)
Fixpoint calls_private (a : upb_arena) (cs : list call) : Prop :=
  match cs with
  | [] => True
  | c :: cs' => (forall p, call_writes c p -> private a p) /\
                forall a', run a c = Ok a' -> calls_private a' cs'
  end.

(** An executable check of [calls_private]. *)
Definition call_private_b (a : upb_arena) (c : call) : bool :=
  match c with
  | call_msg_set msg _ _ | call_msg_mutable msg _ =>
      match get_bytes a msg with Ok _ => negb (is_buffer_b a msg) | Err _ => false end
  | _ => true
  end.

Fixpoint calls_private_b (a : upb_arena) (cs : list call) : bool :=
  match cs with
  | [] => true
  | c :: cs' =>
      call_private_b a c &&
      match run a c with Ok a' => calls_private_b a' cs' | Err _ => true end
  end.

(** ** Example: a message, its repeated field, two appends, a map *)

Definition example_calls : list call :=
  [ call_msg_new example_msgdef;
    call_msg_mutable 16 example_rep;
    call_array_append 80 (msgval_int32 1);
    call_array_append 80 (msgval_int32 2);
    call_msg_set 16 example_o1 (msgval_int32 7);
    call_map_new UPB_TYPE_INT32 UPB_TYPE_STRING;
    call_map_set 128 (msgval_int32 5) (msgval_str 1000 1);
    call_array_resize 80 8 ].

Definition example_state : upb_arena :=
  match run_all (arena_init 4096) example_calls with
  | Ok a => a
  | Err _ => arena_init 4096
  end.

(** The state after the message and its array are made, and the calls
    that follow and are given no message. *)
Definition example_made : upb_arena :=
  match run_all (arena_init 4096) (take 2 example_calls) with
  | Ok a => a
  | Err _ => arena_init 4096
  end.

Definition example_rest : list call :=
  [ call_array_append 80 (msgval_int32 1);
    call_array_append 80 (msgval_int32 2);
    call_map_new UPB_TYPE_INT32 UPB_TYPE_STRING;
    call_map_set 128 (msgval_int32 5) (msgval_str 1000 1);
    call_array_resize 80 8 ].

Definition example_late : upb_arena :=
  match run_all example_made example_rest with
  | Ok a => a
  | Err _ => example_made
  end.

(** Calls on the array and the message of [example_state], none on its
    map. *)
Definition example_more : list call :=
  [ call_array_append 80 (msgval_int32 3);
    call_msg_set 16 example_o1 (msgval_int32 9);
    call_array_set 80 0 (msgval_int32 4) ].

Definition example_after : upb_arena :=
  match run_all example_state example_more with
  | Ok a => a
  | Err _ => example_state
  end.

(** ** Lemmas *)

Lemma run_preserves a c a' : run a c = Ok a' -> preserves a a'.
Proof.
  destruct c; cbn [run]; intros H; res_inv;
    eauto using upb_msg_new_preserves, upb_msg_set_preserves, upb_array_set_preserves.
  - destruct a0. eapply upb_msg_mutable_preserves; eauto.
  - destruct a0. eapply upb_array_append_preserves; eauto.
  - destruct a0. eapply upb_array_resize_preserves; eauto.
  - destruct a0. eapply upb_map_new_preserves; eauto.
  - destruct a0. eapply upb_map_set_preserves; eauto.
  - destruct a0. eapply upb_map_delete_preserves; eauto.
Qed.

Lemma run_all_preserves cs : forall a a', run_all a cs = Ok a' -> preserves a a'.
Proof.
  induction cs as [|c cs IH]; intros a a'; cbn [run_all].
  - intros [= <-]. reflexivity.
  - destruct (run a c) as [a1|] eqn:Hr; [|discriminate]. cbn [bind]. intros H.
    etrans; [eapply run_preserves; eauto|eauto].
Qed.

Lemma run_all_reachable limit cs : forall a a',
  reachable limit a -> run_all a cs = Ok a' -> reachable limit a'.
Proof.
  induction cs as [|c cs IH]; intros a a' Hr; cbn [run_all].
  - intros [= <-]. exact Hr.
  - destruct (run a c) as [a1|] eqn:Hc; [|discriminate]. cbn [bind].
    apply IH. eapply reachable_step; [exact Hr|]. econstructor. exact Hc.
Qed.

Lemma reachable_preserves limit a : reachable limit a -> preserves (arena_init limit) a.
Proof.
  induction 1 as [|a a' _ IH Hs]; [reflexivity|].
  destruct Hs as [a1 c a2 Hc]. etrans; [exact IH|]. eapply run_preserves; eauto.
Qed.

Lemma msg_wf_kind a msg n : msg_wf a msg n <-> exists k, arena_kind a msg = Some (KBytes k) /\ Z.of_nat k = n.
Proof.
  unfold msg_wf, arena_kind, get_bytes. split.
  - intros (bs & Hb & Hn). destruct (a_objs a !! msg) as [[bs0| |]|]; try discriminate.
    injection Hb as ->. eauto.
  - intros (k & Hk & Hn). destruct (a_objs a !! msg) as [[bs0| |]|]; try discriminate.
    injection Hk as <-. eauto.
Qed.

(** ** The invariant of the store *)

Lemma call_valid_bounded a c : call_valid a c -> call_bounded c.
Proof. destruct c; cbn; try tauto. intros (hdr & _ & Hi & _). lia. Qed.

(** Preservation: a call that returns keeps the invariant. *)
Lemma run_store_wf a c a' :
  store_wf a -> call_bounded c -> run a c = Ok a' -> store_wf a'.
Proof.
  intros Hs Hb. destruct c; cbn [run]; intros H; res_inv;
    eauto using upb_msg_new_store, upb_msg_set_store, upb_msg_mutable_store,
      upb_array_set_store, upb_array_append_store, upb_map_new_store,
      upb_map_set_store, upb_map_delete_store.
  eapply upb_array_resize_store; eauto.
Qed.

(** Progress: a call that meets its contract returns. *)
Lemma run_returns a c : store_wf a -> call_valid a c -> exists a', run a c = Ok a'.
Proof.
  intros Hs. pose proof (swf_arena _ Hs) as Ha. destruct c; cbn [run call_valid].
  - eauto.
  - intros (n & sz & Hm & Hf & Hv).
    destruct (upb_msg_set_spec a msg n f sz val Hm Hf Hv) as (a' & -> & _). eauto.
  - intros (n & Hm & Ho & Hc).
    destruct (upb_msg_mutable_total a msg n f Ha Hm Ho Hc) as (r & ->). cbn. eauto.
  - intros (hdr & Hg & Hi & Hv). pose proof (swf_arrays _ Hs _ _ Hg) as Hwf.
    destruct (array_elems_total _ _ _ Hwf) as (l & Hl).
    destruct (upb_array_set_spec a arr hdr l i val Hwf Hl Hi Hv) as (a' & -> & _). eauto.
  - intros (hdr & Hg & Hv). pose proof (swf_arrays _ Hs _ _ Hg) as Hwf.
    destruct (array_elems_total _ _ _ Hwf) as (l & Hl).
    pose proof (store_array_small _ _ _ Hs Hg). pose proof (awf_len _ _ _ Hwf).
    destruct (upb_array_append_spec a arr hdr l val Ha Hwf Hl) as (ok & a' & -> & _);
      [lia|exact Hv|]. cbn. eauto.
  - intros [(hdr & Hg) Hb]. unfold upb_array_resize.
    destruct (upb_array_realloc_spec a arr hdr size Ha (swf_arrays _ Hs _ _ Hg) Hb)
      as (ok & a' & -> & _). cbn. eauto.
  - destruct (upb_map_new_total a key_type value_type) as (r & ->). cbn. eauto.
  - intros (m & k & Hg & Hk & Hv).
    destruct (upb_map_set_total a map m key val k (swf_maps _ Hs _ _ Hg) Hk Hv) as (r & ->).
    cbn. eauto.
  - intros (m & k & Hg & Hk).
    destruct (upb_map_delete_total a map m key k Hg Hk) as (r & ->). cbn. eauto.
Qed.

Lemma run_all_store_wf cs : forall a a',
  store_wf a -> Forall call_bounded cs -> run_all a cs = Ok a' -> store_wf a'.
Proof.
  induction cs as [|c cs IH]; intros a a' Hs Hb; cbn [run_all].
  - intros [= <-]. exact Hs.
  - destruct (run a c) as [a1|] eqn:Hr; [|discriminate]. cbn [bind].
    apply Forall_cons in Hb as [Hc Hcs]. apply IH; [|exact Hcs].
    eapply run_store_wf; eauto.
Qed.

Lemma run_all_returns cs : forall a,
  store_wf a -> calls_valid a cs -> exists a', run_all a cs = Ok a' /\ store_wf a'.
Proof.
  induction cs as [|c cs IH]; intros a Hs; cbn [run_all calls_valid].
  - eauto.
  - intros [Hc Hcs]. destruct (run_returns a c Hs Hc) as (a1 & Hr). rewrite Hr. cbn [bind].
    apply IH; [|exact (Hcs a1 Hr)].
    eapply run_store_wf; eauto using call_valid_bounded.
Qed.

(** ** Who writes where *)

#[local] Hint Extern 1 (call_target _ _) => exact eq_refl : core.

(** A call that is given no message is quiet on its container. *)
Lemma run_quiet a c a' :
  store_wf a -> call_bounded c -> (forall p, ~ call_writes c p) ->
  run a c = Ok a' -> quiet (call_target c) a a'.
Proof.
  intros Hs Hb Hw. pose proof (swf_arena _ Hs) as Ha.
  destruct c; cbn [run call_writes call_bounded call_target] in *; intros H;
    try (exfalso; exact (Hw _ eq_refl)); res_inv;
    eauto using upb_msg_new_quiet, upb_array_set_quiet, upb_array_append_quiet,
      upb_array_realloc_quiet, upb_map_new_quiet, upb_map_set_quiet, upb_map_delete_quiet.
Qed.

(** A call keeps the containers it is not given, when the message it is
    given, if any, is no buffer. *)
Lemma run_keeps a c a' :
  store_wf a -> call_bounded c -> (forall p, call_writes c p -> private a p) ->
  run a c = Ok a' -> keeps (call_target c) a a'.
Proof.
  intros Hs Hb Hp H.
  assert (Hq : (forall q, ~ call_writes c q) -> keeps (call_target c) a a')
    by (intros Hw; eapply q_keeps, run_quiet; eauto).
  destruct c; try (apply Hq; intros q Hw; exact Hw); cbn [run] in H.
  - exact (upb_msg_set_keeps _ _ _ _ _ _ (Hp _ eq_refl) H).
  - res_inv. exact (upb_msg_mutable_keeps _ _ _ _ _ (swf_arena _ Hs) (Hp _ eq_refl) E).
Qed.

Lemma run_all_keeps cs : forall a a',
  store_wf a -> Forall call_bounded cs -> calls_private a cs -> run_all a cs = Ok a' ->
  keeps (targets cs) a a'.
Proof.
  induction cs as [|c cs IH]; intros a a' Hs Hb Hp; cbn [run_all].
  - intros [= <-]. reflexivity.
  - destruct (run a c) as [a1|] eqn:Hr; [|discriminate]. cbn [bind]. intros Hrest.
    apply Forall_cons in Hb as [Hc Hcs]. destruct Hp as [Hp Hps].
    etrans; (eapply keeps_mono; [|eauto using run_keeps, run_store_wf]);
      intros q Hq; [left|right]; exact Hq.
Qed.

Lemma calls_private_b_true cs : forall a,
  calls_private_b a cs = true -> calls_private a cs.
Proof.
  induction cs as [|c cs IH]; intros a; cbn [calls_private_b calls_private]; [auto|].
  intros [Hc Hcs]%andb_true_iff. split.
  - intros p Hw. destruct c; cbn [call_writes call_private_b] in *; try contradiction;
      subst p; destruct (get_bytes a msg) as [bs|] eqn:Hb; try discriminate;
      (split; [eauto|apply is_buffer_b_false, negb_true_iff, Hc]).
  - intros a' Hr. rewrite Hr in Hcs. apply IH, Hcs.
Qed.

Lemma run_private a c a' p :
  store_wf a -> call_bounded c -> private a p -> run a c = Ok a' ->
  private a' p /\ (~ call_writes c p -> get_bytes a' p = get_bytes a p).
Proof.
  intros Hs Hb Hp H.
  assert (Hq : (forall q, ~ call_writes c q) ->
               private a' p /\ get_bytes a' p = get_bytes a p)
    by (intros Hw; eapply private_quiet; [exact Hp|eapply run_quiet; eauto]).
  destruct c; try (destruct Hq as [? ?]; [intros q Hw; exact Hw|split; auto]); cbn [run] in H.
  - exact (upb_msg_set_private _ _ _ _ _ _ Hp H).
  - res_inv. exact (upb_msg_mutable_private _ _ _ _ _ (swf_arena _ Hs) Hp E).
Qed.

Lemma run_all_private cs : forall a a' p,
  store_wf a -> Forall call_bounded cs -> private a p -> run_all a cs = Ok a' ->
  private a' p /\
  (Forall (fun c => ~ call_writes c p) cs -> get_bytes a' p = get_bytes a p).
Proof.
  induction cs as [|c cs IH]; intros a a' p Hs Hb Hp; cbn [run_all].
  - intros [= <-]. auto.
  - destruct (run a c) as [a1|] eqn:Hr; [|discriminate]. cbn [bind]. intros Hrest.
    apply Forall_cons in Hb as [Hc Hcs].
    destruct (run_private _ _ _ p Hs Hc Hp Hr) as [Hp1 Hk1].
    destruct (IH a1 a' p (run_store_wf _ _ _ Hs Hc Hr) Hcs Hp1 Hrest) as [Hp' Hk].
    split; [exact Hp'|]. intros [Hw Hws]%Forall_cons. rewrite Hk, Hk1; auto.
Qed.

(** ** Properties of the reachable states *)

(** The allocator's invariant holds in every state a program reaches
    from an empty arena: the allocation pointer is aligned and within the
    limit, the limit is the one the arena was made with, and every object
    lies at an aligned address below the allocation pointer. *)
Theorem reachable_arena_wf limit a :
  arena_align <= limit <= 2 ^ 64 -> reachable limit a ->
  arena_wf a /\ a_limit a = limit.
Proof.
  intros Hl Hr. destruct (reachable_preserves limit a Hr (arena_init_wf limit Hl)) as [Hwf L].
  split; [exact Hwf|]. exact (le_limit _ _ L).
Qed.

Lemma reachable_arena_wf_witness :
  arena_wf example_state /\ a_limit example_state = 4096.
Proof.
  apply (reachable_arena_wf 4096 example_state); [vm_compute; split; congruence|].
  apply (run_all_reachable 4096 example_calls (arena_init 4096));
    [apply reachable_init|vm_compute; reflexivity].
Defined.

(** C9: the invariant of the store holds in every state a program
    reaches from an empty arena of at most 2^58 bytes by calls that
    return, on whatever addresses and with whatever values they are made,
    as long as the sizes asked of [upb_array_resize] are at most 2^58
    (and an index is not negative, as a [size_t] is not): every array header has a legal element width, a length within its
    capacity and a buffer of exactly the capacity's size, every map header
    has legal widths and a table of distinct keys of the key width, and
    every block lies inside the allocated part of the arena. *)
Theorem reachable_store_wf limit cs a :
  arena_align <= limit <= arena_max -> Forall call_bounded cs ->
  run_all (arena_init limit) cs = Ok a -> store_wf a.
Proof.
  intros Hl Hb Hr. eapply run_all_store_wf; [apply store_wf_init; exact Hl|exact Hb|exact Hr].
Qed.

Lemma reachable_store_wf_witness : store_wf example_state.
Proof.
  apply (reachable_store_wf 4096 example_calls example_state);
    [vm_compute; split; congruence|repeat constructor; vm_compute; congruence|
     vm_compute; reflexivity].
Defined.

(** C10: calls that meet their contract do not go wrong: in a state that
    satisfies the invariant of the store, a call whose handle is an object
    of the kind the function works on, whose field lies inside the
    message, whose index is below the length, whose value is wide enough
    and whose key can be read returns (no assertion fails, nothing is
    read or written out of bounds, the capacity loop ends) and leaves a
    state that satisfies the invariant. *)
Theorem run_valid_safe a c :
  store_wf a -> call_valid a c -> exists a', run a c = Ok a' /\ store_wf a'.
Proof.
  intros Hs Hc. destruct (run_returns a c Hs Hc) as (a' & Hr). exists a'.
  split; [exact Hr|]. eapply run_store_wf; eauto using call_valid_bounded.
Qed.

Lemma run_valid_safe_witness :
  exists a', run example_state (call_array_append 80 (msgval_int32 3)) = Ok a' /\ store_wf a'.
Proof.
  apply (run_valid_safe example_state (call_array_append 80 (msgval_int32 3)));
    [apply store_wf_b_true; vm_compute; reflexivity|].
  eexists. split; [vm_compute; reflexivity|vm_compute; congruence].
Defined.

(** ** The example, evaluated *)

Example example_state_reads :
  (v <- upb_msg_get example_state 16 example_o1 ;; int32_val v) = Ok 7 /\
  array_elems example_state 80 = Ok [msgval_int32 1; msgval_int32 2] /\
  upb_map_get example_state 128 (msgval_int32 5) = Ok (Some (msgval_str 1000 1)) /\
  (v <- upb_msg_get example_state 16 example_rep ;; ptr_val v) = Ok 80.
Proof. vm_compute. repeat split. Qed.

(** C13: the functions write where they are told and nowhere else: a
    block that no array uses as its buffer (a message, the bytes of a
    string) has the same bytes after any sequence of calls that return,
    as long as it is not the message given to [upb_msg_set] or
    [upb_msg_mutable], and no array takes it as its buffer; the array and
    map functions write into array buffers and new blocks only. *)
Theorem run_all_isolated a cs a' p bs :
  store_wf a -> Forall call_bounded cs -> Forall (fun c => ~ call_writes c p) cs ->
  get_bytes a p = Ok bs -> ~ is_buffer a p ->
  run_all a cs = Ok a' ->
  get_bytes a' p = Ok bs /\ ~ is_buffer a' p.
Proof.
  intros Hs Hb Hw Hp Hn Hr.
  destruct (run_all_private cs a a' p Hs Hb (conj (ex_intro _ bs Hp) Hn) Hr) as [[_ Hn'] Hk].
  split; [rewrite (Hk Hw); exact Hp|exact Hn'].
Qed.

Lemma run_all_isolated_witness :
  get_bytes example_late 16 = get_bytes example_made 16 /\ ~ is_buffer example_late 16.
Proof.
  destruct (get_bytes example_made 16) as [bs|] eqn:Hb; [|vm_compute in Hb; discriminate].
  apply (run_all_isolated example_made example_rest example_late 16 bs);
    [apply store_wf_b_true; vm_compute; reflexivity
    |repeat constructor; vm_compute; congruence
    |repeat constructor; intros []
    |exact Hb
    |apply is_buffer_b_false; vm_compute; reflexivity
    |vm_compute; reflexivity].
Defined.

(** C14: the functions change the container they are given and no other:
    after any sequence of calls that return, an array that none of the
    calls is given has the header and the elements it had, and a map that
    none is given has the header and the contents it had, as long as the
    message given to [upb_msg_set] or [upb_msg_mutable] is no buffer of
    an array when the call is made.  For the writes into arrays this is
    the invariant that no two arrays share a buffer. *)
Theorem run_all_separate a cs a' q :
  store_wf a -> Forall call_bounded cs -> calls_private a cs ->
  Forall (fun c => ~ call_target c q) cs ->
  run_all a cs = Ok a' ->
  (forall hdr, get_array a q = Ok hdr ->
     get_array a' q = Ok hdr /\ array_elems a' q = array_elems a q) /\
  (forall m, get_map a q = Ok m ->
     get_map a' q = Ok m /\ map_contents a' q = map_contents a q).
Proof.
  intros Hs Hb Hp Hq Hr. pose proof (run_all_keeps cs a a' Hs Hb Hp Hr) as Hk.
  assert (Hn : ~ targets cs q)
    by (intros Ht%Exists_exists; rewrite Forall_forall in Hq; destruct Ht as (c & Hc & Ht);
        exact (Hq c Hc Ht)).
  split.
  - intros hdr Hg. split; [exact (proj1 (proj1 Hk q hdr Hn Hg))|].
    eapply array_elems_keeps; eauto.
  - intros m Hg. split; [exact (proj2 Hk q m Hn Hg)|].
    eapply map_contents_keeps; eauto.
Qed.

Lemma run_all_separate_witness :
  (forall hdr, get_array example_state 128 = Ok hdr ->
     get_array example_after 128 = Ok hdr /\
     array_elems example_after 128 = array_elems example_state 128) /\
  (forall m, get_map example_state 128 = Ok m ->
     get_map example_after 128 = Ok m /\
     map_contents example_after 128 = map_contents example_state 128).
Proof.
  apply (run_all_separate example_state example_more example_after 128);
    [apply store_wf_b_true; vm_compute; reflexivity
    |repeat constructor; vm_compute; congruence
    |apply calls_private_b_true; vm_compute; reflexivity
    |repeat constructor; vm_compute; congruence
    |vm_compute; reflexivity].
Defined.

(** The map of the example after the calls on its array and its message,
    and the array after them. *)
Example example_after_reads :
  upb_map_get example_after 128 (msgval_int32 5) = Ok (Some (msgval_str 1000 1)) /\
  array_elems example_after 80 = Ok [msgval_int32 4; msgval_int32 2; msgval_int32 3].
Proof. vm_compute. repeat split. Qed.
