(* ===== verification/Typed.v ===== *)
(** * Typed: the store typed by the schema

    A message is a block of bytes; that the eight bytes at the offset of a
    repeated field are the address of an array of the right element width
    is known to the schema only.  This file types the store by the schema.
    A typing [tys] gives the message definition of every message
    ([msg_typed]): its block has the size of the layout, no array uses it
    as a buffer, and each of its handle fields (map, repeated,
    sub-message) holds NULL or the address of an object of the field's
    kind ([handle_ok]): a map with the key and value widths of the entry
    type, an array of the element width of the field's type, a message
    typed by the field's sub-definition.  [typed] adds the invariant of
    the store.

    The schema is a set [known] of message definitions closed under
    sub-definitions, each [msgdef_ok]: the layout is well formed
    ([layout_ok] of [Record]), a handle field is a pointer wide and can
    be created, and it is not a member of a oneof with other members, so
    that no other field shares its bytes.  Message definitions may refer
    to themselves.

    The calls of a typed program ([call_typed]) name a typed message and
    a field of its definition: [upb_msg_set] a field that holds no handle,
    [upb_msg_mutable] one that does.  Such a call returns (progress) in a
    typed store (preservation), the typing growing by the messages made
    ([type_step]); the handle [upb_msg_mutable] returns is NULL, when the
    arena is exhausted, or an object of the field's kind.  The message a
    typed call is given is no buffer, so that a typed program changes no
    array and no map but those its calls are given. *)

From Stdlib Require Import ZArith Lia List.
From coqutil Require Import Byte Word.LittleEndianList.
From stdpp Require Import base tactics list numbers gmap.
From S2P Require Import Prelude Layout Arena Array Table Map Msg Record Store Frame Api.

#[local] Open Scope Z_scope.

(** ** Handle fields *)

(** The field holds a handle: it is given to [upb_msg_mutable]. *)
Definition is_handle (f : upb_fielddef) : bool :=
  upb_fielddef_ismap f || upb_fielddef_isseq f || upb_fielddef_issubmsg f.

(** The field holds the handle of a container. *)
Definition is_container (f : upb_fielddef) : bool :=
  upb_fielddef_ismap f || upb_fielddef_isseq f.

(** The kind of the container of a map or repeated field, as
    [upb_msg_mutable] makes it. *)
Definition container_kind (f : upb_fielddef) : option kind :=
  if upb_fielddef_ismap f then
    match upb_fielddef_msgsubdef f with
    | Some entry =>
        match upb_msgdef_itof entry UPB_MAPENTRY_KEY,
              upb_msgdef_itof entry UPB_MAPENTRY_VALUE with
        | Some key, Some value =>
            match table_index _upb_fieldtype_to_mapsize
                    (fieldtype_code (upb_fielddef_type key)),
                  table_index _upb_fieldtype_to_mapsize
                    (fieldtype_code (upb_fielddef_type value)) with
            | Ok ks, Ok vs => Some (KMap ks vs)
            | _, _ => None
            end
        | _, _ => None
        end
    | None => None
    end
  else if upb_fielddef_isseq f then
    match table_index _upb_fieldtype_to_sizelg2 (fieldtype_code (upb_fielddef_type f)) with
    | Ok lg2 => Some (KArray lg2)
    | Err _ => None
    end
  else None.

(** The handle [h] is what the field [f] may hold. *)
Definition handle_ok (tys : gmap Z upb_msgdef) (a : upb_arena) (f : upb_fielddef) (h : Z)
  : Prop :=
  h = 0 \/
  if is_container f
  then (exists k, container_kind f = Some k /\ arena_kind a h = Some k)
  else (exists md, upb_fielddef_msgsubdef f = Some md /\ tys !! h = Some md).

(** The bytes of [g], [szg] of them, and its case word do not overlap the
    pointer at the offset of [f]. *)
Definition apart (f g : upb_fielddef) (szg : Z) : Prop :=
  let off_f := offset (upb_fielddef_layout f) in
  let off_g := offset (upb_fielddef_layout g) in
  let pg := presence (upb_fielddef_layout g) in
  (off_g + szg <= off_f \/ off_f + sizeof_ptr <= off_g) /\
  (pg < 0 -> Z.lnot pg + 4 <= off_f \/ off_f + sizeof_ptr <= Z.lnot pg).

(** ** Typed messages *)

Definition field_typed (tys : gmap Z upb_msgdef) (a : upb_arena) (msg : Z)
    (f : upb_fielddef) : Prop :=
  exists bs,
    mem_load a (PTR_AT msg (offset (upb_fielddef_layout f))) sizeof_ptr = Ok bs /\
    handle_ok tys a f (dec_unsigned bs).

Record msg_typed (tys : gmap Z upb_msgdef) (a : upb_arena) (msg : Z) (md : upb_msgdef)
  : Prop := {
  mt_block : msg_wf a msg (layout_size (upb_msgdef_layout md));
  mt_private : ~ is_buffer a msg;
  mt_fields : forall f, f ∈ upb_msgdef_fields md -> is_handle f = true ->
              field_typed tys a msg f
}.

(** The typing with the handle [p] of the field [f]: a message gets the
    sub-definition of the field. *)
Definition type_handle (tys : gmap Z upb_msgdef) (f : upb_fielddef) (p : Z)
  : gmap Z upb_msgdef :=
  if is_container f then tys else
  match upb_fielddef_msgsubdef f with
  | Some sub => if p =? 0 then tys else <[p := sub]> tys
  | None => tys
  end.

(** The typing after a call: a new message has the definition it was
    made from, the message [upb_msg_mutable] returns that of the field. *)
Definition type_step (tys : gmap Z upb_msgdef) (a : upb_arena) (c : call)
  : gmap Z upb_msgdef :=
  match c with
  | call_msg_new md =>
      let p := fst (upb_msg_new md a) in
      if p =? 0 then tys else <[p := md]> tys
  | call_msg_mutable msg f =>
      match upb_msg_mutable a msg f with
      | Ok (p, _) => type_handle tys f p
      | Err _ => tys
      end
  | _ => tys
  end.

(** ** The schema and the typed store *)

Section Schema.
Context (known : upb_msgdef -> Prop).

(** A message definition of the schema: its layout is well formed, a
    handle field is a pointer wide, can be created and names a definition
    of the schema, and it is alone in its oneof if it is in one. *)
Record msgdef_ok (md : upb_msgdef) : Prop := {
  mo_layout : layout_ok md;
  mo_handles : forall f, f ∈ upb_msgdef_fields md -> is_handle f = true ->
    msg_field_size f = Ok sizeof_ptr /\ field_creatable f /\
    (is_container f = false ->
     forall sub, upb_fielddef_msgsubdef f = Some sub -> known sub);
  mo_alone : forall f g, f ∈ upb_msgdef_fields md -> g ∈ upb_msgdef_fields md ->
    is_handle f = true -> field_number g <> field_number f ->
    presence (upb_fielddef_layout f) < 0 ->
    presence (upb_fielddef_layout g) <> presence (upb_fielddef_layout f)
}.

Record typed (tys : gmap Z upb_msgdef) (a : upb_arena) : Prop := {
  ty_store : store_wf a;
  ty_known : forall p md, tys !! p = Some md -> known md;
  ty_msgs : forall p md, tys !! p = Some md -> msg_typed tys a p md
}.

(** The contract of a call of a typed program. *)
Definition call_typed (tys : gmap Z upb_msgdef) (a : upb_arena) (c : call) : Prop :=
  match c with
  | call_msg_new md => known md
  | call_msg_set msg f val =>
      exists md sz, tys !! msg = Some md /\ f ∈ upb_msgdef_fields md /\
        is_handle f = false /\ msg_field_size f = Ok sz /\ sz <= Z.of_nat (length val)
  | call_msg_mutable msg f =>
      exists md, tys !! msg = Some md /\ f ∈ upb_msgdef_fields md /\ is_handle f = true
  | _ => call_valid a c
  end.

(** A program whose every call is typed in the state and under the typing
    it is made in. *)
Fixpoint calls_typed (tys : gmap Z upb_msgdef) (a : upb_arena) (cs : list call) : Prop :=
  match cs with
  | [] => True
  | c :: cs' =>
      call_typed tys a c /\
      forall a', run a c = Ok a' -> calls_typed (type_step tys a c) a' cs'
  end.

End Schema.

(** ** Executable checks of the schema *)

Definition creatable_b (f : upb_fielddef) : bool :=
  if upb_fielddef_ismap f then
    match upb_fielddef_msgsubdef f with
    | Some entry =>
        match upb_msgdef_itof entry UPB_MAPENTRY_KEY,
              upb_msgdef_itof entry UPB_MAPENTRY_VALUE with
        | Some _, Some _ => true
        | _, _ => false
        end
    | None => false
    end
  else if upb_fielddef_isseq f then true
  else upb_fielddef_issubmsg f &&
       match upb_fielddef_msgsubdef f with Some _ => true | None => false end.

Definition alone_b (md : upb_msgdef) (f : upb_fielddef) : bool :=
  (0 <=? presence (upb_fielddef_layout f)) ||
  forallb (fun g => (field_number g =? field_number f) ||
                    negb (presence (upb_fielddef_layout g) =?
                          presence (upb_fielddef_layout f)))
          (upb_msgdef_fields md).

Definition handle_field_b (md : upb_msgdef) (f : upb_fielddef) : bool :=
  negb (is_handle f) ||
  (bool_decide (msg_field_size f = Ok sizeof_ptr) && creatable_b f && alone_b md f).

Definition msgdef_ok_b (md : upb_msgdef) : bool :=
  layout_ok_b md && forallb (handle_field_b md) (upb_msgdef_fields md).

(** ** Example: the schema of the example message *)

Definition example_subdef : upb_msgdef :=
  {| upb_msgdef_layout := {| layout_size := 8 |}; upb_msgdef_fields := [example_f] |}.

Definition example_known (md : upb_msgdef) : Prop :=
  md = example_msgdef \/ md = example_subdef.

(** A typed program: a message, its array with an element, a member of
    its oneof, its sub-message. *)
Definition example_program : list call :=
  [ call_msg_new example_msgdef;
    call_msg_mutable 16 example_rep;
    call_array_append 80 (msgval_int32 1);
    call_msg_set 16 example_o1 (msgval_int32 7);
    call_msg_mutable 16 example_sub ].

Definition example_typing : gmap Z upb_msgdef := {[ 16 := example_msgdef ]}.

(** A message with one map field from int32 to string: the entry type
    has the key as its field 1 and the value as its field 2. *)
Definition example_entry : upb_msgdef :=
  {| upb_msgdef_layout := {| layout_size := 24 |};
     upb_msgdef_fields := [scalar_field 1 0 0 UPB_DESCRIPTOR_TYPE_INT32;
                           scalar_field 2 8 0 UPB_DESCRIPTOR_TYPE_STRING] |}.

Definition example_mapfield : upb_fielddef :=
  {| upb_fielddef_layout :=
       {| number := 1; offset := 0; presence := 0;
          descriptortype := descriptortype_code UPB_DESCRIPTOR_TYPE_MESSAGE |};
     upb_fielddef_type := UPB_TYPE_MESSAGE;
     upb_fielddef_isseq := true;
     upb_fielddef_ismap := true;
     upb_fielddef_defaultint32 := 0;
     upb_fielddef_defaultint64 := 0;
     upb_fielddef_defaultuint32 := 0;
     upb_fielddef_defaultuint64 := 0;
     upb_fielddef_defaultfloat := 0;
     upb_fielddef_defaultdouble := 0;
     upb_fielddef_defaultbool := false;
     upb_fielddef_defaultstr := (0, 0);
     upb_fielddef_msgsubdef := Some example_entry |}.

Definition example_mapdef : upb_msgdef :=
  {| upb_msgdef_layout := {| layout_size := 8 |}; upb_msgdef_fields := [example_mapfield] |}.

Definition example_map_known (md : upb_msgdef) : Prop := md = example_mapdef.

Definition example_map_rec : Z * upb_arena := upb_msg_new example_mapdef (arena_init 4096).

(** Two members of one oneof that share the bytes at offset 16, the case
    word being at 8: an int32 and a sub-message.  No well-formed schema of
    this file has them: the handle shares its bytes. *)
Definition example_oneof_int : upb_fielddef :=
  scalar_field 8 16 (Z.lnot 8) UPB_DESCRIPTOR_TYPE_INT32.

Definition example_oneof_msg : upb_fielddef :=
  {| upb_fielddef_layout :=
       {| number := 9; offset := 16; presence := Z.lnot 8;
          descriptortype := descriptortype_code UPB_DESCRIPTOR_TYPE_MESSAGE |};
     upb_fielddef_type := UPB_TYPE_MESSAGE;
     upb_fielddef_isseq := false;
     upb_fielddef_ismap := false;
     upb_fielddef_defaultint32 := 0;
     upb_fielddef_defaultint64 := 0;
     upb_fielddef_defaultuint32 := 0;
     upb_fielddef_defaultuint64 := 0;
     upb_fielddef_defaultfloat := 0;
     upb_fielddef_defaultdouble := 0;
     upb_fielddef_defaultbool := false;
     upb_fielddef_defaultstr := (0, 0);
     upb_fielddef_msgsubdef := Some example_subdef |}.

(** ** Lemmas on handles *)

Lemma handle_ok_mono tys tys' a a' f h :
  arena_le a a' -> tys ⊆ tys' -> handle_ok tys a f h -> handle_ok tys' a' f h.
Proof.
  intros Hle Hsub [->|H]; [left; reflexivity|right]. destruct (is_container f).
  - destruct H as (k & Hk & Ha). exists k. split; [exact Hk|exact (le_kind _ _ Hle _ _ Ha)].
  - destruct H as (md & Hm & Ht). exists md. split; [exact Hm|].
    exact (lookup_weaken _ _ _ _ Ht Hsub).
Qed.

Lemma field_typed_keep tys tys' a a' msg f :
  arena_le a a' -> tys ⊆ tys' ->
  mem_load a' (PTR_AT msg (offset (upb_fielddef_layout f))) sizeof_ptr =
    mem_load a (PTR_AT msg (offset (upb_fielddef_layout f))) sizeof_ptr ->
  field_typed tys a msg f -> field_typed tys' a' msg f.
Proof.
  intros Hle Hsub E (bs & Hl & Hh). exists bs. rewrite E.
  split; [exact Hl|eapply handle_ok_mono; eauto].
Qed.

(** A message whose block has the bytes it had is typed as it was. *)
Lemma msg_typed_keep tys tys' a a' msg md :
  arena_le a a' -> tys ⊆ tys' ->
  private a' msg -> get_bytes a' msg = get_bytes a msg ->
  msg_typed tys a msg md -> msg_typed tys' a' msg md.
Proof.
  intros Hle Hsub [_ Hp] E [Hb _ Hf]. split.
  - unfold msg_wf. rewrite E. exact Hb.
  - exact Hp.
  - intros f Hin Hh. eapply field_typed_keep; [exact Hle|exact Hsub| |exact (Hf f Hin Hh)].
    unfold mem_load. cbn [p_base PTR_AT]. rewrite E. reflexivity.
Qed.

Lemma msg_typed_private tys a msg md : msg_typed tys a msg md -> private a msg.
Proof. intros [(bs & Hb & _) Hp _]. split; eauto. Qed.

(** What [upb_msg_mutable] makes for a field is of the field's kind. *)
Lemma msg_new_subobject_kind a f p a1 :
  msg_new_subobject a f = Ok (p, a1) -> p <> 0 ->
  if is_container f
  then exists k, container_kind f = Some k /\ arena_kind a1 p = Some k
  else exists sub, upb_fielddef_msgsubdef f = Some sub /\ upb_msg_new sub a = (p, a1).
Proof.
  unfold msg_new_subobject, is_container, container_kind. intros H Hp.
  destruct (upb_fielddef_ismap f); cbn [orb]; [|destruct (upb_fielddef_isseq f)].
  - destruct (upb_fielddef_msgsubdef f) as [entry|]; [|discriminate].
    destruct (upb_msgdef_itof entry UPB_MAPENTRY_KEY) as [key|]; [|discriminate].
    destruct (upb_msgdef_itof entry UPB_MAPENTRY_VALUE) as [value|]; [|discriminate].
    unfold upb_map_new, _upb_map_new in H.
    destruct (table_index _ (fieldtype_code (upb_fielddef_type key))) as [ks|];
      [|discriminate]. cbn [bind] in H.
    destruct (table_index _ _) as [vs|]; [|discriminate]. injection H as H.
    eexists. split; [reflexivity|].
    exact (arena_kind_map _ _ _ (proj2 (get_map_Ok _ _ _) (malloc_lookup_new _ _ _ _ _ H Hp))).
  - unfold upb_array_new in H. destruct (sizelg2_value_size (upb_fielddef_type f))
      as (lg2 & E & Hlg & _). rewrite E in H |- *. injection H as H.
    eexists. split; [reflexivity|].
    rewrite (arena_kind_array _ _ _ (proj2 (get_array_Ok _ _ _)
               (malloc_lookup_new _ _ _ _ _ H Hp))). cbn [arr_data].
    unfold tag_arrptr. rewrite tag_low by (reflexivity || lia). reflexivity.
  - destruct (upb_fielddef_issubmsg f); [|discriminate].
    destruct (upb_fielddef_msgsubdef f) as [sub|]; [|discriminate].
    injection H as H. eauto.
Qed.

Lemma type_handle_null tys f : type_handle tys f 0 = tys.
Proof. unfold type_handle. cbn. repeat case_match; reflexivity. Qed.

(** ** The executable checks *)

Lemma creatable_b_true f : creatable_b f = true -> field_creatable f.
Proof.
  unfold creatable_b, field_creatable. repeat case_match; try discriminate; eauto 6;
    intros [-> [=]]%andb_true_iff; eauto.
Qed.

Lemma msgdef_ok_b_true known md :
  msgdef_ok_b md = true ->
  (forall f sub, f ∈ upb_msgdef_fields md -> is_container f = false ->
     upb_fielddef_msgsubdef f = Some sub -> known sub) ->
  msgdef_ok known md.
Proof.
  unfold msgdef_ok_b. rewrite andb_true_iff, forallb_forall.
  intros [Hl%layout_ok_b_true Hf] Hsub.
  assert (Hfield : forall f, f ∈ upb_msgdef_fields md -> is_handle f = true ->
            msg_field_size f = Ok sizeof_ptr /\ creatable_b f = true /\ alone_b md f = true).
  { intros f Hin%list_elem_of_In%Hf Hh. unfold handle_field_b in Hin. rewrite Hh in Hin.
    cbn [negb orb] in Hin. apply andb_true_iff in Hin as [[E%bool_decide_eq_true Hc]%andb_true_iff Ha].
    auto. }
  split; [exact Hl| |].
  - intros f Hin Hh. destruct (Hfield f Hin Hh) as (E & Hc%creatable_b_true & _). eauto.
  - intros f g Hin Hg Hh Hne Hneg. destruct (Hfield f Hin Hh) as (_ & _ & Ha).
    unfold alone_b in Ha. apply orb_true_iff in Ha as [?|Ha]; [lia|].
    rewrite forallb_forall in Ha. specialize (Ha g (proj1 (list_elem_of_In _ _) Hg)).
    rewrite (proj2 (Z.eqb_neq _ _) Hne) in Ha. cbn [orb] in Ha.
    apply negb_true_iff, Z.eqb_neq in Ha. exact Ha.
Qed.

Lemma example_known_ok md : example_known md -> msgdef_ok example_known md.
Proof.
  intros [-> | ->]; (apply msgdef_ok_b_true; [vm_compute; reflexivity|]);
    intros f sub Hin Hc Hs; cbn in Hin; set_unfold in Hin;
    repeat (destruct Hin as [-> |Hin]); try contradiction; try discriminate.
  injection Hs as <-. right. reflexivity.
Qed.

(** ** Lemmas on the example *)

(** One call of the example: its contract, then the state it leaves. *)
Ltac typed_call :=
  split; [|let a := fresh "a" in let H := fresh "H" in
           intros a H; vm_compute in H; injection H as <-].

Lemma example_program_typed :
  calls_typed example_known ∅ (arena_init 4096) example_program.
Proof.
  unfold example_program. cbn [calls_typed].
  typed_call; [left; reflexivity|].
  typed_call; [exists example_msgdef; split; [vm_compute; reflexivity|];
               split; [cbn; set_solver|reflexivity]|].
  typed_call; [eexists; split; [vm_compute; reflexivity|vm_compute; congruence]|].
  typed_call; [exists example_msgdef, 4; split; [vm_compute; reflexivity|];
               split; [cbn; set_solver|]; repeat (split; [reflexivity|]);
               vm_compute; congruence|].
  typed_call; [exists example_msgdef; split; [vm_compute; reflexivity|];
               split; [cbn; set_solver|reflexivity]|].
  exact I.
Qed.

(** What a handle of a field's kind is in the arena. *)
Lemma handle_array tys a f h :
  handle_ok tys a f h -> h <> 0 ->
  upb_fielddef_ismap f = false -> upb_fielddef_isseq f = true ->
  exists hdr, get_array a h = Ok hdr /\
              Z.shiftl 1 (array_lg2 hdr) = value_size (upb_fielddef_type f).
Proof.
  unfold handle_ok, is_container, container_kind. intros [?|H] Hh Hm Hs; [contradiction|].
  rewrite Hm, Hs in H. cbn [orb] in H. destruct H as (k & Hk & Ha).
  destruct (sizelg2_value_size (upb_fielddef_type f)) as (lg2 & E & _ & Hv).
  rewrite E in Hk. injection Hk as <-.
  apply arena_kind_array_inv in Ha as (hdr & Hg & Hl). exists hdr.
  split; [exact Hg|]. unfold array_lg2. rewrite Hl. exact Hv.
Qed.

Lemma handle_map tys a f h :
  handle_ok tys a f h -> h <> 0 -> upb_fielddef_ismap f = true ->
  exists m, get_map a h = Ok m /\
            container_kind f = Some (KMap (map_key_size m) (map_val_size m)).
Proof.
  unfold handle_ok, is_container. intros [?|H] Hh Hm; [contradiction|].
  rewrite Hm in H. cbn [orb] in H. destruct H as (k & Hk & Ha). rewrite Hk.
  unfold container_kind in Hk. rewrite Hm in Hk. repeat case_match; try discriminate.
  injection Hk as <-. apply arena_kind_map_inv in Ha as (m & Hg & <- & <-). eauto.
Qed.

(** ** Lemmas on the typed store *)

Section Typing.
Context (known : upb_msgdef -> Prop).
Context (Hknown : forall md, known md -> msgdef_ok known md).

Lemma mo_size md : msgdef_ok known md -> 0 <= layout_size (upb_msgdef_layout md).
Proof using Type. intros H. exact (lo_size _ (mo_layout _ _ H)). Qed.

Lemma mo_fields md f :
  msgdef_ok known md -> f ∈ upb_msgdef_fields md ->
  exists sz, field_wf (layout_size (upb_msgdef_layout md)) f sz.
Proof using Type. intros H. exact (lo_fields _ (mo_layout _ _ H) f). Qed.

(** A quiet update keeps the store typed. *)
Lemma typed_quiet W tys a a' :
  typed known tys a -> store_wf a' -> arena_le a a' -> quiet W a a' -> typed known tys a'.
Proof using Type.
  intros [Hs Hk Hm] Hs' Hle Hq. split; [exact Hs'|exact Hk|].
  intros p md Ht. pose proof (Hm p md Ht) as Hmt.
  destruct (private_quiet _ _ _ _ (msg_typed_private _ _ _ _ Hmt) Hq) as [Hp E].
  eapply msg_typed_keep; eauto.
Qed.

(** A zeroed block of the size of the layout is a message of the
    definition: every handle field holds NULL. *)
Lemma msg_typed_zeros tys a p md :
  msgdef_ok known md ->
  get_bytes a p = Ok (zeros (Z.to_nat (layout_size (upb_msgdef_layout md)))) ->
  ~ is_buffer a p -> msg_typed tys a p md.
Proof using Type.
  intros Hok Hb Hn. pose proof (mo_size _ Hok) as Hsz. split.
  - eexists. split; [exact Hb|]. rewrite length_zeros. lia.
  - exact Hn.
  - intros f Hin Hh. destruct (mo_fields _ f Hok Hin) as (sz & Hf).
    destruct (mo_handles _ _ Hok f Hin Hh) as (Hsz8 & _).
    pose proof (fwf_size _ _ _ Hf) as E. rewrite Hsz8 in E. injection E as <-.
    destruct (fwf_offset _ _ _ Hf) as [Ho1 Ho2].
    exists (zeros 8). split; [|left; reflexivity].
    unfold mem_load. cbn [p_base p_off PTR_AT]. rewrite Hb. cbn [bind].
    rewrite load_zeros by (rewrite ?length_zeros; unfold sizeof_ptr in *; lia). reflexivity.
Qed.

(** A message that is not yet typed gets its definition. *)
Lemma typed_insert tys a p md :
  typed known tys a -> known md -> tys !! p = None -> msg_typed tys a p md ->
  typed known (<[p := md]> tys) a.
Proof using Type.
  intros [Hs Hk Hm] Hkn Hnone Hmt.
  assert (Hsub : tys ⊆ <[p := md]> tys) by (apply insert_subseteq; exact Hnone).
  assert (Hkeep : forall q md', msg_typed tys a q md' -> msg_typed (<[p := md]> tys) a q md').
  { intros q md' Hq. eapply msg_typed_keep; [reflexivity|exact Hsub| |reflexivity|exact Hq].
    eapply msg_typed_private; eauto. }
  split; [exact Hs| |]; intros q md'; rewrite lookup_insert; case_res.
  - intros [= <-]. exact Hkn.
  - apply Hk.
  - intros [= <-]. subst q. apply Hkeep, Hmt.
  - intros Hq. apply Hkeep, Hm, Hq.
Qed.

(** An address that is no object is not typed. *)
Lemma typed_fresh tys a p : typed known tys a -> a_objs a !! p = None -> tys !! p = None.
Proof using Type.
  intros Ht Hp. destruct (tys !! p) as [md|] eqn:E; [|reflexivity].
  destruct (mt_block _ _ _ _ (ty_msgs _ _ _ Ht p md E)) as (bs & Hb%get_bytes_Ok & _).
  congruence.
Qed.

(** [upb_msg_new]: the new message is typed by its definition. *)
Lemma typed_msg_new tys a md :
  typed known tys a -> known md ->
  typed known (type_step tys a (call_msg_new md)) (snd (upb_msg_new md a)).
Proof using Hknown.
  intros Ht Hk. pose proof (ty_store _ _ _ Ht) as Hs. pose proof (swf_arena _ Hs) as Ha.
  pose proof (upb_msg_new_store a Hs md) as Hs'.
  pose proof (upb_msg_new_quiet (fun _ => False) md a Ha) as Hq.
  destruct (upb_msg_new_preserves md a Ha) as [_ Hle].
  pose proof (typed_quiet _ _ _ _ Ht Hs' Hle Hq) as Ht'.
  cbn [type_step]. destruct (upb_msg_new md a) as [p a'] eqn:Hn. cbn [fst snd] in *.
  destruct (Z.eqb_spec p 0) as [->|Hp]; [exact Ht'|].
  destruct (upb_msg_new_spec md a p a' Ha (mo_size _ (Hknown _ Hk)) Hn) as (_ & _ & Hnew).
  destruct (Hnew Hp) as [Hb _].
  apply typed_insert; [exact Ht'|exact Hk| |].
  - apply (typed_fresh tys a); [exact Ht|]. exact (malloc_fresh _ _ _ _ _ Ha Hn Hp).
  - apply msg_typed_zeros; [exact (Hknown _ Hk)|exact Hb|].
    exact (malloc_not_buffer _ _ _ _ _ Hs (upb_msg_new_fresh md) Hn Hp).
Qed.

(** A write into one typed message that keeps its handle fields typed. *)
Lemma typed_write tys a msg md a' :
  typed known tys a -> tys !! msg = Some md ->
  store_wf a' -> arena_le a a' ->
  (forall p, private a p -> private a' p /\ (msg <> p -> get_bytes a' p = get_bytes a p)) ->
  msg_wf a' msg (layout_size (upb_msgdef_layout md)) ->
  (forall g, g ∈ upb_msgdef_fields md -> is_handle g = true -> field_typed tys a' msg g) ->
  typed known tys a'.
Proof using Type.
  intros [Hs Hk Hm] Hmsg Hs' Hle Hpriv Hwf Hflds. split; [exact Hs'|exact Hk|].
  intros p md' Hp. pose proof (Hm p md' Hp) as Hmt.
  destruct (Hpriv p (msg_typed_private _ _ _ _ Hmt)) as [Hp' Hkeep].
  destruct (Z.eq_dec msg p) as [<-|Hne].
  - assert (md' = md) as -> by congruence. split; [exact Hwf|exact (proj2 Hp')|exact Hflds].
  - eapply msg_typed_keep; eauto.
Qed.

(** Another field of the definition lies apart from a handle field. *)
Lemma fields_apart md f g szf :
  msgdef_ok known md -> f ∈ upb_msgdef_fields md -> g ∈ upb_msgdef_fields md ->
  is_handle g = true -> msg_field_size f = Ok szf -> f = g \/ apart g f szf.
Proof using Type.
  intros Hok Hf Hg Hh Hsz. pose proof (mo_layout _ _ Hok) as Hl.
  destruct (decide (field_number f = field_number g)) as [E|Hne];
    [left; exact (keyed_inj field_number _ f g (lo_numbers _ Hl) Hf Hg E)|right].
  destruct (mo_handles _ _ Hok g Hg Hh) as (Hsg & _).
  destruct (lo_apart _ Hl f g szf sizeof_ptr Hf Hg Hne Hsz Hsg) as [[Hneg Hp]|Hind].
  - exfalso. apply (mo_alone _ _ Hok g f Hg Hf Hh Hne); [lia|congruence].
  - unfold independent in Hind. unfold apart. cbn zeta in *. lia.
Qed.

(** [upb_msg_set] on a field that holds no handle. *)
Lemma typed_msg_set tys a msg md f sz val :
  typed known tys a -> tys !! msg = Some md -> f ∈ upb_msgdef_fields md ->
  is_handle f = false -> msg_field_size f = Ok sz -> sz <= Z.of_nat (length val) ->
  exists a', upb_msg_set a msg f val = Ok a' /\ typed known tys a'.
Proof using Hknown.
  intros Ht Hmsg Hin Hh Hsz Hval.
  pose proof (ty_store _ _ _ Ht) as Hs. pose proof (ty_msgs _ _ _ Ht _ _ Hmsg) as Hmt.
  pose proof (Hknown _ (ty_known _ _ _ Ht _ _ Hmsg)) as Hok.
  destruct (mo_fields _ f Hok Hin) as (sz' & Hf).
  assert (sz' = sz) as -> by (pose proof (fwf_size _ _ _ Hf); congruence).
  destruct (upb_msg_set_spec a msg _ f sz val (mt_block _ _ _ _ Hmt) Hf Hval)
    as (a' & Hset & Hwf' & _ & _ & Hfr).
  exists a'. split; [exact Hset|].
  destruct (upb_msg_set_preserves _ _ _ _ _ Hset (swf_arena _ Hs)) as [_ Hle].
  eapply typed_write;
    [exact Ht|exact Hmsg|eapply upb_msg_set_store; eauto|exact Hle| |exact Hwf'|].
  - intros p Hp. exact (upb_msg_set_private _ _ _ _ _ _ Hp Hset).
  - intros g Hg Hhg.
    destruct (fields_apart md f g sz Hok Hin Hg Hhg Hsz) as [->|[Hv Hc]]; [congruence|].
    eapply field_typed_keep; [exact Hle|reflexivity| |exact (mt_fields _ _ _ _ Hmt g Hg Hhg)].
    apply Hfr; [|intros Hneg; specialize (Hc Hneg)]; right; cbn; unfold sizeof_ptr in *; lia.
Qed.

(** A handle of the field's kind stored into the field. *)
Lemma typed_store_handle tys a msg md f q a' :
  typed known tys a -> tys !! msg = Some md -> f ∈ upb_msgdef_fields md ->
  is_handle f = true -> handle_ok tys a f q -> 0 <= q < 2 ^ 64 ->
  mem_store a (PTR_AT msg (offset (upb_fielddef_layout f))) (le_split 8 q) = Ok a' ->
  typed known tys a'.
Proof using Hknown.
  intros Ht Hmsg Hin Hh Hq Hr Hst.
  pose proof (ty_store _ _ _ Ht) as Hs. pose proof (ty_msgs _ _ _ Ht _ _ Hmsg) as Hmt.
  pose proof (Hknown _ (ty_known _ _ _ Ht _ _ Hmsg)) as Hok.
  destruct (mo_handles _ _ Hok f Hin Hh) as (Hsz & _).
  destruct (preserves_mem_store _ _ _ _ Hst (swf_arena _ Hs)) as [_ Hle].
  eapply typed_write;
    [exact Ht|exact Hmsg|eapply store_wf_mem_store; eauto|exact Hle|
    |eapply msg_wf_store; [exact (mt_block _ _ _ _ Hmt)|exact Hst]|].
  - intros p Hp. exact (private_store _ _ _ _ p Hp Hst).
  - intros g Hg Hhg.
    destruct (fields_apart md f g sizeof_ptr Hok Hin Hg Hhg Hsz) as [<-|[Hv _]].
    + exists (le_split 8 q). split; [exact (mem_load_store_same _ _ _ _ Hst)|].
      rewrite dec_unsigned_le_split by exact Hr. eapply handle_ok_mono; eauto.
    + eapply field_typed_keep;
        [exact Hle|reflexivity| |exact (mt_fields _ _ _ _ Hmt g Hg Hhg)].
      eapply mem_load_store_disjoint; [exact Hst|].
      right. rewrite length_le_split. cbn. unfold sizeof_ptr in *. lia.
Qed.

(** The object [upb_msg_mutable] makes for a field, typed. *)
Lemma typed_subobject tys a f q a1 :
  typed known tys a ->
  (is_container f = false -> forall sub, upb_fielddef_msgsubdef f = Some sub -> known sub) ->
  msg_new_subobject a f = Ok (q, a1) ->
  tys ⊆ type_handle tys f q /\ typed known (type_handle tys f q) a1 /\
  handle_ok (type_handle tys f q) a1 f q.
Proof using Hknown.
  intros Ht Hsub Hn. pose proof (ty_store _ _ _ Ht) as Hs. pose proof (swf_arena _ Hs) as Ha.
  destruct (msg_new_subobject_fresh _ _ _ Hn) as (n & o & Ho & Hm).
  pose proof (store_wf_malloc _ _ _ _ _ Hs Ho Hm) as Hs1.
  destruct (msg_new_subobject_preserves _ _ _ Hn Ha) as [_ Hle].
  pose proof (typed_quiet _ _ _ _ Ht Hs1 Hle
                (msg_new_subobject_quiet (fun _ => False) _ _ _ Ha Hn)) as Ht1.
  destruct (Z.eq_dec q 0) as [->|Hq];
    [rewrite type_handle_null; split; [reflexivity|split; [exact Ht1|left; reflexivity]]|].
  pose proof (msg_new_subobject_kind _ _ _ _ Hn Hq) as Hkind.
  unfold type_handle, handle_ok. destruct (is_container f) eqn:Hc;
    [split; [reflexivity|split; [exact Ht1|right; exact Hkind]]|].
  destruct Hkind as (sub & Hsubdef & Hnew). rewrite Hsubdef, (proj2 (Z.eqb_neq q 0) Hq).
  pose proof (Hsub eq_refl sub Hsubdef) as Hk.
  pose proof (typed_fresh _ _ q Ht (malloc_fresh _ _ _ _ _ Ha Hm Hq)) as Hnone.
  split; [apply insert_subseteq; exact Hnone|]. split.
  - apply typed_insert; [exact Ht1|exact Hk|exact Hnone|].
    destruct (upb_msg_new_spec sub a q a1 Ha (mo_size _ (Hknown _ Hk)) Hnew)
      as (_ & _ & Hz).
    apply msg_typed_zeros; [exact (Hknown _ Hk)|exact (proj1 (Hz Hq))|].
    exact (malloc_not_buffer _ _ _ _ _ Hs Ho Hm Hq).
  - right. exists sub. split; [reflexivity|apply lookup_insert_eq].
Qed.

(** The handle a field holds already is typed as the field says. *)
Lemma type_handle_present tys a f h :
  handle_ok tys a f h -> type_handle tys f h = tys.
Proof using Type.
  unfold handle_ok, type_handle. intros [->|H]; [apply type_handle_null|].
  destruct (is_container f); [reflexivity|]. destruct H as (md & -> & Hh).
  destruct (h =? 0); [reflexivity|apply insert_id; exact Hh].
Qed.

(** [upb_msg_mutable] on a handle field of a typed message returns, in a
    typed store, a handle of the field's kind. *)
Lemma typed_msg_mutable tys a msg md f :
  typed known tys a -> tys !! msg = Some md -> f ∈ upb_msgdef_fields md ->
  is_handle f = true ->
  exists p a',
    upb_msg_mutable a msg f = Ok (p, a') /\
    tys ⊆ type_handle tys f p /\ typed known (type_handle tys f p) a' /\
    handle_ok (type_handle tys f p) a' f p /\ (p = 0 -> a' = a).
Proof using Hknown.
  intros Ht Hmsg Hin Hh.
  pose proof (ty_store _ _ _ Ht) as Hs. pose proof (swf_arena _ Hs) as Ha.
  pose proof (ty_msgs _ _ _ Ht _ _ Hmsg) as Hmt. pose proof (mt_block _ _ _ _ Hmt) as Hwf.
  pose proof (Hknown _ (ty_known _ _ _ Ht _ _ Hmsg)) as Hok.
  destruct (mo_handles _ _ Hok f Hin Hh) as (Hsz & Hcr & Hsub).
  destruct (mo_fields _ f Hok Hin) as (sz & Hf).
  assert (sz = sizeof_ptr) as -> by (pose proof (fwf_size _ _ _ Hf); congruence).
  pose proof (fwf_offset _ _ _ Hf) as Hofs.
  destruct (mt_fields _ _ _ _ Hmt f Hin Hh) as (bs & Hl & Hok_h).
  destruct (mutable_field_cases a msg _ f Hwf Hofs) as (bs' & Hl' & Hcase).
  assert (bs' = bs) as -> by congruence. destruct Hcase as [Hnz| ->].
  - exists (dec_unsigned bs), a. rewrite (type_handle_present _ _ _ _ Hok_h).
    split; [exact (upb_msg_mutable_present a msg f bs Hl Hnz)|].
    split; [reflexivity|]. split; [exact Ht|]. split; [exact Hok_h|contradiction].
  - destruct (msg_new_subobject_total a f Hcr) as ([q a1] & Hn).
    destruct (upb_msg_mutable_absent a msg _ f Ha Hwf Hofs q a1 Hl Hn)
      as (a' & Hmut & Hst & _ & _ & Hr & Hnull).
    destruct (typed_subobject tys a f q a1 Ht Hsub Hn) as (Hsubs & Ht1 & Hq).
    exists q, a'. split; [exact Hmut|]. split; [exact Hsubs|].
    pose proof (typed_store_handle _ _ msg md f q a' Ht1 (lookup_weaken _ _ _ _ Hmsg Hsubs)
                  Hin Hh Hq Hr Hst) as Ht'.
    split; [exact Ht'|]. split; [|exact Hnull].
    destruct (preserves_mem_store _ _ _ _ Hst (swf_arena _ (ty_store _ _ _ Ht1))) as [_ Hle].
    eapply handle_ok_mono; [exact Hle|reflexivity|exact Hq].
Qed.

(** A read of a handle field: the handle the field holds. *)
Lemma typed_msg_get tys a msg md f :
  typed known tys a -> tys !! msg = Some md -> f ∈ upb_msgdef_fields md ->
  is_handle f = true -> 0 <= presence (upb_fielddef_layout f) ->
  exists h, (v <- upb_msg_get a msg f ;; ptr_val v) = Ok h /\ handle_ok tys a f h.
Proof using Hknown.
  intros Ht Hmsg Hin Hh Hp. pose proof (ty_msgs _ _ _ Ht _ _ Hmsg) as Hmt.
  pose proof (Hknown _ (ty_known _ _ _ Ht _ _ Hmsg)) as Hok.
  destruct (mo_handles _ _ Hok f Hin Hh) as (Hsz & _).
  destruct (mo_fields _ f Hok Hin) as (sz & Hf).
  assert (sz = sizeof_ptr) as -> by (pose proof (fwf_size _ _ _ Hf); congruence).
  destruct (mt_fields _ _ _ _ Hmt f Hin Hh) as (bs & Hl & Hok_h).
  exists (dec_unsigned bs). split; [|exact Hok_h].
  rewrite (upb_msg_get_memory a msg _ f sizeof_ptr (mt_block _ _ _ _ Hmt) Hf Hp), Hl.
  cbn [bind]. unfold mem_load in Hl. res_inv. apply load_bytes_length in Hl.
  unfold ptr_val. rewrite <- (Z2Nat.id sizeof_ptr), <- Hl by (cbv; discriminate).
  rewrite prefix_bytes_all. reflexivity.
Qed.

(** ** Typed programs *)

(** A call that is given no message keeps the typing. *)
Lemma run_typed_quiet tys a c :
  typed known tys a -> call_valid a c -> (forall p, ~ call_writes c p) ->
  exists a', run a c = Ok a' /\ typed known tys a'.
Proof using Type.
  intros Ht Hc Hw. pose proof (ty_store _ _ _ Ht) as Hs.
  pose proof (call_valid_bounded _ _ Hc) as Hb.
  destruct (run_returns a c Hs Hc) as (a' & Hr). exists a'. split; [exact Hr|].
  destruct (run_preserves _ _ _ Hr (swf_arena _ Hs)) as [_ Hle].
  exact (typed_quiet _ _ _ _ Ht (run_store_wf _ _ _ Hs Hb Hr) Hle (run_quiet _ _ _ Hs Hb Hw Hr)).
Qed.

(** An append to an array of the store, of a value at least as wide as
    its elements. *)
Lemma typed_append tys a arr hdr val :
  typed known tys a -> get_array a arr = Ok hdr ->
  Z.shiftl 1 (array_lg2 hdr) <= Z.of_nat (length val) ->
  exists ok a' l,
    upb_array_append a arr val = Ok (ok, a') /\ typed known tys a' /\
    array_elems a arr = Ok l /\
    (ok = true ->
     array_elems a' arr = Ok (l ++ [take (Z.to_nat (Z.shiftl 1 (array_lg2 hdr))) val])).
Proof using Type.
  intros Ht Hg Hv. pose proof (ty_store _ _ _ Ht) as Hs.
  pose proof (swf_arrays _ Hs _ _ Hg) as Hwf. pose proof (awf_len _ _ _ Hwf).
  pose proof (store_array_small _ _ _ Hs Hg).
  destruct (array_elems_total _ _ _ Hwf) as (l & Hl).
  destruct (upb_array_append_spec a arr hdr l val (swf_arena _ Hs) Hwf Hl)
    as (ok & a' & Ha & Hres); [lia|exact Hv|].
  destruct (run_typed_quiet tys a (call_array_append arr val) Ht) as (a2 & Hr & Ht2);
    [exists hdr; auto|intros p Hw; exact Hw|].
  cbn [run] in Hr. rewrite Ha in Hr. injection Hr as <-.
  exists ok, a', l. split; [exact Ha|]. split; [exact Ht2|]. split; [exact Hl|].
  intros ->. exact (proj2 (proj2 Hres)).
Qed.

(** An insertion into a map of the store, of a key that can be read and
    a value at least as wide as the map's values. *)
Lemma typed_map_set tys a map m key k val :
  typed known tys a -> get_map a map = Ok m ->
  _upb_map_tokey a key (map_key_size m) = Ok k ->
  map_value_width (map_val_size m) <= Z.of_nat (length val) ->
  exists ok a',
    upb_map_set a map key val = Ok (ok, a') /\ typed known tys a' /\
    (ok = true ->
     upb_map_get a' map key =
       Ok (Some (take (Z.to_nat (map_value_width (map_val_size m))) val))).
Proof using Type.
  intros Ht Hg Hk Hv. pose proof (ty_store _ _ _ Ht) as Hs.
  destruct (run_typed_quiet tys a (call_map_set map key val) Ht) as (a2 & Hr & Ht2);
    [exists m, k; auto|intros p Hw; exact Hw|].
  cbn [run] in Hr. destruct (upb_map_set a map key val) as [[ok a']|] eqn:E; [|discriminate].
  injection Hr as <-. exists ok, a'. split; [reflexivity|]. split; [exact Ht2|].
  intros ->. exact (upb_map_get_after_set _ _ _ _ _ _ (swf_arena _ Hs) (swf_maps _ Hs _ _ Hg) E).
Qed.

(** Progress and preservation: a typed call returns, in a store typed by
    the typing after the call, which keeps what was typed. *)
Lemma run_typed tys a c :
  typed known tys a -> call_typed known tys a c ->
  exists a', run a c = Ok a' /\
    tys ⊆ type_step tys a c /\ typed known (type_step tys a c) a'.
Proof using Hknown.
  intros Ht Hc. destruct c; cbn [call_typed run type_step] in *;
    try (destruct (run_typed_quiet tys a _ Ht Hc) as (a' & Hr & Ht');
         [intros p Hw; exact Hw|exists a'; split; [exact Hr|split; [reflexivity|exact Ht']]]).
  - eexists. split; [reflexivity|]. split; [|exact (typed_msg_new _ _ _ Ht Hc)].
    destruct (upb_msg_new m a) as [p a'] eqn:Hn. cbn [fst].
    destruct (Z.eqb_spec p 0) as [|Hp]; [reflexivity|]. apply insert_subseteq.
    pose proof (swf_arena _ (ty_store _ _ _ Ht)) as Ha.
    exact (typed_fresh _ _ p Ht (malloc_fresh _ _ _ _ _ Ha Hn Hp)).
  - destruct Hc as (md & sz & Hmsg & Hin & Hh & Hsz & Hval).
    destruct (typed_msg_set _ _ _ _ _ _ _ Ht Hmsg Hin Hh Hsz Hval) as (a' & Hr & Ht').
    exists a'. split; [exact Hr|split; [reflexivity|exact Ht']].
  - destruct Hc as (md & Hmsg & Hin & Hh).
    destruct (typed_msg_mutable _ _ _ _ _ Ht Hmsg Hin Hh) as (p & a' & Hr & Hsub & Ht' & _).
    rewrite Hr. exists a'. split; [reflexivity|split; [exact Hsub|exact Ht']].
Qed.

Lemma run_all_typed cs : forall tys a,
  typed known tys a -> calls_typed known tys a cs ->
  exists tys' a', run_all a cs = Ok a' /\ tys ⊆ tys' /\ typed known tys' a'.
Proof using Hknown.
  induction cs as [|c cs IH]; intros tys a Ht; cbn [run_all calls_typed].
  - intros _. exists tys, a. split; [reflexivity|split; [reflexivity|exact Ht]].
  - intros [Hc Hcs]. destruct (run_typed tys a c Ht Hc) as (a1 & Hr & Hsub & Ht1).
    rewrite Hr. cbn [bind].
    destruct (IH _ a1 Ht1 (Hcs a1 Hr)) as (tys' & a' & Hrs & Hsub' & Ht').
    exists tys', a'. split; [exact Hrs|split; [etrans; eassumption|exact Ht']].
Qed.

(** ** Typed programs and the containers *)

(** The message a typed call is given is no buffer, and what it asks of
    an array is within the bounds. *)
Lemma call_typed_private tys a c :
  typed known tys a -> call_typed known tys a c ->
  call_bounded c /\ forall p, call_writes c p -> private a p.
Proof using Type.
  intros Ht Hc. split.
  - destruct c; try exact I; exact (call_valid_bounded _ _ Hc).
  - intros p Hw. destruct c; cbn [call_typed call_writes] in *; try contradiction; subst p;
      [destruct Hc as (md & _ & Hmsg & _)|destruct Hc as (md & Hmsg & _)];
      exact (msg_typed_private _ _ _ _ (ty_msgs _ _ _ Ht _ _ Hmsg)).
Qed.

Lemma calls_typed_private cs : forall tys a,
  typed known tys a -> calls_typed known tys a cs ->
  Forall call_bounded cs /\ calls_private a cs.
Proof using Hknown.
  induction cs as [|c cs IH]; intros tys a Ht; cbn [calls_typed calls_private]; [auto|].
  intros [Hc Hcs]. destruct (call_typed_private _ _ _ Ht Hc) as [Hb Hp].
  destruct (run_typed tys a c Ht Hc) as (a1 & Hr & _ & Ht1).
  destruct (IH _ a1 Ht1 (Hcs a1 Hr)) as [Hbs Hps].
  split; [constructor; assumption|]. split; [exact Hp|].
  intros a' Hr'. rewrite Hr in Hr'. injection Hr' as <-. exact Hps.
Qed.

(** A typed program changes the containers its calls are given and no
    other. *)
Lemma typed_program_keeps tys a cs a' :
  typed known tys a -> calls_typed known tys a cs -> run_all a cs = Ok a' ->
  keeps (targets cs) a a'.
Proof using Hknown.
  intros Ht Hcs Hr. destruct (calls_typed_private cs tys a Ht Hcs) as [Hb Hp].
  exact (run_all_keeps cs a a' (ty_store _ _ _ Ht) Hb Hp Hr).
Qed.

(** The empty arena is typed by the empty typing. *)
Lemma typed_init limit :
  arena_align <= limit <= arena_max -> typed known ∅ (arena_init limit).
Proof using Type.
  intros Hl. split; [apply store_wf_init; exact Hl|..]; intros p md; rewrite lookup_empty;
    discriminate.
Qed.

End Typing.

(** The new message of the example is typed by its definition. *)
Lemma example_typed : typed example_known example_typing (snd example_rec).
Proof.
  exact (typed_msg_new example_known example_known_ok ∅ (arena_init 4096) example_msgdef
           (typed_init example_known 4096 ltac:(vm_compute; split; congruence))
           (or_introl eq_refl)).
Qed.

Lemma example_map_known_ok md : example_map_known md -> msgdef_ok example_map_known md.
Proof.
  intros ->. apply msgdef_ok_b_true; [vm_compute; reflexivity|].
  intros f sub Hin Hc Hs; cbn in Hin; set_unfold in Hin.
  destruct Hin as [-> |[]]. discriminate.
Qed.

Lemma example_map_typed :
  typed example_map_known {[ 16 := example_mapdef ]} (snd example_map_rec).
Proof.
  exact (typed_msg_new example_map_known example_map_known_ok ∅ (arena_init 4096)
           example_mapdef
           (typed_init example_map_known 4096 ltac:(vm_compute; split; congruence))
           eq_refl).
Qed.

(** The message of the example with its array made. *)
Lemma example_mut_typed : typed example_known example_typing (snd example_rec_mut).
Proof.
  destruct (typed_msg_mutable example_known example_known_ok example_typing
              (snd example_rec) 16 example_msgdef example_rep example_typed)
    as (p & a' & Hr & _ & Ht & _); [vm_compute; reflexivity|cbn; set_solver|reflexivity|].
  assert (E : example_rec_mut = (p, a'))
    by (unfold example_rec_mut; change (fst example_rec) with 16; rewrite Hr; reflexivity).
  rewrite E. exact Ht.
Qed.

(** ** Properties of the typed store *)

(** C11: a typed program does not go wrong, and what it builds is typed:
    under a schema whose definitions are well formed, every call of a
    program that names typed messages and fields of their definitions
    ([upb_msg_set] on fields that hold no handle, [upb_msg_mutable] on
    those that do) and meets the contracts of the array and map functions
    returns, from an empty arena of at most 2^58 bytes, and in the final
    store every handle field of every message holds NULL or an object of
    the kind and widths the schema gives the field. *)
Theorem typed_program_safe known limit cs :
  (forall md, known md -> msgdef_ok known md) ->
  arena_align <= limit <= arena_max ->
  calls_typed known ∅ (arena_init limit) cs ->
  exists tys a, run_all (arena_init limit) cs = Ok a /\ typed known tys a.
Proof.
  intros Hk Hl Hc.
  destruct (run_all_typed known Hk cs ∅ _ (typed_init known limit Hl) Hc)
    as (tys & a & Hr & _ & Ht).
  eauto.
Qed.

Lemma typed_program_safe_witness :
  exists tys a, run_all (arena_init 4096) example_program = Ok a /\ typed example_known tys a.
Proof.
  apply (typed_program_safe example_known 4096 example_program);
    [exact example_known_ok|vm_compute; split; congruence|exact example_program_typed].
Defined.

(** C12: [upb_msg_mutable] returns what the schema says: on a handle field
    of a typed message it returns without a fault; when the handle is
    NULL nothing has changed; otherwise it is a map of the key and value widths of the entry type, an array of
    the element width of the field's type, or a message typed by the
    field's sub-definition with every handle field typed in turn; and the
    store is typed afterwards, the new message included. *)
Theorem upb_msg_mutable_typed known tys a msg md f :
  (forall md, known md -> msgdef_ok known md) ->
  typed known tys a -> tys !! msg = Some md -> f ∈ upb_msgdef_fields md ->
  is_handle f = true ->
  exists p a',
    upb_msg_mutable a msg f = Ok (p, a') /\
    typed known (type_handle tys f p) a' /\
    (p = 0 -> a' = a) /\
    (p <> 0 ->
     if is_container f
     then exists k, container_kind f = Some k /\ arena_kind a' p = Some k
     else exists sub, upb_fielddef_msgsubdef f = Some sub /\
                      msg_typed (type_handle tys f p) a' p sub).
Proof.
  intros Hk Ht Hmsg Hin Hh.
  destruct (typed_msg_mutable known Hk _ _ _ _ _ Ht Hmsg Hin Hh)
    as (p & a' & Hr & _ & Ht' & Hok & Hnull).
  exists p, a'. split; [exact Hr|]. split; [exact Ht'|]. split; [exact Hnull|].
  intros Hp. destruct Hok as [?|Hok]; [contradiction|]. destruct (is_container f); [exact Hok|].
  destruct Hok as (sub & Hs & Hl). exists sub. split; [exact Hs|].
  exact (ty_msgs _ _ _ Ht' p sub Hl).
Qed.

Lemma upb_msg_mutable_typed_witness :
  exists p a',
    upb_msg_mutable (snd example_rec) 16 example_sub = Ok (p, a') /\
    typed example_known (type_handle example_typing example_sub p) a' /\
    (p = 0 -> a' = snd example_rec) /\
    (p <> 0 ->
     if is_container example_sub
     then exists k, container_kind example_sub = Some k /\ arena_kind a' p = Some k
     else exists sub, upb_fielddef_msgsubdef example_sub = Some sub /\
                      msg_typed (type_handle example_typing example_sub p) a' p sub).
Proof.
  apply (upb_msg_mutable_typed example_known example_typing (snd example_rec) 16
           example_msgdef example_sub);
    [exact example_known_ok|exact example_typed|vm_compute; reflexivity
    |cbn; set_solver|reflexivity].
Defined.

(** C31: [upb_msg_set] keeps the store typed: on a field of a typed
    message that holds no handle, with a value at least as wide as the
    field, it returns, and every handle field of every message still holds
    NULL or an object of its kind: the bytes it writes, the case word of a
    oneof included, lie apart from every handle. *)
Theorem upb_msg_set_typed known tys a msg md f sz val :
  (forall md, known md -> msgdef_ok known md) ->
  typed known tys a -> tys !! msg = Some md -> f ∈ upb_msgdef_fields md ->
  is_handle f = false -> msg_field_size f = Ok sz -> sz <= Z.of_nat (length val) ->
  exists a', upb_msg_set a msg f val = Ok a' /\ typed known tys a'.
Proof. intros Hk. apply typed_msg_set. exact Hk. Qed.

Lemma upb_msg_set_typed_witness :
  exists a', upb_msg_set (snd example_rec) 16 example_o1 (msgval_int32 7) = Ok a' /\
             typed example_known example_typing a'.
Proof.
  apply (upb_msg_set_typed example_known example_typing (snd example_rec) 16
           example_msgdef example_o1 4 (msgval_int32 7));
    [exact example_known_ok|exact example_typed|vm_compute; reflexivity
    |cbn; set_solver|reflexivity|reflexivity|vm_compute; congruence].
Defined.

(** The example program ends with the array and the sub-message in the
    fields of the message. *)
Example example_program_reads :
  match run_all (arena_init 4096) example_program with
  | Ok a =>
      (v <- upb_msg_get a 16 example_rep ;; ptr_val v) = Ok 80 /\
      array_elems a 80 = Ok [msgval_int32 1] /\
      (v <- upb_msg_get a 16 example_o1 ;; int32_val v) = Ok 7 /\
      (v <- upb_msg_get a 16 example_sub ;; ptr_val v) = Ok 128
  | Err _ => False
  end.
Proof. vm_compute. repeat split. Qed.

(** C32: a handle read from a typed message is what the schema says:
    [upb_msg_get] on a handle field that is no member of a oneof returns
    NULL or the address of a map whose key and value widths are those of
    the entry type, of an array whose element width is that of the
    field's type, or of a message typed by the field's sub-definition. *)
Theorem upb_msg_get_typed known tys a msg md f :
  (forall md, known md -> msgdef_ok known md) ->
  typed known tys a -> tys !! msg = Some md -> f ∈ upb_msgdef_fields md ->
  is_handle f = true -> 0 <= presence (upb_fielddef_layout f) ->
  exists h,
    (v <- upb_msg_get a msg f ;; ptr_val v) = Ok h /\
    (h <> 0 ->
     if upb_fielddef_ismap f then
       exists m, get_map a h = Ok m /\
         container_kind f = Some (KMap (map_key_size m) (map_val_size m))
     else if upb_fielddef_isseq f then
       exists hdr, get_array a h = Ok hdr /\
         Z.shiftl 1 (array_lg2 hdr) = value_size (upb_fielddef_type f)
     else exists sub, upb_fielddef_msgsubdef f = Some sub /\ msg_typed tys a h sub).
Proof.
  intros Hk Ht Hmsg Hin Hh Hp.
  destruct (typed_msg_get known Hk _ _ _ _ _ Ht Hmsg Hin Hh Hp) as (h & Hget & Hok).
  exists h. split; [exact Hget|]. intros Hnz.
  destruct (upb_fielddef_ismap f) eqn:Hm; [exact (handle_map _ _ _ _ Hok Hnz Hm)|].
  destruct (upb_fielddef_isseq f) eqn:Hs; [exact (handle_array _ _ _ _ Hok Hnz Hm Hs)|].
  destruct Hok as [?|Hok]; [contradiction|]. unfold is_container in Hok.
  rewrite Hm, Hs in Hok. destruct Hok as (sub & E & Hl). exists sub.
  split; [exact E|exact (ty_msgs _ _ _ Ht h sub Hl)].
Qed.

Lemma upb_msg_get_typed_witness :
  exists h,
    (v <- upb_msg_get (snd example_rec_mut) 16 example_rep ;; ptr_val v) = Ok h /\
    (h <> 0 ->
     if upb_fielddef_ismap example_rep then
       exists m, get_map (snd example_rec_mut) h = Ok m /\
         container_kind example_rep = Some (KMap (map_key_size m) (map_val_size m))
     else if upb_fielddef_isseq example_rep then
       exists hdr, get_array (snd example_rec_mut) h = Ok hdr /\
         Z.shiftl 1 (array_lg2 hdr) = value_size (upb_fielddef_type example_rep)
     else exists sub, upb_fielddef_msgsubdef example_rep = Some sub /\
                      msg_typed example_typing (snd example_rec_mut) h sub).
Proof.
  apply (upb_msg_get_typed example_known example_typing (snd example_rec_mut) 16
           example_msgdef example_rep);
    [exact example_known_ok|exact example_mut_typed|vm_compute; reflexivity
    |cbn; set_solver|reflexivity|vm_compute; congruence].
Defined.

(** C15: the accessor, the array and the schema together: on a repeated
    field of a typed message [upb_msg_mutable] returns NULL, the arena
    being exhausted, or an array to which [upb_array_append] appends any
    value at least as wide as the field's type, without a fault; the
    store is typed afterwards, and after [true] the array holds its
    elements followed by the leading bytes of the value, as many as the
    type is wide. *)
Theorem upb_array_append_typed known tys a msg md f val :
  (forall md, known md -> msgdef_ok known md) ->
  typed known tys a -> tys !! msg = Some md -> f ∈ upb_msgdef_fields md ->
  upb_fielddef_isseq f = true -> upb_fielddef_ismap f = false ->
  value_size (upb_fielddef_type f) <= Z.of_nat (length val) ->
  exists h a1,
    upb_msg_mutable a msg f = Ok (h, a1) /\ (h = 0 -> a1 = a) /\
    (h <> 0 ->
     exists ok a2 l,
       upb_array_append a1 h val = Ok (ok, a2) /\ typed known tys a2 /\
       array_elems a1 h = Ok l /\
       (ok = true ->
        array_elems a2 h =
          Ok (l ++ [take (Z.to_nat (value_size (upb_fielddef_type f))) val]))).
Proof.
  intros Hk Ht Hmsg Hin Hs Hm Hv.
  assert (Hh : is_handle f = true) by (unfold is_handle; rewrite Hm, Hs; reflexivity).
  assert (E : forall h, type_handle tys f h = tys)
    by (intros h; unfold type_handle, is_container; rewrite Hm, Hs; reflexivity).
  destruct (typed_msg_mutable known Hk _ _ _ _ _ Ht Hmsg Hin Hh)
    as (h & a1 & Hr & _ & Ht1 & Hok & Hnull). rewrite E in Ht1, Hok.
  exists h, a1. split; [exact Hr|]. split; [exact Hnull|]. intros Hnz.
  destruct (handle_array _ _ _ _ Hok Hnz Hm Hs) as (hdr & Hg & Hw).
  destruct (typed_append known tys a1 h hdr val Ht1 Hg) as (ok & a2 & l & Ha & Ht2 & Hl & Hel);
    [rewrite Hw; exact Hv|].
  exists ok, a2, l. rewrite <- Hw. auto.
Qed.

Lemma upb_array_append_typed_witness :
  exists h a1,
    upb_msg_mutable (snd example_rec) 16 example_rep = Ok (h, a1) /\
    (h = 0 -> a1 = snd example_rec) /\
    (h <> 0 ->
     exists ok a2 l,
       upb_array_append a1 h (msgval_int32 1) = Ok (ok, a2) /\
       typed example_known example_typing a2 /\
       array_elems a1 h = Ok l /\
       (ok = true ->
        array_elems a2 h =
          Ok (l ++ [take (Z.to_nat (value_size (upb_fielddef_type example_rep)))
                      (msgval_int32 1)]))).
Proof.
  apply (upb_array_append_typed example_known example_typing (snd example_rec) 16
           example_msgdef example_rep (msgval_int32 1));
    [exact example_known_ok|exact example_typed|vm_compute; reflexivity
    |cbn; set_solver|reflexivity|reflexivity|vm_compute; congruence].
Defined.

(** C16: the accessor, the map and the schema together: on a map field of
    a typed message [upb_msg_mutable] returns NULL, the arena being
    exhausted, or a map of the key and value widths of the entry type;
    [upb_map_set] of a key that can be read at that width and a value at
    least as wide as the values returns without a fault, the store is
    typed afterwards, and after [true] [upb_map_get] finds under the key
    the leading bytes of the value. *)
Theorem upb_map_set_typed known tys a msg md f ks vs key val :
  (forall md, known md -> msgdef_ok known md) ->
  typed known tys a -> tys !! msg = Some md -> f ∈ upb_msgdef_fields md ->
  upb_fielddef_ismap f = true -> container_kind f = Some (KMap ks vs) ->
  map_value_width vs <= Z.of_nat (length val) ->
  exists h a1,
    upb_msg_mutable a msg f = Ok (h, a1) /\ (h = 0 -> a1 = a) /\
    (h <> 0 -> forall k, _upb_map_tokey a1 key ks = Ok k ->
     exists ok a2,
       upb_map_set a1 h key val = Ok (ok, a2) /\ typed known tys a2 /\
       (ok = true ->
        upb_map_get a2 h key = Ok (Some (take (Z.to_nat (map_value_width vs)) val)))).
Proof.
  intros Hk Ht Hmsg Hin Hm Hc Hv.
  assert (Hh : is_handle f = true) by (unfold is_handle; rewrite Hm; reflexivity).
  assert (E : forall h, type_handle tys f h = tys)
    by (intros h; unfold type_handle, is_container; rewrite Hm; reflexivity).
  destruct (typed_msg_mutable known Hk _ _ _ _ _ Ht Hmsg Hin Hh)
    as (h & a1 & Hr & _ & Ht1 & Hok & Hnull). rewrite E in Ht1, Hok.
  exists h, a1. split; [exact Hr|]. split; [exact Hnull|]. intros Hnz k Hkey.
  destruct (handle_map _ _ _ _ Hok Hnz Hm) as (m & Hg & Hw).
  rewrite Hc in Hw. injection Hw as -> ->.
  exact (typed_map_set known tys a1 h m key k val Ht1 Hg Hkey Hv).
Qed.

Lemma upb_map_set_typed_witness :
  exists h a1,
    upb_msg_mutable (snd example_map_rec) 16 example_mapfield = Ok (h, a1) /\
    (h = 0 -> a1 = snd example_map_rec) /\
    (h <> 0 -> forall k, _upb_map_tokey a1 (msgval_int32 5) 4 = Ok k ->
     exists ok a2,
       upb_map_set a1 h (msgval_int32 5) (msgval_str 1000 1) = Ok (ok, a2) /\
       typed example_map_known {[ 16 := example_mapdef ]} a2 /\
       (ok = true ->
        upb_map_get a2 h (msgval_int32 5) =
          Ok (Some (take (Z.to_nat (map_value_width UPB_MAPTYPE_STRING))
                      (msgval_str 1000 1))))).
Proof.
  apply (upb_map_set_typed example_map_known {[ 16 := example_mapdef ]} (snd example_map_rec)
           16 example_mapdef example_mapfield 4 UPB_MAPTYPE_STRING);
    [exact example_map_known_ok|exact example_map_typed|vm_compute; reflexivity
    |cbn; set_solver|reflexivity|vm_compute; reflexivity|vm_compute; congruence].
Defined.

(** The map field of the example: the map [upb_msg_mutable] makes, a
    binding set in it and read back. *)
Example example_map_field_reads :
  (r <- upb_msg_mutable (snd example_map_rec) 16 example_mapfield ;;
   r1 <- upb_map_set (snd r) (fst r) (msgval_int32 5) (msgval_str 1000 1) ;;
   v <- upb_map_get (snd r1) (fst r) (msgval_int32 5) ;;
   h <- upb_msg_get (snd r1) 16 example_mapfield ;;
   p <- ptr_val h ;;
   Ok (fst r =? p, fst r1, v)) = Ok (true, true, Some (msgval_str 1000 1)).
Proof. vm_compute. reflexivity. Qed.

(** Outside the discipline: [upb_msg_mutable] does not look at the case
    word.  On the sub-message member of a oneof whose int32 member holds
    7 it returns 7 as the handle of a message, which is no object of the
    arena, and the field still reads as not set. *)
Example example_oneof_handle :
  (a1 <- upb_msg_set (snd example_rec) 16 example_oneof_int (msgval_int32 7) ;;
   r <- upb_msg_mutable a1 16 example_oneof_msg ;;
   h <- upb_msg_has (snd r) 16 example_oneof_msg ;;
   Ok (fst r, arena_kind (snd r) (fst r), h)) = Ok (7, None, false) /\
  msgdef_ok_b {| upb_msgdef_layout := {| layout_size := 32 |};
                 upb_msgdef_fields := [example_oneof_int; example_oneof_msg] |} = false.
Proof. vm_compute. split; reflexivity. Qed.
