(* ===== verification/Model.v ===== *)
(** * Model: the abstract machine of the reflection API

    What a caller of reflection.c is promised, without the arena: a store
    of abstract objects ([aobject]) under the handles the functions
    return.  A message is the record of its fields (a finite map from
    field numbers to bytes, [Record]), an array is the list of its
    elements with the logarithm of their width, a map is a finite map
    from key bytes to value bytes with its two widths, and a string is
    the bytes a caller has put into the arena for a view to point to.

    The operations are the calls of [Api], the read functions
    ([query]) and the allocation of a string by the caller
    ([op_string]); an operation returns a result ([ret]).  The machine is a
    labelled transition system ([astep]): one rule per function and
    outcome.  It does not say which address a new object gets nor whether
    the arena has room: the handle returned by a constructor is NULL or
    any address that is not in the store, and an append or an insertion
    may return [false] and change nothing.  An operation is [enabled]
    when the machine has a step for it; the premises of the rules are the
    contract of the function (the handle is an object of the right kind,
    the field belongs to the definition of the message, the index is
    below the length, the value is wide enough).

    A key or a value of a map has a fixed width or is a string.  For a
    string value the map keeps the view it is given (a pointer and a
    size, 16 bytes), not the bytes the view points to, so the value of a
    string map is that view.  A string key is resolved to the bytes it
    points to ([key_of]): the view has to point at a string of the store
    or to be empty. *)

From Stdlib Require Import ZArith Lia List.
From coqutil Require Import Byte Word.LittleEndianList.
From stdpp Require Import base tactics list numbers gmap.
From S2P Require Import Prelude Layout Arena Array Table Map Msg Record Store Frame Api Typed.

#[local] Open Scope Z_scope.

(** ** Abstract objects *)

Inductive aobject : Type :=
| AMsg (md : upb_msgdef) (r : gmap Z (list byte))
| AArr (lg2 : Z) (l : list (list byte))
| AMap (ks vs : Z) (d : gmap (list byte) (list byte))
| AStr (bs : list byte).

Abbreviation astore := (gmap Z aobject).

(** ** Operations and results *)

(** The functions of reflection.c that only read. *)
Inductive query : Type :=
| query_msg_has (msg : Z) (f : upb_fielddef)
| query_msg_get (msg : Z) (f : upb_fielddef)
| query_array_size (arr : Z)
| query_array_get (arr : Z) (i : Z)
| query_map_size (map : Z)
| query_map_get (map : Z) (key : list byte).

(** An operation: a call, a read, or the caller's
    [memcpy(upb_arena_malloc(a, n), bs, n)] of the bytes of a string. *)
Inductive op : Type :=
| op_call (c : call)
| op_query (q : query)
| op_string (bs : list byte).

(** What an operation returns: nothing, a [bool], a handle, a size, a
    value, or the value found under a key, if any. *)
Inductive ret : Type :=
| RVoid
| RBool (b : bool)
| RPtr (p : Z)
| RSize (n : Z)
| RVal (v : list byte)
| RFound (o : option (list byte)).

(** ** What the machine creates *)

(** The widths of a map: a key of at most 16 bytes and a value of at
    most 8, or a string (the width 0 of [_upb_fieldtype_to_mapsize]). *)
Definition covered_widths (ks vs : Z) : Prop :=
  0 <= ks <= sizeof_msgval /\ 0 <= vs <= 8.

#[export] Instance covered_widths_dec ks vs : Decision (covered_widths ks vs).
Proof. unfold covered_widths. apply _. Defined.

(** The value a map of value width [vs] stores for a value. *)
Definition value_of_val (vs : Z) (val : list byte) : list byte :=
  take (Z.to_nat (map_value_width vs)) val.

(** The bytes a view points to: none when the view is empty, else the
    first bytes of a string of the store. *)
Definition string_at (σ : gmap Z aobject) (data size : Z) : option (list byte) :=
  if size =? 0 then Some []
  else match σ !! data with
       | Some (AStr bs) =>
           if decide (0 <= size <= Z.of_nat (length bs))
           then Some (take (Z.to_nat size) bs) else None
       | _ => None
       end.

(** The bytes a map of key width [ks] is keyed by for a key: the bytes
    a string view points to, or the first [ks] bytes of the key. *)
Definition key_of (σ : gmap Z aobject) (ks : Z) (key : list byte) : option (list byte) :=
  if ks =? UPB_MAPTYPE_STRING then
    match str_val key with
    | Ok sv => string_at σ (fst sv) (snd sv)
    | Err _ => None
    end
  else
    match prefix_bytes key ks with
    | Ok k => Some k
    | Err _ => None
    end.

(** The element an array of width [2^lg2] stores for a value. *)
Definition elem_of_value (lg2 : Z) (val : list byte) : list byte :=
  take (Z.to_nat (Z.shiftl 1 lg2)) val.

(** The object [upb_msg_mutable] makes for a field that holds NULL: an
    empty map of the widths of the entry type, an empty array of the
    width of the element type, or the new message of the sub-definition. *)
Definition new_object (f : upb_fielddef) : option aobject :=
  if is_container f then
    match container_kind f with
    | Some (KMap ks vs) => if decide (covered_widths ks vs) then Some (AMap ks vs ∅) else None
    | Some (KArray lg2) => Some (AArr lg2 [])
    | _ => None
    end
  else
    match upb_fielddef_msgsubdef f with
    | Some sub =>
        if upb_fielddef_issubmsg f && layout_ok_b sub
        then Some (AMsg sub (rec_new sub)) else None
    | None => None
    end.

(** A field [upb_msg_mutable] is made for: a field of the definition that
    holds a pointer and is no member of a oneof. *)
Definition handle_field (md : upb_msgdef) (f : upb_fielddef) : Prop :=
  f ∈ upb_msgdef_fields md /\ msg_field_size f = Ok sizeof_ptr /\
  in_oneof (upb_fielddef_layout f) = false.

(** The widths of a new map of two types. *)
Definition map_widths (kt vt : upb_fieldtype_t) : option (Z * Z) :=
  match table_index _upb_fieldtype_to_mapsize (fieldtype_code kt),
        table_index _upb_fieldtype_to_mapsize (fieldtype_code vt) with
  | Ok ks, Ok vs => Some (ks, vs)
  | _, _ => None
  end.

(** The store with a new object under the handle [p], or as it is when
    the handle is NULL. *)
Definition with_new (p : Z) (o : aobject) (σ : astore) : astore :=
  if p =? 0 then σ else <[p := o]> σ.

(** A handle a constructor may return: NULL, or an address that is not
    in the store. *)
Definition fresh_handle (σ : astore) (p : Z) : Prop := p = 0 \/ σ !! p = None.

(** ** The transitions *)

Inductive astep (σ : astore) : op -> ret -> astore -> Prop :=
| astep_msg_new md p :
    layout_ok md -> fresh_handle σ p ->
    astep σ (op_call (call_msg_new md)) (RPtr p) (with_new p (AMsg md (rec_new md)) σ)
| astep_msg_set msg md r f sz val :
    σ !! msg = Some (AMsg md r) -> f ∈ upb_msgdef_fields md ->
    msg_field_size f = Ok sz -> sz <= Z.of_nat (length val) ->
    astep σ (op_call (call_msg_set msg f val)) RVoid
      (<[msg := AMsg md (rec_set md f (take (Z.to_nat sz) val) r)]> σ)
| astep_msg_mutable_old msg md r f o h :
    σ !! msg = Some (AMsg md r) -> handle_field md f -> new_object f = Some o ->
    r !! field_number f = Some (le_split 8 h) -> 0 < h < 2 ^ 64 ->
    astep σ (op_call (call_msg_mutable msg f)) (RPtr h) σ
| astep_msg_mutable_new msg md r f o h :
    σ !! msg = Some (AMsg md r) -> handle_field md f -> new_object f = Some o ->
    r !! field_number f = Some (le_split 8 0) -> fresh_handle σ h ->
    astep σ (op_call (call_msg_mutable msg f)) (RPtr h)
      (with_new h o (<[msg := AMsg md (<[field_number f := le_split 8 h]> r)]> σ))
| astep_array_set arr lg2 l i val :
    σ !! arr = Some (AArr lg2 l) -> 0 <= i < Z.of_nat (length l) ->
    Z.shiftl 1 lg2 <= Z.of_nat (length val) ->
    astep σ (op_call (call_array_set arr i val)) RVoid
      (<[arr := AArr lg2 (<[Z.to_nat i := elem_of_value lg2 val]> l)]> σ)
| astep_array_append arr lg2 l val (ok : bool) :
    σ !! arr = Some (AArr lg2 l) -> Z.shiftl 1 lg2 <= Z.of_nat (length val) ->
    astep σ (op_call (call_array_append arr val)) (RBool ok)
      (if ok then <[arr := AArr lg2 (l ++ [elem_of_value lg2 val])]> σ else σ)
| astep_array_resize arr lg2 l size (ok : bool) :
    σ !! arr = Some (AArr lg2 l) -> size <= arena_max ->
    astep σ (op_call (call_array_resize arr size)) (RBool ok) σ
| astep_map_new kt vt ks vs p :
    map_widths kt vt = Some (ks, vs) -> covered_widths ks vs -> fresh_handle σ p ->
    astep σ (op_call (call_map_new kt vt)) (RPtr p) (with_new p (AMap ks vs ∅) σ)
| astep_map_set map ks vs d key val k (ok : bool) :
    σ !! map = Some (AMap ks vs d) -> key_of σ ks key = Some k ->
    map_value_width vs <= Z.of_nat (length val) ->
    astep σ (op_call (call_map_set map key val)) (RBool ok)
      (if ok then <[map := AMap ks vs (<[k := value_of_val vs val]> d)]> σ else σ)
| astep_map_delete map ks vs d key k :
    σ !! map = Some (AMap ks vs d) -> key_of σ ks key = Some k ->
    astep σ (op_call (call_map_delete map key)) (RBool (bool_decide (is_Some (d !! k))))
      (<[map := AMap ks vs (delete k d)]> σ)
| astep_msg_has msg md r f :
    σ !! msg = Some (AMsg md r) -> f ∈ upb_msgdef_fields md ->
    presence (upb_fielddef_layout f) <> 0 ->
    astep σ (op_query (query_msg_has msg f))
      (RBool (bool_decide (is_Some (r !! field_number f)))) σ
| astep_msg_get msg md r f :
    σ !! msg = Some (AMsg md r) -> f ∈ upb_msgdef_fields md ->
    astep σ (op_query (query_msg_get msg f)) (RVal (rec_get f r)) σ
| astep_array_size arr lg2 l :
    σ !! arr = Some (AArr lg2 l) ->
    astep σ (op_query (query_array_size arr)) (RSize (Z.of_nat (length l))) σ
| astep_array_get arr lg2 l i v :
    σ !! arr = Some (AArr lg2 l) -> 0 <= i -> l !! Z.to_nat i = Some v ->
    astep σ (op_query (query_array_get arr i)) (RVal v) σ
| astep_map_size map ks vs d :
    σ !! map = Some (AMap ks vs d) ->
    astep σ (op_query (query_map_size map)) (RSize (Z.of_nat (size d))) σ
| astep_map_get map ks vs d key k :
    σ !! map = Some (AMap ks vs d) -> key_of σ ks key = Some k ->
    astep σ (op_query (query_map_get map key)) (RFound (d !! k)) σ
| astep_string bs p :
    fresh_handle σ p ->
    astep σ (op_string bs) (RPtr p) (with_new p (AStr bs) σ).

(** The machine has a step for the operation. *)
Definition enabled (σ : astore) (o : op) : Prop := exists r σ', astep σ o r σ'.

(** A trace: the operations of a run with what they returned. *)
Inductive asteps : astore -> list (op * ret) -> astore -> Prop :=
| asteps_nil σ : asteps σ [] σ
| asteps_cons σ o r σ1 tr σ' :
    astep σ o r σ1 -> asteps σ1 tr σ' -> asteps σ ((o, r) :: tr) σ'.

(** ** Lemmas *)

Lemma with_new_null o σ : with_new 0 o σ = σ.
Proof. reflexivity. Qed.

Lemma with_new_insert p o σ : p <> 0 -> with_new p o σ = <[p := o]> σ.
Proof. intros Hp. unfold with_new. destruct (Z.eqb_spec p 0); [contradiction|reflexivity]. Qed.

(** What a result leaves of the choice of the machine: the next store. *)
Lemma astep_det σ o r σ1 σ2 : astep σ o r σ1 -> astep σ o r σ2 -> σ1 = σ2.
Proof.
  destruct 1; inversion 1; subst; try reflexivity; try (repeat case_match; congruence);
    exfalso;
    match goal with
    | Hr : 0 < ?h < 2 ^ 64 |- _ =>
        assert (E : dec_unsigned (le_split 8 h) = dec_unsigned (le_split 8 0)) by congruence;
        rewrite dec_unsigned_le_split in E by (unfold in_unsigned; cbn; lia);
        change (dec_unsigned (le_split 8 0)) with 0 in E; lia
    end.
Qed.

Lemma asteps_app σ tr1 σ1 tr2 σ2 :
  asteps σ tr1 σ1 -> asteps σ1 tr2 σ2 -> asteps σ (tr1 ++ tr2) σ2.
Proof. induction 1; [auto|]. intros H2. cbn. econstructor; eauto. Qed.

(** A query leaves the store as it is. *)
Lemma astep_query σ q r σ' : astep σ (op_query q) r σ' -> σ' = σ.
Proof. inversion 1; reflexivity. Qed.
