(* ===== verification/Sim.v ===== *)
(** * Sim: the arena and the abstract store

    The functions of reflection.c with what they return ([exec] for the
    calls, [ask] for the reads, [perform] for an operation, [trace] for a
    program), and the relation [sim] between an arena and a store of
    abstract objects of [Model]: the arena is a well-formed store
    ([store_wf]), every abstract object is there ([obj_sim]), and the
    blocks an object owns are no objects of the store.  A message is a
    block that is no buffer and stands for its record; an array has the
    width and the elements; a map has the widths and the bindings, and
    owns the blocks of its entries ([entry_ok]), the copy of a string
    key ([key_block]) and the copy of the view of a string value
    ([val_block]); a string is a block that is no buffer with its bytes.

    The frame ([sim_update]): an update that keeps the containers other
    than [t] ([keeps] of [Frame]) and the blocks that are no buffers
    puts a new object under [t] and leaves every other object of the
    store as it was.  [sim_quiet], [sim_same] and [sim_new] are its
    instances for the updates of the array and map functions and of the
    constructors. *)

From Stdlib Require Import ZArith Lia List.
From coqutil Require Import Byte Word.LittleEndianList.
From stdpp Require Import base tactics list numbers gmap.
From S2P Require Import Prelude Layout Arena Array Table Map Msg Record Store Frame Api Typed.
From S2P Require Import Model.

#[local] Open Scope Z_scope.

(** ** Operations on the arena *)

(** A call with what it returns. *)
Definition exec (a : upb_arena) (c : call) : res (ret * upb_arena) :=
  match c with
  | call_msg_new m => let r := upb_msg_new m a in Ok (RPtr (fst r), snd r)
  | call_msg_set msg f val => a' <- upb_msg_set a msg f val ;; Ok (RVoid, a')
  | call_msg_mutable msg f => r <- upb_msg_mutable a msg f ;; Ok (RPtr (fst r), snd r)
  | call_array_set arr i val => a' <- upb_array_set a arr i val ;; Ok (RVoid, a')
  | call_array_append arr val => r <- upb_array_append a arr val ;; Ok (RBool (fst r), snd r)
  | call_array_resize arr size => r <- upb_array_resize a arr size ;; Ok (RBool (fst r), snd r)
  | call_map_new kt vt => r <- upb_map_new a kt vt ;; Ok (RPtr (fst r), snd r)
  | call_map_set map key val => r <- upb_map_set a map key val ;; Ok (RBool (fst r), snd r)
  | call_map_delete map key => r <- upb_map_delete a map key ;; Ok (RBool (fst r), snd r)
  end.

(** A read. *)
Definition ask (a : upb_arena) (q : query) : res ret :=
  match q with
  | query_msg_has msg f => b <- upb_msg_has a msg f ;; Ok (RBool b)
  | query_msg_get msg f => v <- upb_msg_get a msg f ;; Ok (RVal v)
  | query_array_size arr => n <- upb_array_size a arr ;; Ok (RSize n)
  | query_array_get arr i => v <- upb_array_get a arr i ;; Ok (RVal v)
  | query_map_size map => n <- upb_map_size a map ;; Ok (RSize n)
  | query_map_get map key => o <- upb_map_get a map key ;; Ok (RFound o)
  end.

Definition perform (a : upb_arena) (o : op) : res (ret * upb_arena) :=
  match o with
  | op_call c => exec a c
  | op_query q => r <- ask a q ;; Ok (r, a)
  | op_string bs =>
      let r := upb_arena_malloc a (Z.of_nat (length bs)) (OBytes bs) in
      Ok (RPtr (fst r), snd r)
  end.

(** The trace of a program, up to the first fault. *)
Fixpoint trace (a : upb_arena) (os : list op) : res (list (op * ret) * upb_arena) :=
  match os with
  | [] => Ok ([], a)
  | o :: os' =>
      r <- perform a o ;;
      t <- trace (snd r) os' ;;
      Ok ((o, fst r) :: fst t, snd t)
  end.

(** ** The simulation relation *)

(** The value a table value stands for: its first bytes, or the view it
    is the address of. *)
Definition value_of (a : upb_arena) (vs v : Z) : list byte :=
  match _upb_map_fromvalue a v vs with
  | Ok bs => bs
  | Err _ => []
  end.

(** The bindings of a map. *)
Definition map_view (a : upb_arena) (m : upb_map strtable) : gmap (list byte) (list byte) :=
  value_of a (map_val_size m) <$> contents (map_table m).

(** An entry of a map. *)
Definition map_entry (m : upb_map strtable) (e : tabent) : Prop :=
  exists i, st_entry (map_table m) i = Some e.

(** The blocks an entry owns: the copy of the view of a string value
    that [_upb_map_tovalue] made, and the copy of a string key that the
    table keeps. *)
Definition entry_owns (m : upb_map strtable) (e : tabent) (p : Z) : Prop :=
  map_val_size m = UPB_MAPTYPE_STRING /\ te_val e = p \/
  map_key_size m = UPB_MAPTYPE_STRING /\ te_addr e = p.

(** The copy of a view: a block that is no buffer, with room for the
    view. *)
Definition val_block (a : upb_arena) (v : Z) : Prop :=
  private a v /\ exists bs, get_bytes a v = Ok bs /\ sizeof_strview <= Z.of_nat (length bs).

(** The copy of a key: a block that is no buffer, with the bytes of the
    key. *)
Definition key_block (a : upb_arena) (e : tabent) : Prop :=
  private a (te_addr e) /\ get_bytes a (te_addr e) = Ok (te_key e).

(** The blocks of an entry are there. *)
Definition entry_ok (a : upb_arena) (m : upb_map strtable) (e : tabent) : Prop :=
  (map_val_size m = UPB_MAPTYPE_STRING -> val_block a (te_val e)) /\
  (map_key_size m = UPB_MAPTYPE_STRING -> key_block a e).

(** The blocks the object at [q] owns besides its own. *)
Definition owned (a : upb_arena) (q p : Z) : Prop :=
  exists m e, get_map a q = Ok m /\ map_entry m e /\ entry_owns m e p.

(** The object at [q] of the arena stands for the abstract object. *)
Definition obj_sim (a : upb_arena) (q : Z) (o : aobject) : Prop :=
  match o with
  | AMsg md r =>
      layout_ok md /\ msg_wf a q (layout_size (upb_msgdef_layout md)) /\
      private a q /\ msg_record a q md = r
  | AArr lg2 l =>
      exists hdr, get_array a q = Ok hdr /\ array_lg2 hdr = lg2 /\ array_elems a q = Ok l
  | AMap ks vs d =>
      exists m, get_map a q = Ok m /\ map_key_size m = ks /\ map_val_size m = vs /\
                covered_widths ks vs /\ (forall e, map_entry m e -> entry_ok a m e) /\
                map_view a m = d
  | AStr bs => private a q /\ get_bytes a q = Ok bs
  end.

(** An object that owns no block. *)
Definition plain (o : aobject) : Prop :=
  match o with
  | AMap _ _ _ => False
  | _ => True
  end.

(** The object at [q] stands for [o], and what it owns is no object of
    the store. *)
Definition obj_new (a : upb_arena) (σ : astore) (q : Z) (o : aobject) : Prop :=
  obj_sim a q o /\ forall v, owned a q v -> σ !! v = None.

(** The arena is a well-formed store, every object of the abstract
    store is there, and what an object owns is no object of the store. *)
Record sim (a : upb_arena) (σ : astore) : Prop := {
  sim_store : store_wf a;
  sim_objs : forall q o, σ !! q = Some o -> obj_sim a q o;
  sim_owned : forall q v, is_Some (σ !! q) -> owned a q v -> σ !! v = None
}.

(** A program whose every operation is enabled in the abstract store it
    is performed in. *)
Fixpoint ops_enabled (a : upb_arena) (σ : astore) (os : list op) : Prop :=
  match os with
  | [] => True
  | o :: os' =>
      enabled σ o /\
      forall r a' σ', perform a o = Ok (r, a') -> astep σ o r σ' -> ops_enabled a' σ' os'
  end.

(** The diagram at one operation: it returns, the machine has a step
    with the same result, and the relation holds afterwards. *)
Definition refines_at (a : upb_arena) (σ : astore) (o : op) : Prop :=
  exists r a' σ', perform a o = Ok (r, a') /\ astep σ o r σ' /\ sim a' σ'.

(** ** Lemmas on the relation *)

Lemma run_exec a c : run a c = (r <- exec a c ;; Ok (snd r)).
Proof. destruct c; cbn [run exec]; try reflexivity; destruct (_ a) as [?|]; reflexivity. Qed.

(** An object of the store is an object of the arena. *)
Lemma obj_sim_live a q o : obj_sim a q o -> is_Some (a_objs a !! q).
Proof.
  destruct o; cbn.
  - intros (_ & (bs & Hb%get_bytes_Ok & _) & _). eauto.
  - intros (hdr & Hg%get_array_Ok & _). eauto.
  - intros (m & Hg%get_map_Ok & _). eauto.
  - intros (_ & Hb%get_bytes_Ok). eauto.
Qed.

Lemma sim_fresh a σ p : sim a σ -> a_objs a !! p = None -> σ !! p = None.
Proof.
  intros Hsim Hp. destruct (σ !! p) as [o|] eqn:E; [|reflexivity].
  destruct (obj_sim_live a p o (sim_objs _ _ Hsim _ _ E)) as [x Hx]. congruence.
Qed.

(** A block an entry owns is a block that is no buffer. *)
Lemma entry_owns_block a m e p :
  entry_ok a m e -> entry_owns m e p -> private a p /\ exists bs, get_bytes a p = Ok bs.
Proof.
  intros [Hv Hk] [[E <-]|[E <-]].
  - destruct (Hv E) as (Hp & bs & Hb & _). eauto.
  - destruct (Hk E) as (Hp & Hb). eauto.
Qed.

(** What owns a block is a map, and the block is no buffer. *)
Lemma owned_inv a q o p :
  obj_sim a q o -> owned a q p ->
  (private a p /\ exists bs, get_bytes a p = Ok bs) /\ exists ks vs d, o = AMap ks vs d.
Proof.
  intros Ho (m & e & Hg & He & Hp). destruct o; cbn in Ho.
  - destruct Ho as (_ & (bs & Hb & _) & _). destruct (get_map_not_bytes _ _ _ _ Hg Hb).
  - destruct Ho as (hdr & Hh%get_array_Ok & _). apply get_map_Ok in Hg. congruence.
  - destruct Ho as (m' & Hg' & _ & _ & _ & Hok & _).
    assert (m' = m) as -> by congruence.
    split; [exact (entry_owns_block a m e p (Hok e He) Hp)|eauto].
  - destruct Ho as (_ & Hb). destruct (get_map_not_bytes _ _ _ _ Hg Hb).
Qed.

Lemma obj_sim_plain a σ q o : obj_sim a q o -> plain o -> obj_new a σ q o.
Proof.
  intros Ho Hk. split; [exact Ho|]. intros v Hv.
  destruct (owned_inv a q o v Ho Hv) as (_ & ? & ? & ? & ->). destruct Hk.
Qed.

(** A block that is owned is neither an object of the store nor new. *)
Lemma owned_ne a σ q v t :
  sim a σ -> is_Some (σ !! q) -> owned a q v ->
  is_Some (σ !! t) \/ a_objs a !! t = None -> v <> t.
Proof.
  intros Hsim [o Hq] Hv Ht ->. pose proof (sim_owned _ _ Hsim q t (mk_is_Some _ _ Hq) Hv) as Hn.
  destruct Ht as [[x Hx]|Ht]; [congruence|].
  destruct (owned_inv a q o t (sim_objs _ _ Hsim _ _ Hq) Hv) as ((_ & bs & Hb%get_bytes_Ok) & _).
  congruence.
Qed.

(** A binding of a map is an entry of its table. *)
Lemma contents_entry (m : upb_map strtable) k v :
  st_wf (map_table m) -> contents (map_table m) !! k = Some v ->
  exists e, map_entry m e /\ te_key e = k /\ te_val e = v.
Proof.
  intros Hwf Hk. rewrite contents_lookup in Hk by exact Hwf.
  destruct (st_lookup_entry _ _ _ Hk) as (i & e & He & <- & <-). exists e.
  split; [exists i; exact He|auto].
Qed.

(** The value of a table value depends on the block it names only. *)
Lemma value_of_keep a a' vs v :
  (vs = UPB_MAPTYPE_STRING -> get_bytes a' v = get_bytes a v) ->
  value_of a' vs v = value_of a vs v.
Proof.
  intros Hb. unfold value_of, _upb_map_fromvalue, mem_load. cbn [p_base p_off].
  destruct (Z.eqb_spec vs UPB_MAPTYPE_STRING) as [E|E]; [rewrite (Hb E)|]; reflexivity.
Qed.

Lemma fromvalue_value a vs v :
  0 <= vs <= 8 -> (vs = UPB_MAPTYPE_STRING -> val_block a v) ->
  _upb_map_fromvalue a v vs = Ok (value_of a vs v).
Proof.
  intros Hvs Hb. unfold value_of.
  enough (exists bs, _upb_map_fromvalue a v vs = Ok bs) as (bs & ->) by reflexivity.
  unfold _upb_map_fromvalue, mem_load. cbn [p_base p_off].
  destruct (Z.eqb_spec vs UPB_MAPTYPE_STRING) as [E|E].
  - destruct (Hb E) as (_ & bs & -> & Hl). cbn [bind].
    rewrite load_bytes_Ok by (unfold in_bounds, sizeof_strview in *; lia). eauto.
  - rewrite load_bytes_Ok by (unfold in_bounds, UPB_MAPTYPE_STRING in *; rewrite length_le_split; lia).
    eauto.
Qed.

(** The blocks of an entry in an arena in which they are as they were. *)
Lemma entry_ok_keep a a' m e :
  (forall p, entry_owns m e p -> private a p ->
             private a' p /\ get_bytes a' p = get_bytes a p) ->
  entry_ok a m e -> entry_ok a' m e.
Proof.
  intros Hfr [Hv Hk]. split; intros E.
  - destruct (Hv E) as (Hp & Hb). destruct (Hfr (te_val e) (or_introl (conj E eq_refl)) Hp)
      as [Hp' Hb']. split; [exact Hp'|]. rewrite Hb'. exact Hb.
  - destruct (Hk E) as (Hp & Hb). destruct (Hfr (te_addr e) (or_intror (conj E eq_refl)) Hp)
      as [Hp' Hb']. split; [exact Hp'|congruence].
Qed.

(** The bindings of a map in an arena in which the blocks of its
    entries are as they were. *)
Lemma map_view_keep a a' (m : upb_map strtable) :
  st_wf (map_table m) -> (forall e, map_entry m e -> entry_ok a m e) ->
  (forall e p, map_entry m e -> entry_owns m e p -> private a p ->
               get_bytes a' p = get_bytes a p) ->
  map_view a' m = map_view a m.
Proof.
  intros Hwf Hok Hfr. apply map_fmap_ext. intros k v Hk. apply value_of_keep. intros E.
  destruct (contents_entry m k v Hwf Hk) as (e & He & _ & <-).
  apply (Hfr e (te_val e) He (or_introl (conj E eq_refl))).
  exact (proj1 (proj1 (Hok e He) E)).
Qed.

(** The frame of one object. *)
Lemma obj_sim_keep (W : Z -> Prop) a a' q o :
  store_wf a -> keeps W a a' -> ~ W q ->
  (forall p, p = q \/ owned a q p -> private a p ->
             private a' p /\ get_bytes a' p = get_bytes a p) ->
  obj_sim a q o -> obj_sim a' q o.
Proof.
  intros Hs Hk Hw Hp. destruct o; cbn.
  - intros (Hok & (bs & Hb & Hl) & Hpr & Hr). destruct (Hp q (or_introl eq_refl) Hpr) as [Hpr' E].
    split; [exact Hok|]. split; [exists bs; split; [congruence|exact Hl]|].
    split; [exact Hpr'|]. rewrite <- Hr. apply msg_record_bytes, E.
  - intros (hdr & Hg & Hl & He). exists hdr.
    split; [exact (proj1 (proj1 Hk q hdr Hw Hg))|]. split; [exact Hl|].
    rewrite <- He. eapply array_elems_keeps; eauto.
  - intros (m & Hg & Eks & Evs & Hwd & Hok & Hd). exists m.
    assert (Hfr : forall e p, map_entry m e -> entry_owns m e p -> private a p ->
                    private a' p /\ get_bytes a' p = get_bytes a p).
    { intros e p He Hown. apply (Hp p). right. exists m, e. auto. }
    split; [exact (proj2 Hk q m Hw Hg)|]. do 3 (split; [assumption|]). split.
    + intros e He. apply (entry_ok_keep a a' m e); [exact (fun p => Hfr e p He)|auto].
    + rewrite <- Hd. apply map_view_keep; [exact (mwf_table _ _ _ (swf_maps _ Hs _ _ Hg))|exact Hok|].
      intros e p He Hown Hpr. exact (proj2 (Hfr e p He Hown Hpr)).
  - intros (Hpr & Hb). destruct (Hp q (or_introl eq_refl) Hpr) as [Hpr' E].
    split; [exact Hpr'|congruence].
Qed.

(** The frame: an update that keeps the containers other than [t] and
    the blocks that are no buffers puts [o'] under [t] and leaves every
    other object of the store as it was.  [t] is an object of the store
    or new, and what it owns is no object of the store. *)
Lemma sim_update a a' σ t o' :
  sim a σ -> store_wf a' -> keeps (eq t) a a' ->
  (forall p, p <> t -> private a p -> private a' p /\ get_bytes a' p = get_bytes a p) ->
  is_Some (σ !! t) \/ a_objs a !! t = None ->
  obj_sim a' t o' -> (forall v, owned a' t v -> σ !! v = None) ->
  sim a' (<[t := o']> σ).
Proof.
  intros Hsim Hs' Hk Hp Hdom Ht Hown.
  assert (Hobjs : forall q o, q <> t -> σ !! q = Some o -> obj_sim a' q o).
  { intros q o Hne Hq.
    apply (obj_sim_keep (eq t) a a' q o (sim_store _ _ Hsim) Hk (not_eq_sym Hne));
      [|exact (sim_objs _ _ Hsim _ _ Hq)].
    intros p [->|Hv]; [auto|]. apply Hp. eapply owned_ne; eauto. }
  split; [exact Hs'| |].
  - intros q o. destruct (decide (t = q)) as [<-|Hne].
    + rewrite lookup_insert_eq. intros [= <-]. exact Ht.
    + rewrite lookup_insert_ne by exact Hne. auto.
  - intros q v Hq Hv. destruct (decide (t = q)) as [<-|Hne].
    + destruct (owned_inv a' t o' v Ht Hv) as ((_ & bs & Hb) & _).
      pose proof (Hown v Hv) as Hn. destruct Hv as (m & e & Hg & _).
      rewrite lookup_insert_ne; [exact Hn|].
      intros ->. exact (get_map_not_bytes _ _ _ _ Hg Hb).
    + rewrite lookup_insert_ne in Hq by exact Hne. destruct Hq as [o Hq].
      pose proof (Hobjs q o (not_eq_sym Hne) Hq) as Ho'.
      destruct (owned_inv a' q o v Ho' Hv) as (_ & ks & vs & d & ->).
      destruct (sim_objs _ _ Hsim _ _ Hq) as (m & Hg & _).
      pose proof (proj2 Hk q m Hne Hg) as Hg'.
      assert (Hva : owned a q v).
      { destruct Hv as (m' & e & Hm' & Hv). rewrite Hg' in Hm'. injection Hm' as <-.
        exists m, e. auto. }
      rewrite lookup_insert_ne by (apply not_eq_sym; eapply owned_ne; eauto).
      exact (sim_owned _ _ Hsim q v (mk_is_Some _ _ Hq) Hva).
Qed.

(** The same for an update that is quiet on [t]. *)
Lemma sim_quiet a a' σ t o' :
  sim a σ -> store_wf a' -> quiet (eq t) a a' -> is_Some (σ !! t) ->
  obj_new a' σ t o' -> sim a' (<[t := o']> σ).
Proof.
  intros Hsim Hs' Hq Ht [Ho Hown].
  apply (sim_update a a' σ t o' Hsim Hs' (q_keeps _ _ _ Hq)); auto.
  intros p _ Hp. exact (private_quiet _ _ _ _ Hp Hq).
Qed.

(** An update that changes no object of the store. *)
Lemma sim_same a a' σ t o :
  sim a σ -> store_wf a' -> quiet (eq t) a a' -> σ !! t = Some o ->
  obj_new a' σ t o -> sim a' σ.
Proof.
  intros Hsim Hs' Hq Ht Ho. rewrite <- (insert_id σ t o Ht). eapply sim_quiet; eauto.
Qed.

(** A new object. *)
Lemma sim_new a a' σ p o :
  sim a σ -> store_wf a' -> quiet (fun _ => False) a a' -> a_objs a !! p = None ->
  obj_new a' σ p o -> sim a' (<[p := o]> σ).
Proof.
  intros Hsim Hs' Hq Hp [Ho Hown]. apply (sim_update a a' σ p o Hsim Hs'); auto.
  - eapply keeps_mono; [|exact (q_keeps _ _ _ Hq)]. contradiction.
  - intros q _ Hpr. exact (private_quiet _ _ _ _ Hpr Hq).
Qed.

Lemma sim_init limit : arena_align <= limit <= arena_max -> sim (arena_init limit) ∅.
Proof.
  intros Hl. split; [apply store_wf_init; exact Hl| |].
  - intros q o. rewrite lookup_empty. discriminate.
  - intros q v [o Hq]. rewrite lookup_empty in Hq. discriminate.
Qed.

(** ** The keys and values of a map *)

(** The bytes a view of a string of the store points to. *)
Lemma string_at_sim a σ data size k :
  sim a σ -> string_at σ data size = Some k -> strview_bytes a data size = Ok k.
Proof.
  intros Hsim. unfold string_at, strview_bytes, mem_load. cbn [p_base p_off].
  destruct (size =? 0); [congruence|].
  destruct (σ !! data) as [[| | |bs]|] eqn:Hq; try discriminate.
  destruct (decide _) as [Hl|]; [|discriminate]. intros [= <-].
  destruct (sim_objs _ _ Hsim _ _ Hq) as (_ & ->). cbn [bind].
  rewrite load_bytes_Ok by (unfold in_bounds; lia). reflexivity.
Qed.

(** The key the machine resolves is the key the table is given. *)
Lemma tokey_sim a σ key ks k :
  sim a σ -> key_of σ ks key = Some k -> _upb_map_tokey a key ks = Ok k.
Proof.
  intros Hsim. unfold key_of, _upb_map_tokey. destruct (ks =? UPB_MAPTYPE_STRING).
  - destruct (str_val key) as [sv|]; [|discriminate]. cbn [bind].
    apply string_at_sim, Hsim.
  - destruct (prefix_bytes key ks); congruence.
Qed.

(** What [sim] says of a map of the store. *)
Lemma sim_map a σ map ks vs d :
  sim a σ -> σ !! map = Some (AMap ks vs d) ->
  exists m, map_wf a map m /\ map_key_size m = ks /\ map_val_size m = vs /\
            covered_widths ks vs /\ (forall e, map_entry m e -> entry_ok a m e) /\
            map_view a m = d.
Proof.
  intros Hsim Hq. destruct (sim_objs _ _ Hsim _ _ Hq) as (m & Hg & H).
  exists m. split; [exact (swf_maps _ (sim_store _ _ Hsim) _ _ Hg)|exact H].
Qed.

(** The value a binding of a map of the store is read as. *)
Lemma sim_map_value a m k v :
  st_wf (map_table m) -> 0 <= map_val_size m <= 8 ->
  (forall e, map_entry m e -> entry_ok a m e) ->
  contents (map_table m) !! k = Some v ->
  _upb_map_fromvalue a v (map_val_size m) = Ok (value_of a (map_val_size m) v).
Proof.
  intros Hwf Hvs Hok Hk. apply fromvalue_value; [exact Hvs|]. intros E.
  destruct (contents_entry m k v Hwf Hk) as (e & He & _ & <-). exact (proj1 (Hok e He) E).
Qed.

Lemma sim_array a σ arr lg2 l :
  sim a σ -> σ !! arr = Some (AArr lg2 l) ->
  exists hdr, array_wf a arr hdr /\ array_lg2 hdr = lg2 /\ array_elems a arr = Ok l /\
              Z.of_nat (length l) = arr_len hdr /\ arr_len hdr < 2 ^ 58.
Proof.
  intros Hsim Hq. destruct (sim_objs _ _ Hsim _ _ Hq) as (hdr & Hg & Hl & He).
  pose proof (swf_arrays _ (sim_store _ _ Hsim) _ _ Hg) as Hwf.
  pose proof (awf_len _ _ _ Hwf). pose proof (store_array_small _ _ _ (sim_store _ _ Hsim) Hg).
  exists hdr. rewrite (array_elems_length _ _ _ Hwf _ He).
  split; [exact Hwf|]. split; [exact Hl|]. split; [exact He|]. lia.
Qed.

Lemma sim_msg a σ msg md r :
  sim a σ -> σ !! msg = Some (AMsg md r) ->
  layout_ok md /\ msg_wf a msg (layout_size (upb_msgdef_layout md)) /\
  private a msg /\ msg_record a msg md = r.
Proof. intros Hsim Hq. exact (sim_objs _ _ Hsim _ _ Hq). Qed.
