(* ===== verification/Exec.v ===== *)
(** * Exec: the abstract machine as a function

    The transition relation of [Model] leaves the result of an
    operation open; given the result, the next store is determined.
    This file writes that function ([astep_fun]): the store after an
    operation that returned a result, if the machine has such a step.
    It is the relation ([astep_fun_sound], [astep_fun_complete]), on
    traces as well ([asteps_fun]).  With a result the machine allows for
    an operation when it allows any ([result_of]), being enabled is
    decidable ([enabled_b]), and so is the premise of the refinement of
    programs along a run ([ops_enabled_b]): a program is checked by
    running it. *)

From Stdlib Require Import ZArith Lia List.
From coqutil Require Import Byte Word.LittleEndianList.
From stdpp Require Import base tactics list numbers gmap.
From S2P Require Import Prelude Layout Arena Array Table Map Msg Record Store Frame Api Typed.
From S2P Require Import Model Sim.

#[local] Open Scope Z_scope.

(** ** Decidable premises *)

#[export] Instance aobject_eq_dec : EqDecision aobject.
Proof. solve_decision. Defined.

#[export] Instance ret_eq_dec : EqDecision ret.
Proof. solve_decision. Defined.

#[export] Instance fresh_handle_dec (σ : astore) p : Decision (fresh_handle σ p).
Proof. unfold fresh_handle. apply _. Defined.

#[export] Instance handle_field_dec md f : Decision (handle_field md f).
Proof. unfold handle_field. apply _. Defined.

(** [Some x] when the premise holds. *)
Definition when {A} (P : Prop) `{Decision P} (x : A) : option A :=
  if decide P then Some x else None.

(** ** The machine as a function *)

(** What the machine answers to a read. *)
Definition answer (σ : astore) (q : query) : option ret :=
  match q with
  | query_msg_has msg f =>
      match σ !! msg with
      | Some (AMsg md r) =>
          when (f ∈ upb_msgdef_fields md /\ presence (upb_fielddef_layout f) <> 0)
            (RBool (bool_decide (is_Some (r !! field_number f))))
      | _ => None
      end
  | query_msg_get msg f =>
      match σ !! msg with
      | Some (AMsg md r) => when (f ∈ upb_msgdef_fields md) (RVal (rec_get f r))
      | _ => None
      end
  | query_array_size arr =>
      match σ !! arr with
      | Some (AArr lg2 l) => Some (RSize (Z.of_nat (length l)))
      | _ => None
      end
  | query_array_get arr i =>
      match σ !! arr with
      | Some (AArr lg2 l) => if decide (0 <= i) then RVal <$> l !! Z.to_nat i else None
      | _ => None
      end
  | query_map_size map =>
      match σ !! map with
      | Some (AMap ks vs d) => Some (RSize (Z.of_nat (size d)))
      | _ => None
      end
  | query_map_get map key =>
      match σ !! map with
      | Some (AMap ks vs d) => k ← key_of σ ks key; Some (RFound (d !! k))
      | _ => None
      end
  end.

(** The store after a call that returned [r]. *)
Definition astep_call (σ : astore) (c : call) (r : ret) : option astore :=
  match c, r with
  | call_msg_new md, RPtr p =>
      when (layout_ok md /\ fresh_handle σ p) (with_new p (AMsg md (rec_new md)) σ)
  | call_msg_set msg f val, RVoid =>
      match σ !! msg, msg_field_size f with
      | Some (AMsg md r), Ok sz =>
          when (f ∈ upb_msgdef_fields md /\ sz <= Z.of_nat (length val))
            (<[msg := AMsg md (rec_set md f (take (Z.to_nat sz) val) r)]> σ)
      | _, _ => None
      end
  | call_msg_mutable msg f, RPtr h =>
      match σ !! msg, new_object f with
      | Some (AMsg md r), Some o =>
          if decide (handle_field md f) then
            if decide (r !! field_number f = Some (le_split 8 h) /\ 0 < h < 2 ^ 64)
            then Some σ
            else when (r !! field_number f = Some (le_split 8 0) /\ fresh_handle σ h)
                   (with_new h o (<[msg := AMsg md (<[field_number f := le_split 8 h]> r)]> σ))
          else None
      | _, _ => None
      end
  | call_array_set arr i val, RVoid =>
      match σ !! arr with
      | Some (AArr lg2 l) =>
          when (0 <= i < Z.of_nat (length l) /\ Z.shiftl 1 lg2 <= Z.of_nat (length val))
            (<[arr := AArr lg2 (<[Z.to_nat i := elem_of_value lg2 val]> l)]> σ)
      | _ => None
      end
  | call_array_append arr val, RBool ok =>
      match σ !! arr with
      | Some (AArr lg2 l) =>
          when (Z.shiftl 1 lg2 <= Z.of_nat (length val))
            (if ok then <[arr := AArr lg2 (l ++ [elem_of_value lg2 val])]> σ else σ)
      | _ => None
      end
  | call_array_resize arr size, RBool ok =>
      match σ !! arr with
      | Some (AArr lg2 l) => when (size <= arena_max) σ
      | _ => None
      end
  | call_map_new kt vt, RPtr p =>
      match map_widths kt vt with
      | Some (ks, vs) =>
          when (covered_widths ks vs /\ fresh_handle σ p) (with_new p (AMap ks vs ∅) σ)
      | None => None
      end
  | call_map_set map key val, RBool ok =>
      match σ !! map with
      | Some (AMap ks vs d) =>
          k ← key_of σ ks key;
          when (map_value_width vs <= Z.of_nat (length val))
            (if ok then <[map := AMap ks vs (<[k := value_of_val vs val]> d)]> σ else σ)
      | _ => None
      end
  | call_map_delete map key, RBool b =>
      match σ !! map with
      | Some (AMap ks vs d) =>
          k ← key_of σ ks key;
          when (b = bool_decide (is_Some (d !! k))) (<[map := AMap ks vs (delete k d)]> σ)
      | _ => None
      end
  | _, _ => None
  end.

(** The store after an operation that returned [r], if the machine has
    a step with that result. *)
Definition astep_fun (σ : astore) (o : op) (r : ret) : option astore :=
  match o with
  | op_call c => astep_call σ c r
  | op_query q => when (answer σ q = Some r) σ
  | op_string bs =>
      match r with
      | RPtr p => when (fresh_handle σ p) (with_new p (AStr bs) σ)
      | _ => None
      end
  end.

(** The store after a trace. *)
Fixpoint asteps_fun (σ : astore) (tr : list (op * ret)) : option astore :=
  match tr with
  | [] => Some σ
  | (o, r) :: tr' => σ1 ← astep_fun σ o r; asteps_fun σ1 tr'
  end.

(** A result the machine allows for an operation, when it allows any:
    NULL from a constructor, [false] from a function that may fail, the
    handle the field holds from [upb_msg_mutable], the answer to a
    read. *)
Definition result_of (σ : astore) (o : op) : option ret :=
  match o with
  | op_call (call_msg_new _) | op_call (call_map_new _ _) | op_string _ => Some (RPtr 0)
  | op_call (call_msg_set _ _ _) | op_call (call_array_set _ _ _) => Some RVoid
  | op_call (call_array_append _ _) | op_call (call_array_resize _ _)
  | op_call (call_map_set _ _ _) => Some (RBool false)
  | op_call (call_msg_mutable msg f) =>
      match σ !! msg with
      | Some (AMsg md r) => bs ← r !! field_number f; Some (RPtr (dec_unsigned bs))
      | _ => None
      end
  | op_call (call_map_delete map key) =>
      match σ !! map with
      | Some (AMap ks vs d) =>
          k ← key_of σ ks key; Some (RBool (bool_decide (is_Some (d !! k))))
      | _ => None
      end
  | op_query q => answer σ q
  end.

(** The machine has a step for the operation. *)
Definition enabled_b (σ : astore) (o : op) : bool :=
  bool_decide (is_Some (r ← result_of σ o; astep_fun σ o r)).

(** Every operation of the program is enabled along its run on the
    arena. *)
Fixpoint ops_enabled_b (a : upb_arena) (σ : astore) (os : list op) : bool :=
  match os with
  | [] => true
  | o :: os' =>
      enabled_b σ o &&
      match perform a o with
      | Ok (r, a') =>
          match astep_fun σ o r with
          | Some σ' => ops_enabled_b a' σ' os'
          | None => true
          end
      | Err _ => true
      end
  end.

(** ** The function is the relation *)

Lemma when_Some {A} (P : Prop) `{Decision P} (x y : A) : when P x = Some y <-> P /\ x = y.
Proof. unfold when. destruct (decide P); split; intros; simplify_eq; intuition congruence. Qed.

Lemma when_True {A} (P : Prop) `{Decision P} (x : A) : P -> when P x = Some x.
Proof. intros HP. unfold when. rewrite decide_True by exact HP. reflexivity. Qed.

(** The handle a field holds is not NULL. *)
Lemma handle_not_null h : 0 < h < 2 ^ 64 -> le_split 8 h <> le_split 8 0.
Proof.
  intros Hh E. apply (f_equal dec_unsigned) in E.
  rewrite dec_unsigned_le_split in E by (unfold in_unsigned; lia).
  change (dec_unsigned (le_split 8 0)) with 0 in E. lia.
Qed.

(** Premises of a step from an equation of the function. *)
Ltac fun_inv :=
  repeat match goal with
    | H : when _ _ = Some _ |- _ => apply when_Some in H as [? ?]
    | H : _ <$> _ = Some _ |- _ => apply fmap_Some in H as (? & ? & ?)
    | H : _ ≫= _ = Some _ |- _ => apply bind_Some in H as (? & ? & ?)
    | H : _ /\ _ |- _ => destruct H
    | _ => case_match
    | _ => progress simplify_eq
    end.

(** The equation of the function from the premises of a step. *)
Ltac fun_run :=
  repeat match goal with
    | H : ?x = Some _ |- context [?x] => rewrite H
    | H : ?x = Ok _ |- context [?x] => rewrite H
    | |- context [decide ?P] => rewrite (decide_True (P := P)) by auto
    | |- when _ _ = Some _ => apply when_True; auto
    | _ => progress cbn [mbind option_bind fmap option_fmap option_map]
    end; try reflexivity.

Lemma answer_sound σ q r : answer σ q = Some r -> astep σ (op_query q) r σ.
Proof. destruct q; cbn [answer]; intros H; fun_inv; econstructor; eauto. Qed.

Lemma answer_complete σ q r σ' : astep σ (op_query q) r σ' -> answer σ q = Some r.
Proof. inversion 1; subst; cbn [answer]; fun_run. Qed.

Lemma astep_call_sound σ c r σ' : astep_call σ c r = Some σ' -> astep σ (op_call c) r σ'.
Proof.
  destruct c, r; cbn [astep_call]; intros H; try discriminate; fun_inv;
    try (econstructor; eauto; fail).
  - eapply (astep_array_append _ _ _ _ _ true); eauto.
  - eapply (astep_array_append _ _ _ _ _ false); eauto.
  - eapply (astep_map_set _ _ _ _ _ _ _ _ true); eauto.
  - eapply (astep_map_set _ _ _ _ _ _ _ _ false); eauto.
Qed.

Lemma astep_call_complete σ c r σ' : astep σ (op_call c) r σ' -> astep_call σ c r = Some σ'.
Proof.
  inversion 1; subst; cbn [astep_call]; fun_run.
  rewrite decide_False; [apply when_True; auto|].
  intros [E Hh]. apply (handle_not_null h Hh). congruence.
Qed.

(** The function is sound: a store it returns is a step of the
    machine. *)
Lemma astep_fun_sound σ o r σ' : astep_fun σ o r = Some σ' -> astep σ o r σ'.
Proof.
  destruct o as [c|q|bs]; cbn [astep_fun].
  - apply astep_call_sound.
  - intros [Ha <-]%when_Some. exact (answer_sound σ q r Ha).
  - destruct r; try discriminate. intros [Hp <-]%when_Some. constructor. exact Hp.
Qed.

(** The function is complete: it returns the store of every step. *)
Lemma astep_fun_complete σ o r σ' : astep σ o r σ' -> astep_fun σ o r = Some σ'.
Proof.
  intros H. destruct o as [c|q|bs]; cbn [astep_fun].
  - exact (astep_call_complete σ c r σ' H).
  - rewrite (astep_query σ q r σ' H). apply when_True. exact (answer_complete σ q r σ' H).
  - inversion H; subst. apply when_True. assumption.
Qed.

Lemma astep_fun_spec σ o r σ' : astep σ o r σ' <-> astep_fun σ o r = Some σ'.
Proof. split; [apply astep_fun_complete|apply astep_fun_sound]. Qed.

Lemma asteps_fun_spec tr : forall σ σ', asteps σ tr σ' <-> asteps_fun σ tr = Some σ'.
Proof.
  induction tr as [|[o r] tr IH]; intros σ σ'; cbn [asteps_fun].
  - split; [inversion 1; reflexivity|intros [= <-]; constructor].
  - rewrite bind_Some. split.
    + inversion 1; subst. eexists. rewrite <- astep_fun_spec, <- IH. eauto.
    + intros (σ1 & H1%astep_fun_spec & H2%IH). econstructor; eauto.
Qed.

(** ** Being enabled is decidable *)

(** NULL is a handle a constructor may return. *)
Lemma fresh_handle_null (σ : astore) : fresh_handle σ 0.
Proof. left. reflexivity. Qed.

(** The result of [result_of] is a result of the machine whenever the
    machine has one. *)
Lemma result_of_step σ o r σ' :
  astep σ o r σ' -> exists r0 σ0, result_of σ o = Some r0 /\ astep σ o r0 σ0.
Proof.
  intros H. pose proof H as H0. inversion H0; subst; cbn [result_of];
    try (apply answer_complete in H as ->; eauto using answer_sound; fail);
    repeat match goal with E : ?x = Some _ |- context [?x] => rewrite E end;
    cbn [mbind option_bind]; do 2 eexists; (split; [reflexivity|]);
    try rewrite dec_unsigned_le_split by (unfold in_unsigned; lia);
    try (exact H); eauto using astep, fresh_handle_null.
Qed.

Lemma enabled_b_spec σ o : enabled_b σ o = true <-> enabled σ o.
Proof.
  unfold enabled_b, enabled. rewrite bool_decide_eq_true. split.
  - intros [σ' (r & _ & H%astep_fun_sound)%bind_Some]. eauto.
  - intros (r & σ' & H). destruct (result_of_step σ o r σ' H) as (r0 & σ0 & -> & H0).
    cbn [mbind option_bind]. rewrite (astep_fun_complete _ _ _ _ H0). eauto.
Qed.

#[export] Instance enabled_dec σ o : Decision (enabled σ o) :=
  decision_of_bool _ (enabled_b σ o) (enabled_b_spec σ o).

(** A program checked along its run is enabled along its run. *)
Lemma ops_enabled_b_true os : forall a σ, ops_enabled_b a σ os = true -> ops_enabled a σ os.
Proof.
  induction os as [|o os IH]; intros a σ; cbn [ops_enabled_b ops_enabled]; [auto|].
  intros [He Hrest]%andb_true_iff. split; [apply enabled_b_spec; exact He|].
  intros r a' σ' Hp Hst%astep_fun_complete. rewrite Hp, Hst in Hrest. exact (IH _ _ Hrest).
Qed.

Lemma ops_enabled_b_complete os : forall a σ,
  ops_enabled a σ os -> ops_enabled_b a σ os = true.
Proof.
  induction os as [|o os IH]; intros a σ; cbn [ops_enabled_b ops_enabled]; [auto|].
  intros [He Hrest]. apply andb_true_iff. split; [apply enabled_b_spec; exact He|].
  destruct (perform a o) as [[r a']|]; [|reflexivity].
  destruct (astep_fun σ o r) as [σ'|] eqn:Hst; [|reflexivity].
  apply astep_fun_sound in Hst. exact (IH _ _ (Hrest r a' σ' eq_refl Hst)).
Qed.

Lemma ops_enabled_b_spec a σ os : ops_enabled_b a σ os = true <-> ops_enabled a σ os.
Proof. split; [apply ops_enabled_b_true|apply ops_enabled_b_complete]. Qed.

#[export] Instance ops_enabled_dec a σ os : Decision (ops_enabled a σ os) :=
  decision_of_bool _ (ops_enabled_b a σ os) (ops_enabled_b_spec a σ os).
