(* ===== verification/Refine.v ===== *)
(** * Refine: reflection.c implements the abstract machine

    The functions of reflection.c, run on the arena, behave as the
    machine of [Model] says, under the relation [sim] of [Sim].

    One lemma per function ([refine_*]) on the object the function is
    given, from the specifications of [Array], [Map] and [Record] and the
    frame of [Sim]: the function returns, the machine has a step with the
    result, and the relation holds afterwards.  The diagram
    ([perform_refines]) follows by cases on the rule that enables the
    operation, and its closure under sequences ([trace_refines]) by
    induction on the program.  Conversely a step of the machine with the
    result the function returned leads to a store that stands for the
    arena ([sim_step], by the determinism of the machine).  An operation
    the machine enables meets the contract of its function
    ([enabled_call_valid]), and two arenas that stand for one store
    answer a read alike ([reads_agree]).  The loop over the iterator of
    a map returns the bindings of the abstract map, the key of each
    resolved the way a lookup resolves it ([upb_map_entries_view],
    [entries_keyed], [map_view_entries]). *)

From Stdlib Require Import ZArith Lia List.
From coqutil Require Import Byte Word.LittleEndianList.
From stdpp Require Import base tactics list numbers gmap.
From S2P Require Import Prelude Layout Arena Array Table Map Msg Record Store Frame Api Typed.
From S2P Require Import Model Sim Exec.

#[local] Open Scope Z_scope.

(** ** An example program *)

(** The bytes of the string [key]. *)
Definition example_key : list byte := [Byte.x6b; Byte.x65; Byte.x79].

(** A message, its array with an element, a map from int32 to int32 with
    a binding that is read and deleted, a member of the oneof; then a
    map from strings to strings: a binding under the string at 192, read
    through a view of another string of the same bytes; at last the
    element of the array is overwritten and read after the array has
    made room for nine.  Every function of reflection.c but those of
    the iterator is called. *)
Definition example_ops : list op :=
  [ op_call (call_msg_new example_msgdef);
    op_call (call_msg_mutable 16 example_rep);
    op_call (call_array_append 80 (msgval_int32 1));
    op_query (query_array_get 80 0);
    op_call (call_map_new UPB_TYPE_INT32 UPB_TYPE_INT32);
    op_call (call_map_set 128 (msgval_int32 5) (msgval_int32 9));
    op_query (query_map_get 128 (msgval_int32 5));
    op_call (call_map_delete 128 (msgval_int32 5));
    op_call (call_msg_set 16 example_o1 (msgval_int32 7));
    op_query (query_msg_get 16 example_o1);
    op_query (query_msg_has 16 example_o1);
    op_string example_key;
    op_call (call_map_new UPB_TYPE_STRING UPB_TYPE_STRING);
    op_call (call_map_set 208 (msgval_str 192 3) (msgval_str 192 2));
    op_string example_key;
    op_query (query_map_get 208 (msgval_str 288 3));
    op_query (query_map_size 208);
    op_call (call_array_set 80 0 (msgval_int32 99));
    op_call (call_array_resize 80 9);
    op_query (query_array_size 80);
    op_query (query_array_get 80 0) ].

(** The arena after the first six operations and the store that stands
    for it. *)
Definition example_arena : upb_arena :=
  match trace (arena_init 4096) (take 6 example_ops) with
  | Ok r => snd r
  | Err _ => arena_init 4096
  end.

Definition example_store : astore :=
  {[ 16 := AMsg example_msgdef (<[4 := le_split 8 80]> (rec_new example_msgdef));
     80 := AArr 2 [msgval_int32 1];
     128 := AMap 4 4 {[ msgval_int32 5 := msgval_int32 9 ]} ]}.

(** The binding an entry of a map stands for. *)
Definition entry_view (a : upb_arena) (vs : Z) (e : tabent) : list byte * list byte :=
  (te_key e, value_of a vs (te_val e)).

(** The key and the value the iterator returns at an entry: for a
    string key, a view of the table's own copy of the key. *)
Definition entry_read (a : upb_arena) (ks vs : Z) (e : tabent) : list byte * list byte :=
  (match _upb_map_fromkey e ks with Ok k => k | Err _ => [] end, value_of a vs (te_val e)).

(** A binding the iterator returned, its key resolved the way
    [upb_map_get] resolves the key it is given. *)
Definition entry_keyed (a : upb_arena) (ks : Z) (kv : list byte * list byte)
  : res (list byte * list byte) :=
  k <- _upb_map_tokey a (fst kv) ks ;; Ok (k, snd kv).

(** The arena after all the operations of [example_ops]. *)
Definition example_arena_end : upb_arena :=
  match trace (arena_init 4096) example_ops with
  | Ok r => snd r
  | Err _ => arena_init 4096
  end.

(** The store that stands for it: the record of the message with its
    oneof member set, the array, the int32 map emptied again, the two
    strings and the map from strings to strings; and the header of
    that map. *)
Definition example_store_end : astore :=
  {[ 16 := AMsg example_msgdef
             (rec_set example_msgdef example_o1 (msgval_int32 7)
                (<[4 := le_split 8 80]> (rec_new example_msgdef)));
     80 := AArr 2 [msgval_int32 99];
     128 := AMap 4 4 ∅;
     192 := AStr example_key;
     208 := AMap 0 0 {[ example_key := msgval_str 192 2 ]};
     288 := AStr example_key ]}.

Definition example_store_map_end : upb_map strtable :=
  match get_map example_arena_end 208 with
  | Ok m => m
  | Err _ => {| map_key_size := 0; map_val_size := 0; map_table := [] |}
  end.

(** ** The reads *)

Lemma refine_query a σ q r σ' :
  sim a σ -> astep σ (op_query q) r σ' -> ask a q = Ok r.
Proof.
  intros Hsim Hstep. inversion Hstep; subst; cbn [ask];
    rename select (σ' !! _ = Some _) into Hq.
  - destruct (sim_msg _ _ _ _ _ Hsim Hq) as (Hok & Hmsg & _ & <-).
    rewrite (upb_msg_has_record a msg md Hok Hmsg f) by assumption. reflexivity.
  - destruct (sim_msg _ _ _ _ _ Hsim Hq) as (Hok & Hmsg & _ & <-).
    rewrite (upb_msg_get_record a msg md Hok Hmsg f) by assumption. reflexivity.
  - destruct (sim_array _ _ _ _ _ Hsim Hq) as (hdr & Hwf & _ & He & _).
    rewrite (upb_array_size_spec a arr hdr l Hwf He). reflexivity.
  - destruct (sim_array _ _ _ _ _ Hsim Hq) as (hdr & Hwf & _ & He & _).
    rewrite (upb_array_get_spec a arr hdr l i Hwf He) by assumption.
    rename select (l !! _ = Some _) into Hv. rewrite Hv. reflexivity.
  - destruct (sim_map _ _ _ _ _ _ Hsim Hq) as (m & Hm & _ & _ & _ & _ & <-).
    rewrite (upb_map_size_contents a map m Hm). unfold map_view.
    rewrite map_size_fmap. reflexivity.
  - destruct (sim_map _ _ _ _ _ _ Hsim Hq) as (m & Hm & <- & <- & [Hks Hvs] & Hvb & <-).
    rename select (key_of _ _ _ = Some _) into Hk.
    rewrite (upb_map_get_contents a map m Hm), (tokey_sim _ _ _ _ _ Hsim Hk). cbn [bind].
    unfold map_view. rewrite lookup_fmap.
    destruct (contents (map_table m) !! k) as [v|] eqn:Hc; [|reflexivity]. cbn.
    rewrite (sim_map_value a m k v (mwf_table _ _ _ Hm) Hvs Hvb Hc). reflexivity.
Qed.

(** ** The array functions *)

Lemma refine_array_set a σ arr lg2 l i val :
  sim a σ -> σ !! arr = Some (AArr lg2 l) -> 0 <= i < Z.of_nat (length l) ->
  Z.shiftl 1 lg2 <= Z.of_nat (length val) ->
  refines_at a σ (op_call (call_array_set arr i val)).
Proof.
  intros Hsim Hq Hi Hv. pose proof (sim_store _ _ Hsim) as Hs.
  destruct (sim_array _ _ _ _ _ Hsim Hq) as (hdr & Hwf & <- & He & Hlen & _).
  destruct (upb_array_set_spec a arr hdr l i val Hwf He) as (a' & Hset & Hwf' & He');
    [lia|exact Hv|].
  exists RVoid, a'. eexists. split; [cbn [perform exec]; rewrite Hset; reflexivity|].
  split; [econstructor; eassumption|].
  apply (sim_quiet a a' σ arr _ Hsim (upb_array_set_store a Hs arr i val a' Hset)).
  - exact (upb_array_set_quiet (eq arr) a arr i val a' Hs (proj1 Hi) eq_refl Hset).
  - eauto.
  - apply obj_sim_plain; [|exact I]. exists hdr.
    split; [exact (awf_hdr _ _ _ Hwf')|]. split; [reflexivity|exact He'].
Qed.

Lemma refine_array_append a σ arr lg2 l val :
  sim a σ -> σ !! arr = Some (AArr lg2 l) ->
  Z.shiftl 1 lg2 <= Z.of_nat (length val) ->
  refines_at a σ (op_call (call_array_append arr val)).
Proof.
  intros Hsim Hq Hv. pose proof (sim_store _ _ Hsim) as Hs.
  destruct (sim_array _ _ _ _ _ Hsim Hq) as (hdr & Hwf & <- & He & Hlen & Hsm).
  destruct (upb_array_append_spec a arr hdr l val (swf_arena _ Hs) Hwf He Hsm Hv)
    as (ok & a' & Happ & Hres).
  exists (RBool ok), a'. eexists. split; [cbn [perform exec]; rewrite Happ; reflexivity|].
  split; [econstructor; eassumption|].
  destruct ok; [|subst a'; exact Hsim].
  destruct Hres as (_ & (hdr' & Hwf' & _ & Hlg') & He').
  apply (sim_quiet a a' σ arr _ Hsim (upb_array_append_store a arr val (true, a') Hs Happ)).
  - exact (upb_array_append_quiet (eq arr) a arr val (true, a') Hs eq_refl Happ).
  - eauto.
  - apply obj_sim_plain; [|exact I]. exists hdr'.
    split; [exact (awf_hdr _ _ _ Hwf')|]. split; [exact Hlg'|exact He'].
Qed.

Lemma refine_array_resize a σ arr lg2 l size :
  sim a σ -> σ !! arr = Some (AArr lg2 l) -> size <= arena_max ->
  refines_at a σ (op_call (call_array_resize arr size)).
Proof.
  intros Hsim Hq Hsz. pose proof (sim_store _ _ Hsim) as Hs.
  destruct (sim_array _ _ _ _ _ Hsim Hq) as (hdr & Hwf & <- & He & _).
  destruct (upb_array_realloc_spec a arr hdr size (swf_arena _ Hs) Hwf Hsz)
    as (ok & a' & Hr & Hres).
  exists (RBool ok), a', σ.
  split; [cbn [perform exec]; unfold upb_array_resize; rewrite Hr; reflexivity|].
  split; [econstructor; eassumption|].
  destruct ok; [|subst a'; exact Hsim].
  destruct Hres as (_ & hdr' & Hwf' & _ & Hlg' & _ & He').
  apply (sim_same a a' σ arr _ Hsim (upb_array_resize_store a arr size (true, a') Hs Hsz Hr)
           (upb_array_realloc_quiet (eq arr) a arr size (true, a') (swf_arena _ Hs) eq_refl Hr)
           Hq).
  apply obj_sim_plain; [|exact I]. exists hdr'.
  split; [exact (awf_hdr _ _ _ Hwf')|]. split; [exact Hlg'|congruence].
Qed.

(** ** The map functions *)

(** A handle returned by an allocation is a handle the machine may
    return. *)
Lemma malloc_fresh_handle a σ n o p a' :
  sim a σ -> upb_arena_malloc a n o = (p, a') -> fresh_handle σ p.
Proof.
  intros Hsim Hm. destruct (Z.eq_dec p 0) as [->|Hp]; [left; reflexivity|right].
  apply (sim_fresh a σ p Hsim).
  exact (malloc_fresh _ _ _ _ _ (swf_arena _ (sim_store _ _ Hsim)) Hm Hp).
Qed.

(** The blocks of an entry and the bindings of a map after an update
    that writes into buffers only. *)
Lemma entry_ok_quiet W a a' m e : quiet W a a' -> entry_ok a m e -> entry_ok a' m e.
Proof.
  intros Hq. apply entry_ok_keep. intros p _ Hp. exact (private_quiet _ _ _ _ Hp Hq).
Qed.

Lemma map_view_quiet W a a' (m : upb_map strtable) :
  quiet W a a' -> st_wf (map_table m) -> (forall e, map_entry m e -> entry_ok a m e) ->
  map_view a' m = map_view a m.
Proof.
  intros Hq Hwf Hok. apply map_view_keep; [exact Hwf|exact Hok|].
  intros e p _ _ Hp. exact (proj2 (private_quiet _ _ _ _ Hp Hq)).
Qed.

(** The map at [map] after one of its functions: its header is [m'], of
    the widths it had, and an entry is one it had, or its blocks are
    new. *)
Lemma obj_new_map a a' σ map ks vs d m t' :
  sim a σ -> σ !! map = Some (AMap ks vs d) -> quiet (eq map) a a' ->
  get_map a map = Ok m -> get_map a' map = Ok (with_table m t') ->
  (forall e, map_entry (with_table m t') e ->
             map_entry m e \/
             (forall p, entry_owns m e p -> a_objs a !! p = None) /\ entry_ok a' m e) ->
  obj_new a' σ map (AMap ks vs (map_view a' (with_table m t'))).
Proof.
  intros Hsim Hq Hqt Hg Hg' Hents.
  destruct (sim_objs _ _ Hsim _ _ Hq) as (m0 & Hg0 & Eks & Evs & Hw & Hok & _).
  assert (m0 = m) as -> by congruence. split.
  - exists (with_table m t'). do 4 (split; [assumption|]). split; [|reflexivity].
    intros e [He|[_ He]]%Hents; [|exact He]. exact (entry_ok_quiet _ _ _ _ _ Hqt (Hok e He)).
  - intros p (m1 & e & Hg1 & He & Hp). assert (m1 = with_table m t') as -> by congruence.
    destruct (Hents e He) as [Hold|[Hnew _]]; [|exact (sim_fresh a σ p Hsim (Hnew p Hp))].
    apply (sim_owned _ _ Hsim map p (mk_is_Some _ _ Hq)). exists m, e. auto.
Qed.

(** The table value [_upb_map_tovalue] makes for a string is the address
    of a block it has just allocated for the view. *)
Lemma tovalue_block a val vs v a1 :
  store_wf a -> _upb_map_tovalue a val vs = Ok (v, a1) ->
  store_wf a1 /\ (forall p x, a_objs a !! p = Some x -> a_objs a1 !! p = Some x) /\
  (vs = UPB_MAPTYPE_STRING -> v <> 0 -> a_objs a !! v = None /\ val_block a1 v).
Proof.
  intros Hs Hto. pose proof (swf_arena _ Hs) as Ha. unfold _upb_map_tovalue in Hto.
  destruct (Z.eqb_spec vs UPB_MAPTYPE_STRING) as [E|E].
  - destruct (prefix_bytes val sizeof_strview) as [sv|] eqn:Hsv; [|discriminate].
    cbn [bind] in Hto. injection Hto as Hm. pose proof (prefix_bytes_length _ _ _ Hsv) as Hl.
    assert (Hfo : fresh_ok sizeof_strview (OBytes sv)) by (cbn; lia).
    split; [exact (store_wf_malloc a _ _ v a1 Hs Hfo Hm)|]. split.
    + intros p x. exact (malloc_lookup_old _ _ _ _ _ Ha Hm p x).
    + intros _ Hv. split; [exact (malloc_fresh _ _ _ _ _ Ha Hm Hv)|].
      pose proof (proj2 (get_bytes_Ok _ _ _) (malloc_lookup_new _ _ _ _ _ Hm Hv)) as Hb.
      split; [split; [eauto|exact (malloc_not_buffer a _ _ v a1 Hs Hfo Hm Hv)]|].
      exists sv. split; [exact Hb|]. unfold sizeof_strview in *. lia.
  - res_inv. split; [exact Hs|]. split; [auto|contradiction].
Qed.

(** The entry [upb_map_set] binds: its key is copied into a block of
    its own, and so is the view of a string value. *)
Lemma upb_map_set_entry a map m key val a' :
  store_wf a -> map_wf a map m -> upb_map_set a map key val = Ok (true, a') ->
  exists e, _upb_map_tokey a key (map_key_size m) = Ok (te_key e) /\
    get_map a' map = Ok (with_table m (st_insert (st_remove (map_table m) (te_key e)) e)) /\
    (forall p, entry_owns m e p -> a_objs a !! p = None) /\ entry_ok a' m e.
Proof.
  intros Hs Hm Hset.
  pose proof (proj1 (get_map_Ok _ _ _) (mwf_hdr _ _ _ Hm)) as Hobj.
  unfold upb_map_set in Hset. rewrite (mwf_hdr _ _ _ Hm) in Hset. cbn [bind] in Hset.
  unfold _upb_map_set in Hset.
  destruct (_upb_map_tokey _ _ _) as [k|]; [|discriminate]. cbn [bind] in Hset.
  destruct (_upb_map_tovalue a val (map_val_size m)) as [[v a1]|] eqn:Hto; [|discriminate].
  cbn [bind fst snd] in Hset. destruct (_ && _) eqn:Hc; [discriminate|].
  destruct (upb_arena_malloc a1 _ _) as [kaddr a2] eqn:Hm2. cbn [fst snd] in Hset.
  destruct (Z.eqb_spec kaddr 0) as [|Hk0]; [discriminate|].
  cbn [bind fst snd] in Hset. injection Hset as <-.
  destruct (tovalue_block a val _ v a1 Hs Hto) as (Hs1 & Hsub & Hval).
  pose proof (swf_arena _ Hs1) as Ha1.
  assert (Hfo : fresh_ok (Z.of_nat (length k) + 1) (OBytes k)) by (cbn; lia).
  set (e := {| te_key := k; te_addr := kaddr; te_val := v |}).
  assert (Hobj2 : a_objs a2 !! map = Some (OMap m)).
  { exact (malloc_lookup_old _ _ _ _ _ Ha1 Hm2 _ _ (Hsub _ _ Hobj)). }
  assert (Hq12 : quiet (eq map) a1 a2)
    by exact (quiet_malloc _ _ _ _ _ _ Ha1 Hm2 ltac:(discriminate)).
  assert (Hq2 : quiet (eq map) a2 (set_object a2 map (OMap (with_table m
                  (st_insert (st_remove (map_table m) k) e)))))
    by (eapply quiet_set_header; [exact Hobj2|discriminate|reflexivity|discriminate]).
  exists e. split; [reflexivity|]. split; [|split].
  - rewrite get_map_set_object, decide_True by reflexivity. reflexivity.
  - intros p [[E <-]|[E <-]]; cbn [te_val te_addr e].
    + apply Hval; [exact E|]. intros ->. rewrite E in Hc. discriminate.
    + pose proof (malloc_fresh _ _ _ _ _ Ha1 Hm2 Hk0) as Hf.
      destruct (a_objs a !! kaddr) as [x|] eqn:Hx; [|reflexivity].
      rewrite (Hsub _ _ Hx) in Hf. discriminate.
  - apply (entry_ok_quiet _ _ _ _ _ Hq2). split; intros E; cbn [te_val te_addr te_key e].
    + destruct (Hval E) as [_ Hb]; [intros ->; rewrite E in Hc; discriminate|].
      destruct Hb as [Hp Hb]. destruct (private_quiet _ _ _ _ Hp Hq12) as [Hp' Hb'].
      split; [exact Hp'|rewrite Hb'; exact Hb].
    + pose proof (proj2 (get_bytes_Ok _ _ _) (malloc_lookup_new _ _ _ _ _ Hm2 Hk0)) as Hb.
      split; [split; [eauto|]|exact Hb].
      exact (malloc_not_buffer a1 _ _ kaddr a2 Hs1 Hfo Hm2 Hk0).
Qed.

(** The table after [upb_map_delete]. *)
Lemma upb_map_delete_entry a map m key k b a' :
  get_map a map = Ok m -> _upb_map_tokey a key (map_key_size m) = Ok k ->
  upb_map_delete a map key = Ok (b, a') ->
  get_map a' map = Ok (with_table m (st_remove (map_table m) k)).
Proof.
  unfold upb_map_delete, _upb_map_delete. intros -> Hk. cbn [bind]. rewrite Hk.
  cbn [bind fst snd]. intros [= _ <-].
  rewrite get_map_set_object, decide_True by reflexivity. reflexivity.
Qed.

(** A new map. *)
Lemma obj_new_empty_map a σ p (m : upb_map strtable) :
  get_map a p = Ok m -> map_table m = [] ->
  covered_widths (map_key_size m) (map_val_size m) ->
  obj_new a σ p (AMap (map_key_size m) (map_val_size m) ∅).
Proof.
  intros Hg Ht Hw.
  assert (He : forall e, ~ map_entry m e).
  { intros e [i Hi]. rewrite Ht in Hi. cbn in Hi.
    destruct (0 <=? i); [rewrite lookup_nil in Hi|]; discriminate. }
  split.
  - exists m. do 4 (split; [done|]). split; [intros e H; destruct (He e H)|].
    unfold map_view. rewrite Ht. change (contents []) with (contents (st_empty : strtable)).
    rewrite contents_empty. apply fmap_empty.
  - intros v (m1 & e & Hg1 & H & _). assert (m1 = m) as -> by congruence. destruct (He e H).
Qed.

(** The map after [upb_map_set] has bound the key. *)
Lemma obj_new_map_set a a' σ map (m : upb_map strtable) key val k :
  sim a σ -> σ !! map = Some (AMap (map_key_size m) (map_val_size m) (map_view a m)) ->
  map_wf a map m -> _upb_map_tokey a key (map_key_size m) = Ok k ->
  upb_map_set a map key val = Ok (true, a') ->
  obj_new a' σ map
    (AMap (map_key_size m) (map_val_size m)
       (<[k := value_of_val (map_val_size m) val]> (map_view a m))).
Proof.
  intros Hsim Hq Hm Hk Hset. pose proof (sim_store _ _ Hsim) as Hs.
  pose proof (swf_arena _ Hs) as Ha. pose proof (mwf_table _ _ _ Hm) as Hwf.
  destruct (sim_map _ _ _ _ _ _ Hsim Hq) as (m0 & Hm0 & _ & _ & _ & Hok & _).
  assert (m0 = m) as -> by (pose proof (mwf_hdr _ _ _ Hm0); pose proof (mwf_hdr _ _ _ Hm);
                            congruence).
  pose proof (upb_map_set_quiet (eq map) a map key val (true, a') Ha eq_refl Hset) as Hqt.
  destruct (upb_map_set_contents a map m Ha Hm key val true a' Hset) as (k1 & v & Hk1 & Hc & Hfv).
  assert (k1 = k) as -> by congruence.
  destruct (upb_map_set_entry a map m key val a' Hs Hm Hset) as (e & Hke & Hg' & Hfresh & Hok').
  assert (te_key e = k) as Ek by congruence. rewrite Ek in Hg'.
  set (t' := st_insert (st_remove (map_table m) k) e) in *.
  unfold map_contents in Hc. rewrite Hg' in Hc.
  assert (Hc' : contents t' = <[k := v]> (contents (map_table m))) by (injection Hc; auto).
  assert (Hview : map_view a' (with_table m t') =
                  <[k := value_of_val (map_val_size m) val]> (map_view a m)).
  { unfold map_view at 1. cbn [map_val_size map_table with_table]. rewrite Hc', fmap_insert.
    f_equal; [unfold value_of, value_of_val; rewrite Hfv; reflexivity|].
    exact (map_view_quiet _ a a' m Hqt Hwf Hok). }
  rewrite <- Hview.
  apply (obj_new_map a a' σ map _ _ _ m t' Hsim Hq Hqt (mwf_hdr _ _ _ Hm) Hg').
  intros e' [i He']. cbn [map_table with_table] in He'.
  apply st_entry_insert in He' as [->|He']; [right; auto|left].
  exists i. exact (st_entry_remove _ _ _ _ He').
Qed.

(** The map after [upb_map_delete]. *)
Lemma obj_new_map_delete a a' σ map (m : upb_map strtable) key k b :
  sim a σ -> σ !! map = Some (AMap (map_key_size m) (map_val_size m) (map_view a m)) ->
  map_wf a map m -> _upb_map_tokey a key (map_key_size m) = Ok k ->
  upb_map_delete a map key = Ok (b, a') ->
  obj_new a' σ map (AMap (map_key_size m) (map_val_size m) (delete k (map_view a m))).
Proof.
  intros Hsim Hq Hm Hk Hdel. pose proof (sim_store _ _ Hsim) as Hs.
  pose proof (swf_arena _ Hs) as Ha. pose proof (mwf_table _ _ _ Hm) as Hwf.
  destruct (sim_map _ _ _ _ _ _ Hsim Hq) as (m0 & Hm0 & _ & _ & _ & Hok & _).
  assert (m0 = m) as -> by (pose proof (mwf_hdr _ _ _ Hm0); pose proof (mwf_hdr _ _ _ Hm);
                            congruence).
  pose proof (upb_map_delete_quiet (eq map) a map key (b, a') eq_refl Hdel) as Hqt.
  pose proof (upb_map_delete_entry a map m key k b a' (mwf_hdr _ _ _ Hm) Hk Hdel) as Hg'.
  destruct (upb_map_delete_contents a map m Ha Hm key b a' Hdel) as (k' & Hk' & Hc & _).
  assert (k' = k) as -> by congruence.
  set (t' := st_remove (map_table m) k) in *.
  unfold map_contents in Hc. rewrite Hg' in Hc.
  assert (Hc' : contents t' = delete k (contents (map_table m))) by (injection Hc; auto).
  assert (Hview : map_view a' (with_table m t') = delete k (map_view a m)).
  { unfold map_view at 1. cbn [map_val_size map_table with_table]. rewrite Hc', fmap_delete.
    f_equal. exact (map_view_quiet _ a a' m Hqt Hwf Hok). }
  rewrite <- Hview.
  apply (obj_new_map a a' σ map _ _ _ m t' Hsim Hq Hqt (mwf_hdr _ _ _ Hm) Hg').
  intros e' [i He']. left. exists i. exact (st_entry_remove _ _ _ _ He').
Qed.

Lemma refine_map_new a σ kt vt ks vs :
  sim a σ -> map_widths kt vt = Some (ks, vs) -> covered_widths ks vs ->
  refines_at a σ (op_call (call_map_new kt vt)).
Proof.
  intros Hsim Hw Hf. pose proof (sim_store _ _ Hsim) as Hs. pose proof (swf_arena _ Hs) as Ha.
  unfold map_widths in Hw.
  destruct (table_index _ (fieldtype_code kt)) as [ks'|] eqn:Ek; [|discriminate].
  destruct (table_index _ (fieldtype_code vt)) as [vs'|] eqn:Ev; [|discriminate].
  injection Hw as -> ->.
  assert (Hnew : upb_map_new a kt vt = Ok (_upb_map_new a ks vs))
    by (unfold upb_map_new; rewrite Ek, Ev; reflexivity).
  destruct (_upb_map_new a ks vs) as [p a'] eqn:Hm.
  exists (RPtr p), a'. eexists. split; [cbn [perform exec]; rewrite Hnew; reflexivity|].
  split; [econstructor; [unfold map_widths; rewrite Ek, Ev; reflexivity|exact Hf|]|].
  { exact (malloc_fresh_handle _ _ _ _ _ _ Hsim Hm). }
  destruct (Z.eq_dec p 0) as [->|Hp].
  { rewrite (malloc_null _ _ _ _ _ Ha Hm eq_refl). exact Hsim. }
  rewrite with_new_insert by exact Hp.
  apply (sim_new a a' σ p _ Hsim (upb_map_new_store a Hs kt vt (p, a') Hnew)
           (upb_map_new_quiet _ a kt vt (p, a') Ha Hnew)
           (malloc_fresh _ _ _ _ _ Ha Hm Hp)).
  exact (obj_new_empty_map a' σ p _ (proj2 (get_map_Ok _ _ _) (malloc_lookup_new _ _ _ _ _ Hm Hp))
           eq_refl Hf).
Qed.

Lemma refine_map_set a σ map ks vs d key val k :
  sim a σ -> σ !! map = Some (AMap ks vs d) -> key_of σ ks key = Some k ->
  map_value_width vs <= Z.of_nat (length val) ->
  refines_at a σ (op_call (call_map_set map key val)).
Proof.
  intros Hsim Hq Hk Hv. pose proof (tokey_sim a _ _ _ _ Hsim Hk) as Hk0.
  pose proof (sim_store _ _ Hsim) as Hs. pose proof (swf_arena _ Hs) as Ha.
  destruct (sim_map _ _ _ _ _ _ Hsim Hq) as (m & Hm & <- & <- & Hw & Hvb & <-).
  destruct (upb_map_set_total a map m key val k Hm Hk0 Hv) as ([ok a'] & Hset).
  exists (RBool ok), a'. eexists. split; [cbn [perform exec]; rewrite Hset; reflexivity|].
  split; [econstructor; eauto|].
  pose proof (upb_map_set_store a map key val (ok, a') Hs Hset) as Hs'.
  pose proof (upb_map_set_quiet (eq map) a map key val (ok, a') Ha eq_refl Hset) as Hqt.
  destruct ok.
  - apply (sim_quiet a a' σ map _ Hsim Hs' Hqt (mk_is_Some _ _ Hq)).
    exact (obj_new_map_set a a' σ map m key val k Hsim Hq Hm Hk0 Hset).
  - destruct (upb_map_set_spec a map m Ha Hm key val false a' Hset) as (_ & _ & Hm').
    apply (sim_same a a' σ map _ Hsim Hs' Hqt Hq).
    rewrite <- (map_view_quiet (eq map) a a' m Hqt (mwf_table _ _ _ Hm) Hvb).
    apply (obj_new_map a a' σ map _ _ _ m (map_table m) Hsim Hq Hqt (mwf_hdr _ _ _ Hm));
      [destruct m; exact (mwf_hdr _ _ _ Hm')|destruct m; auto].
Qed.

Lemma refine_map_delete a σ map ks vs d key k :
  sim a σ -> σ !! map = Some (AMap ks vs d) -> key_of σ ks key = Some k ->
  refines_at a σ (op_call (call_map_delete map key)).
Proof.
  intros Hsim Hq Hk. pose proof (tokey_sim a _ _ _ _ Hsim Hk) as Hk0.
  pose proof (sim_store _ _ Hsim) as Hs. pose proof (swf_arena _ Hs) as Ha.
  destruct (sim_map _ _ _ _ _ _ Hsim Hq) as (m & Hm & <- & <- & Hw & Hvb & <-).
  destruct (upb_map_delete_total a map m key k (mwf_hdr _ _ _ Hm) Hk0) as ([b a'] & Hdel).
  destruct (upb_map_delete_contents a map m Ha Hm key b a' Hdel) as (k' & Hk' & _ & Hb).
  assert (k' = k) as -> by congruence.
  exists (RBool b), a'. eexists. split; [cbn [perform exec]; rewrite Hdel; reflexivity|].
  split.
  - replace b with (bool_decide (is_Some (map_view a m !! k))); [econstructor; eassumption|].
    subst b. apply bool_decide_ext. unfold map_view. rewrite lookup_fmap, fmap_is_Some.
    reflexivity.
  - apply (sim_quiet a a' σ map _ Hsim (upb_map_delete_store a map key (b, a') Hs Hdel)
             (upb_map_delete_quiet (eq map) a map key (b, a') eq_refl Hdel)
             (mk_is_Some _ _ Hq)).
    exact (obj_new_map_delete a a' σ map m key k _ Hsim Hq Hm Hk0 Hdel).
Qed.

(** ** Strings *)

(** The bytes the caller puts into the arena are a string of the store. *)
Lemma refine_string a σ bs : sim a σ -> refines_at a σ (op_string bs).
Proof.
  intros Hsim. pose proof (sim_store _ _ Hsim) as Hs. pose proof (swf_arena _ Hs) as Ha.
  destruct (upb_arena_malloc a (Z.of_nat (length bs)) (OBytes bs)) as [p a'] eqn:Hm.
  assert (Hfo : fresh_ok (Z.of_nat (length bs)) (OBytes bs)) by (cbn; lia).
  exists (RPtr p), a'. eexists. split; [cbn [perform]; rewrite Hm; reflexivity|].
  split; [constructor; exact (malloc_fresh_handle _ _ _ _ _ _ Hsim Hm)|].
  destruct (Z.eq_dec p 0) as [->|Hp].
  { rewrite (malloc_null _ _ _ _ _ Ha Hm eq_refl). exact Hsim. }
  rewrite with_new_insert by exact Hp.
  pose proof (proj2 (get_bytes_Ok _ _ _) (malloc_lookup_new _ _ _ _ _ Hm Hp)) as Hb.
  apply (sim_new a a' σ p _ Hsim (store_wf_malloc a _ _ p a' Hs Hfo Hm)
           (quiet_malloc _ a _ _ p a' Ha Hm ltac:(discriminate))
           (malloc_fresh _ _ _ _ _ Ha Hm Hp)).
  apply obj_sim_plain; [|exact I]. split; [split; [eauto|]|exact Hb].
  exact (malloc_not_buffer a _ _ p a' Hs Hfo Hm Hp).
Qed.

(** ** The message functions *)

Lemma obj_sim_msg_new a md p a' :
  store_wf a -> layout_ok md -> upb_msg_new md a = (p, a') -> p <> 0 ->
  obj_sim a' p (AMsg md (rec_new md)).
Proof.
  intros Hs Hok Hnew Hp. pose proof (swf_arena _ Hs) as Ha.
  destruct (upb_msg_new_spec md a p a' Ha (lo_size _ Hok) Hnew) as (_ & _ & Hz).
  destruct (Hz Hp) as [Hb Hm].
  split; [exact Hok|]. split; [exact Hm|].
  split; [|exact (msg_record_new md a p a' Ha Hok Hnew Hp)].
  split; [eauto|]. exact (malloc_not_buffer a _ _ p a' Hs (upb_msg_new_fresh md) Hnew Hp).
Qed.

Lemma refine_msg_new a σ md :
  sim a σ -> layout_ok md -> refines_at a σ (op_call (call_msg_new md)).
Proof.
  intros Hsim Hok. pose proof (sim_store _ _ Hsim) as Hs. pose proof (swf_arena _ Hs) as Ha.
  destruct (upb_msg_new md a) as [p a'] eqn:Hnew.
  exists (RPtr p), a'. eexists. split; [cbn [perform exec]; rewrite Hnew; reflexivity|].
  split; [econstructor; [exact Hok|exact (malloc_fresh_handle _ _ _ _ _ _ Hsim Hnew)]|].
  destruct (Z.eq_dec p 0) as [->|Hp].
  { rewrite (malloc_null _ _ _ _ _ Ha Hnew eq_refl). exact Hsim. }
  rewrite with_new_insert by exact Hp.
  pose proof (upb_msg_new_store a Hs md) as Hs'.
  pose proof (upb_msg_new_quiet (fun _ => False) md a Ha) as Hq. rewrite Hnew in Hs', Hq.
  exact (sim_new a a' σ p _ Hsim Hs' Hq (malloc_fresh _ _ _ _ _ Ha Hnew Hp)
           (obj_sim_plain _ _ _ _ (obj_sim_msg_new a md p a' Hs Hok Hnew Hp) I)).
Qed.

(** A write into a message of the store. *)
Lemma sim_msg_set a σ msg md r f sz val a' :
  sim a σ -> σ !! msg = Some (AMsg md r) -> f ∈ upb_msgdef_fields md ->
  msg_field_size f = Ok sz -> sz <= Z.of_nat (length val) ->
  upb_msg_set a msg f val = Ok a' ->
  sim a' (<[msg := AMsg md (rec_set md f (take (Z.to_nat sz) val) r)]> σ).
Proof.
  intros Hsim Hq Hin Hsz Hval Hset. pose proof (sim_store _ _ Hsim) as Hs.
  destruct (sim_msg _ _ _ _ _ Hsim Hq) as (Hok & Hmsg & Hpr & <-).
  destruct (lo_fields _ Hok f Hin) as (sz' & Hf).
  assert (sz' = sz) as -> by (pose proof (fwf_size _ _ _ Hf); congruence).
  assert (Ho : obj_sim a' msg (AMsg md (rec_set md f (take (Z.to_nat sz) val)
                                          (msg_record a msg md)))).
  { split; [exact Hok|].
    split; [exact (set_msg_wf a a' msg _ f sz val Hmsg Hf Hval Hset)|].
    split; [exact (proj1 (upb_msg_set_private a msg f val a' msg Hpr Hset))|].
    exact (msg_record_set a msg md Hok Hmsg f sz val a' Hin Hsz Hval Hset). }
  apply (sim_update a a' σ msg _ Hsim (upb_msg_set_store a Hs msg f val a' Hset));
    [|intros p Hne Hp|left; eauto|exact Ho|exact (proj2 (obj_sim_plain a' σ msg _ Ho I))].
  - exact (upb_msg_set_keeps (eq msg) a msg f val a' Hpr Hset).
  - destruct (upb_msg_set_private a msg f val a' p Hp Hset) as [Hp' Hk].
    split; [exact Hp'|apply Hk; congruence].
Qed.

Lemma refine_msg_set a σ msg md r f sz val :
  sim a σ -> σ !! msg = Some (AMsg md r) -> f ∈ upb_msgdef_fields md ->
  msg_field_size f = Ok sz -> sz <= Z.of_nat (length val) ->
  refines_at a σ (op_call (call_msg_set msg f val)).
Proof.
  intros Hsim Hq Hin Hsz Hval.
  destruct (sim_msg _ _ _ _ _ Hsim Hq) as (Hok & Hmsg & _).
  destruct (lo_fields _ Hok f Hin) as (sz' & Hf).
  assert (sz' = sz) as -> by (pose proof (fwf_size _ _ _ Hf); congruence).
  destruct (upb_msg_set_spec a msg _ f sz val Hmsg Hf Hval) as (a' & Hset & _).
  exists RVoid, a'. eexists. split; [cbn [perform exec]; rewrite Hset; reflexivity|].
  split; [econstructor; eassumption|]. eapply sim_msg_set; eauto.
Qed.

(** What [new_object] says of the field. *)
Lemma new_object_creatable f o : new_object f = Some o -> field_creatable f.
Proof.
  unfold new_object, is_container, container_kind, field_creatable.
  destruct (upb_fielddef_ismap f), (upb_fielddef_isseq f); cbn [orb]; try done;
    repeat case_match; try discriminate; intros _; eauto 6.
  split; [|eauto]. apply andb_true_iff in H0 as [? _]. assumption.
Qed.

Lemma container_kind_array f lg2 :
  container_kind f = Some (KArray lg2) ->
  upb_fielddef_ismap f = false /\ upb_fielddef_isseq f = true.
Proof. unfold container_kind. repeat case_match; try discriminate; auto. Qed.

Lemma container_kind_map f ks vs :
  container_kind f = Some (KMap ks vs) -> upb_fielddef_ismap f = true.
Proof. unfold container_kind. repeat case_match; try discriminate; auto. Qed.

(** The object [upb_msg_mutable] makes is the object the machine puts
    under the handle. *)
Lemma obj_sim_new_object a σ f h a1 o :
  store_wf a -> msg_new_subobject a f = Ok (h, a1) -> h <> 0 -> new_object f = Some o ->
  obj_new a1 σ h o.
Proof.
  intros Hs Hn Hh Ho. pose proof (swf_arena _ Hs) as Ha.
  pose proof (msg_new_subobject_kind a f h a1 Hn Hh) as Hk.
  pose proof (msg_new_subobject_spec a f h a1 Ha Hn Hh) as Hc.
  unfold new_object in Ho. destruct (is_container f).
  - destruct Hk as (k & Ek & Hkind). rewrite Ek in Ho.
    destruct k as [n|lg2|ks vs]; [discriminate| |].
    + injection Ho as <-. destruct (container_kind_array f lg2 Ek) as [Hm Hq].
      apply arena_kind_array_inv in Hkind as (hdr & Hg & Hl).
      apply obj_sim_plain; [|exact I]. exists hdr.
      split; [exact Hg|]. split; [exact Hl|]. exact (proj2 (created_array_size a1 f h Hc Hm Hq)).
    + destruct (decide (covered_widths ks vs)) as [Hw|]; [|discriminate]. injection Ho as <-.
      unfold created in Hc. rewrite (container_kind_map f ks vs Ek) in Hc.
      destruct Hc as (ks' & vs' & Hg). pose proof (arena_kind_map _ _ _ Hg) as Hkind'.
      rewrite Hkind in Hkind'. injection Hkind' as -> ->.
      exact (obj_new_empty_map a1 σ h _ Hg eq_refl Hw).
  - destruct Hk as (sub & Es & Hnew). rewrite Es in Ho.
    destruct (upb_fielddef_issubmsg f && layout_ok_b sub) eqn:E; [|discriminate].
    injection Ho as <-. apply andb_true_iff in E as [_ Hl%layout_ok_b_true].
    exact (obj_sim_plain _ _ _ _ (obj_sim_msg_new a sub h a1 Hs Hl Hnew Hh) I).
Qed.

(** The store after [upb_msg_mutable] has made an object and stored its
    handle. *)
Lemma sim_msg_mutable_new a σ msg md r f o h a1 a' :
  sim a σ -> σ !! msg = Some (AMsg md r) -> handle_field md f -> new_object f = Some o ->
  msg_new_subobject a f = Ok (h, a1) -> upb_msg_set a1 msg f (le_split 8 h) = Ok a' ->
  fresh_handle σ h /\
  sim a' (with_new h o (<[msg := AMsg md (<[field_number f := le_split 8 h]> r)]> σ)).
Proof.
  intros Hsim Hq (Hin & Hsz & Hone) Ho Hn Hset.
  pose proof (sim_store _ _ Hsim) as Hs. pose proof (swf_arena _ Hs) as Ha.
  destruct (msg_new_subobject_fresh _ _ _ Hn) as (k & ob & Hob & Hm).
  split; [exact (malloc_fresh_handle _ _ _ _ _ _ Hsim Hm)|].
  assert (Hval : sizeof_ptr <= Z.of_nat (length (le_split 8 h)))
    by (rewrite length_le_split; cbv; discriminate).
  assert (Hrs : rec_set md f (take (Z.to_nat sizeof_ptr) (le_split 8 h)) r =
                <[field_number f := le_split 8 h]> r)
    by (unfold rec_set; rewrite Hone, take_ge by (rewrite length_le_split; cbv; lia);
        reflexivity).
  rewrite <- Hrs. destruct (Z.eq_dec h 0) as [->|Hh].
  { rewrite (malloc_null _ _ _ _ _ Ha Hm eq_refl) in Hset. eapply sim_msg_set; eauto. }
  rewrite with_new_insert by exact Hh.
  assert (Hfr : σ !! h = None)
    by (apply (sim_fresh a σ h Hsim); exact (malloc_fresh _ _ _ _ _ Ha Hm Hh)).
  assert (Hsim1 : sim a1 (<[h := o]> σ)).
  { apply (sim_new a a1 σ h o Hsim (store_wf_malloc a k ob h a1 Hs Hob Hm)
             (msg_new_subobject_quiet _ a f (h, a1) Ha Hn) (malloc_fresh _ _ _ _ _ Ha Hm Hh)).
    exact (obj_sim_new_object a σ f h a1 o Hs Hn Hh Ho). }
  rewrite insert_insert_ne by congruence.
  apply (sim_msg_set a1 (<[h := o]> σ) msg md r f _ _ a' Hsim1); auto.
  rewrite lookup_insert_ne by congruence. exact Hq.
Qed.

Lemma refine_msg_mutable a σ msg md r f o :
  sim a σ -> σ !! msg = Some (AMsg md r) -> handle_field md f -> new_object f = Some o ->
  refines_at a σ (op_call (call_msg_mutable msg f)).
Proof.
  intros Hsim Hq Hh Ho. pose proof Hh as (Hin & Hsz & Hone).
  pose proof (swf_arena _ (sim_store _ _ Hsim)) as Ha.
  destruct (sim_msg _ _ _ _ _ Hsim Hq) as (Hok & Hmsg & Hpr & Hr).
  destruct (lo_fields _ Hok f Hin) as (sz & Hf).
  assert (sz = sizeof_ptr) as -> by (pose proof (fwf_size _ _ _ Hf); congruence).
  destruct (upb_msg_mutable_total a msg _ f Ha Hmsg (fwf_offset _ _ _ Hf)
              (new_object_creatable f o Ho)) as ([h a'] & Hmut).
  assert (Hp : perform a (op_call (call_msg_mutable msg f)) = Ok (RPtr h, a'))
    by (cbn [perform exec]; rewrite Hmut; reflexivity).
  destruct (upb_msg_mutable_as_set a msg f h a' Hsz Hone Hmut)
    as (bs & Hl & [(Hd & Hnz & ->)|(Hz & a1 & Hn & Hset)]);
    pose proof (handle_entry a msg md f bs Hok Hmsg Hin Hsz Hone Hl) as He; rewrite Hr in He.
  - exists (RPtr h), a, σ. split; [exact Hp|]. split; [|exact Hsim].
    rewrite Hd in He. eapply astep_msg_mutable_old; eauto.
    destruct (msg_field_load a msg _ f _ Hmsg Hf) as (bs' & Hl' & Hlen).
    assert (bs' = bs) as -> by congruence. pose proof (dec_unsigned_range bs) as Hrg.
    unfold in_unsigned in Hrg. rewrite Hlen in Hrg. change (8 * sizeof_ptr) with 64 in Hrg.
    lia.
  - rewrite Hz in He.
    destruct (sim_msg_mutable_new a σ msg md r f o h a1 a' Hsim Hq Hh Ho Hn Hset) as [Hfr Hs'].
    exists (RPtr h), a'. eexists. split; [exact Hp|]. split; [|exact Hs'].
    eapply astep_msg_mutable_new; eauto.
Qed.

(** ** The iteration *)

(** A loop over a list of cursors, each of which holds an entry that is
    read as [g] says. *)
Lemma res_mapM_omap {A B C} (f : A -> option B) (h : A -> res C) (g : B -> C) l :
  (forall i, i ∈ l -> exists e, f i = Some e /\ h i = Ok (g e)) ->
  res_mapM h l = Ok (g <$> omap f l).
Proof.
  induction l as [|i l IH]; intros Hl; [reflexivity|]. cbn [res_mapM].
  destruct (Hl i ltac:(left)) as (e & He & ->).
  rewrite IH by (intros j Hj; apply Hl; right; exact Hj).
  change (omap f (i :: l)) with (match f i with Some y => y :: omap f l | None => omap f l end).
  rewrite He. reflexivity.
Qed.

Lemma omap_filter_Some {A B} (f : A -> option B) (l : list A) :
  omap f (filter (fun x => is_Some (f x)) l) = omap f l.
Proof.
  induction l as [|x l IH]; [reflexivity|]. rewrite filter_cons.
  change (omap f (x :: l)) with (match f x with Some y => y :: omap f l | None => omap f l end).
  destruct (f x) as [y|] eqn:E.
  - rewrite decide_True by eauto.
    change (omap f (x :: ?k)) with (match f x with Some y => y :: omap f k | None => omap f k end).
    rewrite E, IH. reflexivity.
  - rewrite decide_False by (intros [? ?]; discriminate). exact IH.
Qed.

Lemma res_mapM_fmap {A B C} (f : B -> res C) (g : A -> B) (h : A -> C) l :
  (forall x, x ∈ l -> f (g x) = Ok (h x)) -> res_mapM f (g <$> l) = Ok (h <$> l).
Proof.
  induction l as [|x l IH]; intros Hl; [reflexivity|]. rewrite !fmap_cons. cbn [res_mapM].
  rewrite (Hl x) by left. rewrite IH by (intros y Hy; apply Hl; right; exact Hy).
  reflexivity.
Qed.

(** The key the iterator returns at an entry is looked up as the key of
    the entry: a key of a fixed width is the key itself, and a string
    key is a view of the copy the entry owns. *)
Lemma entry_key_roundtrip a map m i e :
  store_wf a -> map_wf a map m -> st_entry (map_table m) i = Some e -> entry_ok a m e ->
  exists kv, _upb_map_fromkey e (map_key_size m) = Ok kv /\
             _upb_map_tokey a kv (map_key_size m) = Ok (te_key e).
Proof.
  intros Hs Hm He [_ Hkb].
  destruct (Z.eq_dec (map_key_size m) UPB_MAPTYPE_STRING) as [E|E];
    [|destruct (fixed_key_roundtrip a m map i e Hm E He); eauto].
  destruct (Hkb E) as [_ Hb]. pose proof (swf_blocks _ Hs _ _ Hb) as Hin.
  destruct (wf_objs _ (swf_arena _ Hs) _ _ (proj1 (get_bytes_Ok _ _ _) Hb)) as [Hp _].
  pose proof (wf_next_limit _ (swf_arena _ Hs)). pose proof (wf_limit _ (swf_arena _ Hs)).
  exists (msgval_str (te_addr e) (Z.of_nat (length (te_key e)))).
  unfold _upb_map_fromkey, _upb_map_tokey. rewrite E, Z.eqb_refl. split; [reflexivity|].
  rewrite str_val_msgval_str by (unfold in_unsigned; lia). cbn [bind fst snd].
  unfold strview_bytes, mem_load. cbn [p_base p_off].
  destruct (Z.eqb_spec (Z.of_nat (length (te_key e))) 0) as [E0|_].
  - destruct (te_key e); [reflexivity|discriminate].
  - rewrite Hb. cbn [bind]. apply load_bytes_all.
Qed.

(** The loop over the iterator reads the entries of the table, in slot
    order. *)
Lemma upb_map_entries_view a map m fuel :
  store_wf a -> map_wf a map m -> (forall e, map_entry m e -> entry_ok a m e) ->
  st_size (map_table m) < 2 ^ 64 - 1 -> (size (contents (map_table m)) < fuel)%nat ->
  upb_map_entries fuel a map UPB_MAP_BEGIN =
    Ok (entry_read a (map_key_size m) (map_val_size m) <$> st_entries (map_table m)).
Proof.
  intros Hs Hm Hvb Hsz Hf. pose proof (mwf_table _ _ _ Hm) as Hwf.
  pose proof (contents_size (map_table m) Hwf) as Hc.
  rewrite live_cursors_count in Hc.
  rewrite (upb_map_entries_spec a map m (mwf_hdr _ _ _ Hm) Hsz fuel UPB_MAP_BEGIN 0)
    by (reflexivity || unfold live_cursors in Hc; lia).
  unfold st_entries. rewrite <- (omap_filter_Some (st_entry (map_table m))).
  unfold cursors_from. rewrite Z.sub_0_r. apply res_mapM_omap.
  intros i [[e He] _]%list_elem_of_filter. exists e. split; [exact He|].
  pose proof (Hvb e (ex_intro _ i He)) as Hok.
  unfold upb_mapiter_entry, upb_mapiter_key, upb_mapiter_value, entry_read.
  rewrite (mwf_hdr _ _ _ Hm). cbn [bind]. rewrite He.
  destruct (entry_key_roundtrip a map m i e Hs Hm He Hok) as (kv & -> & _). cbn [bind].
  rewrite fromvalue_value; [reflexivity|exact (mwf_val _ _ _ Hm)|exact (proj1 Hok)].
Qed.

(** The keys the loop returned, resolved, are the keys of the entries. *)
Lemma entries_keyed a map m :
  store_wf a -> map_wf a map m -> (forall e, map_entry m e -> entry_ok a m e) ->
  res_mapM (entry_keyed a (map_key_size m))
    (entry_read a (map_key_size m) (map_val_size m) <$> st_entries (map_table m)) =
  Ok (entry_view a (map_val_size m) <$> st_entries (map_table m)).
Proof.
  intros Hs Hm Hvb. apply res_mapM_fmap. intros e [i He]%elem_of_st_entries.
  destruct (entry_key_roundtrip a map m i e Hs Hm He (Hvb e (ex_intro _ i He)))
    as (kv & Hf & Ht).
  unfold entry_keyed, entry_read, entry_view. rewrite Hf. cbn [bind fst snd]. rewrite Ht.
  reflexivity.
Qed.

(** The bindings of a map of the store, in the order of the table. *)
Lemma map_view_entries a (m : upb_map strtable) :
  st_wf (map_table m) ->
  map_to_list (map_view a m) ≡ₚ entry_view a (map_val_size m) <$> st_entries (map_table m).
Proof.
  intros Hwf. unfold map_view. rewrite map_to_list_fmap, (contents_entries _ Hwf).
  rewrite <- list_fmap_compose. reflexivity.
Qed.

(** The contract of [upb_msg_mutable] on a field of a message of the
    store. *)
Lemma handle_field_valid a σ msg md r f o :
  sim a σ -> σ !! msg = Some (AMsg md r) -> handle_field md f -> new_object f = Some o ->
  call_valid a (call_msg_mutable msg f).
Proof.
  intros Hsim Hq (Hin & Hsz & _) Ho. destruct (sim_msg _ _ _ _ _ Hsim Hq) as (Hok & Hmsg & _).
  destruct (lo_fields _ Hok f Hin) as (sz & Hf).
  assert (sz = sizeof_ptr) as -> by (pose proof (fwf_size _ _ _ Hf); congruence).
  exists (layout_size (upb_msgdef_layout md)). split; [exact Hmsg|].
  split; [exact (fwf_offset _ _ _ Hf)|exact (new_object_creatable f o Ho)].
Qed.

(** ** The diagram *)

(** An operation the machine has a step for returns on the arena, and
    the machine has the step with what it returns. *)
Lemma perform_refines a σ o : sim a σ -> enabled σ o -> refines_at a σ o.
Proof.
  intros Hsim (r & σ' & Hstep). destruct o as [c|q|bs]; [| |exact (refine_string a σ bs Hsim)].
  - inversion Hstep; subst;
      eauto using refine_msg_new, refine_msg_set, refine_msg_mutable, refine_array_set,
        refine_array_append, refine_array_resize, refine_map_new, refine_map_set,
        refine_map_delete.
  - pose proof (astep_query _ _ _ _ Hstep) as ->. exists r, a, σ.
    split; [cbn [perform]; rewrite (refine_query a σ q r σ Hsim Hstep); reflexivity|].
    split; [exact Hstep|exact Hsim].
Qed.

(** The same for what the operation is seen to return. *)
Lemma perform_simulates a σ o r a' :
  sim a σ -> enabled σ o -> perform a o = Ok (r, a') ->
  exists σ', astep σ o r σ' /\ sim a' σ'.
Proof.
  intros Hsim He Hp. destruct (perform_refines a σ o Hsim He) as (r1 & a1 & σ1 & Hp1 & H).
  rewrite Hp in Hp1. injection Hp1 as <- <-. eauto.
Qed.

(** The closure under sequences. *)
Lemma trace_refines os : forall a σ,
  sim a σ -> ops_enabled a σ os ->
  exists tr a' σ', trace a os = Ok (tr, a') /\ tr.*1 = os /\ asteps σ tr σ' /\ sim a' σ'.
Proof.
  induction os as [|o os IH]; intros a σ Hsim; cbn [ops_enabled trace].
  - intros _. exists [], a, σ. split; [reflexivity|]. split; [reflexivity|].
    split; [constructor|exact Hsim].
  - intros [He Hrest].
    destruct (perform_refines a σ o Hsim He) as (r & a1 & σ1 & Hp & Hst & Hs1).
    destruct (IH a1 σ1 Hs1 (Hrest r a1 σ1 Hp Hst)) as (tr & a' & σ' & Ht & Hos & Hsts & Hs').
    exists ((o, r) :: tr), a', σ'. rewrite Hp. cbn [bind fst snd]. rewrite Ht. cbn [bind fst snd].
    split; [reflexivity|]. split; [cbn; rewrite Hos; reflexivity|].
    split; [econstructor; eauto|exact Hs'].
Qed.

(** ** The contract *)

(** The premises of the machine are the contract of [Api]: a call the
    machine has a step for meets the contract of its function in every
    arena the store stands for. *)
Lemma enabled_call_valid a σ c : sim a σ -> enabled σ (op_call c) -> call_valid a c.
Proof.
  intros Hsim (r & σ' & Hstep). inversion Hstep; subst; cbn [call_valid]; try exact I;
    match goal with
    | H : _ !! _ = Some ?o |- _ => lazymatch type of o with aobject => rename H into Hq end
    end.
  - destruct (sim_msg _ _ _ _ _ Hsim Hq) as (Hok & Hmsg & _).
    destruct (lo_fields _ Hok f ltac:(assumption)) as (sz' & Hf).
    assert (sz' = sz) as -> by (pose proof (fwf_size _ _ _ Hf); congruence). eauto.
  - rename select (handle_field _ _) into Hh. rename select (new_object _ = _) into Ho.
    exact (handle_field_valid _ _ _ _ _ _ _ Hsim Hq Hh Ho).
  - rename select (handle_field _ _) into Hh. rename select (new_object _ = _) into Ho.
    exact (handle_field_valid _ _ _ _ _ _ _ Hsim Hq Hh Ho).
  - destruct (sim_array _ _ _ _ _ Hsim Hq) as (hdr & Hwf & <- & _ & Hlen & _).
    exists hdr. split; [exact (awf_hdr _ _ _ Hwf)|]. split; [lia|assumption].
  - destruct (sim_array _ _ _ _ _ Hsim Hq) as (hdr & Hwf & <- & _).
    exists hdr. split; [exact (awf_hdr _ _ _ Hwf)|assumption].
  - destruct (sim_array _ _ _ _ _ Hsim Hq) as (hdr & Hwf & _).
    split; [exists hdr; exact (awf_hdr _ _ _ Hwf)|assumption].
  - destruct (sim_map _ _ _ _ _ _ Hsim Hq) as (m & Hm & <- & <- & _).
    exists m, k. split; [exact (mwf_hdr _ _ _ Hm)|]. split; [|assumption].
    eapply tokey_sim; eauto.
  - destruct (sim_map _ _ _ _ _ _ Hsim Hq) as (m & Hm & <- & <- & _).
    exists m, k. split; [exact (mwf_hdr _ _ _ Hm)|]. eapply tokey_sim; eauto.
Qed.

(** ** What a caller can tell *)

(** Two arenas that the same store stands for answer every read of the
    machine alike: the capacity of an array, the slots of a table, the
    buffers left behind and the addresses of the blocks a map owns are
    not observed. *)
Lemma reads_agree a1 a2 σ q :
  sim a1 σ -> sim a2 σ -> enabled σ (op_query q) -> ask a1 q = ask a2 q.
Proof.
  intros H1 H2 (r & σ' & Hs).
  rewrite (refine_query _ _ _ _ _ H1 Hs), (refine_query _ _ _ _ _ H2 Hs). reflexivity.
Qed.

(** ** Preservation *)

(** A step of the machine with the result the operation returned leads
    to a store that stands for the arena the operation left. *)
Lemma sim_step a σ o r a' σ' :
  sim a σ -> perform a o = Ok (r, a') -> astep σ o r σ' -> sim a' σ'.
Proof.
  intros Hsim Hp Hst.
  destruct (perform_simulates a σ o r a' Hsim (ex_intro _ r (ex_intro _ σ' Hst)) Hp)
    as (σ1 & H1 & Hs1).
  rewrite (astep_det _ _ _ _ _ Hst H1). exact Hs1.
Qed.

Lemma trace_sim os : forall a σ tr a' σ',
  sim a σ -> trace a os = Ok (tr, a') -> asteps σ tr σ' -> sim a' σ'.
Proof.
  induction os as [|o os IH]; intros a σ tr a' σ' Hsim Ht Hsts; cbn [trace] in Ht.
  - injection Ht as <- <-. inversion Hsts; subst. exact Hsim.
  - destruct (perform a o) as [[r a1]|] eqn:Hp; [|discriminate]. cbn [bind fst snd] in Ht.
    destruct (trace a1 os) as [[t a2]|] eqn:Ht1; [|discriminate].
    cbn [bind fst snd] in Ht. injection Ht as <- <-. inversion Hsts; subst.
    eauto using sim_step.
Qed.

(** ** The example *)

(** The example is checked by running it: the program on the arena and
    the machine of [Exec] beside it. *)
Lemma example_ops_enabled : ops_enabled (arena_init 4096) ∅ example_ops.
Proof. apply ops_enabled_b_true. vm_compute. reflexivity. Qed.

Lemma example_sim : sim example_arena example_store.
Proof.
  apply (trace_sim (take 6 example_ops) (arena_init 4096) ∅
           [(op_call (call_msg_new example_msgdef), RPtr 16);
            (op_call (call_msg_mutable 16 example_rep), RPtr 80);
            (op_call (call_array_append 80 (msgval_int32 1)), RBool true);
            (op_query (query_array_get 80 0), RVal (msgval_int32 1));
            (op_call (call_map_new UPB_TYPE_INT32 UPB_TYPE_INT32), RPtr 128);
            (op_call (call_map_set 128 (msgval_int32 5) (msgval_int32 9)), RBool true)]).
  - apply sim_init. vm_compute. intuition congruence.
  - vm_compute. reflexivity.
  - apply asteps_fun_spec. vm_compute. reflexivity.
Qed.

(** The machine beside the whole example: the store its trace leads
    to. *)
Lemma example_trace_end :
  exists tr, trace (arena_init 4096) example_ops = Ok (tr, example_arena_end) /\
             asteps ∅ tr example_store_end.
Proof.
  destruct (trace (arena_init 4096) example_ops) as [[tr a]|] eqn:E;
    [|vm_compute in E; discriminate].
  exists tr. unfold example_arena_end. rewrite E. split; [reflexivity|].
  apply asteps_fun_spec. vm_compute in E. injection E as <- _. vm_compute. reflexivity.
Qed.

Lemma example_sim_end : sim example_arena_end example_store_end.
Proof.
  destruct example_trace_end as (tr & Ht & Hs).
  apply (trace_sim example_ops (arena_init 4096) ∅ tr _ _) with (2 := Ht) (3 := Hs).
  apply sim_init. vm_compute. intuition congruence.
Qed.

(** ** Properties *)

(** C5: forward simulation.  In an arena that a store of abstract
    objects stands for, every operation the abstract machine has a step
    for (a call of [upb_msg_new], [upb_msg_set], [upb_msg_mutable],
    [upb_array_set], [upb_array_append], [upb_array_resize],
    [upb_map_new], [upb_map_set], [upb_map_delete], a read, or the
    caller's allocation of a string) returns without a fault, the
    machine has a step with the result it returns, and the store after
    that step stands for the arena the operation left. *)
Theorem upb_call_simulates a σ o :
  sim a σ -> enabled σ o ->
  exists r a' σ', perform a o = Ok (r, a') /\ astep σ o r σ' /\ sim a' σ'.
Proof. exact (perform_refines a σ o). Qed.

Lemma upb_call_simulates_witness :
  exists r a' σ',
    perform example_arena (op_call (call_array_append 80 (msgval_int32 2))) = Ok (r, a') /\
    astep example_store (op_call (call_array_append 80 (msgval_int32 2))) r σ' /\ sim a' σ'.
Proof.
  apply (upb_call_simulates example_arena example_store
           (op_call (call_array_append 80 (msgval_int32 2)))).
  - exact example_sim.
  - apply enabled_b_spec. vm_compute. reflexivity.
Defined.

(** C6: trace refinement.  A program run from the empty arena, each of
    whose operations is enabled in the abstract store it is performed in,
    runs to its end without a fault; the results it returns, in order,
    are a trace of the abstract machine from the empty store, and the
    store at the end of that trace stands for the arena the program
    left. *)
Theorem upb_program_refines limit os :
  arena_align <= limit <= arena_max -> ops_enabled (arena_init limit) ∅ os ->
  exists tr a σ,
    trace (arena_init limit) os = Ok (tr, a) /\ tr.*1 = os /\ asteps ∅ tr σ /\ sim a σ.
Proof. intros Hl. exact (trace_refines os _ _ (sim_init limit Hl)). Qed.

Lemma upb_program_refines_witness :
  exists tr a σ,
    trace (arena_init 4096) example_ops = Ok (tr, a) /\ tr.*1 = example_ops /\
    asteps ∅ tr σ /\ sim a σ.
Proof.
  apply (upb_program_refines 4096 example_ops).
  - vm_compute. intuition congruence.
  - exact example_ops_enabled.
Defined.

(** The reads.  What [upb_msg_has], [upb_msg_get], [upb_array_size],
    [upb_array_get], [upb_map_size] and [upb_map_get] return on the arena
    is what the abstract store says: whether the record has the field,
    the bytes of the field or its default, the length of the list and its
    element, the size of the finite map and the binding of the key. *)
Theorem upb_query_refines a σ q r σ' :
  sim a σ -> astep σ (op_query q) r σ' -> ask a q = Ok r.
Proof. exact (refine_query a σ q r σ'). Qed.

Lemma upb_query_refines_witness :
  ask example_arena (query_array_get 80 0) = Ok (RVal (msgval_int32 1)).
Proof.
  apply (upb_query_refines example_arena example_store _ _ example_store).
  - exact example_sim.
  - apply astep_fun_sound. vm_compute. reflexivity.
Defined.

(** What the example program returns. *)
Example example_ops_trace :
  match trace (arena_init 4096) example_ops with
  | Ok r => (fst r).*2
  | Err _ => []
  end =
  [RPtr 16; RPtr 80; RBool true; RVal (msgval_int32 1); RPtr 128; RBool true;
   RFound (Some (msgval_int32 9)); RBool true; RVoid; RVal (msgval_int32 7); RBool true;
   RPtr 192; RPtr 208; RBool true; RPtr 288; RFound (Some (msgval_str 192 2)); RSize 1;
   RVoid; RBool true; RSize 1; RVal (msgval_int32 99)].
Proof. vm_compute. reflexivity. Qed.

(** C33: the iteration returns the bindings.  For a map of the store,
    the loop a caller writes over [upb_mapiter_next], [upb_mapiter_key]
    and [upb_mapiter_value] from [UPB_MAP_BEGIN] ends within as many
    rounds as the map has bindings, plus one; and the pairs it returns,
    each key resolved the way a lookup resolves it (a string key is a
    view of the table's copy of the key), are the bindings of the
    abstract map, each once, in some order. *)
Theorem upb_map_entries_refine a σ map ks vs d m fuel :
  sim a σ -> σ !! map = Some (AMap ks vs d) ->
  get_map a map = Ok m -> st_size (map_table m) < 2 ^ 64 - 1 -> (size d < fuel)%nat ->
  exists l l', upb_map_entries fuel a map UPB_MAP_BEGIN = Ok l /\
               res_mapM (entry_keyed a ks) l = Ok l' /\ l' ≡ₚ map_to_list d.
Proof.
  intros Hsim Hq Hg Hsz Hf. pose proof (sim_store _ _ Hsim) as Hs.
  destruct (sim_map _ _ _ _ _ _ Hsim Hq) as (m0 & Hm & <- & <- & _ & Hvb & <-).
  assert (m0 = m) as -> by (pose proof (mwf_hdr _ _ _ Hm); congruence).
  unfold map_view in Hf. rewrite map_size_fmap in Hf.
  exists (entry_read a (map_key_size m) (map_val_size m) <$> st_entries (map_table m)).
  exists (entry_view a (map_val_size m) <$> st_entries (map_table m)).
  split; [exact (upb_map_entries_view a map m fuel Hs Hm Hvb Hsz Hf)|].
  split; [exact (entries_keyed a map m Hs Hm Hvb)|].
  symmetry. exact (map_view_entries a m (mwf_table _ _ _ Hm)).
Qed.

Lemma upb_map_entries_refine_witness :
  exists l l', upb_map_entries 2 example_arena_end 208 UPB_MAP_BEGIN = Ok l /\
               res_mapM (entry_keyed example_arena_end 0) l = Ok l' /\
               l' ≡ₚ map_to_list ({[ example_key := msgval_str 192 2 ]} : gmap _ _).
Proof.
  apply (upb_map_entries_refine example_arena_end example_store_end 208 0 0 _
           example_store_map_end 2).
  - exact example_sim_end.
  - reflexivity.
  - vm_compute. reflexivity.
  - vm_compute. reflexivity.
  - vm_compute. lia.
Defined.

(** The iteration over the map from strings to strings at the end of
    [example_ops]: the key it returns is a view of the table's copy of
    the key, at 272, and resolves to the bytes of the key. *)
Example example_entries_string :
  upb_map_entries 2 example_arena_end 208 UPB_MAP_BEGIN =
    Ok [(msgval_str 272 3, msgval_str 192 2)] /\
  entry_keyed example_arena_end UPB_MAPTYPE_STRING (msgval_str 272 3, msgval_str 192 2) =
    Ok (example_key, msgval_str 192 2).
Proof. vm_compute. split; reflexivity. Qed.
