(* ===== verification/Ndebug.v ===== *)
(** * Ndebug: the build without assertions

    [UPB_ASSERT] is a check: a build with NDEBUG compiles it to nothing.
    The other files model the build that checks, where a failed assertion
    is the fault [AssertFailed].  This file translates the functions of
    reflection.c that hold an assertion, and the functions that call
    them, once more without it (suffix [_ndebug]), and relates the two
    builds: a call that returns in the checked build returns the same in
    the unchecked one, on calls, reads and whole programs; [upb_msg_get],
    [upb_msg_set] and [upb_array_append] are the same function in both,
    since what they call is guarded by the test the assertion repeats;
    and where a contract is broken the unchecked build goes on:
    [upb_msg_has] of a field without presence answers true, a read past
    the length of an array returns the bytes of the spare capacity. *)

From Stdlib Require Import ZArith Lia List.
From coqutil Require Import Byte Word.LittleEndianList.
From stdpp Require Import base tactics list numbers gmap.
From S2P Require Import Prelude Layout Arena Array Map Msg Store Api Model Sim Refine.

#[local] Open Scope Z_scope.

(** ** The record accessor *)

Definition oneofcase_ndebug (msg : Z) (field : upb_msglayout_field) : ptr :=
  PTR_AT msg (Z.lnot (presence field)).

Definition upb_msg_has_ndebug (a : upb_arena) (msg : Z) (f : upb_fielddef) : res bool :=
  let field := upb_fielddef_layout f in
  if in_oneof field then
    bs <- mem_load a (oneofcase_ndebug msg field) 4 ;;
    Ok (dec_unsigned bs =? number field)
  else
    let hasbit := wrap 32 (presence field) in
    bs <- mem_load a (PTR_AT msg (hasbit / 8)) 1 ;;
    Ok (negb (Z.lor (dec_signed bs) (Z.shiftl 1 (hasbit mod 8)) =? 0)).

Definition upb_msg_get_ndebug (a : upb_arena) (msg : Z) (f : upb_fielddef)
  : res (list byte) :=
  let field := upb_fielddef_layout f in
  let mem := PTR_AT msg (offset field) in
  present <- (if presence field =? 0 then Ok true else upb_msg_has_ndebug a msg f) ;;
  if present then
    size <- msg_field_size f ;;
    mem_load a mem size
  else Ok (msg_default f).

(** The creation of [upb_msg_mutable]: a field that is neither a map nor
    repeated is taken for a sub-message. *)
Definition msg_new_subobject_ndebug (a : upb_arena) (f : upb_fielddef)
  : res (Z * upb_arena) :=
  if upb_fielddef_ismap f then
    match upb_fielddef_msgsubdef f with
    | Some entry =>
        match upb_msgdef_itof entry UPB_MAPENTRY_KEY,
              upb_msgdef_itof entry UPB_MAPENTRY_VALUE with
        | Some key, Some value =>
            upb_map_new a (upb_fielddef_type key) (upb_fielddef_type value)
        | _, _ => Err BadPointer
        end
    | None => Err BadPointer
    end
  else if upb_fielddef_isseq f then
    upb_array_new a (upb_fielddef_type f)
  else
    match upb_fielddef_msgsubdef f with
    | Some m => Ok (upb_msg_new m a)
    | None => Err BadPointer
    end.

Definition upb_msg_mutable_ndebug (a : upb_arena) (msg : Z) (f : upb_fielddef)
  : res (Z * upb_arena) :=
  let field := upb_fielddef_layout f in
  let mem := PTR_AT msg (offset field) in
  bs <- mem_load a mem sizeof_ptr ;;
  let ret := dec_unsigned bs in
  if ret =? 0 then
    r <- msg_new_subobject_ndebug a f ;;
    a' <- mem_store (snd r) mem (le_split 8 (fst r)) ;;
    Ok (fst r, a')
  else Ok (ret, a).

Definition upb_msg_set_ndebug (a : upb_arena) (msg : Z) (f : upb_fielddef)
    (val : list byte) : res upb_arena :=
  let field := upb_fielddef_layout f in
  let mem := PTR_AT msg (offset field) in
  size <- msg_field_size f ;;
  bs <- prefix_bytes val size ;;
  a1 <- mem_store a mem bs ;;
  if in_oneof field then
    mem_store a1 (oneofcase_ndebug msg field) (le_split 4 (number field))
  else Ok a1.

(** ** The array *)

Definition upb_array_get_ndebug (a : upb_arena) (arr : Z) (i : Z) : res (list byte) :=
  hdr <- get_array a arr ;;
  let lg2 := array_lg2 hdr in
  mem_load a (array_elem_ptr hdr i) (Z.shiftl 1 lg2).

Definition upb_array_set_ndebug (a : upb_arena) (arr : Z) (i : Z) (val : list byte)
  : res upb_arena :=
  hdr <- get_array a arr ;;
  let lg2 := array_lg2 hdr in
  bs <- prefix_bytes val (Z.shiftl 1 lg2) ;;
  mem_store a (array_elem_ptr hdr i) bs.

Definition upb_array_append_ndebug (a : upb_arena) (arr : Z) (val : list byte)
  : res (bool * upb_arena) :=
  hdr <- get_array a arr ;;
  r <- _upb_array_realloc a arr (wrap 64 (arr_len hdr + 1)) ;;
  if negb (fst r) then Ok (false, snd r) else
  a2 <- array_len_incr (snd r) arr ;;
  hdr2 <- get_array a2 arr ;;
  a3 <- upb_array_set_ndebug a2 arr (wrap 64 (arr_len hdr2 - 1)) val ;;
  Ok (true, a3).

(** ** Calls, reads and programs *)

(** The functions without an assertion are the same in both builds. *)
Definition exec_ndebug (a : upb_arena) (c : call) : res (ret * upb_arena) :=
  match c with
  | call_msg_set msg f val => a' <- upb_msg_set_ndebug a msg f val ;; Ok (RVoid, a')
  | call_msg_mutable msg f => r <- upb_msg_mutable_ndebug a msg f ;; Ok (RPtr (fst r), snd r)
  | call_array_set arr i val => a' <- upb_array_set_ndebug a arr i val ;; Ok (RVoid, a')
  | call_array_append arr val =>
      r <- upb_array_append_ndebug a arr val ;; Ok (RBool (fst r), snd r)
  | _ => exec a c
  end.

Definition ask_ndebug (a : upb_arena) (q : query) : res ret :=
  match q with
  | query_msg_has msg f => b <- upb_msg_has_ndebug a msg f ;; Ok (RBool b)
  | query_msg_get msg f => v <- upb_msg_get_ndebug a msg f ;; Ok (RVal v)
  | query_array_get arr i => v <- upb_array_get_ndebug a arr i ;; Ok (RVal v)
  | _ => ask a q
  end.

Definition perform_ndebug (a : upb_arena) (o : op) : res (ret * upb_arena) :=
  match o with
  | op_call c => exec_ndebug a c
  | op_query q => r <- ask_ndebug a q ;; Ok (r, a)
  | op_string _ => perform a o
  end.

Fixpoint trace_ndebug (a : upb_arena) (os : list op) : res (list (op * ret) * upb_arena) :=
  match os with
  | [] => Ok ([], a)
  | o :: os' =>
      r <- perform_ndebug a o ;;
      t <- trace_ndebug (snd r) os' ;;
      Ok ((o, fst r) :: fst t, snd t)
  end.

(** ** Examples *)

(** A field without presence at offset 0 of the example message. *)
Definition example_plain : upb_fielddef := scalar_field 9 0 0 UPB_DESCRIPTOR_TYPE_INT32.

(** A result that is no failed assertion. *)
Definition no_assert {A} (r : res A) : Prop := r <> Err AssertFailed.

(** ** An assertion that holds is no step *)

Lemma assert_le {A} (c : bool) (k : res A) : res_le (assert! c ;; k) k.
Proof. intros v. destruct c; [trivial|discriminate]. Qed.

Lemma upb_msg_has_ndebug_eq a msg f :
  presence (upb_fielddef_layout f) <> 0 -> upb_msg_has_ndebug a msg f = upb_msg_has a msg f.
Proof.
  intros H. unfold upb_msg_has, upb_msg_has_ndebug, oneofcase.
  destruct (Z.eqb_spec (presence (upb_fielddef_layout f)) 0); [contradiction|]. cbn [negb].
  destruct (in_oneof _); reflexivity.
Qed.

Lemma upb_msg_has_ndebug_le a msg f :
  res_le (upb_msg_has a msg f) (upb_msg_has_ndebug a msg f).
Proof.
  destruct (Z.eq_dec (presence (upb_fielddef_layout f)) 0) as [E|E].
  - intros b. unfold upb_msg_has. rewrite E. discriminate.
  - rewrite upb_msg_has_ndebug_eq by exact E. reflexivity.
Qed.

(** [upb_msg_get] asks [upb_msg_has] only of a field with presence, and
    [upb_msg_set] asks for the case word only of a member of a oneof. *)
Lemma upb_msg_get_ndebug_eq a msg f : upb_msg_get_ndebug a msg f = upb_msg_get a msg f.
Proof.
  unfold upb_msg_get, upb_msg_get_ndebug.
  destruct (Z.eqb_spec (presence (upb_fielddef_layout f)) 0) as [E|E]; [reflexivity|].
  rewrite upb_msg_has_ndebug_eq by exact E. reflexivity.
Qed.

Lemma upb_msg_set_ndebug_eq a msg f val :
  upb_msg_set_ndebug a msg f val = upb_msg_set a msg f val.
Proof.
  unfold upb_msg_set, upb_msg_set_ndebug, oneofcase. destruct (in_oneof _); reflexivity.
Qed.

Lemma msg_new_subobject_ndebug_le a f :
  res_le (msg_new_subobject a f) (msg_new_subobject_ndebug a f).
Proof.
  unfold msg_new_subobject, msg_new_subobject_ndebug.
  destruct (upb_fielddef_ismap f); [reflexivity|].
  destruct (upb_fielddef_isseq f); [reflexivity|apply assert_le].
Qed.

Lemma upb_msg_mutable_ndebug_le a msg f :
  res_le (upb_msg_mutable a msg f) (upb_msg_mutable_ndebug a msg f).
Proof.
  unfold upb_msg_mutable, upb_msg_mutable_ndebug.
  apply res_le_bind; [reflexivity|]. intros bs. destruct (_ =? 0); [|reflexivity].
  apply res_le_bind; [apply msg_new_subobject_ndebug_le|reflexivity].
Qed.

Lemma upb_array_get_ndebug_le a arr i :
  res_le (upb_array_get a arr i) (upb_array_get_ndebug a arr i).
Proof.
  unfold upb_array_get, upb_array_get_ndebug.
  apply res_le_bind; [reflexivity|]. intros hdr. apply assert_le.
Qed.

Lemma upb_array_set_ndebug_le a arr i val :
  res_le (upb_array_set a arr i val) (upb_array_set_ndebug a arr i val).
Proof.
  unfold upb_array_set, upb_array_set_ndebug.
  apply res_le_bind; [reflexivity|]. intros hdr. apply assert_le.
Qed.

Lemma upb_array_append_ndebug_le a arr val :
  res_le (upb_array_append a arr val) (upb_array_append_ndebug a arr val).
Proof.
  unfold upb_array_append, upb_array_append_ndebug.
  apply res_le_bind; [reflexivity|]. intros hdr.
  apply res_le_bind; [reflexivity|]. intros r. destruct (negb (fst r)); [reflexivity|].
  apply res_le_bind; [reflexivity|]. intros a2.
  apply res_le_bind; [reflexivity|]. intros hdr2.
  apply res_le_bind; [apply upb_array_set_ndebug_le|reflexivity].
Qed.

(** ** Calls, reads and programs in the two builds *)

Lemma exec_ndebug_le a c : res_le (exec a c) (exec_ndebug a c).
Proof.
  destruct c; cbn [exec exec_ndebug]; try reflexivity.
  - rewrite upb_msg_set_ndebug_eq. reflexivity.
  - apply res_le_bind; [apply upb_msg_mutable_ndebug_le|reflexivity].
  - apply res_le_bind; [apply upb_array_set_ndebug_le|reflexivity].
  - apply res_le_bind; [apply upb_array_append_ndebug_le|reflexivity].
Qed.

Lemma ask_ndebug_le a q : res_le (ask a q) (ask_ndebug a q).
Proof.
  destruct q; cbn [ask ask_ndebug]; try reflexivity.
  - apply res_le_bind; [apply upb_msg_has_ndebug_le|reflexivity].
  - rewrite upb_msg_get_ndebug_eq. reflexivity.
  - apply res_le_bind; [apply upb_array_get_ndebug_le|reflexivity].
Qed.

Lemma perform_ndebug_le a o : res_le (perform a o) (perform_ndebug a o).
Proof.
  destruct o; cbn [perform perform_ndebug]; [apply exec_ndebug_le| |reflexivity].
  apply res_le_bind; [apply ask_ndebug_le|reflexivity].
Qed.

Lemma trace_ndebug_le os : forall a, res_le (trace a os) (trace_ndebug a os).
Proof.
  induction os as [|o os IH]; intros a; cbn [trace trace_ndebug]; [reflexivity|].
  apply res_le_bind; [apply perform_ndebug_le|]. intros r.
  apply res_le_bind; [apply IH|reflexivity].
Qed.

(** ** The append *)

(** The header after the reallocation holds the length it held. *)
Lemma upb_array_realloc_len a arr hdr m ok a1 :
  get_array a arr = Ok hdr -> _upb_array_realloc a arr m = Ok (ok, a1) ->
  exists hdr1, get_array a1 arr = Ok hdr1 /\ arr_len hdr1 = arr_len hdr.
Proof.
  intros Hg (hdr0 & Hg0 & H)%upb_array_realloc_inv. rewrite Hg in Hg0. injection Hg0 as <-.
  destruct H as [(_ & _ & ->)|(_ & n & _ & [(_ & ->)|(_ & bs & p & a2 & _ & _ & _ & ->)])];
    [eauto..|].
  eexists. rewrite get_array_set_object, decide_True by reflexivity. split; reflexivity.
Qed.

(** The index [len - 1] after [len++] is below the length: the assertion
    of [upb_array_set] holds whenever [upb_array_append] reaches it. *)
Lemma upb_array_append_ndebug_eq a arr hdr val :
  get_array a arr = Ok hdr -> 0 <= arr_len hdr < 2 ^ 64 - 1 ->
  upb_array_append_ndebug a arr val = upb_array_append a arr val.
Proof.
  intros Hg Hlen. unfold upb_array_append, upb_array_append_ndebug. rewrite Hg. cbn [bind].
  destruct (_upb_array_realloc _ _ _) as [[ok a1]|] eqn:Hr; [|reflexivity].
  cbn [bind fst snd]. destruct ok; [|reflexivity]. cbn [negb].
  destruct (upb_array_realloc_len _ _ _ _ _ _ Hg Hr) as (hdr1 & Hg1 & Hl1).
  unfold array_len_incr. rewrite Hg1. cbn [bind].
  rewrite get_array_set_object, decide_True by reflexivity. cbn [bind arr_len].
  unfold upb_array_set, upb_array_set_ndebug.
  rewrite get_array_set_object, decide_True by reflexivity. cbn [bind arr_len].
  rewrite Hl1, (wrap_small 64 (arr_len hdr + 1)) by (unfold in_unsigned; lia).
  rewrite wrap_small by (unfold in_unsigned; lia).
  destruct (Z.ltb_spec (arr_len hdr + 1 - 1) (arr_len hdr + 1)); [reflexivity|lia].
Qed.

(** ** No function fails an assertion of its own *)

Lemma no_assert_bind {A B} (m : res A) (k : A -> res B) :
  no_assert m -> (forall x, no_assert (k x)) -> no_assert (bind m k).
Proof. intros Hm Hk. destruct m; [apply Hk|]. intros [= ->]. apply Hm. reflexivity. Qed.

Lemma mem_load_no_assert a p n : no_assert (mem_load a p n).
Proof.
  unfold mem_load, get_bytes, load_bytes, no_assert.
  destruct (a_objs a !! p_base p) as [[]|]; cbn [bind]; try discriminate.
  case_decide; discriminate.
Qed.

Lemma mem_store_no_assert a p v : no_assert (mem_store a p v).
Proof.
  unfold mem_store, get_bytes, store_bytes, no_assert.
  destruct (a_objs a !! p_base p) as [[]|]; cbn [bind]; try discriminate.
  case_decide; discriminate.
Qed.

Lemma prefix_bytes_no_assert v n : no_assert (prefix_bytes v n).
Proof. unfold prefix_bytes, no_assert. case_decide; discriminate. Qed.

Lemma msg_field_size_no_assert f : no_assert (msg_field_size f).
Proof.
  unfold msg_field_size, table_index, no_assert.
  destruct (upb_fielddef_isseq f); [discriminate|].
  case_decide; [|discriminate]. destruct (_ !! _); discriminate.
Qed.

Lemma upb_msg_get_ndebug_no_assert a msg f : no_assert (upb_msg_get_ndebug a msg f).
Proof.
  unfold upb_msg_get_ndebug, upb_msg_has_ndebug. apply no_assert_bind.
  - destruct (_ =? 0); [discriminate|].
    destruct (in_oneof _); (apply no_assert_bind; [apply mem_load_no_assert|discriminate]).
  - intros [|]; [|discriminate].
    apply no_assert_bind; [apply msg_field_size_no_assert|intros; apply mem_load_no_assert].
Qed.

Lemma upb_msg_set_ndebug_no_assert a msg f val : no_assert (upb_msg_set_ndebug a msg f val).
Proof.
  unfold upb_msg_set_ndebug.
  apply no_assert_bind; [apply msg_field_size_no_assert|intros size].
  apply no_assert_bind; [apply prefix_bytes_no_assert|intros bs].
  apply no_assert_bind; [apply mem_store_no_assert|intros a1].
  destruct (in_oneof _); [apply mem_store_no_assert|discriminate].
Qed.

Lemma realloc_capacity_no_assert fuel : forall s m, no_assert (realloc_capacity fuel s m).
Proof.
  induction fuel as [|k IH]; intros s m; cbn [realloc_capacity];
    destruct (s <? m); try discriminate. apply IH.
Qed.

Lemma upb_arena_realloc_no_assert a p oldsize size :
  no_assert (upb_arena_realloc a p oldsize size).
Proof.
  unfold upb_arena_realloc. destruct (upb_arena_malloc _ _ _) as [q a1].
  destruct (q =? 0); [discriminate|]. destruct (oldsize =? 0); [discriminate|].
  apply no_assert_bind; [apply mem_load_no_assert|intros old].
  apply no_assert_bind; [apply mem_store_no_assert|discriminate].
Qed.

Lemma get_array_no_assert a p : no_assert (get_array a p).
Proof. unfold get_array, no_assert. destruct (a_objs a !! p) as [[]|]; discriminate. Qed.

Lemma upb_array_realloc_no_assert a arr m : no_assert (_upb_array_realloc a arr m).
Proof.
  unfold _upb_array_realloc. apply no_assert_bind; [apply get_array_no_assert|intros hdr].
  destruct (m <=? arr_size hdr); [discriminate|].
  apply no_assert_bind; [apply realloc_capacity_no_assert|intros n].
  apply no_assert_bind; [apply upb_arena_realloc_no_assert|intros r].
  destruct (fst r =? 0); discriminate.
Qed.

Lemma upb_array_append_ndebug_no_assert a arr val :
  no_assert (upb_array_append_ndebug a arr val).
Proof.
  unfold upb_array_append_ndebug, array_len_incr, upb_array_set_ndebug.
  apply no_assert_bind; [apply get_array_no_assert|intros hdr].
  apply no_assert_bind; [apply upb_array_realloc_no_assert|intros r].
  destruct (negb (fst r)); [discriminate|].
  apply no_assert_bind; [|intros a2].
  { apply no_assert_bind; [apply get_array_no_assert|discriminate]. }
  apply no_assert_bind; [apply get_array_no_assert|intros hdr2].
  apply no_assert_bind; [|discriminate].
  apply no_assert_bind; [apply get_array_no_assert|intros hdr3].
  apply no_assert_bind; [apply prefix_bytes_no_assert|intros; apply mem_store_no_assert].
Qed.

(** ** Where a contract is broken *)

(** In the unchecked build [upb_msg_has] of a field without presence
    reads the first byte of the message as its hasbit byte, and the
    [|] of the test makes the answer true. *)
Lemma upb_msg_has_ndebug_plain a msg n f :
  msg_wf a msg n -> 0 < n -> presence (upb_fielddef_layout f) = 0 ->
  upb_msg_has_ndebug a msg f = Ok true.
Proof.
  intros Hmsg Hn Hp. unfold upb_msg_has_ndebug, in_oneof. rewrite Hp.
  change (0 <? 0) with false. change (wrap 32 0) with 0.
  change (0 / 8) with 0. change (0 mod 8) with 0. cbv iota.
  destruct (msg_load_Ok a msg n 0 1 Hmsg) as (bs & -> & _); [lia..|]. cbn [bind].
  f_equal. apply negb_true_iff, Z.eqb_neq. apply (lor_bit_nonzero _ 0). lia.
Qed.

(** ** Properties *)

(** A program runs the same with and without the assertions: when the
    build that checks runs a program of calls, reads and allocations of
    strings to its end from any arena, the build without [UPB_ASSERT]
    runs it to its end with the same results in the same order and
    leaves the same arena.  The assertions stop runs; they never change
    one. *)
Theorem upb_trace_ndebug a os tr a' :
  trace a os = Ok (tr, a') -> trace_ndebug a os = Ok (tr, a').
Proof. apply trace_ndebug_le. Qed.

(** C26: the build without assertions implements the abstract machine
    too.  A program of calls, reads and allocations of strings run from
    the empty arena, each operation of which is enabled in the abstract
    store it is performed in, runs to its end in the build that compiles
    [UPB_ASSERT] out; the results it returns, in order, are a trace of
    the machine from the empty store, and the store at the end of the
    trace stands for the final arena: no run of the machine passes
    through a state in which an assertion would have been needed. *)
Theorem upb_program_ndebug limit os :
  arena_align <= limit <= arena_max -> ops_enabled (arena_init limit) ∅ os ->
  exists tr a σ,
    trace_ndebug (arena_init limit) os = Ok (tr, a) /\ tr.*1 = os /\ asteps ∅ tr σ /\ sim a σ.
Proof.
  intros Hl He.
  destruct (trace_refines os _ _ (sim_init limit Hl) He) as (tr & a & σ & Ht & H).
  exists tr, a, σ. split; [exact (trace_ndebug_le os _ _ Ht)|exact H].
Qed.

Lemma upb_program_ndebug_witness :
  exists tr a σ,
    trace_ndebug (arena_init 4096) example_ops = Ok (tr, a) /\ tr.*1 = example_ops /\
    asteps ∅ tr σ /\ sim a σ.
Proof.
  apply (upb_program_ndebug 4096 example_ops).
  - vm_compute. intuition congruence.
  - exact example_ops_enabled.
Defined.

(** C24: the accessor never fails an assertion of its own.  [upb_msg_get]
    calls [upb_msg_has] only behind the test [presence == 0 ||], and
    [upb_msg_set] calls [oneofcase] only behind [in_oneof]: on every
    arena, message, field and value, faulty ones included, each is the
    same function in the two builds and never returns [AssertFailed]. *)
Theorem upb_msg_accessor_ndebug a msg f val :
  upb_msg_get_ndebug a msg f = upb_msg_get a msg f /\
  upb_msg_set_ndebug a msg f val = upb_msg_set a msg f val /\
  upb_msg_get a msg f <> Err AssertFailed /\
  upb_msg_set a msg f val <> Err AssertFailed.
Proof.
  split; [apply upb_msg_get_ndebug_eq|]. split; [apply upb_msg_set_ndebug_eq|]. split.
  - rewrite <- upb_msg_get_ndebug_eq. apply upb_msg_get_ndebug_no_assert.
  - rewrite <- upb_msg_set_ndebug_eq. apply upb_msg_set_ndebug_no_assert.
Qed.

(** C25: [upb_array_append] meets the contract of [upb_array_set]: the
    index [len - 1] it writes at after [len++] is below the length, on
    any header whose length is not the last [size_t], so the append is
    the same function in the two builds and never returns
    [AssertFailed]. *)
Theorem upb_array_append_ndebug_same a arr hdr val :
  get_array a arr = Ok hdr -> 0 <= arr_len hdr < 2 ^ 64 - 1 ->
  upb_array_append_ndebug a arr val = upb_array_append a arr val /\
  upb_array_append a arr val <> Err AssertFailed.
Proof.
  intros Hg Hlen. pose proof (upb_array_append_ndebug_eq a arr hdr val Hg Hlen) as E.
  split; [exact E|]. rewrite <- E. apply upb_array_append_ndebug_no_assert.
Qed.

Lemma upb_array_append_ndebug_same_witness :
  upb_array_append_ndebug Array.example_arena example_arr (msgval_int32 4) =
    upb_array_append Array.example_arena example_arr (msgval_int32 4) /\
  upb_array_append Array.example_arena example_arr (msgval_int32 4) <> Err AssertFailed.
Proof.
  apply (upb_array_append_ndebug_same Array.example_arena example_arr example_hdr);
    [vm_compute; reflexivity|vm_compute; split; congruence].
Defined.

(** C27: a presence test on a field without presence.  The build that
    checks stops at the assertion of [upb_msg_has]; the build without
    it takes the presence 0 for the index of a hasbit, reads the first
    byte of the message and, the test being an or, answers true: the
    field counts as set, which is what the specification asks of a field
    without presence. *)
Theorem upb_msg_has_ndebug_untracked a msg n f :
  msg_wf a msg n -> 0 < n -> presence (upb_fielddef_layout f) = 0 ->
  upb_msg_has a msg f = Err AssertFailed /\ upb_msg_has_ndebug a msg f = Ok true.
Proof.
  intros Hmsg Hn Hp. split; [|exact (upb_msg_has_ndebug_plain a msg n f Hmsg Hn Hp)].
  unfold upb_msg_has. rewrite Hp. reflexivity.
Qed.

Lemma upb_msg_has_ndebug_untracked_witness :
  upb_msg_has (snd example_msg) (fst example_msg) example_plain = Err AssertFailed /\
  upb_msg_has_ndebug (snd example_msg) (fst example_msg) example_plain = Ok true.
Proof.
  apply (upb_msg_has_ndebug_untracked (snd example_msg) (fst example_msg) 8 example_plain);
    [apply msg_wf_b_true; vm_compute; reflexivity|lia|reflexivity].
Defined.

(** A read past the length: the build that checks stops; the build
    without assertions returns the spare slot of the buffer, and past
    the capacity the read leaves the block. *)
Example example_get_past_len :
  upb_array_get Array.example_arena example_arr 3 = Err AssertFailed /\
  upb_array_get_ndebug Array.example_arena example_arr 3 = Ok (zeros 4) /\
  upb_array_get_ndebug Array.example_arena example_arr 4 = Err OutOfBounds.
Proof. vm_compute. repeat split. Qed.
